(* ===== verification/_CoqProject ===== *)
-Q . S2P
Prelude.v
Bytes.v
Sha256.v
Sha256Spec.v
Sha256Words.v
Sha256Type.v
Sha256Tests.v
FileSys.v
External.v
Revocation.v
Config.v
Index.v
Demo.v
Fetch.v
FetchFiles.v
FetchPlan.v
FetchExec.v
IndexSafe.v
IndexSpec.v
IndexCheck.v
IndexWrite.v
IndexMem.v
IndexTheorems.v
RevokeTest.v
IndexTests.v
Collect.v
Ffi.v
OpenSsl.v
OpenSslSession.v
OpenSslTests.v
RustlsUpki.v
SimpleClient.v
Mirror.v
FetchDemo.v
FetchTheorems.v
FetchLive.v
Refresh.v
History.v
Concurrent.v
Cli.v
System.v
Integration.v
Agreement.v
