(* ===== verification/Prelude.v ===== *)
(** * upki in Rocq

    upki checks X.509 certificates for revocation against filters ("crlite") kept in
    a local cache.  This library models the Rust code of the repository as Rocq
    functions and proves what it promises.  File names below are under [src/].

    ** The program and its parts

    - [upki-mirror] publishes: it walks Mozilla's records, downloads the filters and
      writes them beside a manifest (names, sizes, SHA-256 hashes).
    - [upki/src/revocation/fetch.rs] synchronises a cache directory with a server's
      manifest: it plans (what is stale, what is unwanted), then downloads, builds
      [index.bin], saves the manifest and deletes.
    - [upki/src/revocation/index.rs] builds and reads [index.bin]: from a CT log id
      and a timestamp to the filters that cover them; [check] asks those filters.
    - [upki/src/revocation/mod.rs] has the data that goes around: manifest, input of a
      check made from a chain, status, errors.
    - [upki/src/sha256.rs] is the hash that all of them use.
    - [upki/src/lib.rs] finds and loads the configuration: where the cache is.
    - [upki/src/ffi.rs], [upki-openssl], [rustls-upki] and [upki-cli] are the ways in:
      a C interface, an OpenSSL callback over it, a rustls verifier, a command.
    - [revoke-test] collects the data of the system tests: [src/bin/fetch.rs] visits a
      site per root, [src/lib.rs] takes SCTs out of the chain it serves.

    ** Files

    - [Prelude]: results, effects as state passing, slices, tactics, hints.
    - [Bytes]: big-endian integers, byte order, UTF-8.
    - [Sha256]: [sha256.rs].  [Sha256Spec]: the hash of FIPS 180-4 (module [Fips]) and
      that the incremental code computes it.  [Sha256Words]: the word functions and
      the constants against their definitions in the standard.  [Sha256Type]: the
      invariant of a context.  [Sha256Tests]: the module's unit tests.
    - [FileSys]: paths, a file system with arbitrary refusals, temporary files.
    - [External]: the crates [webpki], [base64], [chrono], [clubcard_crlite] as classes.
    - [Revocation]: [mod.rs] but for [Manifest::from_config] and [verify], which use
      [fetch.rs] and are in [Fetch].  [Config]: [lib.rs].
    - [Index]: [index.rs].  [IndexSafe]: it never panics on any file.  [IndexSpec]:
      the two formats ([encode]) and reading them back.  [IndexCheck]: the reference
      answer ([reference_status]) and that the loops compute it.  [IndexWrite]: what
      [write] writes.  [IndexMem]: a check as a fold in memory.  [IndexTheorems]: the
      properties, with instances.  [IndexTests]: the unit tests of [index.rs] and the
      index writer they have of their own.
    - [Fetch]: [fetch.rs].  [FetchFiles]: hashing, atomic writes.  [FetchPlan]: plans.
      [FetchExec]: steps and sequences of steps as relations on file systems.
      [FetchTheorems]: the properties, with instances.  [FetchLive]: when a fetch
      succeeds.  [Refresh]: checks made by other processes while a fetch runs.
      [History]: a cache over many fetches, of which any may fail or be killed.
      [Concurrent]: fetches that run at the same time, step by step.
    - [Mirror]: the two programs of [upki-mirror] (modules [Crlite], [Intermediates]).
    - [Ffi], [OpenSsl], [RustlsUpki], [Cli], [RevokeTest]: the file of the like name.
      [RustlsUpki] also has the trait [ServerCertVerifier] as a class, of which the
      verifier is an instance; [SimpleClient] is the example that [rustls] drives
      through that class.  [Collect]: [revoke-test/src/bin/fetch.rs].
    - [OpenSslSession]: the programs that use [upki-openssl] with valid pointers, as a
      state machine over [Ffi] and [OpenSsl].  [OpenSslTests]: the unit tests of
      [upki-openssl/src/test.rs].
    - [System]: components composed: from the mirror's directory to a client's cache, and
      from one command to the next.  [Agreement]: the four ways to ask about a chain.
      [Integration]: [upki-cli/tests/integration.rs], evaluated on the data of the tests.
    - [Demo], [FetchDemo]: concrete instances of the interfaces for the witnesses.

    A Rust method [Type::name] is the definition [name], or one that says so in its
    comment; a loop body or a branch that deserves a lemma is a definition of its own
    ([visit_entry], [plan_files], [save_index]).  Fields keep their names.

    ** How state, errors and time are modelled

    A fallible call is a [Result] with three outcomes: a value, an error with the
    payload of the source's variant, or a panic.  Code that changes state is an [Eff]:
    the state it reached is kept when it fails, so that what a half-finished [fetch]
    leaves is in the model.  The state is the file system, an open file (its position
    moves), the network (any type, inside an interface) or, for the C interface, a heap
    of configurations in which a lookup that fails is undefined behaviour.

    Integers are [Z] with the wrap-around or the bound of their width written out where
    the code converts or adds ([as_u16], [as_u64], [download_bytes]); SHA-256's words
    are taken modulo [2 ^ 32].  Arithmetic is that of a release build.

    The file system may refuse any operation on any path, and a [read] may return any
    positive number of bytes; theorems hold for every such behaviour.  Where a theorem
    needs an operation to succeed, that is a hypothesis, or a run that succeeded.
    Directories are made one by one as [std] makes them: [create_dir_all] leaves those
    that it made before an error.  The sizes that [Index::from_cache] allocates are the
    state of [from_cache_run], so that they are known when it fails, too.

    ** What the theorems show

    - The index: writing, loading and checking gives the answer of asking every filter
      that covers an SCT ([write_then_check]), for both format versions
      ([either_version_answers]); no file makes the reader panic or allocate more than
      the file holds ([index_never_panics], [from_cache_alloc_bound]); the binary search
      ends and finds ([search_log_finds]); when [write] declines ([write_none_iff]), and
      that it does not when there are too many files ([write_count_wraps]).
      Formats, seeks and searches aside, a check is a fold over the index in memory
      ([check_is_fold]), which says which filter is asked when, and what an absent one
      does.  The unit tests pass for every builder of filters ([unit_tests_pass]), and
      their writer of indices and [write] agree byte for byte ([writers_agree]).
    - Synchronisation: a successful [fetch] leaves the manifest's contents and an index of
      them, or the old index if none can be built ([fetch_synchronises],
      [fetch_then_check]); on every outcome nothing outside the plan changes
      ([fetch_frame], [execute_all_refines]); writes are all or
      nothing ([atomic_write_all_or_nothing]); [verify] ([verify_spec],
      [synchronised_is_stable]).  A fetch does succeed when the server has what it
      announces and nothing is refused ([fetch_succeeds]); a directory in the cache
      that is named like a filter makes every one fail ([stale_directory_blocks]).
      While it runs, an index loaded at any step and asked at any later one answers as
      the old generation of filters or as the new one ([checks_during_fetch]): the order
      of the plan's steps and the filters it spares are what that takes.
    - Many fetches: wherever each of them stops, fails or is killed, the cache keeps an
      index that answers as one published manifest says ([cache_always_answers]), and
      the next fetch repairs what is wrong ([fetch_recovers]).  The first needs manifests
      whose files can be indexed ([publishable], a condition on the contents that the
      server has): from others, a fetch leaves an index that outlives its filters
      ([unindexed_fetch_strands_index]).  It also needs that a file with the hash of a
      published one is that file, where it is sent and in the cache at the start
      ([authentic], [genuine]).  Fetches of one manifest may also run at the same time,
      in any interleaving of their steps ([concurrent_fetches_answer]), if the server
      sends them the same contents ([honest]).
    - Components together: what [mozilla-crlite] published, a fetch from a server of its
      directory brings into the cache ([published_is_fetched]); after [upki fetch] exited
      with 0, the exit statuses of a check and of [upki verify] are those of the fetched
      filters, if they could be indexed ([fetch_then_exit]); the command, the C
      interface, rustls and OpenSSL agree on every chain ([four_ways_agree]).  The
      integration tests of the command are evaluated ([integration_tests_pass]).
    - SHA-256: any cut of the input gives the hash of the standard
      ([digest_from_fips]), with constants and word functions checked against it; a
      context keeps its type whatever it is fed ([context_well_typed]).
    - The ways in: what the rustls verifier accepts ([verify_accepts_iff]) and what no
      policy overrides; that the OpenSSL callback never turns a failure into a success
      and manages its configurations ([callback_sound], [set_config_ownership]); which
      orders of calls with valid pointers free one twice, use a freed one or leak one,
      and that the others do not ([session_safe], [openssl_tests_pass]); codes and
      lifetimes of the C interface; exit statuses and effects of the command; that the
      command and the C interface agree on every chain ([cli_ffi_agree]); and that the
      example client shows nothing but what came over a connection on which a chain
      was presented that the verifier accepts ([client_shows_verified]).
    - Publishing: what the mirrors write ([crlite_publishes], [intermediates_publish])
      and when the walk over the records ends ([walk_bound], [download_plan_chain]).
    - Inputs: SCT parsing, round trips and errors ([Revocation], [RevokeTest]); the
      collection of test data has what every site served, sorted
      ([collection_complete]).

    ** Fuel

    [search_log] runs with one more than the number of logs: each turn shrinks the
    interval.  [hash_loop] with one more than the length of the file: each read but the
    last takes a byte.  [scts_loop] with the length of the list: each turn moves the
    offset.  [ancestors] and [create_dirs] with the length of the path: a parent is shorter
    ([create_dirs_live]).  [walk] with one more than the
    number of records: [walk_bound] shows that a walk which ends at all ends within
    that, so [None] means that the program runs for ever.

    ** What is not modelled

    - Crates ([webpki], [clubcard_crlite], [reqwest], [serde_json], [toml], [clap],
      [tempfile], [x509_parser], OpenSSL) are classes, with their documented laws where
      a theorem needs them.
    - Paths are Unix byte strings compared as written: no symbolic links, and [..] is
      not resolved.  Of Windows only the choice of directories in [lib.rs] is modelled.
    - A [fetch] that is killed leaves its temporaries: new files beside the files that they
      were to become, with the prefix that [tempfile] documents ([temporary]).
    - Processes other than [upki] do not change the files during a run.  Fetches that
      run at the same time have the same manifest, and a server that sends the same
      contents to all of them; nothing is claimed of two manifests at once.
    - Logging, [Debug] output, HTTP timeouts and user agents.
    - The system tests of [revoke-test], which ask live sites, its benchmarks, and the
      generated C headers.  The expected digest of [sha256_all_lengths] is not evaluated: half a
      million [update] calls are too many for the kernel; what the test compares is
      related to the standard instead ([all_lengths_fips]). *)
From Stdlib Require Export ZArith Lia Ascii String Strings.Byte.
From stdpp Require Export base tactics list gmap strings.

(** ** Scope, tactics and hints of the development *)

Declare Scope upki_scope.
Delimit Scope upki_scope with upki.
#[global] Open Scope upki_scope.
#[global] Open Scope Z_scope.

Create HintDb upki discriminated.
(** Rewriting rules that compute lengths and cuts of lists. *)
Create Rewrite HintDb upki_len.

(** ** Outcomes of Rust code

    A call returns a value, returns an error, or panics (a slice out of range,
    [unwrap] of [None], an arithmetic overflow that [expect] refuses). *)
Inductive Result (E A : Type) : Type :=
| Ok (a : A)
| Err (e : E)
| Panic.
Arguments Ok {E A} a.
Arguments Err {E A} e.
Arguments Panic {E A}.

#[export] Instance result_eq_dec {E A} `{EqDecision E} `{EqDecision A} :
  EqDecision (Result E A).
Proof. solve_decision. Defined.

#[export] Instance result_ret {E} : MRet (Result E) := fun A a => Ok a.
#[export] Instance result_bind {E} : MBind (Result E) := fun A B f r =>
  match r with Ok a => f a | Err e => Err e | Panic => Panic end.

(** [Result::map_err] *)
Definition map_err {E F A} (f : E → F) (r : Result E A) : Result F A :=
  match r with Ok a => Ok a | Err e => Err (f e) | Panic => Panic end.

(** [Option::ok_or] *)
Definition ok_or {E A} (e : E) (o : option A) : Result E A :=
  match o with Some a => Ok a | None => Err e end.

(** A place where Rust panics when there is no value. *)
Definition or_panic {E A} (o : option A) : Result E A :=
  match o with Some a => Ok a | None => Panic end.

(** A fallible call of code outside the repository: its error as a left value. *)
Definition of_sum {E A} (s : E + A) : Result E A :=
  match s with inl e => Err e | inr a => Ok a end.

Definition is_ok {E A} (r : Result E A) : bool :=
  match r with Ok _ => true | _ => false end.

(** [Result::ok] keeps the value and forgets the error; a panic is not a value. *)
Definition ok {E A} (r : Result E A) : option A :=
  match r with Ok a => Some a | _ => None end.

Definition no_panic {E A} (r : Result E A) : Prop := r ≠ Panic.

(** ** Stateful Rust code: explicit state passing

    The state a computation reached is kept when it fails: a half-finished
    [fetch] leaves the files it wrote. *)
Definition Eff (S E A : Type) : Type := S → S * Result E A.

#[export] Instance eff_ret {S E} : MRet (Eff S E) := fun A a s => (s, Ok a).
#[export] Instance eff_bind {S E} : MBind (Eff S E) := fun A B f m s =>
  match m s with
  | (s', Ok a) => f a s'
  | (s', Err e) => (s', Err e)
  | (s', Panic) => (s', Panic)
  end.

Definition eff_lift {S E A} (f : S → Result E A) : Eff S E A := fun s => (s, f s).
Definition eff_err {S E A} (e : E) : Eff S E A := fun s => (s, Err e).
Definition eff_map_err {S E F A} (f : E → F) (m : Eff S E A) : Eff S F A :=
  fun s => let '(s', r) := m s in (s', map_err f r).

Lemma result_bind_ok {E A B} (r : Result E A) (f : A → Result E B) b :
  mbind f r = Ok b ↔ ∃ a, r = Ok a ∧ f a = Ok b.
Proof.
  destruct r; cbn; split; [eauto | | discriminate | | discriminate | ];
    intros (x & Hx & Hf); simplify_eq; done.
Qed.

Lemma result_bind_no_panic {E A B} (r : Result E A) (f : A → Result E B) :
  no_panic r → (∀ a, r = Ok a → no_panic (f a)) → no_panic (mbind f r).
Proof. intros Hr Hf. destruct r; cbn; [by apply Hf | discriminate | done]. Qed.

Lemma map_err_no_panic {E F A} (f : E → F) (r : Result E A) :
  no_panic r → no_panic (map_err f r).
Proof. unfold no_panic. destruct r; cbn; congruence. Qed.

Lemma map_err_ok {E F A} (f : E → F) (r : Result E A) a :
  map_err f r = Ok a ↔ r = Ok a.
Proof. destruct r; cbn; split; congruence. Qed.

Lemma of_sum_no_panic {E A} (s : E + A) : no_panic (of_sum s).
Proof. by destruct s. Qed.

#[export] Hint Resolve map_err_no_panic of_sum_no_panic : upki.

(** Case analysis on the scrutinee of the outermost [match] of the goal or a
    hypothesis, keeping the equation. *)
Ltac case_scrut :=
  match goal with
  | |- context [match ?x with _ => _ end] => destruct x eqn:?
  | H : context [match ?x with _ => _ end] |- _ => destruct x eqn:?
  end.

(** Invert an equation between two constructors of [Result] and substitute. *)
Ltac inv_result :=
  repeat match goal with
  | H : Ok _ = Ok _ |- _ => injection H as H; try subst
  | H : Err _ = Err _ |- _ => injection H as H; try subst
  | H : Some _ = Some _ |- _ => injection H as H; try subst
  | H : (_, _) = (_, _) |- _ => injection H as ? ?; try subst
  | H : Ok _ = Err _ |- _ => discriminate H
  | H : Err _ = Ok _ |- _ => discriminate H
  | H : Panic = _ |- _ => discriminate H
  | H : _ = Panic |- _ => discriminate H
  | H : None = Some _ |- _ => discriminate H
  | H : Some _ = None |- _ => discriminate H
  end.

(** Evaluate both sides of an equation between closed terms. *)
Ltac by_vm := match goal with |- _ = ?b => vm_cast_no_check (eq_refl b) end.

(** ** Slices *)

(** [l[a..b]] where the code has established the range. *)
Definition slice {A} (l : list A) (a b : nat) : list A := take (b - a) (drop a l).
#[global] Arguments slice : simpl never.
Notation "l .[ a ..< b ]" := (slice l a b)
  (at level 1, a at level 99, b at level 99, left associativity, format "l .[ a ..< b ]")
  : upki_scope.

(** [&l[a..b]] as Rust checks it: [None] is the panic. *)
Definition slice_checked {A} (l : list A) (a b : Z) : option (list A) :=
  if (0 <=? a) && (a <=? b) && (b <=? Z.of_nat (length l))
  then Some (slice l (Z.to_nat a) (Z.to_nat b)) else None.

(** [&l[a..]] as Rust checks it. *)
Definition slice_from {A} (l : list A) (a : Z) : option (list A) :=
  if (0 <=? a) && (a <=? Z.of_nat (length l)) then Some (drop (Z.to_nat a) l) else None.

Lemma length_slice {A} (l : list A) a b :
  (a ≤ b)%nat → (b ≤ length l)%nat → length (slice l a b) = (b - a)%nat.
Proof. intros. unfold slice. rewrite length_take, length_drop. lia. Qed.

Lemma slice_checked_some {A} (l : list A) (a b : Z) :
  0 ≤ a → a ≤ b → b ≤ Z.of_nat (length l) →
  slice_checked l a b = Some (slice l (Z.to_nat a) (Z.to_nat b)).
Proof.
  intros. unfold slice_checked.
  rewrite !(proj2 (Z.leb_le _ _)) by done. done.
Qed.

Lemma slice_from_some {A} (l : list A) (a : Z) :
  0 ≤ a → a ≤ Z.of_nat (length l) → slice_from l a = Some (drop (Z.to_nat a) l).
Proof.
  intros. unfold slice_from. rewrite !(proj2 (Z.leb_le _ _)) by done. done.
Qed.

Lemma slice_app_skip {A} (l1 l2 : list A) (n a b : nat) :
  length l1 = n → slice (l1 ++ l2) (n + a) (n + b) = slice l2 a b.
Proof.
  intros <-. unfold slice. rewrite <- drop_drop, drop_app_length.
  f_equal. lia.
Qed.

Lemma slice_all {A} (l : list A) n : length l = n → slice l 0 n = l.
Proof.
  intros <-. unfold slice. rewrite drop_0, Nat.sub_0_r. apply firstn_all.
Qed.

Lemma slice_app_l {A} (l1 l2 : list A) a b :
  (b ≤ length l1)%nat → slice (l1 ++ l2) a b = slice l1 a b.
Proof.
  intros. unfold slice. destruct (decide (a ≤ b)%nat).
  - rewrite drop_app_le by lia. rewrite take_app_le; [done|]. rewrite length_drop. lia.
  - by replace (b - a)%nat with O by lia.
Qed.

(** ** Chunks of a fixed length

    [chunks n k l] is the first [k] chunks of length [n] of [l]. *)
Fixpoint chunks {A} (n k : nat) (l : list A) : list (list A) :=
  match k with
  | O => []
  | S k' => take n l :: chunks n k' (drop n l)
  end.

Lemma chunks_length {A} n k (l : list A) : length (chunks n k l) = k.
Proof. revert l; induction k; intros; cbn; auto. Qed.

Lemma chunks_app {A} n k1 k2 (l1 l2 : list A) :
  length l1 = (k1 * n)%nat →
  chunks n (k1 + k2) (l1 ++ l2) = chunks n k1 l1 ++ chunks n k2 l2.
Proof.
  revert l1. induction k1 as [|k1 IH]; intros l1 Hlen; cbn in *.
  - apply nil_length_inv in Hlen. by subst.
  - rewrite take_app_le, drop_app_le by lia. f_equal.
    apply IH. rewrite length_drop. lia.
Qed.

Lemma chunks_elem_length {A} n k (l : list A) c :
  length l = (k * n)%nat → c ∈ chunks n k l → length c = n.
Proof.
  revert l. induction k as [|k IH]; intros l Hlen; cbn.
  - by intros ?%not_elem_of_nil.
  - intros [->|Hin]%elem_of_cons.
    + rewrite length_take. lia.
    + eapply IH, Hin. rewrite length_drop. lia.
Qed.

Lemma chunks_prefix {A} n k (l1 l2 : list A) :
  length l1 = (k * n)%nat → chunks n k (l1 ++ l2) = chunks n k l1.
Proof.
  intros H. pose proof (chunks_app n k 0 l1 l2 H) as E.
  rewrite Nat.add_0_r, app_nil_r in E. exact E.
Qed.

(** ** Machine integers *)

Definition u8_max : Z := 2 ^ 8 - 1.
Definition u16_max : Z := 2 ^ 16 - 1.
Definition u32_max : Z := 2 ^ 32 - 1.
Definition u64_max : Z := 2 ^ 64 - 1.
(** The targets of the project are 64-bit: [usize] is [u64]. *)
Definition usize_max : Z := u64_max.
Definition i64_max : Z := 2 ^ 63 - 1.

(** [x as uN] *)
Definition as_u16 (x : Z) : Z := x mod 2 ^ 16.
Definition as_u32 (x : Z) : Z := x mod 2 ^ 32.
Definition as_u64 (x : Z) : Z := x mod 2 ^ 64.
(** [x as i64] for a [u64] [x] *)
Definition as_i64 (x : Z) : Z :=
  let y := x mod 2 ^ 64 in if y <? 2 ^ 63 then y else y - 2 ^ 64.

Definition checked (max x : Z) : option Z :=
  if (0 <=? x) && (x <=? max) then Some x else None.

Lemma as_u16_small x : 0 ≤ x < 2 ^ 16 → as_u16 x = x.
Proof. apply Z.mod_small. Qed.
Lemma as_u32_small x : 0 ≤ x < 2 ^ 32 → as_u32 x = x.
Proof. apply Z.mod_small. Qed.
Lemma as_u64_small x : 0 ≤ x < 2 ^ 64 → as_u64 x = x.
Proof. apply Z.mod_small. Qed.

Lemma checked_some max x : 0 ≤ x ≤ max → checked max x = Some x.
Proof.
  intros. unfold checked. by rewrite !(proj2 (Z.leb_le _ _)) by lia.
Qed.
Lemma checked_none max x : max < x → checked max x = None.
Proof.
  intros. unfold checked. by rewrite (proj2 (Z.leb_gt x max)), andb_false_r by lia.
Qed.
Lemma checked_inv max x y : checked max x = Some y → y = x.
Proof. unfold checked. by destruct (_ && _); intros [=]. Qed.

(** ** Lists *)

Lemma foldl_app_ext {A B} (f : A → B → A) a l1 l2 :
  foldl f a (l1 ++ l2) = foldl f (foldl f a l1) l2.
Proof. apply foldl_app. Qed.

Lemma length_concat_const {A} n (ls : list (list A)) :
  Forall (λ l, length l = n) ls → length (concat ls) = (length ls * n)%nat.
Proof. induction 1; cbn; [done|]. rewrite length_app. lia. Qed.

Lemma elem_of_concat {A} (x : A) (ls : list (list A)) :
  x ∈ concat ls ↔ ∃ l, x ∈ l ∧ l ∈ ls.
Proof.
  induction ls as [|l ls IH]; cbn.
  - split; [by intros ?%elem_of_nil|by intros (l & _ & ?%elem_of_nil)].
  - rewrite elem_of_app, IH. setoid_rewrite elem_of_cons. naive_solver.
Qed.

(** The [i]-th element of a concatenation of equally long pieces. *)
Lemma slice_concat_const {A} n (ls : list (list A)) i l :
  Forall (λ l, length l = n) ls → ls !! i = Some l →
  slice (concat ls) (i * n) (i * n + n) = l.
Proof.
  intros Hf. revert i. induction Hf as [|l' ls Hl' Hf IH]; intros i; [done|].
  destruct i as [|i]; cbn; intros Hi; simplify_eq.
  - rewrite slice_app_l by lia. by apply slice_all.
  - rewrite <- Nat.add_assoc, slice_app_skip by done. by apply IH.
Qed.

(** Position of the first element that satisfies a test ([Iterator::position]). *)
Fixpoint position {A} (p : A → bool) (l : list A) : option nat :=
  match l with
  | [] => None
  | x :: l' => if p x then Some O else S <$> position p l'
  end.

Lemma position_some_lt {A} (p : A → bool) l n : position p l = Some n → (n < length l)%nat.
Proof.
  revert n. induction l as [|x l IH]; intros n; cbn; [done|].
  destruct (p x); [intros [= <-]; lia|].
  destruct (position p l); cbn; intros; simplify_eq. specialize (IH _ eq_refl). lia.
Qed.

Lemma position_app {A} (p : A → bool) l1 x l2 :
  forallb (λ y, negb (p y)) l1 = true → p x = true →
  position p (l1 ++ x :: l2) = Some (length l1).
Proof.
  intros H1 Hx. induction l1 as [|y l1 IH]; cbn in *.
  - by rewrite Hx.
  - apply andb_prop in H1 as [Hy H1]. destruct (p y); [done|]. by rewrite IH.
Qed.

Lemma position_none {A} (p : A → bool) l :
  forallb (λ y, negb (p y)) l = true → position p l = None.
Proof.
  induction l as [|y l IH]; cbn; [done|].
  intros [Hy H1]%andb_prop. destruct (p y); [done|]. by rewrite IH.
Qed.

#[export] Hint Rewrite @length_app @length_take @length_drop @length_cons
  @length_replicate @chunks_length @length_fmap : upki_len.
