(* ===== verification/Bytes.v ===== *)
(** * Bytes: big-endian integers, lexicographic order, UTF-8

    The parts of the Rust standard library that [upki/src/revocation/index.rs]
    and [upki/src/sha256.rs] use on byte slices: [uN::to_be_bytes],
    [uN::from_be_bytes], [<[u8]>::cmp], [str::from_utf8]; and the reader
    [FromBeBytes::read_be] of [index.rs]. *)
From S2P Require Import Prelude.

#[export] Instance byte_eq_dec : EqDecision byte := Byte.byte_eq_dec.

(** ** A byte as a number *)

Definition byte_val (b : byte) : Z := Z.of_N (Byte.to_N b).
Definition byte_of (z : Z) : byte :=
  match Byte.of_N (Z.to_N (z mod 256)) with Some b => b | None => x00 end.

Lemma byte_val_bound b : 0 ≤ byte_val b < 256.
Proof. unfold byte_val. pose proof (Byte.to_N_bounded b). lia. Qed.

Lemma byte_of_val b : byte_of (byte_val b) = b.
Proof.
  unfold byte_of. rewrite Z.mod_small by apply byte_val_bound.
  unfold byte_val. by rewrite N2Z.id, Byte.of_to_N.
Qed.

Lemma byte_val_of z : byte_val (byte_of z) = z mod 256.
Proof.
  unfold byte_of. pose proof (Z.mod_pos_bound z 256 ltac:(lia)) as Hb.
  destruct (Byte.of_N _) eqn:E.
  - apply Byte.to_of_N in E. unfold byte_val. rewrite E. lia.
  - apply Byte.of_N_None_iff in E. lia.
Qed.

Lemma byte_val_inj b1 b2 : byte_val b1 = byte_val b2 → b1 = b2.
Proof. intros H. by rewrite <- (byte_of_val b1), H, byte_of_val. Qed.

Lemma byte_of_mod z : byte_of (z mod 256) = byte_of z.
Proof. apply byte_val_inj. by rewrite !byte_val_of, Z.mod_mod. Qed.

(** ** Big-endian integers *)

(** [uN::from_be_bytes] *)
Definition be_val (l : list byte) : Z := foldl (λ acc b, acc * 256 + byte_val b) 0 l.

(** [uN::to_be_bytes], on [n] bytes *)
Fixpoint be_bytes (n : nat) (z : Z) : list byte :=
  match n with
  | O => []
  | S n' => be_bytes n' (z / 256) ++ [byte_of z]
  end.

Lemma length_be_bytes n z : length (be_bytes n z) = n.
Proof. revert z. induction n; intros z; cbn; [done|]. rewrite length_app, IHn. cbn. lia. Qed.
#[export] Hint Rewrite length_be_bytes : upki_len.

Lemma be_val_snoc l b : be_val (l ++ [b]) = be_val l * 256 + byte_val b.
Proof. unfold be_val. by rewrite foldl_app. Qed.

Lemma be_val_bound l : 0 ≤ be_val l < 256 ^ Z.of_nat (length l).
Proof.
  induction l as [|b l IH] using rev_ind; [cbn; lia|].
  rewrite be_val_snoc, length_app, Nat2Z.inj_add, Z.pow_add_r by lia.
  pose proof (byte_val_bound b). cbn [length]. change (256 ^ Z.of_nat 1) with 256. nia.
Qed.

Lemma be_val_bytes n z : be_val (be_bytes n z) = z mod 256 ^ Z.of_nat n.
Proof.
  revert z. induction n as [|n IH]; intros z; [cbn; by rewrite Z.mod_1_r|].
  cbn [be_bytes]. rewrite be_val_snoc, IH, byte_val_of.
  rewrite Nat2Z.inj_succ, Z.pow_succ_r by lia.
  rewrite Z.rem_mul_r by lia. lia.
Qed.

Lemma be_val_bytes_small n z : 0 ≤ z < 256 ^ Z.of_nat n → be_val (be_bytes n z) = z.
Proof. intros. rewrite be_val_bytes. by apply Z.mod_small. Qed.

Lemma be_bytes_val l : be_bytes (length l) (be_val l) = l.
Proof.
  induction l as [|b l IH] using rev_ind; [done|].
  rewrite length_app, Nat.add_1_r. cbn [be_bytes]. rewrite be_val_snoc.
  pose proof (byte_val_bound b). f_equal.
  - rewrite Z.div_add_l, Z.div_small, Z.add_0_r by lia. apply IH.
  - f_equal. rewrite <- byte_of_mod, Z.add_comm, Z.mod_add, byte_of_mod by lia.
    apply byte_of_val.
Qed.

(** ** [FromBeBytes::read_be]: split [N] bytes off the front of a slice *)

(** The value and the rest of the slice, or [None] for the error
    "unexpected end of index data". *)
Definition read_be (n : nat) (data : list byte) : option (Z * list byte) :=
  if (n <=? length data)%nat then Some (be_val (take n data), drop n data) else None.

Lemma read_be_app n l rest : length l = n → read_be n (l ++ rest) = Some (be_val l, rest).
Proof.
  intros <-. unfold read_be. rewrite length_app.
  rewrite (proj2 (Nat.leb_le _ _)) by lia.
  by rewrite take_app_length, drop_app_length.
Qed.

Lemma read_be_bytes n z rest :
  0 ≤ z < 256 ^ Z.of_nat n → read_be n (be_bytes n z ++ rest) = Some (z, rest).
Proof.
  intros. rewrite read_be_app by apply length_be_bytes. by rewrite be_val_bytes_small.
Qed.

Lemma read_be_some n data :
  (n ≤ length data)%nat → read_be n data = Some (be_val (take n data), drop n data).
Proof. intros. unfold read_be. by rewrite (proj2 (Nat.leb_le _ _)). Qed.

Lemma read_be_inv n data v rest :
  read_be n data = Some (v, rest) →
  length data = (n + length rest)%nat ∧ 0 ≤ v < 256 ^ Z.of_nat n.
Proof.
  unfold read_be. destruct (Nat.leb_spec n (length data)); [|done].
  intros [= <- <-]. rewrite length_drop. split; [lia|].
  pose proof (be_val_bound (take n data)) as Hb.
  rewrite length_take, Nat.min_l in Hb by lia. exact Hb.
Qed.

(** ** Lexicographic order of byte slices ([<[u8] as Ord>::cmp]) *)

Fixpoint bytes_cmp (a b : list byte) : comparison :=
  match a, b with
  | [], [] => Eq
  | [], _ => Lt
  | _, [] => Gt
  | x :: a', y :: b' =>
      match Z.compare (byte_val x) (byte_val y) with
      | Eq => bytes_cmp a' b'
      | c => c
      end
  end.

Lemma bytes_cmp_eq a b : bytes_cmp a b = Eq ↔ a = b.
Proof.
  revert b. induction a as [|x a IH]; intros [|y b]; cbn; try done.
  destruct (Z.compare_spec (byte_val x) (byte_val y)) as [H|H|H].
  - apply byte_val_inj in H as ->. rewrite IH. naive_solver.
  - split; [done|]. intros [= -> ->]. lia.
  - split; [done|]. intros [= -> ->]. lia.
Qed.

Lemma bytes_cmp_refl a : bytes_cmp a a = Eq.
Proof. by apply bytes_cmp_eq. Qed.

Lemma bytes_cmp_antisym a b : bytes_cmp b a = CompOpp (bytes_cmp a b).
Proof.
  revert b. induction a as [|x a IH]; intros [|y b]; cbn; try done.
  rewrite Z.compare_antisym. destruct (Z.compare _ _); cbn; auto.
Qed.

Lemma bytes_cmp_lt_gt a b : bytes_cmp a b = Lt ↔ bytes_cmp b a = Gt.
Proof. rewrite (bytes_cmp_antisym a b). destruct (bytes_cmp a b); cbn; done. Qed.

Lemma bytes_cmp_lt_trans a b c :
  bytes_cmp a b = Lt → bytes_cmp b c = Lt → bytes_cmp a c = Lt.
Proof.
  revert b c. induction a as [|x a IH]; intros [|y b] [|z c]; cbn; try done.
  destruct (Z.compare_spec (byte_val x) (byte_val y)) as [H1|H1|H1]; try done;
  destruct (Z.compare_spec (byte_val y) (byte_val z)) as [H2|H2|H2]; try done;
  destruct (Z.compare_spec (byte_val x) (byte_val z)) as [H3|H3|H3]; try done; try lia.
  apply IH.
Qed.

(** Strict order as a relation, for sorted lists of keys. *)
Definition bytes_lt (a b : list byte) : Prop := bytes_cmp a b = Lt.

#[export] Instance bytes_lt_trans : Transitive bytes_lt.
Proof. intros a b c. apply bytes_cmp_lt_trans. Qed.

#[export] Instance bytes_lt_irrefl : Irreflexive bytes_lt.
Proof. intros a H. unfold bytes_lt in H. by rewrite bytes_cmp_refl in H. Qed.

#[export] Instance bytes_lt_dec : RelDecision bytes_lt.
Proof. intros a b. unfold bytes_lt. solve_decision. Defined.

(** ** UTF-8 validity ([core::str::from_utf8]) *)

Definition in_range (lo hi : Z) (b : byte) : bool :=
  (lo <=? byte_val b) && (byte_val b <=? hi).

(** The table of well-formed sequences: the lead byte fixes the width and the
    range of the second byte; the others are continuation bytes. *)
Fixpoint utf8_valid (l : list byte) : bool :=
  match l with
  | [] => true
  | b0 :: l0 =>
      if byte_val b0 <? 128 then utf8_valid l0
      else match l0 with
      | [] => false
      | b1 :: l1 =>
          if in_range 0xC2 0xDF b0 then in_range 0x80 0xBF b1 && utf8_valid l1
          else match l1 with
          | [] => false
          | b2 :: l2 =>
              if in_range 0xE0 0xEF b0 then
                (if byte_val b0 =? 0xE0 then in_range 0xA0 0xBF b1
                 else if byte_val b0 =? 0xED then in_range 0x80 0x9F b1
                 else in_range 0x80 0xBF b1)
                && in_range 0x80 0xBF b2 && utf8_valid l2
              else match l2 with
              | [] => false
              | b3 :: l3 =>
                  in_range 0xF0 0xF4 b0
                  && (if byte_val b0 =? 0xF0 then in_range 0x90 0xBF b1
                      else if byte_val b0 =? 0xF4 then in_range 0x80 0x8F b1
                      else in_range 0x80 0xBF b1)
                  && in_range 0x80 0xBF b2 && in_range 0x80 0xBF b3 && utf8_valid l3
              end
          end
      end
  end.

(** [str::from_utf8]: the text of the bytes, when they are UTF-8. *)
Definition from_utf8 (l : list byte) : option string :=
  if utf8_valid l then Some (String.string_of_list_byte l) else None.

(** [str::as_bytes] *)
Definition as_bytes (s : string) : list byte := String.list_byte_of_string s.

Lemma as_bytes_of_list l : as_bytes (String.string_of_list_byte l) = l.
Proof. apply list_byte_of_string_of_list_byte. Qed.

Lemma string_of_as_bytes s : String.string_of_list_byte (as_bytes s) = s.
Proof. apply string_of_list_byte_of_string. Qed.

Lemma from_utf8_as_bytes s : utf8_valid (as_bytes s) = true → from_utf8 (as_bytes s) = Some s.
Proof. intros H. unfold from_utf8. by rewrite H, string_of_as_bytes. Qed.

(** A NUL byte: C strings and padded slots end at it. *)
Definition is_nul (b : byte) : bool := byte_val b =? 0.
Definition no_nul (l : list byte) : bool := forallb (λ b, negb (is_nul b)) l.

Lemma as_bytes_app a b : as_bytes (a +:+ b) = as_bytes a ++ as_bytes b.
Proof.
  unfold as_bytes, String.list_byte_of_string.
  rewrite <- map_app. f_equal. induction a as [|c a IH]; [done|].
  change (String c a +:+ b) with (String c (a +:+ b)).
  cbn [String.list_ascii_of_string app]. by rewrite IH.
Qed.

Lemma no_nul_app a b : no_nul (a ++ b) = no_nul a && no_nul b.
Proof. apply forallb_app. Qed.
