(* ===== verification/Sha256.v ===== *)
(** * [upki/src/sha256.rs]: incremental SHA-256

    [Context], [Blockwise], [Digest] and the compression function as the file
    has them: a 16-word window for the message schedule, a 64-byte buffer for
    input that does not fill a block, a block counter.  [Sha256Spec] shows that
    any sequence of [update] calls followed by [finish] computes the hash of FIPS
    180-4. *)
From S2P Require Import Prelude Bytes.

(** ** 32-bit words *)

(** [u32::wrapping_add] *)
Definition wrapping_add (x y : Z) : Z := (x + y) mod 2 ^ 32.
(** [!x] on a [u32] *)
Definition not32 (x : Z) : Z := Z.lxor x (2 ^ 32 - 1).
(** [u32::rotate_right] *)
Definition rotate_right (x n : Z) : Z :=
  Z.lor (Z.shiftr x n) (Z.land (Z.shiftl x (32 - n)) (2 ^ 32 - 1)).

Definition ch (x y z : Z) : Z := Z.lxor (Z.land x y) (Z.land (not32 x) z).
Definition maj (x y z : Z) : Z :=
  Z.lxor (Z.lxor (Z.land x y) (Z.land x z)) (Z.land y z).
Definition bsig0 (x : Z) : Z :=
  Z.lxor (Z.lxor (rotate_right x 2) (rotate_right x 13)) (rotate_right x 22).
Definition bsig1 (x : Z) : Z :=
  Z.lxor (Z.lxor (rotate_right x 6) (rotate_right x 11)) (rotate_right x 25).
Definition ssig0 (x : Z) : Z :=
  Z.lxor (Z.lxor (rotate_right x 7) (rotate_right x 18)) (Z.shiftr x 3).
Definition ssig1 (x : Z) : Z :=
  Z.lxor (Z.lxor (rotate_right x 17) (rotate_right x 19)) (Z.shiftr x 10).

Definition K : list Z :=
  [ 0x428a_2f98; 0x7137_4491; 0xb5c0_fbcf; 0xe9b5_dba5; 0x3956_c25b; 0x59f1_11f1; 0x923f_82a4; 0xab1c_5ed5;
    0xd807_aa98; 0x1283_5b01; 0x2431_85be; 0x550c_7dc3; 0x72be_5d74; 0x80de_b1fe; 0x9bdc_06a7; 0xc19b_f174;
    0xe49b_69c1; 0xefbe_4786; 0x0fc1_9dc6; 0x240c_a1cc; 0x2de9_2c6f; 0x4a74_84aa; 0x5cb0_a9dc; 0x76f9_88da;
    0x983e_5152; 0xa831_c66d; 0xb003_27c8; 0xbf59_7fc7; 0xc6e0_0bf3; 0xd5a7_9147; 0x06ca_6351; 0x1429_2967;
    0x27b7_0a85; 0x2e1b_2138; 0x4d2c_6dfc; 0x5338_0d13; 0x650a_7354; 0x766a_0abb; 0x81c2_c92e; 0x9272_2c85;
    0xa2bf_e8a1; 0xa81a_664b; 0xc24b_8b70; 0xc76c_51a3; 0xd192_e819; 0xd699_0624; 0xf40e_3585; 0x106a_a070;
    0x19a4_c116; 0x1e37_6c08; 0x2748_774c; 0x34b0_bcb5; 0x391c_0cb3; 0x4ed8_aa4a; 0x5b9c_ca4f; 0x682e_6ff3;
    0x748f_82ee; 0x78a5_636f; 0x84c8_7814; 0x8cc7_0208; 0x90be_fffa; 0xa450_6ceb; 0xbef9_a3f7; 0xc671_78f2 ].

(** ** The compression function *)

(** The working variables [a] to [h]. *)
Record Regs := mkRegs
  { ra : Z; rb : Z; rc : Z; rd : Z; re : Z; rf : Z; rg : Z; rh : Z }.

(** [w_t], and the window with [w_t] stored in it. *)
Definition window_step (block : list byte) (w : list Z) (t : nat) : Z * list Z :=
  if (t <? 16)%nat then
    let w_t := be_val (slice block (t * 4) ((t + 1) * 4)) in
    (w_t, <[t := w_t]> w)
  else
    let w_t :=
      wrapping_add (wrapping_add (wrapping_add (ssig1 (nth ((t - 2) mod 16) w 0))
                                               (nth ((t - 7) mod 16) w 0))
                                 (ssig0 (nth ((t - 15) mod 16) w 0)))
                   (nth ((t - 16) mod 16) w 0) in
    (w_t, <[(t mod 16)%nat := w_t]> w).

(** The eight assignments at the end of the loop body. *)
Definition regs_step (r : Regs) (k_t w_t : Z) : Regs :=
  let t1 := wrapping_add (wrapping_add (wrapping_add (wrapping_add (rh r) (bsig1 (re r)))
                                                     (ch (re r) (rf r) (rg r))) k_t) w_t in
  let t2 := wrapping_add (bsig0 (ra r)) (maj (ra r) (rb r) (rc r)) in
  {| rh := rg r; rg := rf r; rf := re r; re := wrapping_add (rd r) t1;
     rd := rc r; rc := rb r; rb := ra r; ra := wrapping_add t1 t2 |}.

Definition round_body (block : list byte) (s : list Z * Regs) (t : nat) : list Z * Regs :=
  let '(w_t, w) := window_step block s.1 t in
  (w, regs_step s.2 (nth t K 0) w_t).

Definition sha256_compress_block (state : list Z) (block : list byte) : list Z :=
  let r0 := {| ra := nth 0 state 0; rb := nth 1 state 0; rc := nth 2 state 0;
               rd := nth 3 state 0; re := nth 4 state 0; rf := nth 5 state 0;
               rg := nth 6 state 0; rh := nth 7 state 0 |} in
  let '(_, r) := foldl (round_body block) (replicate 16 0, r0) (seq 0 64) in
  [ wrapping_add (nth 0 state 0) (ra r); wrapping_add (nth 1 state 0) (rb r);
    wrapping_add (nth 2 state 0) (rc r); wrapping_add (nth 3 state 0) (rd r);
    wrapping_add (nth 4 state 0) (re r); wrapping_add (nth 5 state 0) (rf r);
    wrapping_add (nth 6 state 0) (rg r); wrapping_add (nth 7 state 0) (rh r) ].

(** [blocks.chunks_exact(64)]: whole chunks only. *)
Definition sha256_compress_blocks (state : list Z) (blocks : list byte) : list Z :=
  foldl sha256_compress_block state (chunks 64 (length blocks / 64) blocks).

(** ** Buffering and padding *)

(** [dst[i..i + src.len()].copy_from_slice(src)] *)
Definition splice (dst : list byte) (i : nat) (src : list byte) : list byte :=
  take i dst ++ src ++ drop (i + length src) dst.

Inductive FinalBlocks : Type :=
| One (one : list byte)
| Two (first second : list byte).

Definition final_blocks_as_ref (f : FinalBlocks) : list byte :=
  match f with One one => one | Two first second => first ++ second end.

Module Blockwise.

Record t := mk { buffer : list byte; used : nat }.

Definition new (N : nat) : t := {| buffer := replicate N x00; used := 0 |}.

Definition add_leading (N : nat) (self : t) (bytes : list byte) : t * list byte :=
  if (used self =? 0)%nat then (self, bytes)
  else
    let space := (N - used self)%nat in
    let n := Nat.min (length bytes) space in
    let taken := take n bytes in
    let returned := drop n bytes in
    ({| buffer := splice (buffer self) (used self) taken; used := used self + n |},
     returned).

Definition take_block (N : nat) (self : t) : t * option (list byte) :=
  if (used self =? N)%nat
  then ({| buffer := buffer self; used := 0 |}, Some (buffer self))
  else (self, None).

Definition add_trailing (self : t) (trailing : list byte) : t :=
  {| buffer := splice (buffer self) 0 trailing;
     used := used self + length trailing |}.

(** [None] is the panic of [self.take().unwrap()]. *)
Definition md_pad_with_length (N : nat) (self : t) (length_bits : list byte)
  : t * option FinalBlocks :=
  let space := (N - used self)%nat in
  let required := (1 + length length_bits)%nat in
  if (space <? required)%nat then
    let '(self, _) := add_leading N self [x80] in
    let '(self, _) := add_leading N self (replicate N x00) in
    let '(self, first) := take_block N self in
    let second := splice (replicate N x00) (N - length length_bits) length_bits in
    (self, (λ first, Two first second) <$> first)
  else
    let padding := (space - length length_bits)%nat in
    let buf := take (used self) (buffer self)
               ++ [x80] ++ replicate (padding - 1) x00 ++ length_bits in
    ({| buffer := buf; used := 0 |}, Some (One buf)).

End Blockwise.

(** ** The hashing context *)

Definition BLOCK_SZ : nat := 64.
Definition OUTPUT_SZ : nat := 32.

Record Context := mkContext
  { h : list Z; blockwise : Blockwise.t; nblocks : Z }.

Definition H_INIT : list Z :=
  [ 0x6a09_e667; 0xbb67_ae85; 0x3c6e_f372; 0xa54f_f53a;
    0x510e_527f; 0x9b05_688c; 0x1f83_d9ab; 0x5be0_cd19 ].

Definition context_new : Context :=
  {| h := H_INIT; blockwise := Blockwise.new BLOCK_SZ; nblocks := 0 |}.

(** [usize::saturating_add] *)
Definition saturating_add (x y : Z) : Z := Z.min (x + y) usize_max.

Definition update_blocks (self : Context) (blocks : list byte) : Context :=
  match blocks with
  | [] => self
  | _ => {| h := sha256_compress_blocks (h self) blocks;
            blockwise := blockwise self;
            nblocks := saturating_add (nblocks self) (Z.of_nat (length blocks / BLOCK_SZ)) |}
  end.

Definition set_blockwise (self : Context) (b : Blockwise.t) : Context :=
  {| h := h self; blockwise := b; nblocks := nblocks self |}.

Definition update (self : Context) (bytes : list byte) : Context :=
  if (Blockwise.used (blockwise self) =? 0)%nat && (length bytes mod BLOCK_SZ =? 0)%nat
  then update_blocks self bytes
  else
    let '(b, bytes) := Blockwise.add_leading BLOCK_SZ (blockwise self) bytes in
    let '(b, block) := Blockwise.take_block BLOCK_SZ b in
    let self := set_blockwise self b in
    let self := match block with Some block => update_blocks self block | None => self end in
    let whole_len :=
      (length bytes
       - Z.to_nat (Z.land (Z.of_nat (length bytes)) (Z.of_nat BLOCK_SZ - 1)))%nat in
    let whole_blocks := take whole_len bytes in
    let remainder := drop whole_len bytes in
    let self := update_blocks self whole_blocks in
    set_blockwise self (Blockwise.add_trailing (blockwise self) remainder).

(** A [Digest] is its 32 bytes. *)
Definition finish {E} (self : Context) : Result E (list byte) :=
  bytes ← or_panic (checked usize_max (nblocks self * Z.of_nat BLOCK_SZ)
                    ≫= λ b, checked usize_max (b + Z.of_nat (Blockwise.used (blockwise self))));
  bits ← or_panic (checked usize_max (bytes * 8));
  let '(b, last_blocks) :=
    Blockwise.md_pad_with_length BLOCK_SZ (blockwise self) (be_bytes 8 (as_u64 bits)) in
  last_blocks ← or_panic last_blocks;
  let self := update_blocks (set_blockwise self b) (final_blocks_as_ref last_blocks) in
  Ok (concat (be_bytes 4 <$> h self)).

(** [impl From<&[&[u8]]> for Digest] *)
Definition digest_from {E} (slices : list (list byte)) : Result E (list byte) :=
  finish (foldl update context_new slices).
