(* ===== verification/Sha256Spec.v ===== *)
(** * Correctness of [upki/src/sha256.rs]

    [Fips] is the hash function of FIPS 180-4 stated on a whole message.  The
    first part shows the round structure of the code (window of 16 words, [t1],
    [t2]) computes the FIPS compression function; the second that a context
    always represents the bytes it was fed, however they were cut; the third
    that padding in the buffer is the FIPS padding. *)
From S2P Require Import Prelude Bytes Sha256.

(** ** FIPS 180-4, sections 5 and 6.2 *)
Module Fips.

(** 5.1.1: one bit, the least number of zero bits to 448 mod 512, the length. *)
Definition zero_bytes (len : nat) : nat := Z.to_nat ((55 - Z.of_nat len) mod 64).
Definition padding (len : nat) : list byte :=
  [x80] ++ replicate (zero_bytes len) x00 ++ be_bytes 8 (8 * Z.of_nat len).
Definition pad (m : list byte) : list byte := m ++ padding (length m).

(** 6.2.2, step 1: the first [n] words of the message schedule. *)
Definition schedule_word (block : list byte) (W : list Z) (t : nat) : Z :=
  if (t <? 16)%nat then be_val (slice block (4 * t) (4 * t + 4))
  else (ssig1 (nth (t - 2) W 0) + nth (t - 7) W 0
        + ssig0 (nth (t - 15) W 0) + nth (t - 16) W 0) mod 2 ^ 32.
Fixpoint schedule (block : list byte) (n : nat) : list Z :=
  match n with
  | O => []
  | S n' => let W := schedule block n' in W ++ [schedule_word block W n']
  end.

(** 6.2.2, step 3. *)
Definition round (r : Regs) (Kt Wt : Z) : Regs :=
  let T1 := rh r + bsig1 (re r) + ch (re r) (rf r) (rg r) + Kt + Wt in
  let T2 := bsig0 (ra r) + maj (ra r) (rb r) (rc r) in
  mkRegs ((T1 + T2) mod 2 ^ 32) (ra r) (rb r) (rc r)
         ((rd r + T1) mod 2 ^ 32) (re r) (rf r) (rg r).

Definition regs_of (H : list Z) : Regs :=
  mkRegs (nth 0 H 0) (nth 1 H 0) (nth 2 H 0) (nth 3 H 0)
         (nth 4 H 0) (nth 5 H 0) (nth 6 H 0) (nth 7 H 0).
Definition regs_list (r : Regs) : list Z :=
  [ra r; rb r; rc r; rd r; re r; rf r; rg r; rh r].

(** 6.2.2: one block. *)
Definition compress (H : list Z) (block : list byte) : list Z :=
  let W := schedule block 64 in
  let r := foldl (λ r t, round r (nth t K 0) (nth t W 0)) (regs_of H) (seq 0 64) in
  zip_with (λ x y, (x + y) mod 2 ^ 32) (regs_list (regs_of H)) (regs_list r).

(** The chaining value after the whole blocks of [m]. *)
Definition hash_blocks (m : list byte) : list Z :=
  foldl compress H_INIT (chunks 64 (length m / 64) m).

Definition sha256 (m : list byte) : list byte :=
  concat (be_bytes 4 <$> hash_blocks (pad m)).

End Fips.

(** ** The rounds *)

Lemma wrapping_add_mod_l x y : wrapping_add (x mod 2 ^ 32) y = wrapping_add x y.
Proof. unfold wrapping_add. by rewrite Zplus_mod_idemp_l. Qed.
Lemma wrapping_add_mod_r x y : wrapping_add x (y mod 2 ^ 32) = wrapping_add x y.
Proof. unfold wrapping_add. by rewrite Zplus_mod_idemp_r. Qed.

(** A chain of [wrapping_add] is one sum reduced once. *)
Lemma wrapping_add_3 x y z :
  wrapping_add (wrapping_add x y) z = (x + y + z) mod 2 ^ 32.
Proof. exact (wrapping_add_mod_l (x + y) z). Qed.
Lemma wrapping_add_4 x y z u :
  wrapping_add (wrapping_add (wrapping_add x y) z) u = (x + y + z + u) mod 2 ^ 32.
Proof. by rewrite (wrapping_add_3 x y z), wrapping_add_mod_l. Qed.
Lemma wrapping_add_5 x y z u v :
  wrapping_add (wrapping_add (wrapping_add (wrapping_add x y) z) u) v
  = (x + y + z + u + v) mod 2 ^ 32.
Proof. by rewrite (wrapping_add_4 x y z u), wrapping_add_mod_l. Qed.

Lemma regs_step_round r k w : regs_step r k w = Fips.round r k w.
Proof.
  unfold regs_step, Fips.round.
  rewrite (wrapping_add_5 (rh r)), !wrapping_add_mod_l, wrapping_add_mod_r.
  by rewrite (wrapping_add_mod_r _ (bsig0 (ra r) + maj (ra r) (rb r) (rc r))).
Qed.

Lemma length_schedule block n : length (Fips.schedule block n) = n.
Proof. induction n; cbn; [done|]. rewrite length_app. cbn. lia. Qed.

Lemma schedule_prefix block n j d :
  (j < n)%nat → nth j (Fips.schedule block n) d = nth j (Fips.schedule block (S j)) d.
Proof.
  induction n as [|n IH]; [lia|]. intros Hj.
  destruct (decide (j = n)) as [->|]; [done|].
  cbn [Fips.schedule]. rewrite app_nth1 by (rewrite length_schedule; lia).
  apply IH. lia.
Qed.

(** The window holds the last sixteen schedule words, each at its index mod 16. *)
Definition window_ok (block : list byte) (t : nat) (w : list Z) : Prop :=
  length w = 16%nat ∧
  ∀ j, (j < t)%nat → (t ≤ j + 16)%nat →
       nth (j mod 16) w 0 = nth j (Fips.schedule block t) 0.

Lemma nth_insert_eq (l : list Z) i x : (i < length l)%nat → nth i (<[i:=x]> l) 0 = x.
Proof. intros. rewrite nth_lookup, list_lookup_insert_eq by done. done. Qed.
Lemma nth_insert_ne (l : list Z) i j x : i ≠ j → nth j (<[i:=x]> l) 0 = nth j l 0.
Proof. intros. by rewrite !nth_lookup, list_lookup_insert_ne. Qed.

Lemma mod16_inj j k t :
  (j < t)%nat → (k < t)%nat → (t ≤ j + 16)%nat → (t ≤ k + 16)%nat →
  (j mod 16 = k mod 16)%nat → j = k.
Proof.
  intros. pose proof (Nat.div_mod_eq j 16). pose proof (Nat.div_mod_eq k 16).
  assert (j / 16 = k / 16 ∨ j / 16 = S (k / 16) ∨ S (j / 16) = k / 16)%nat; lia.
Qed.

Lemma window_step_word block w t :
  window_ok block t w →
  (window_step block w t).1 = Fips.schedule_word block (Fips.schedule block t) t.
Proof.
  intros [Hlen Hw]. unfold window_step, Fips.schedule_word.
  destruct (Nat.ltb_spec t 16).
  - cbn [fst]. f_equal. f_equal; lia.
  - cbn [fst]. by rewrite !Hw, wrapping_add_4 by lia.
Qed.

Lemma window_step_ok block w t :
  window_ok block t w → window_ok block (S t) (window_step block w t).2.
Proof.
  intros Hok. pose proof (window_step_word _ _ _ Hok) as Hword.
  destruct Hok as [Hlen Hw].
  assert (Hins : (window_step block w t).2
                 = <[(t mod 16)%nat := (window_step block w t).1]> w).
  { unfold window_step. destruct (Nat.ltb_spec t 16); [|reflexivity].
    by rewrite Nat.mod_small. }
  rewrite Hins, Hword. split; [by rewrite length_insert|].
  intros j Hj1 Hj2. cbn [Fips.schedule].
  destruct (decide (j = t)) as [->|Hne].
  - rewrite nth_insert_eq by (rewrite Hlen; apply Nat.mod_upper_bound; lia).
    rewrite app_nth2, length_schedule, Nat.sub_diag by (rewrite length_schedule; lia).
    done.
  - rewrite nth_insert_ne.
    + rewrite app_nth1 by (rewrite length_schedule; lia). apply Hw; lia.
    + intros E. apply Hne. symmetry. eapply (mod16_inj t j (S t)); lia.
Qed.

Lemma rounds_equiv block r n :
  let s := foldl (round_body block) (replicate 16 0, r) (seq 0 n) in
  window_ok block n s.1 ∧
  (∀ N, (n ≤ N)%nat →
   s.2 = foldl (λ r t, Fips.round r (nth t K 0) (nth t (Fips.schedule block N) 0)) r (seq 0 n)).
Proof.
  induction n as [|n [IHw IHr]].
  - cbn. split; [split; [done|lia]|done].
  - rewrite seq_S, !foldl_app. cbn [foldl Nat.add].
    set (s := foldl _ _ _) in *.
    unfold round_body at 1 2.
    pose proof (window_step_ok _ _ _ IHw) as Hok.
    pose proof (window_step_word _ _ _ IHw) as Hword.
    destruct (window_step block s.1 n) as [w_t w]. cbn [fst snd] in *.
    split; [done|]. intros N HN. rewrite foldl_app. cbn [foldl].
    rewrite regs_step_round, (IHr N) by lia. f_equal.
    rewrite schedule_prefix by lia. cbn [Fips.schedule].
    rewrite app_nth2, length_schedule, Nat.sub_diag by (rewrite length_schedule; lia).
    by rewrite Hword.
Qed.

Lemma compress_block_fips state block :
  sha256_compress_block state block = Fips.compress state block.
Proof.
  unfold sha256_compress_block, Fips.compress.
  pose proof (rounds_equiv block (Fips.regs_of state) 64) as [_ H].
  specialize (H 64%nat ltac:(lia)).
  unfold Fips.regs_of at 1 in H.
  destruct (foldl (round_body block) _ _) as [w r]. cbn [snd] in H.
  rewrite <- H. reflexivity.
Qed.

Lemma compress_blocks_fips state blocks :
  sha256_compress_blocks state blocks
  = foldl Fips.compress state (chunks 64 (length blocks / 64) blocks).
Proof.
  unfold sha256_compress_blocks. generalize (chunks 64 (length blocks / 64) blocks) as l.
  intros l. revert state. induction l as [|b l IH]; intros state; cbn [foldl]; [done|].
  by rewrite compress_block_fips, IH.
Qed.

(** ** Buffering: what a context represents *)

Lemma hash_blocks_app m b :
  (length m mod 64 = 0)%nat →
  Fips.hash_blocks (m ++ b) = sha256_compress_blocks (Fips.hash_blocks m) b.
Proof.
  intros Hm. pose proof (Nat.div_mod_eq (length m) 64).
  rewrite compress_blocks_fips. unfold Fips.hash_blocks.
  rewrite <- foldl_app, length_app. f_equal.
  replace ((length m + length b) / 64)%nat with (length m / 64 + length b / 64)%nat.
  - apply chunks_app. lia.
  - replace (length m + length b)%nat with (length b + length m / 64 * 64)%nat by lia.
    rewrite Nat.div_add by lia. lia.
Qed.

Lemma compress_blocks_nil s : sha256_compress_blocks s [] = s.
Proof. done. Qed.

Lemma h_update_blocks c b : h (update_blocks c b) = sha256_compress_blocks (h c) b.
Proof. destruct b; [by rewrite compress_blocks_nil|done]. Qed.

Lemma blockwise_update_blocks c b : blockwise (update_blocks c b) = blockwise c.
Proof. by destruct b. Qed.

Lemma nblocks_update_blocks c b :
  0 ≤ nblocks c ≤ usize_max →
  nblocks (update_blocks c b) = saturating_add (nblocks c) (Z.of_nat (length b / 64)).
Proof.
  destruct b; [|done]. cbn [update_blocks length]. intros.
  unfold saturating_add. change (Z.of_nat (0 / 64)) with 0. lia.
Qed.

(** The context has hashed the whole blocks [full] and holds [pend] in its buffer. *)
Record represents (c : Context) (full pend : list byte) : Prop := {
  repr_full : (length full mod 64 = 0)%nat;
  repr_used : Blockwise.used (blockwise c) = length pend;
  repr_pend : take (length pend) (Blockwise.buffer (blockwise c)) = pend;
  repr_buffer : length (Blockwise.buffer (blockwise c)) = 64%nat;
  repr_h : h c = Fips.hash_blocks full;
  repr_nblocks : nblocks c = Z.min (Z.of_nat (length full / 64)) usize_max }.

Lemma div64_add a b : (a mod 64 = 0)%nat → ((a + b) / 64 = a / 64 + b / 64)%nat.
Proof.
  intros. pose proof (Nat.div_mod_eq a 64).
  replace (a + b)%nat with (b + a / 64 * 64)%nat by lia.
  rewrite Nat.div_add by lia. lia.
Qed.

Lemma mod64_add a b : (a mod 64 = 0)%nat → ((a + b) mod 64 = b mod 64)%nat.
Proof.
  intros. pose proof (Nat.div_mod_eq a 64).
  replace (a + b)%nat with (b + a / 64 * 64)%nat by lia.
  apply Nat.Div0.mod_add.
Qed.

Lemma represents_new : represents context_new [] [].
Proof. split; try done. Qed.

(** Whole blocks go straight into the hash state. *)
Lemma represents_blocks c full b :
  represents c full [] → (length b mod 64 = 0)%nat →
  represents (update_blocks c b) (full ++ b) [].
Proof.
  intros [] Hb. split; rewrite ?blockwise_update_blocks; try done.
  - rewrite length_app, mod64_add; done.
  - rewrite h_update_blocks, repr_h0, hash_blocks_app; done.
  - rewrite nblocks_update_blocks by (rewrite repr_nblocks0; unfold usize_max, u64_max; lia).
    rewrite repr_nblocks0, length_app, div64_add by done.
    unfold saturating_add. lia.
Qed.

Lemma land_63 n : Z.to_nat (Z.land (Z.of_nat n) (Z.of_nat BLOCK_SZ - 1)) = (n mod 64)%nat.
Proof.
  change (Z.of_nat BLOCK_SZ - 1) with (Z.ones 6).
  rewrite Z.land_ones by lia. change (2 ^ 6) with (Z.of_nat 64).
  rewrite <- Nat2Z.inj_mod. apply Nat2Z.id.
Qed.

(** With an empty buffer: hash the whole blocks, keep the remainder. *)
Lemma represents_absorb c full bytes :
  represents c full [] →
  let n := (length bytes - length bytes mod 64)%nat in
  let c' := update_blocks c (take n bytes) in
  represents (set_blockwise c' (Blockwise.add_trailing (blockwise c') (drop n bytes)))
             (full ++ take n bytes) (drop n bytes).
Proof.
  intros Hr n c'. pose proof (Nat.div_mod_eq (length bytes) 64).
  pose proof (Nat.mod_upper_bound (length bytes) 64 ltac:(lia)).
  assert (Hlt : length (take n bytes) = (length bytes / 64 * 64)%nat)
    by (rewrite length_take; lia).
  assert (Hld : length (drop n bytes) = (length bytes mod 64)%nat)
    by (rewrite length_drop; lia).
  apply (represents_blocks _ _ (take n bytes)) in Hr;
    [|rewrite Hlt; apply Nat.Div0.mod_mul].
  fold c' in Hr. destruct Hr as [Hfull Hused _ Hbuf Hh Hn].
  split; cbn [set_blockwise blockwise h nblocks Blockwise.add_trailing
              Blockwise.buffer Blockwise.used]; try done.
  - by rewrite Hused.
  - unfold splice. rewrite take_0, Nat.add_0_l. by rewrite app_nil_l, take_app_length.
  - unfold splice. rewrite take_0, app_nil_l, length_app, Nat.add_0_l.
    rewrite (length_drop (Blockwise.buffer _)), Hbuf. lia.
Qed.

(** [add_leading] on a buffer that is neither empty nor full. *)
Lemma add_leading_spec c full pend bytes :
  represents c full pend → (0 < length pend < 64)%nat →
  let n := Nat.min (length bytes) (64 - length pend) in
  Blockwise.add_leading BLOCK_SZ (blockwise c) bytes
    = (Blockwise.mk (splice (Blockwise.buffer (blockwise c)) (length pend) (take n bytes))
                    (length pend + n), drop n bytes)
  ∧ represents (set_blockwise c (Blockwise.mk
        (splice (Blockwise.buffer (blockwise c)) (length pend) (take n bytes))
        (length pend + n))) full (pend ++ take n bytes).
Proof.
  intros [] Hp n. unfold Blockwise.add_leading.
  rewrite repr_used0, (proj2 (Nat.eqb_neq _ _)) by lia.
  change (64 - length pend)%nat with (BLOCK_SZ - length pend)%nat in n. fold n.
  assert (length (take n bytes) = n) as Hn.
  { rewrite length_take. subst n. lia. }
  split; [done|]. split; cbn; try done.
  - rewrite length_app. lia.
  - unfold splice. rewrite repr_pend0, (assoc_L (++)), take_app_le, firstn_all; [done|].
    rewrite !length_app. lia.
  - unfold splice. rewrite repr_pend0, !length_app, length_drop. subst n. cbn in *. lia.
Qed.

(** A full buffer is one block. *)
Lemma represents_take_full c full pend :
  represents c full pend → length pend = 64%nat →
  Blockwise.take_block BLOCK_SZ (blockwise c)
    = (Blockwise.mk (Blockwise.buffer (blockwise c)) 0, Some pend)
  ∧ represents (update_blocks (set_blockwise c
        (Blockwise.mk (Blockwise.buffer (blockwise c)) 0)) pend) (full ++ pend) [].
Proof.
  intros [] Hp. unfold Blockwise.take_block. rewrite repr_used0, Hp. cbn [Nat.eqb BLOCK_SZ].
  rewrite Hp, firstn_all2 in repr_pend0 by lia. split.
  - by rewrite <- repr_pend0.
  - apply represents_blocks; [|by rewrite Hp]. split; try done.
Qed.

(** [represents] with the parts of the message forgotten. *)
Definition holds (c : Context) (m : list byte) : Prop :=
  ∃ full pend, represents c full pend ∧ (length pend < 64)%nat ∧ m = full ++ pend.

Lemma holds_absorb c full bytes :
  represents c full [] →
  let n := (length bytes
            - Z.to_nat (Z.land (Z.of_nat (length bytes)) (Z.of_nat BLOCK_SZ - 1)))%nat in
  let c' := update_blocks c (take n bytes) in
  holds (set_blockwise c' (Blockwise.add_trailing (blockwise c') (drop n bytes)))
        (full ++ bytes).
Proof.
  intros Hr. rewrite land_63. cbn zeta.
  pose proof (represents_absorb _ _ bytes Hr) as Hr'. cbn zeta in Hr'.
  eexists _, _. split; [exact Hr'|]. split.
  - rewrite length_drop. pose proof (Nat.mod_upper_bound (length bytes) 64 ltac:(lia)).
    pose proof (Nat.Div0.mod_le (length bytes) 64). lia.
  - by rewrite <- (assoc_L (++)), take_drop.
Qed.

Lemma set_blockwise_id c : set_blockwise c (blockwise c) = c.
Proof. by destruct c. Qed.

Lemma take_block_not_full c full pend :
  represents c full pend → (length pend < 64)%nat →
  Blockwise.take_block BLOCK_SZ (blockwise c) = (blockwise c, None).
Proof.
  intros [] Hp. unfold Blockwise.take_block.
  rewrite repr_used0, (proj2 (Nat.eqb_neq _ _)); [done|]. unfold BLOCK_SZ. lia.
Qed.

(** [update] appends to the represented message. *)
Lemma update_holds c m bytes : holds c m → holds (update c bytes) (m ++ bytes).
Proof.
  intros (full & pend & Hr & Hp & ->). unfold update.
  rewrite (repr_used _ _ _ Hr).
  destruct pend as [|b0 pend]; cbn [length Nat.eqb].
  - rewrite app_nil_r. destruct (Nat.eqb_spec (length bytes mod BLOCK_SZ) 0); cbn [andb].
    + exists (full ++ bytes), []. rewrite app_nil_r. split; [|split; [cbn; lia|done]].
      by apply represents_blocks.
    + unfold Blockwise.add_leading. rewrite (repr_used _ _ _ Hr). cbn [length Nat.eqb].
      rewrite (take_block_not_full _ _ _ Hr Hp), set_blockwise_id.
      by apply holds_absorb.
  - cbn [andb]. set (p := b0 :: pend) in *.
    assert (0 < length p < 64)%nat as Hp' by (subst p; cbn in *; lia).
    destruct (add_leading_spec _ _ _ bytes Hr Hp') as [-> Hr'].
    set (n := Nat.min _ _) in *. set (bw := Blockwise.mk _ _) in *.
    change bw with (blockwise (set_blockwise c bw)) at 1.
    replace ((full ++ p) ++ bytes) with (full ++ (p ++ take n bytes) ++ drop n bytes)
      by (rewrite <- !(assoc_L (++)); by rewrite take_drop).
    destruct (decide (length (p ++ take n bytes) = 64%nat)) as [E|E].
    + destruct (represents_take_full _ _ _ Hr' E) as [-> Hr''].
      rewrite (assoc_L (++)). by apply holds_absorb.
    + rewrite (take_block_not_full _ _ _ Hr') by
        (rewrite length_app, length_take in *; lia).
      assert (drop n bytes = []) as ->.
      { apply length_zero_iff_nil. rewrite length_drop.
        rewrite length_app, length_take in E. lia. }
      cbn [length]. change (0 - _)%nat with O. cbn [take drop update_blocks].
      exists full, (p ++ take n bytes). rewrite app_nil_r. split; [|split; [|done]].
      * unfold set_blockwise in *. cbn [blockwise h nblocks] in *.
        enough (Blockwise.add_trailing bw [] = bw) as -> by done.
        unfold Blockwise.add_trailing, splice. cbn. by rewrite take_0, drop_0, Nat.add_0_r.
      * rewrite length_app, length_take in *. lia.
Qed.

Lemma holds_new : holds context_new [].
Proof. exists [], []. split; [apply represents_new|]. split; [cbn; lia|done]. Qed.

Lemma updates_hold c m slices :
  holds c m → holds (foldl update c slices) (m ++ concat slices).
Proof.
  revert c m. induction slices as [|s slices IH]; intros c m Hm; cbn [foldl concat].
  - by rewrite app_nil_r.
  - rewrite (assoc_L (++)). by apply IH, update_holds.
Qed.

(** ** Padding and the digest *)

Lemma zero_bytes_mod n : Fips.zero_bytes n = Fips.zero_bytes (n mod 64).
Proof.
  unfold Fips.zero_bytes. f_equal. rewrite Nat2Z.inj_mod.
  change (Z.of_nat 64) with 64. by rewrite Zminus_mod_idemp_r.
Qed.

Lemma zero_bytes_small n : (n ≤ 55)%nat → Fips.zero_bytes n = (55 - n)%nat.
Proof. intros. unfold Fips.zero_bytes. rewrite Z.mod_small; lia. Qed.

Lemma zero_bytes_large n : (55 < n < 64)%nat → Fips.zero_bytes n = (119 - n)%nat.
Proof.
  intros. unfold Fips.zero_bytes.
  replace (55 - Z.of_nat n) with (119 - Z.of_nat n + -1 * 64) by lia.
  rewrite Z.mod_add, Z.mod_small; lia.
Qed.

(** A block's worth of bytes fills the buffer, also when it is full already. *)
Lemma add_leading_fill c full p l :
  represents c full p → (0 < length p ≤ 64)%nat → (64 ≤ length l)%nat →
  ∃ bw, Blockwise.add_leading 64 (blockwise c) l = (bw, drop (64 - length p) l)
    ∧ represents (set_blockwise c bw) full (p ++ take (64 - length p) l).
Proof.
  intros Hr Hp Hl. destruct (decide (length p = 64)%nat) as [E|E].
  - exists (blockwise c). rewrite E. cbn [Nat.sub take drop].
    split; [|by rewrite app_nil_r, set_blockwise_id].
    unfold Blockwise.add_leading. rewrite (repr_used _ _ _ Hr), E. cbn [Nat.sub].
    rewrite Nat.min_r by lia. cbn [take drop]. f_equal.
    destruct c as [? [bf us] ?]. cbn [blockwise Blockwise.buffer Blockwise.used] in *. f_equal.
    + unfold splice. rewrite take_0. change (length []) with 0%nat.
      by rewrite Nat.add_0_r, app_nil_l, take_drop.
    + pose proof (repr_used _ _ _ Hr) as Hu. cbn in Hu. lia.
  - destruct (add_leading_spec _ _ _ l Hr ltac:(lia)) as [E1 Hr2].
    change BLOCK_SZ with 64%nat in *.
    rewrite Nat.min_r in E1, Hr2 by lia. eexists. by split; [exact E1|].
Qed.

(** The buffer's final blocks: what it holds, the bit, zeros, the length. *)
Lemma md_pad_spec c full pend lb :
  represents c full pend → (length pend < 64)%nat → length lb = 8%nat →
  ∃ bw f, Blockwise.md_pad_with_length BLOCK_SZ (blockwise c) lb = (bw, Some f)
    ∧ final_blocks_as_ref f
      = pend ++ [x80] ++ replicate (Fips.zero_bytes (length pend)) x00 ++ lb.
Proof.
  intros Hr Hp Hlb. unfold Blockwise.md_pad_with_length.
  rewrite (repr_used _ _ _ Hr), Hlb. change BLOCK_SZ with 64%nat.
  destruct (Nat.ltb_spec (64 - length pend) (1 + 8)) as [H|H].
  - destruct (add_leading_spec _ _ _ [x80] Hr ltac:(lia)) as [E Hr1].
    change BLOCK_SZ with 64%nat in *. cbn [length] in E, Hr1.
    rewrite Nat.min_l in E, Hr1 by lia. rewrite E. clear E.
    set (c1 := set_blockwise _ _) in Hr1. cbn [take drop firstn skipn] in *.
    set (z := replicate 64 x00).
    change (Blockwise.mk _ (length pend + 1)) with (blockwise c1).
    destruct (add_leading_fill c1 full _ z Hr1) as (bw & -> & Hr2);
      [rewrite length_app; cbn; lia|subst z; rewrite length_replicate; lia|].
    rewrite length_app in Hr2. change (length [x80]) with 1%nat in Hr2.
    replace (64 - (length pend + 1))%nat with (63 - length pend)%nat in * by lia.
    rewrite <- (assoc_L (++)) in Hr2.
    destruct (represents_take_full _ _ _ Hr2) as [E2 _].
    { rewrite !length_app, length_take. subst z. rewrite length_replicate. cbn. lia. }
    cbn [set_blockwise blockwise] in E2. change BLOCK_SZ with 64%nat in E2. rewrite E2.
    cbn [fmap option_fmap option_map]. eexists _, _. split; [done|].
    cbn [final_blocks_as_ref]. unfold splice. rewrite Hlb, zero_bytes_large by lia.
    subst z. rewrite !take_replicate, drop_ge by (rewrite length_replicate; lia).
    rewrite app_nil_r, <- !(assoc_L (++)). f_equal. cbn [app]. f_equal.
    rewrite (assoc_L (++)). f_equal. rewrite <- replicate_add. f_equal. lia.
  - eexists _, _. split; [done|]. cbn [final_blocks_as_ref].
    rewrite (repr_pend _ _ _ Hr), zero_bytes_small by lia.
    do 2 f_equal. f_equal. f_equal. lia.
Qed.

Lemma length_pad m : (length (Fips.pad m) mod 64 = 0)%nat.
Proof.
  unfold Fips.pad, Fips.padding. rewrite !length_app, length_replicate, length_be_bytes.
  cbn [length]. unfold Fips.zero_bytes.
  apply Nat2Z.inj. rewrite Nat2Z.inj_mod, !Nat2Z.inj_add.
  rewrite Z2Nat.id by (apply Z.mod_pos_bound; lia).
  change (Z.of_nat 1) with 1. change (Z.of_nat 8) with 8.
  change (Z.of_nat 64) with 64. change (Z.of_nat 0) with 0.
  pose proof (Z.div_mod (55 - Z.of_nat (length m)) 64 ltac:(lia)).
  replace (Z.of_nat (length m) + (1 + ((55 - Z.of_nat (length m)) mod 64 + 8)))
    with (0 + (1 - (55 - Z.of_nat (length m)) / 64) * 64) by lia.
  by rewrite Z.mod_add.
Qed.

(** Closing a context that holds [m]. *)
Lemma finish_holds {E} c m :
  holds c m →
  finish (E:=E) c = if 8 * Z.of_nat (length m) <=? u64_max
                    then Ok (Fips.sha256 m) else Panic.
Proof.
  intros (full & pend & Hr & Hp & ->). unfold finish.
  pose proof (repr_full _ _ _ Hr) as Hfull.
  pose proof (Nat.div_mod_eq (length full) 64) as Hdiv.
  rewrite (repr_nblocks _ _ _ Hr), (repr_used _ _ _ Hr).
  change (Z.of_nat BLOCK_SZ) with 64. unfold usize_max.
  assert (u64_max = 18446744073709551615) as Hmax by done.
  destruct (Z.leb_spec (8 * Z.of_nat (length (full ++ pend))) u64_max) as [H|H];
    rewrite length_app in H.
  - rewrite Z.min_l by lia. rewrite checked_some by lia. cbn [mbind option_bind].
    rewrite checked_some by lia. cbn [or_panic mbind result_bind].
    rewrite checked_some by lia. cbn [or_panic mbind result_bind].
    replace ((Z.of_nat (length full / 64) * 64 + Z.of_nat (length pend)) * 8)
      with (8 * Z.of_nat (length (full ++ pend))) by (rewrite length_app; lia).
    rewrite as_u64_small by (rewrite length_app; unfold u64_max in *; lia).
    destruct (md_pad_spec _ _ _ (be_bytes 8 (8 * Z.of_nat (length (full ++ pend)))) Hr Hp)
      as (bw & f & -> & Hf); [apply length_be_bytes|].
    cbn [or_panic mbind result_bind]. f_equal. unfold Fips.sha256. do 2 f_equal.
    rewrite h_update_blocks. cbn [set_blockwise h].
    rewrite (repr_h _ _ _ Hr), Hf, <- hash_blocks_app by done. f_equal.
    unfold Fips.pad, Fips.padding. rewrite <- (assoc_L (++)).
    rewrite (zero_bytes_mod (length (full ++ pend))), length_app.
    rewrite mod64_add, <- zero_bytes_mod by done. done.
  - destruct (Z.le_gt_cases (Z.of_nat (length full / 64)) u64_max) as [H1|H1].
    + rewrite Z.min_l by lia.
      destruct (checked u64_max (Z.of_nat (length full / 64) * 64)) eqn:E1; [|done].
      apply checked_inv in E1 as ->. cbn [mbind option_bind].
      destruct (checked u64_max (_ + _)) eqn:E2; [|done].
      apply checked_inv in E2 as ->. cbn [or_panic mbind result_bind].
      by rewrite checked_none by lia.
    + rewrite Z.min_r by lia. rewrite checked_none by lia. done.
Qed.

(** C12: hashing any sequence of slices with [Context::update] and
    [Context::finish] gives the FIPS 180-4 hash of their concatenation, and
    panics exactly when the length in bits does not fit 64 bits. *)
Theorem digest_from_fips {E} (slices : list (list byte)) :
  digest_from (E:=E) slices =
  if 8 * Z.of_nat (length (concat slices)) <=? u64_max
  then Ok (Fips.sha256 (concat slices)) else Panic.
Proof. unfold digest_from. apply finish_holds, (updates_hold _ []), holds_new. Qed.
