(* ===== verification/Sha256Words.v ===== *)
(** * The words of SHA-256

    The functions on 32-bit words bit by bit, as FIPS 180-4 section 4.1.2 reads
    them, and the constants from their definition in sections 4.2.2 and 5.3.3:
    the fractional parts of roots of the first primes.  [Sha256Spec] shares these
    definitions with the code, so this file is what ties them to the standard. *)
From S2P Require Import Prelude Bytes Sha256 Sha256Spec.

(** ** Bits *)

Definition word (x : Z) : Prop := 0 ≤ x < 2 ^ 32.

Lemma word_bits x i : word x → 32 ≤ i → Z.testbit x i = false.
Proof.
  intros [Hx0 Hx] Hi. destruct (Z.eq_dec x 0) as [->|]; [apply Z.bits_0|].
  apply Z.bits_above_log2; [done|]. apply Z.lt_le_trans with 32; [|done].
  apply Z.log2_lt_pow2; lia.
Qed.

Lemma ones_32 i : 0 ≤ i < 32 → Z.testbit (2 ^ 32 - 1) i = true.
Proof. intros. change (2 ^ 32 - 1) with (Z.ones 32). by apply Z.ones_spec_low. Qed.

Lemma rotate_right_bit x n i :
  word x → 0 < n < 32 → 0 ≤ i < 32 →
  Z.testbit (rotate_right x n) i = Z.testbit x ((i + n) mod 32).
Proof.
  intros Hx Hn Hi. unfold rotate_right.
  rewrite Z.lor_spec, Z.land_spec, ones_32, andb_true_r by done.
  rewrite Z.shiftr_spec, Z.shiftl_spec by lia.
  destruct (Z.lt_ge_cases (i + n) 32).
  - rewrite (Z.testbit_neg_r x (i - (32 - n))) by lia.
    by rewrite orb_false_r, Z.mod_small by lia.
  - rewrite (word_bits x (i + n)) by done. cbn [orb]. f_equal.
    apply (Z.mod_unique _ _ 1); lia.
Qed.

Lemma not32_bit x i : 0 ≤ i < 32 → Z.testbit (not32 x) i = negb (Z.testbit x i).
Proof. intros. unfold not32. by rewrite Z.lxor_spec, ones_32, xorb_true_r. Qed.

(** Three bits added without carry, and their majority. *)
Definition xor3 (a b c : bool) : bool := xorb (xorb a b) c.
Definition majority (a b c : bool) : bool := (a && b) || (a && c) || (b && c).
(** The bit that a rotation or a shift to the right by [n] brings to [i]. *)
Definition rot (x n i : Z) : bool := Z.testbit x ((i + n) mod 32).
Definition shr (x n i : Z) : bool := (i + n <? 32) && Z.testbit x (i + n).

Lemma shiftr_bit x n i :
  word x → 0 ≤ n → 0 ≤ i → Z.testbit (Z.shiftr x n) i = shr x n i.
Proof.
  intros Hx Hn Hi. unfold shr. rewrite Z.shiftr_spec by done.
  destruct (Z.ltb_spec (i + n) 32); [done|]. by apply word_bits.
Qed.

(** Bit by bit: [ch] chooses, [maj] takes the majority, the sigma functions add
    two or three rotations and a shift by the amounts of FIPS 180-4, 4.1.2. *)
Theorem word_functions_bits (x y z i : Z) :
  word x → 0 ≤ i < 32 →
  Z.testbit (ch x y z) i = (if Z.testbit x i then Z.testbit y i else Z.testbit z i)
  ∧ Z.testbit (maj x y z) i = majority (Z.testbit x i) (Z.testbit y i) (Z.testbit z i)
  ∧ Z.testbit (bsig0 x) i = xor3 (rot x 2 i) (rot x 13 i) (rot x 22 i)
  ∧ Z.testbit (bsig1 x) i = xor3 (rot x 6 i) (rot x 11 i) (rot x 25 i)
  ∧ Z.testbit (ssig0 x) i = xor3 (rot x 7 i) (rot x 18 i) (shr x 3 i)
  ∧ Z.testbit (ssig1 x) i = xor3 (rot x 17 i) (rot x 19 i) (shr x 10 i).
Proof.
  intros Hx Hi. unfold ch, maj, bsig0, bsig1, ssig0, ssig1, xor3, rot, majority.
  rewrite !Z.lxor_spec, !Z.land_spec, not32_bit by done.
  rewrite !rotate_right_bit by (done || lia). rewrite !shiftr_bit by (done || lia).
  repeat split; by destruct (Z.testbit x i), (Z.testbit y i), (Z.testbit z i).
Qed.

Lemma word_functions_bits_witness :
  word 0x80000001 ∧ Z.testbit (bsig0 0x80000001) 31
  = xor3 (rot 0x80000001 2 31) (rot 0x80000001 13 31) (rot 0x80000001 22 31).
Proof.
  split; [done|].
  by apply (proj1 (proj2 (proj2 (word_functions_bits 0x80000001 0 0 31 ltac:(done) ltac:(lia))))).
Defined.

(** ** Constants *)

Definition is_prime (n : nat) : bool :=
  (2 <=? n)%nat && forallb (λ d, negb (n mod d =? 0)%nat) (seq 2 (n - 2)).
Definition primes_below (n : nat) : list Z := Z.of_nat <$> filter (λ p, is_prime p = true) (seq 0 n).

(** [w] is the first 32 bits of the fractional part of the [k]-th root of [p]:
    the root scaled by 2^32 and rounded down is [w] modulo 2^32. *)
Definition root_bits (k p w : Z) : Prop :=
  ∃ r, r ^ k ≤ p * 2 ^ (32 * k) < (r + 1) ^ k ∧ w = r mod 2 ^ 32.

(** A root found by trying integer parts below 18, enough for primes below 312. *)
Definition root_bits_check (k p w : Z) : bool :=
  existsb (λ q, let r := Z.of_nat q * 2 ^ 32 + w in
                (r ^ k <=? p * 2 ^ (32 * k)) && (p * 2 ^ (32 * k) <? (r + 1) ^ k)) (seq 0 18)
  && (0 <=? w) && (w <? 2 ^ 32).

Lemma root_bits_sound k p w : root_bits_check k p w = true → root_bits k p w.
Proof.
  unfold root_bits_check. rewrite !andb_true_iff. intros [[Hq H0] H1].
  apply existsb_exists in Hq as (q & _ & Hq). apply andb_true_iff in Hq as [Hl Hr].
  apply Z.leb_le in Hl, H0. apply Z.ltb_lt in Hr, H1.
  exists (Z.of_nat q * 2 ^ 32 + w). split; [done|].
  rewrite Z.add_comm, Z.mod_add by done. symmetry. by apply Z.mod_small.
Qed.

Lemma root_bits_list k ps ws :
  forallb (λ pw, root_bits_check k pw.1 pw.2) (zip ps ws) = true →
  length ps = length ws → Forall2 (root_bits k) ps ws.
Proof.
  revert ws. induction ps as [|p ps IH]; intros [|w ws] Hc Hl; try discriminate Hl.
  - constructor.
  - apply andb_true_iff in Hc as [Hp Hps]. injection Hl as Hl.
    constructor; [by apply root_bits_sound|by apply IH].
Qed.

(** C29: The round constants are the first 32 bits of the fractional parts of the cube
    roots of the first 64 primes, and the initial hash value those of the square
    roots of the first eight. *)
Theorem constants_are_roots :
  length K = 64%nat ∧ length H_INIT = 8%nat
  ∧ Forall2 (root_bits 3) (primes_below 312) K
  ∧ Forall2 (root_bits 2) (primes_below 20) H_INIT.
Proof.
  split; [done|]. split; [done|].
  split; apply root_bits_list; by vm_compute.
Qed.

(** ** The compression function *)

(** The rolling window of 16 words and the wrapping additions compute the FIPS
    compression function, with its full schedule of 64 words, on every block. *)
Theorem compress_blocks_is_fips (state : list Z) (blocks : list byte) :
  sha256_compress_blocks state blocks
  = foldl Fips.compress state (chunks 64 (length blocks / 64) blocks).
Proof. apply compress_blocks_fips. Qed.

(** ** Test vectors *)

Example sha256_abc :
  digest_from (E := unit) [as_bytes "ab"; as_bytes "c"]
  = Ok (be_bytes 32 0xba7816bf8f01cfea414140de5dae2223b00361a396177a9cb410ff61f20015ad).
Proof. by vm_compute. Qed.

Example sha256_empty :
  digest_from (E := unit) []
  = Ok (be_bytes 32 0xe3b0c44298fc1c149afbf4c8996fb92427ae41e4649b934ca495991b7852b855).
Proof. by vm_compute. Qed.
