(* ===== verification/Sha256Type.v ===== *)
(** * The type of a hashing context

    What every [Context] of [upki/src/sha256.rs] satisfies whatever is fed to it:
    eight 32-bit words, a full-size buffer that is never left full, a counter in
    range; and a digest has 32 bytes. *)
From S2P Require Import Prelude Bytes Sha256 Sha256Spec.

Definition u32 (w : Z) : Prop := 0 ≤ w < 2 ^ 32.

Record context_wf (c : Context) : Prop := {
  wf_words : length (h c) = 8%nat ∧ Forall u32 (h c);
  wf_buffer : length (Blockwise.buffer (blockwise c)) = BLOCK_SZ;
  wf_used : (Blockwise.used (blockwise c) < BLOCK_SZ)%nat;
  wf_nblocks : 0 ≤ nblocks c ≤ usize_max }.

(** A buffer that may be full. *)
Definition buffer_wf (b : Blockwise.t) : Prop :=
  length (Blockwise.buffer b) = BLOCK_SZ ∧ (Blockwise.used b ≤ BLOCK_SZ)%nat.

Lemma splice_length dst i src :
  (i + length src ≤ length dst)%nat → length (splice dst i src) = length dst.
Proof. intros. unfold splice. rewrite !length_app, length_take, length_drop. lia. Qed.

Lemma wrapping_add_u32 x y : u32 (wrapping_add x y).
Proof. unfold u32, wrapping_add. by apply Z.mod_pos_bound. Qed.
#[export] Hint Resolve wrapping_add_u32 : upki.

Lemma compress_block_words state block :
  length (sha256_compress_block state block) = 8%nat
  ∧ Forall u32 (sha256_compress_block state block).
Proof.
  unfold sha256_compress_block. destruct (foldl _ _ _) as [w r]. split; [done|].
  repeat (apply Forall_cons; split; [auto with upki|]). apply Forall_nil_2.
Qed.

Lemma compress_blocks_words state blocks :
  length state = 8%nat ∧ Forall u32 state →
  length (sha256_compress_blocks state blocks) = 8%nat
  ∧ Forall u32 (sha256_compress_blocks state blocks).
Proof.
  unfold sha256_compress_blocks. generalize (chunks 64 (length blocks / 64) blocks).
  intros l. revert state. induction l as [|b l IH]; intros state Hs; [done|].
  apply IH, compress_block_words.
Qed.

Lemma update_blocks_wf c blocks : context_wf c → context_wf (update_blocks c blocks).
Proof.
  intros [Hw Hb Hu Hn]. destruct blocks as [|x blocks]; [done|].
  split; cbn [update_blocks h blockwise nblocks]; [by apply compress_blocks_words|done..|].
  unfold saturating_add. pose proof (Zle_0_nat (length (x :: blocks) / BLOCK_SZ)).
  assert (0 ≤ usize_max) by done. lia.
Qed.

Lemma set_blockwise_wf c b :
  context_wf c → buffer_wf b → (Blockwise.used b < BLOCK_SZ)%nat →
  context_wf (set_blockwise c b).
Proof. intros [Hw _ _ Hn] [Hb _] Hu. by split. Qed.

(** Topping up the buffer leaves input only when that fills it. *)
Lemma add_leading_wf b bytes b' rest :
  buffer_wf b → (Blockwise.used b < BLOCK_SZ)%nat →
  Blockwise.add_leading BLOCK_SZ b bytes = (b', rest) →
  buffer_wf b' ∧ (Blockwise.used b' = 0%nat ∨ Blockwise.used b' = BLOCK_SZ ∨ rest = []).
Proof.
  intros [Hb Hle] Hlt. unfold Blockwise.add_leading.
  destruct (Nat.eqb_spec (Blockwise.used b) 0) as [E|E].
  { intros [= <- <-]. split; [done|by left]. }
  set (n := Nat.min (length bytes) (BLOCK_SZ - Blockwise.used b)).
  assert (n ≤ length bytes ∧ n ≤ BLOCK_SZ - Blockwise.used b)%nat as [Hn1 Hn2] by lia.
  intros [= <- <-]. unfold buffer_wf. cbn [Blockwise.buffer Blockwise.used]. split; [split|].
  - rewrite splice_length; [done|]. rewrite length_take, Hb. lia.
  - lia.
  - destruct (decide (n = length bytes)) as [->|Hne]; [|right; left; lia].
    right. right. by rewrite drop_all.
Qed.

Lemma take_block_wf b b' block :
  buffer_wf b → Blockwise.take_block BLOCK_SZ b = (b', block) →
  buffer_wf b' ∧ (Blockwise.used b' < BLOCK_SZ)%nat
  ∧ (Blockwise.used b = BLOCK_SZ ∧ Blockwise.used b' = 0%nat ∨ b' = b).
Proof.
  intros [Hb Hu]. unfold Blockwise.take_block.
  destruct (Nat.eqb_spec (Blockwise.used b) BLOCK_SZ) as [E|E]; intros [= <- <-].
  - unfold buffer_wf. cbn [Blockwise.buffer Blockwise.used]. unfold BLOCK_SZ in *.
    repeat split; [done|lia..|by left].
  - split; [done|]. split; [lia|by right].
Qed.

(** What [update] keeps for the next call fits the buffer. *)
Lemma add_trailing_wf b rest :
  buffer_wf b → (Blockwise.used b + length rest < BLOCK_SZ)%nat →
  buffer_wf (Blockwise.add_trailing b rest)
  ∧ (Blockwise.used (Blockwise.add_trailing b rest) < BLOCK_SZ)%nat.
Proof.
  intros [Hb Hu] Hl. unfold buffer_wf, Blockwise.add_trailing.
  cbn [Blockwise.buffer Blockwise.used]. rewrite splice_length by lia. lia.
Qed.

Lemma remainder_length n :
  (n - (n - Z.to_nat (Z.land (Z.of_nat n) (Z.of_nat BLOCK_SZ - 1))) < BLOCK_SZ)%nat.
Proof.
  change (Z.of_nat BLOCK_SZ - 1) with (Z.ones 6). rewrite Z.land_ones by lia.
  pose proof (Z.mod_pos_bound (Z.of_nat n) (2 ^ 6)). unfold BLOCK_SZ. lia.
Qed.

Lemma update_wf c bytes : context_wf c → context_wf (update c bytes).
Proof.
  intros Hc. unfold update. destruct (_ && _); [by apply update_blocks_wf|].
  destruct (Blockwise.add_leading _ _ _) as [b1 rest] eqn:Ea.
  destruct (Blockwise.take_block _ _) as [b2 block] eqn:Et.
  pose proof (wf_used _ Hc) as Hu.
  apply add_leading_wf in Ea as [Hb1 Hor]; [|split; [apply Hc|lia]|done].
  apply take_block_wf in Et as (Hb2 & Hu2 & Hor2); [|done].
  set (c1 := match block with Some _ => _ | None => _ end).
  assert (context_wf c1 ∧ blockwise c1 = b2) as [Hc1 Hb].
  { pose proof (set_blockwise_wf c b2 Hc Hb2 Hu2) as Hs. subst c1.
    destruct block as [[|x l]|]; [done| |done]. by split; [apply update_blocks_wf|]. }
  cbv zeta. set (whole := take _ rest). set (tail := drop _ rest).
  assert (blockwise (update_blocks c1 whole) = b2) as Hw by (rewrite <- Hb; by destruct whole).
  rewrite Hw.
  assert (Blockwise.used b2 + length tail < BLOCK_SZ)%nat as Hl.
  { assert (length tail < BLOCK_SZ)%nat by (subst tail; rewrite length_drop; apply remainder_length).
    destruct Hor2 as [[_ ->]| ->]; [done|].
    destruct Hor as [->|[E|E]]; [done|lia|]. subst tail. rewrite E, drop_nil. cbn. lia. }
  destruct (add_trailing_wf b2 tail Hb2 Hl).
  by apply set_blockwise_wf; [apply update_blocks_wf| |].
Qed.

Lemma finish_type {E} c d : context_wf c → finish (E := E) c = Ok d → length d = OUTPUT_SZ.
Proof.
  intros Hc. unfold finish. intros (bytes & _ & Hf)%result_bind_ok.
  apply result_bind_ok in Hf as (bits & _ & Hf).
  destruct (Blockwise.md_pad_with_length _ _ _) as [b last].
  apply result_bind_ok in Hf as (last' & _ & Hf).
  assert (d = concat (be_bytes 4 <$> h (update_blocks (set_blockwise c b)
            (final_blocks_as_ref last')))) as -> by congruence. clear Hf.
  assert (length (h (update_blocks (set_blockwise c b) (final_blocks_as_ref last'))) = 8%nat)
    as Hl.
  { destruct (final_blocks_as_ref last'); [apply Hc|]. apply compress_blocks_words, Hc. }
  revert Hl. generalize (h (update_blocks (set_blockwise c b) (final_blocks_as_ref last'))).
  intros l Hl. rewrite (length_concat_const 4); [by rewrite length_fmap, Hl|].
  apply Forall_fmap, Forall_forall. intros. apply length_be_bytes.
Qed.

(** ** Theorem *)

(** C19: Typing of the hash: a new [Context] is well-formed (eight 32-bit words, a
    64-byte buffer that is never left full, a counter that fits a [usize]),
    [update] keeps it so whatever it is fed, and a digest has 32 bytes. *)
Theorem context_well_typed {E} :
  context_wf context_new
  ∧ (∀ c bytes, context_wf c → context_wf (update c bytes))
  ∧ ∀ c d, context_wf c → finish (E := E) c = Ok d → length d = OUTPUT_SZ.
Proof.
  split; [|split; [apply update_wf|apply finish_type]].
  split; cbn; [split; [done|]|done|unfold BLOCK_SZ; lia|done].
  repeat (apply Forall_cons; split; [done|]). apply Forall_nil_2.
Qed.

Lemma context_well_typed_witness :
  context_wf (update context_new [x61; x62; x63])
  ∧ ∃ d, finish (E := unit) (update context_new [x61; x62; x63]) = Ok d ∧ length d = OUTPUT_SZ.
Proof.
  destruct (context_well_typed (E := unit)) as (Hn & Hu & Hf).
  split; [by apply Hu|].
  destruct (finish (E := unit) (update context_new [x61; x62; x63])) as [d|e|] eqn:Ed;
    [|by vm_compute in Ed..].
  exists d. split; [done|]. exact (Hf _ _ (Hu _ _ Hn) Ed).
Defined.
