(* ===== verification/Sha256Tests.v ===== *)
(** * The unit tests of [upki/src/sha256.rs]

    [test] hashes an input in one shot, through a context, and byte by byte;
    [sha256_all_lengths] hashes the hashes of 1024 messages.  Both are shown to
    compare with FIPS 180-4, so that the tests say of the code exactly what their
    vectors say of the standard; the vectors of [test_vectors] are evaluated. *)
From S2P Require Import Prelude Bytes Sha256 Sha256Spec.

(** ** The tests *)

(** The helper of [test_vectors]: [Ok false] when an assertion fails. *)
Definition test (input expected : list byte) : Result unit bool :=
  one_shot ← digest_from [input];
  context ← finish (update context_new input);
  incremental ← finish (foldl (λ ctx byte, update ctx [byte]) context_new input);
  Ok (bool_decide (one_shot = expected) && bool_decide (context = expected)
      && bool_decide (incremental = expected)).

Definition vectors : list (list byte * list byte) :=
  [ (as_bytes "hello",
     be_bytes 32 0x2cf24dba5fb0a30e26e83b2ac5b9e29e1b161e5c1fa7425e73043362938b9824);
    (as_bytes "",
     be_bytes 32 0xe3b0c44298fc1c149afbf4c8996fb92427ae41e4649b934ca495991b7852b855);
    (as_bytes "abc",
     be_bytes 32 0xba7816bf8f01cfea414140de5dae2223b00361a396177a9cb410ff61f20015ad);
    (as_bytes "abcdbcdecdefdefgefghfghighijhijkijkljklmklmnlmnomnopnopq",
     be_bytes 32 0x248d6a61d20638b8e5c026930c3e6039a33ce45964ff2167f6ecedd419db06c1);
    (as_bytes ("abcdefghbcdefghicdefghijdefghijkefghijklfghijklmghijklmn" +:+
               "hijklmnoijklmnopjklmnopqklmnopqrlmnopqrsmnopqrstnopqrstu"),
     be_bytes 32 0xcf5b16a778af8380036ce59e7b0492370b249b11e8f07a51afac45037afee9d1) ].

(** The digest of one length: [len] bytes [len as u8], one at a time. *)
Definition inner_digest (len : nat) : Result unit (list byte) :=
  finish (foldl (λ inner _, update inner [byte_of (Z.of_nat len)]) context_new (seq 0 len)).

(** The outer context after some lengths, and the digest the test compares. *)
Fixpoint outer_lengths (lens : list nat) (outer : Context) : Result unit Context :=
  match lens with
  | [] => Ok outer
  | len :: rest => digest ← inner_digest len; outer_lengths rest (update outer digest)
  end.
Definition sha256_all_lengths : Result unit (list byte) :=
  outer ← outer_lengths (seq 0 1024) context_new; finish outer.

(** ** Theorems *)

Lemma incremental_update (l : list byte) c :
  foldl (λ ctx byte, update ctx [byte]) c l = foldl update c ((λ b, [b]) <$> l).
Proof. revert c. induction l as [|b l IH]; intros c; [done|]. apply IH. Qed.

Lemma concat_singletons {A} (l : list A) : concat ((λ b, [b]) <$> l) = l.
Proof. induction l as [|b l IH]; [done|]. rewrite fmap_cons. cbn [concat app]. by rewrite IH. Qed.

Lemma finish_slices {E} slices :
  finish (E := E) (foldl update context_new slices)
  = if 8 * Z.of_nat (length (concat slices)) <=? u64_max
    then Ok (Fips.sha256 (concat slices)) else Panic.
Proof. apply finish_holds, (updates_hold _ []), holds_new. Qed.

(** A vector passes iff its digest is that of the standard. *)
Theorem test_iff_fips (input expected : list byte) :
  8 * Z.of_nat (length input) ≤ u64_max →
  test input expected = Ok (bool_decide (Fips.sha256 input = expected)).
Proof.
  intros Hl%Z.leb_le. unfold test, digest_from.
  rewrite incremental_update, (finish_slices (_ <$> input)), concat_singletons.
  change (update context_new input) with (foldl update context_new [input]).
  rewrite !(finish_slices [input]). cbn [concat]. rewrite app_nil_r, Hl.
  cbn [mbind result_bind]. by rewrite !andb_diag.
Qed.

Lemma inner_digest_spec len :
  8 * Z.of_nat len ≤ u64_max →
  inner_digest len = Ok (Fips.sha256 (replicate len (byte_of (Z.of_nat len)))).
Proof.
  intros Hl%Z.leb_le. unfold inner_digest.
  assert (∀ c k b, foldl (λ inner (_ : nat), update inner [b]) c (seq k len)
            = foldl update c (replicate len [b])) as ->.
  { clear Hl. induction len as [|n IH]; intros c k b; [done|]. apply IH. }
  rewrite finish_slices.
  assert (concat (replicate len [byte_of (Z.of_nat len)]) = replicate len (byte_of (Z.of_nat len)))
    as ->.
  { generalize (byte_of (Z.of_nat len)). clear Hl. intros b.
    induction len as [|n IH]; [done|]. cbn [replicate concat app]. by rewrite IH. }
  by rewrite length_replicate, Hl.
Qed.

Lemma outer_lengths_holds lens c m :
  Forall (λ n, 8 * Z.of_nat n ≤ u64_max) lens → holds c m →
  ∃ c', outer_lengths lens c = Ok c'
        ∧ holds c' (m ++ concat ((λ n, Fips.sha256 (replicate n (byte_of (Z.of_nat n)))) <$> lens)).
Proof.
  intros Hl. revert c m. induction Hl as [|n lens Hn _ IH]; intros c m Hc; cbn [outer_lengths].
  { exists c. by rewrite app_nil_r. }
  rewrite inner_digest_spec by done. cbn [mbind result_bind].
  destruct (IH _ _ (update_holds c m (Fips.sha256 (replicate n (byte_of (Z.of_nat n)))) Hc)) as (c' & -> & Hc'). exists c'.
  split; [done|]. rewrite fmap_cons. cbn [concat]. by rewrite (assoc_L (++)).
Qed.

(** The messages whose hashes are hashed. *)
Definition length_digests (lens : list nat) : list byte :=
  concat ((λ n, Fips.sha256 (replicate n (byte_of (Z.of_nat n)))) <$> lens).

Lemma lengths_fips lens :
  Forall (λ n, 8 * Z.of_nat n ≤ u64_max) lens →
  (outer ← outer_lengths lens context_new; finish outer)
  = if 8 * Z.of_nat (length (length_digests lens)) <=? u64_max
    then Ok (Fips.sha256 (length_digests lens)) else Panic.
Proof.
  intros Hl. destruct (outer_lengths_holds lens context_new [] Hl holds_new) as (c & -> & Hc).
  cbn [mbind result_bind]. apply (finish_holds c (length_digests lens)). exact Hc.
Qed.

(** What the all-lengths test compares: the hash, by the standard, of the hashes of
    the messages of every length below 1024. *)
Theorem all_lengths_fips :
  sha256_all_lengths
  = if 8 * Z.of_nat (length (length_digests (seq 0 1024))) <=? u64_max
    then Ok (Fips.sha256 (length_digests (seq 0 1024))) else Panic.
Proof.
  apply lengths_fips, Forall_forall. intros n [_ Hn]%elem_of_seq.
  assert (Z.of_nat n < 1024) by lia. unfold u64_max. lia.
Qed.

(** The module's test vectors pass: the code, in one shot, through a context and
    byte by byte, gives the five digests of [test_vectors]. *)
Theorem test_vectors : Forall (λ v, test v.1 v.2 = Ok true) vectors.
Proof. repeat (apply Forall_cons; split); [..|apply Forall_nil_2]; by_vm. Qed.

Lemma test_iff_fips_witness :
  test [x61; x62; x63] [] = Ok (bool_decide (Fips.sha256 [x61; x62; x63] = [])).
Proof. by apply test_iff_fips. Defined.
