(* ===== verification/FileSys.v ===== *)
(** * Paths and the file system

    What the code uses of [std::path] and [std::fs].  A path is the string of
    its bytes.  A file system holds regular files and directories under literal
    paths, and says for each operation and path whether the operating system
    refuses it: permissions, a full disk and the like are arbitrary refusals,
    so a theorem about any [Fs] holds whatever fails.  [tempfile], a crate the
    code calls, is the class [TempFile] with its documented laws. *)
From S2P Require Import Prelude Bytes.

(** ** Paths *)

Definition SLASH : byte := x2f.
Definition DOT : byte := x2e.

(** [str::ends_with] on bytes, and [str::strip_prefix]. *)
Fixpoint strip_prefix (p s : list byte) : option (list byte) :=
  match p, s with
  | [], _ => Some s
  | x :: p', y :: s' => if decide (x = y) then strip_prefix p' s' else None
  | _ :: _, [] => None
  end.
Definition ends_with (s suffix : string) : bool :=
  match strip_prefix (reverse (as_bytes suffix)) (reverse (as_bytes s)) with
  | Some _ => true | None => false end.

Definition is_absolute (p : string) : bool :=
  match as_bytes p with b :: _ => bool_decide (b = SLASH) | [] => false end.

(** [Path::join]: an absolute second path replaces the first. *)
Definition path_join (a b : string) : string :=
  if is_absolute b then b
  else match reverse (as_bytes a) with
  | [] => b
  | c :: _ => if bool_decide (c = SLASH) then a +:+ b else a +:+ "/" +:+ b
  end.

(** Trailing separators and [/.] components of a reversed path. *)
Fixpoint trim_trailing (r : list byte) : list byte :=
  match r with
  | [] => []
  | c :: r' =>
      if decide (c = SLASH) then trim_trailing r'
      else match r' with
      | d :: r'' => if decide (c = DOT ∧ d = SLASH) then trim_trailing r'' else r
      | [] => r
      end
  end.

Fixpoint drop_component (r : list byte) : list byte :=
  match r with
  | [] => []
  | c :: r' => if decide (c = SLASH) then r else drop_component r'
  end.

(** [Path::parent] *)
Definition path_parent (p : string) : option string :=
  match trim_trailing (reverse (as_bytes p)) with
  | [] => None
  | r => Some (match drop_component r with
               | [] => ""
               | up => match trim_trailing up with
                       | [] => "/"
                       | t => String.string_of_list_byte (reverse t)
                       end
               end)
  end.

(** The components of a path; [Path]s are equal when these are. *)
Fixpoint split_slash (l acc : list byte) : list (list byte) :=
  match l with
  | [] => [reverse acc]
  | c :: l' => if decide (c = SLASH) then reverse acc :: split_slash l' []
               else split_slash l' (c :: acc)
  end.
Definition is_normal (c : list byte) : bool := negb (bool_decide (c = [] ∨ c = [DOT])).
Definition components (p : string) : bool * list (list byte) :=
  let cs := split_slash (as_bytes p) [] in
  (is_absolute p,
   match cs with
   | c :: cs' => (if bool_decide (c = [DOT]) then [c] else filter is_normal [c])
                 ++ filter is_normal cs'
   | [] => []
   end).
Definition path_eqb (a b : string) : bool := bool_decide (components a = components b).

(** The directories of [p]: itself and every parent. *)
Fixpoint ancestors (fuel : nat) (p : string) : list string :=
  match fuel with
  | O => [p]
  | S fuel' => p :: match path_parent p with
                    | Some q => ancestors fuel' q
                    | None => []
                    end
  end.

(** ** I/O errors ([std::io::Error] by kind) *)

Inductive IoError : Type :=
| NotFound | PermissionDenied | AlreadyExists | InvalidInput | InvalidData
| IsADirectory | NotADirectory | UnexpectedEof | OtherIo (msg : string).

#[export] Instance io_error_eq_dec : EqDecision IoError.
Proof. solve_decision. Defined.

Inductive IoOp : Type :=
| OpStat | OpOpen | OpRead | OpMetadata | OpReadDir | OpDirEntry | OpCreateDir
| OpWrite | OpRemove.

(** ** The file system *)

Record Fs := mkFs
  { files : gmap string (list byte);
    dirs : gset string;
    (** The refusal of an operation on a path, when there is one. *)
    faults : IoOp → string → option IoError;
    (** How many bytes a [read] call returns at most when [n] remain: the
        operating system may return fewer than asked for. *)
    read_size : nat → nat }.

Definition set_files (f : gmap string (list byte) → gmap string (list byte)) (fs : Fs) : Fs :=
  {| files := f (files fs); dirs := dirs fs; faults := faults fs; read_size := read_size fs |}.
Definition set_dirs (f : gset string → gset string) (fs : Fs) : Fs :=
  {| files := files fs; dirs := f (dirs fs); faults := faults fs; read_size := read_size fs |}.

(** A path with a NUL byte is no C string: every system call refuses it. *)
Definition guard_op {A} (fs : Fs) (op : IoOp) (p : string) (k : Result IoError A)
  : Result IoError A :=
  if negb (no_nul (as_bytes p)) then Err InvalidInput
  else match faults fs op p with Some e => Err e | None => k end.

(** [Path::exists] *)
Definition path_exists (fs : Fs) (p : string) : bool :=
  match guard_op fs OpStat p (Ok tt) with
  | Ok _ => bool_decide (is_Some (files fs !! p)) || bool_decide (p ∈ dirs fs)
  | _ => false
  end.

(** [File::open]: the contents behind the handle.  A directory opens, as on
    Unix, and refuses to be read. *)
Definition file_open (fs : Fs) (p : string) : Result IoError (list byte) :=
  guard_op fs OpOpen p
    match files fs !! p with
    | Some data => Ok data
    | None => if bool_decide (p ∈ dirs fs) then Ok [] else Err NotFound
    end.

(** Why every [read] on the open file [p] fails, if it does. *)
Definition handle_fault (fs : Fs) (p : string) : option IoError :=
  if bool_decide (is_Some (files fs !! p)) then faults fs OpRead p else Some IsADirectory.

(** [fs::read] *)
Definition fs_read (fs : Fs) (p : string) : Result IoError (list byte) :=
  data ← file_open fs p;
  match handle_fault fs p with Some e => Err e | None => Ok data end.

(** One [Read::read] of an open file with [rest] left, into a buffer of [n > 0]
    bytes: some bytes when there are any, as many as the system pleases. *)
Definition read_some (fs : Fs) (n : nat) (rest : list byte) : list byte * list byte :=
  let k := Nat.min (Nat.max 1 (read_size fs (length rest))) n in
  (take k rest, drop k rest).

(** [fs::read_dir] and its entries' names: the direct children of [dir]. *)
Definition child_name (dir p : string) : option string :=
  match strip_prefix (as_bytes (path_join dir "")) (as_bytes p) with
  | Some (c :: name) =>
      if bool_decide (SLASH ∈ c :: name) then None
      else Some (String.string_of_list_byte (c :: name))
  | _ => None
  end.
Definition read_dir (fs : Fs) (dir : string)
  : Result IoError (list (Result IoError string)) :=
  guard_op fs OpReadDir dir
    (if bool_decide (dir ∈ dirs fs) then
       Ok ((λ name, match faults fs OpDirEntry (path_join dir name) with
                    | Some e => Err e | None => Ok name end)
           <$> omap (child_name dir) (elements (dom (files fs) ∪ dirs fs)))
     else if bool_decide (is_Some (files fs !! dir)) then Err NotADirectory
     else Err NotFound).

(** [mkdir]: the directory above must be there. *)
Definition make_dir (p : string) : Eff Fs IoError unit := λ fs,
  match guard_op fs OpCreateDir p
          (if bool_decide (is_Some (files fs !! p) ∨ p ∈ dirs fs) then Err AlreadyExists
           else match path_parent p with
           | None => Err NotFound
           | Some up =>
               if bool_decide (up = "" ∨ up ∈ dirs fs) then Ok tt
               else if bool_decide (Exists (λ q, is_Some (files fs !! q))
                                           (ancestors (String.length up) up))
               then Err NotADirectory
               else Err NotFound
           end) with
  | Ok _ => (set_dirs (λ d, {[p]} ∪ d) fs, Ok tt)
  | Err e => (fs, Err e)
  | Panic => (fs, Panic)
  end.

(** [Path::is_dir] *)
Definition path_is_dir (fs : Fs) (p : string) : bool :=
  match guard_op fs OpStat p (Ok tt) with Ok _ => bool_decide (p ∈ dirs fs) | _ => false end.

(** What [create_dir_all] makes of a [mkdir]. *)
Definition make_dir_or_keep (p : string) : Eff Fs IoError unit := λ fs,
  match make_dir p fs with
  | (fs, Err e) => (fs, if path_is_dir fs p then Ok tt else Err e)
  | other => other
  end.

(** [fs::create_dir_all]: not atomic, so that the directories made before an error
    stay.  [fuel] bounds the number of parents. *)
Fixpoint create_dirs (fuel : nat) (p : string) : Eff Fs IoError unit := λ fs,
  if bool_decide (p = "") then (fs, Ok tt)
  else match make_dir p fs with
  | (fs, Err NotFound) =>
      match fuel, path_parent p with
      | S fuel', Some up => (_ ← create_dirs fuel' up; make_dir_or_keep p) fs
      | _, _ => (fs, Err (OtherIo "failed to create whole tree"))
      end
  | (fs, Err e) => (fs, if path_is_dir fs p then Ok tt else Err e)
  | other => other
  end.
Definition create_dir_all (p : string) : Eff Fs IoError unit :=
  create_dirs (String.length p) p.

(** [fs::remove_file] *)
Definition remove_file (p : string) : Eff Fs IoError unit := λ fs,
  match guard_op fs OpRemove p (Ok tt) with
  | Ok _ =>
      match files fs !! p with
      | Some _ => (set_files (delete p) fs, Ok tt)
      | None => (fs, Err (if bool_decide (p ∈ dirs fs) then IsADirectory else NotFound))
      end
  | Err e => (fs, Err e)
  | Panic => (fs, Panic)
  end.

(** [Write::write_all] on an open file.  A failed write leaves the old contents:
    the only files written are temporaries, removed when a write fails. *)
Definition write_all (p : string) (data : list byte) : Eff Fs IoError unit := λ fs,
  match faults fs OpWrite p with
  | Some e => (fs, Err e)
  | None => (set_files (<[p := data]>) fs, Ok tt)
  end.

(** [fs::write]: the file is created or truncated, then written; a write that
    fails leaves it truncated. *)
Definition parent_exists (fs : Fs) (p : string) : bool :=
  match path_parent p with
  | Some dir => bool_decide (dir = "" ∨ dir ∈ dirs fs)
  | None => false
  end.
Definition fs_write (p : string) (data : list byte) : Eff Fs IoError unit := λ fs,
  match guard_op fs OpOpen p
          (if bool_decide (p ∈ dirs fs) then Err IsADirectory
           else if parent_exists fs p then Ok tt else Err NotFound) with
  | Ok _ => write_all p data (set_files <[p := []]> fs)
  | Err e => (fs, Err e)
  | Panic => (fs, Panic)
  end.

(** ** Temporary files (the [tempfile] crate) *)

Class TempFile := {
  (** [Builder::suffix(..).tempfile_in(dir)]: the path of a new empty file. *)
  tempfile_in : string → string → Eff Fs IoError string;
  (** [NamedTempFile::persist]: rename over the target; the error of a
      [PersistError], whose file the caller drops. *)
  persist : string → string → Eff Fs IoError unit;
  (** Dropping a [NamedTempFile]. *)
  drop_temp : string → Fs → Fs
}.

(** What the documentation of [tempfile] promises: the file is new, [persist]
    replaces the target atomically, a failure changes nothing, and a dropped
    temporary is deleted. *)
Class TempFileLaws `{TempFile} : Prop := {
  tempfile_in_ok fs sfx dir fs' tmp :
    tempfile_in sfx dir fs = (fs', Ok tmp) →
    files fs !! tmp = None ∧ fs' = set_files (<[tmp := []]>) fs;
  tempfile_in_not_ok fs sfx dir fs' r :
    tempfile_in sfx dir fs = (fs', r) → is_ok r = false → fs' = fs ∧ r ≠ Panic;
  persist_ok fs tmp dst fs' data :
    persist tmp dst fs = (fs', Ok tt) → files fs !! tmp = Some data →
    fs' = set_files (λ m, <[dst := data]> (delete tmp m)) fs;
  persist_not_ok fs tmp dst fs' r :
    persist tmp dst fs = (fs', r) → is_ok r = false → fs' = fs ∧ r ≠ Panic;
  drop_temp_spec fs tmp : drop_temp tmp fs = set_files (delete tmp) fs
}.

(** ** Lemmas *)

Lemma as_bytes_inj a b : as_bytes a = as_bytes b → a = b.
Proof. intros H. rewrite <- (string_of_as_bytes a), <- (string_of_as_bytes b). by rewrite H. Qed.

Lemma path_join_inj a b c :
  is_absolute b = false → is_absolute c = false → path_join a b = path_join a c → b = c.
Proof.
  intros Hb Hc. unfold path_join. rewrite Hb, Hc.
  destruct (reverse (as_bytes a)) as [|x r]; [done|].
  case_bool_decide; intros E%(f_equal as_bytes); rewrite !as_bytes_app in E;
    apply as_bytes_inj; by simplify_list_eq.
Qed.

Lemma fs_write_ok p data fs fs' :
  fs_write p data fs = (fs', Ok tt) → fs' = set_files <[p := data]> fs.
Proof.
  unfold fs_write, write_all. destruct (guard_op _ _ _ _); [|done..]. cbn.
  destruct (faults fs OpWrite p); [done|]. intros [= <-].
  unfold set_files. cbn. by rewrite insert_insert_eq.
Qed.

Lemma guard_op_ok {A} fs op p (k : Result IoError A) :
  no_nul (as_bytes p) = true → faults fs op p = None → guard_op fs op p k = k.
Proof. unfold guard_op. by intros -> ->. Qed.

Lemma guard_op_inv {A} fs op p (k : Result IoError A) a :
  guard_op fs op p k = Ok a → k = Ok a ∧ no_nul (as_bytes p) = true ∧ faults fs op p = None.
Proof.
  unfold guard_op. destruct (no_nul _); [|done]. cbn.
  by destruct (faults fs op p).
Qed.

Lemma file_open_ok fs p data :
  no_nul (as_bytes p) = true → faults fs OpOpen p = None → files fs !! p = Some data →
  file_open fs p = Ok data.
Proof. intros Hn Ho Hf. unfold file_open. by rewrite guard_op_ok, Hf. Qed.

Lemma handle_fault_ok fs p data :
  files fs !! p = Some data → handle_fault fs p = faults fs OpRead p.
Proof. intros Hf. unfold handle_fault. by rewrite bool_decide_eq_true_2 by by rewrite Hf. Qed.

Lemma fs_read_inv fs p data :
  fs_read fs p = Ok data →
  files fs !! p = Some data ∧ no_nul (as_bytes p) = true
  ∧ faults fs OpOpen p = None ∧ faults fs OpRead p = None.
Proof.
  unfold fs_read, file_open. intros (d & (H & Hn & Ho)%guard_op_inv & Hr)%result_bind_ok.
  destruct (files fs !! p) as [d'|] eqn:Hf.
  - rewrite (handle_fault_ok _ _ _ Hf) in Hr. destruct (faults fs OpRead p); [done|].
    by simplify_eq.
  - unfold handle_fault in Hr. rewrite Hf in Hr. by rewrite bool_decide_eq_false_2 in Hr by done.
Qed.

Lemma fs_read_ok fs p data :
  no_nul (as_bytes p) = true → faults fs OpOpen p = None → faults fs OpRead p = None →
  files fs !! p = Some data → fs_read fs p = Ok data.
Proof.
  intros ? ? Hr Hf. unfold fs_read. rewrite (file_open_ok _ _ data) by done. cbn.
  by rewrite (handle_fault_ok _ _ _ Hf), Hr.
Qed.

Lemma fs_read_no_panic fs p : fs_read fs p ≠ Panic.
Proof. unfold fs_read, file_open, guard_op. by repeat case_match. Qed.

Lemma no_nul_path_join a b :
  no_nul (as_bytes (path_join a b)) = true → no_nul (as_bytes b) = true.
Proof.
  unfold path_join. destruct (is_absolute b); [done|].
  destruct (reverse (as_bytes a)) as [|c r]; [done|].
  case_bool_decide; rewrite !as_bytes_app, !no_nul_app, !andb_true_iff; tauto.
Qed.

(** ** Making directories *)

(** No more changed than that ancestors of [p], itself included, are directories now. *)
Record grown (p : string) (fs fs' : Fs) : Prop := {
  grown_files : files fs' = files fs;
  grown_faults : faults fs' = faults fs;
  grown_read : read_size fs' = read_size fs;
  grown_more : dirs fs ⊆ dirs fs';
  grown_only d : d ∈ dirs fs' → d ∈ dirs fs ∨ d ∈ ancestors (String.length p) p }.

Lemma ancestors_self k p : p ∈ ancestors k p.
Proof. destruct k; left. Qed.

Definition grown_by (k : nat) (p : string) (fs fs' : Fs) : Prop :=
  files fs' = files fs ∧ faults fs' = faults fs ∧ read_size fs' = read_size fs
  ∧ dirs fs ⊆ dirs fs' ∧ ∀ d, d ∈ dirs fs' → d ∈ dirs fs ∨ d ∈ ancestors k p.

Lemma grown_by_refl k p fs : grown_by k p fs fs.
Proof. split_and!; auto. Qed.

Lemma grown_by_trans k p fs1 fs2 fs3 :
  grown_by k p fs1 fs2 → grown_by k p fs2 fs3 → grown_by k p fs1 fs3.
Proof.
  intros (E1 & E2 & E3 & H1 & H2) (F1 & F2 & F3 & G1 & G2).
  split; [congruence|]. split; [congruence|]. split; [congruence|]. split; [set_solver|].
  intros d Hd. destruct (G2 d Hd); auto.
Qed.

Lemma make_dir_grown k p fs :
  grown_by k p fs (make_dir p fs).1 ∧ ((make_dir p fs).2 = Ok tt → p ∈ dirs (make_dir p fs).1).
Proof.
  unfold make_dir. destruct (guard_op _ _ _ _); cbn [fst snd];
    [|split; [apply grown_by_refl|done]..].
  split; [|intros _; cbn; set_solver].
  split_and!; [done..|cbn; set_solver|]. intros d [->%elem_of_singleton|?]%elem_of_union;
    [right; apply ancestors_self|by left].
Qed.

Lemma path_is_dir_elem fs p : path_is_dir fs p = true → p ∈ dirs fs.
Proof. unfold path_is_dir. destruct (guard_op _ _ _ _); [|done..]. apply bool_decide_eq_true_1. Qed.

Lemma make_dir_or_keep_grown k p fs :
  grown_by k p fs (make_dir_or_keep p fs).1
  ∧ ((make_dir_or_keep p fs).2 = Ok tt → p ∈ dirs (make_dir_or_keep p fs).1).
Proof.
  unfold make_dir_or_keep. destruct (make_dir_grown k p fs) as [Hg Hp].
  destruct (make_dir p fs) as [fs' [[]|e|]]; cbn [fst snd] in *; [auto| |auto].
  split; [done|]. destruct (path_is_dir fs' p) eqn:Hd; [|done]. intros _. by apply path_is_dir_elem.
Qed.

Lemma create_dirs_grown k p fs :
  grown_by k p fs (create_dirs k p fs).1
  ∧ ((create_dirs k p fs).2 = Ok tt → p = "" ∨ p ∈ dirs (create_dirs k p fs).1).
Proof.
  revert p fs. induction k as [|k IH]; intros p fs; cbn [create_dirs];
    (case_bool_decide; [split; [apply grown_by_refl|by left]|]);
    [destruct (make_dir_grown 0 p fs) as [Hg Hp]|destruct (make_dir_grown (S k) p fs) as [Hg Hp]];
    destruct (make_dir p fs) as [fs1 [[]|e|]]; cbn [fst snd] in *; auto.
  - assert (∀ e : IoError,
              grown_by 0 p fs fs1 ∧ ((if path_is_dir fs1 p then Ok tt else Err e) = Ok tt →
              p = "" ∨ p ∈ dirs fs1)) as Hk.
    { intros e'. split; [done|]. destruct (path_is_dir fs1 p) eqn:Hd; [|done].
      intros _. right. by apply path_is_dir_elem. }
    destruct e; cbn [fst snd]; first [apply Hk|by split].
  - assert (∀ e : IoError,
              grown_by (S k) p fs fs1 ∧ ((if path_is_dir fs1 p then Ok tt else Err e) = Ok tt →
              p = "" ∨ p ∈ dirs fs1)) as Hk.
    { intros e'. split; [done|]. destruct (path_is_dir fs1 p) eqn:Hd; [|done].
      intros _. right. by apply path_is_dir_elem. }
    destruct e; cbn [fst snd]; try apply Hk.
    destruct (path_parent p) as [up|] eqn:Hup; [|by split].
    unfold mbind, eff_bind. destruct (IH up fs1) as [Hg1 _].
    assert (grown_by (S k) p fs1 (create_dirs k up fs1).1) as Hg2.
    { destruct Hg1 as (? & ? & ? & ? & Ho). split_and!; auto. intros d Hd.
      destruct (Ho d Hd); [by left|right]. cbn [ancestors]. rewrite Hup. by right. }
    destruct (create_dirs k up fs1) as [fs2 [[]|e|]]; cbn [fst snd] in *;
      [|split; [by eapply grown_by_trans|done]..].
    destruct (make_dir_or_keep_grown (S k) p fs2) as [Hg3 Hp3].
    split; [by eapply grown_by_trans; [|eapply grown_by_trans]|auto].
Qed.

Lemma create_dir_all_grown p fs fs' r :
  create_dir_all p fs = (fs', r) → grown p fs fs' ∧ (r = Ok tt → p = "" ∨ p ∈ dirs fs').
Proof.
  unfold create_dir_all. intros E.
  destruct (create_dirs_grown (String.length p) p fs) as [(? & ? & ? & ? & ?) Hp].
  rewrite E in *. by split; [split|].
Qed.
