(* ===== verification/External.v ===== *)
(** * Code outside the repository, as interfaces

    One class per crate: its operations as the code calls them, on opaque types
    where the code never looks inside.  Laws are separate classes, each field a
    sentence of the crate's documentation; a theorem lists the laws it uses. *)
From S2P Require Import Prelude Bytes.

(** [webpki] and [rustls_pki_types]: X.509 parsing.  A [CertificateDer] is its
    bytes; an error is its rendering. *)
Class Webpki := {
  EndEntityCert : Type;
  TrustAnchor : Type;
  end_entity_try_from : list byte → string + EndEntityCert;
  ee_issuer : EndEntityCert → list byte;
  ee_serial : EndEntityCert → list byte;
  (** The log id and the timestamp in ms of each SCT; the list and each element
      may fail to parse. *)
  ee_sct_log_timestamps : EndEntityCert → string + list (string + (list byte * Z));
  anchor_from_trusted_cert : list byte → string + TrustAnchor;
  ta_subject : TrustAnchor → list byte;
  spki_for_anchor : TrustAnchor → list byte
}.

(** [base64]: [BASE64_STANDARD.decode] *)
Class Base64 := { b64_decode : string → string + list byte }.

(** [chrono]: [DateTime::from_timestamp(secs, 0)] and its RFC 3339 rendering. *)
Class Chrono := { from_timestamp : Z → option string }.

(** [clubcard_crlite] *)
Inductive CRLiteStatus : Type := Good | NotCovered | NotEnrolled | Revoked.

#[export] Instance crlite_status_eq_dec : EqDecision CRLiteStatus.
Proof. solve_decision. Defined.

(** [TimestampInterval]: bounds in milliseconds. *)
Record TimestampInterval := mkInterval { low : Z; high : Z }.

Class Clubcard := {
  CRLiteClubcard : Type;
  CRLiteKey : Type;
  (** [CRLiteKey::with_hash] on the issuer hash, the serial and their joint hash. *)
  with_hash : list byte → list byte → list byte → CRLiteKey;
  from_bytes : list byte → string + CRLiteClubcard;
  (** [clubcard.universe().iter()]: the log ids with their intervals. *)
  universe : CRLiteClubcard → list (list byte * TimestampInterval);
  (** [clubcard.contains(key, timestamps)] *)
  contains : CRLiteClubcard → CRLiteKey → list (list byte * Z) → CRLiteStatus;
  (** [LogId: Ord], the order a [BTreeMap<LogId, _>] keeps. *)
  log_id_cmp : list byte → list byte → comparison
}.

(** A [LogId] wraps a [[u8; 32]] and derives its order; a [Timestamp] wraps a [u64]. *)
Class ClubcardLaws `{Clubcard} : Prop := {
  log_id_cmp_bytes a b : log_id_cmp a b = bytes_cmp a b;
  universe_wf c id iv :
    (id, iv) ∈ universe c →
    length id = 32%nat ∧ 0 ≤ low iv < 2 ^ 64 ∧ 0 ≤ high iv < 2 ^ 64
}.
