(* ===== verification/Revocation.v ===== *)
(** * [upki/src/revocation/mod.rs]: the revocation API's data

    [Manifest], [RevocationCheckInput], [CertSerial], [CtTimestamp],
    [RevocationStatus], the [Error] of every revocation operation, and the
    construction of an input from a certificate chain. *)
From stdpp Require Import pretty.
From S2P Require Import Prelude Bytes Sha256 Sha256Spec FileSys External.

(** ** Errors *)

(** [Box<dyn Error + Send + Sync>]: an I/O error, a string made into an error,
    a UTF-8 error, or an error of another crate. *)
Inductive DynError : Type :=
| DynIo (e : IoError)
| DynStr (msg : string)
| DynUtf8
| DynExt (rendered : string).

Inductive Error : Type :=
| CreateDirectory (error : IoError) (path : string)
| FileWrite (error : IoError) (path : string)
| FileDecode (error : DynError) (path : option string)
| FileRead (error : IoError) (path : option string)
| HashMismatch (path : string)
| IndexDecode (error : DynError)
| HttpFetch (error : DynError) (url : string)
| InvalidBase64 (error : DynError) (context : string)
| InvalidEndEntityCertificate (error : DynError)
| InvalidIntermediateCertificate (error : DynError) (index : nat)
| InvalidLength (expected actual : nat) (context : string)
| InvalidSctEncoding
| InvalidSctInCertificate (error : DynError)
| InvalidTimestamp (input : string) (context : string)
| ManifestEncode (error : DynError) (path : string)
| NoIssuer
| Outdated (bytes : Z)
| RemoveFile (error : IoError) (path : string)
| TooFewCertificates.

(** [StdError::source] *)
Definition error_source (e : Error) : option DynError :=
  match e with
  | CreateDirectory error _ => Some (DynIo error)
  | FileWrite error _ => Some (DynIo error)
  | FileDecode error _ => Some error
  | FileRead error _ => Some (DynIo error)
  | HashMismatch _ => None
  | IndexDecode error => Some error
  | HttpFetch error _ => Some error
  | InvalidBase64 error _ => Some error
  | InvalidEndEntityCertificate error => Some error
  | InvalidIntermediateCertificate error _ => Some error
  | InvalidLength _ _ _ => None
  | InvalidSctEncoding => None
  | InvalidSctInCertificate error => Some error
  | InvalidTimestamp _ _ => None
  | ManifestEncode error _ => Some error
  | NoIssuer => None
  | Outdated _ => None
  | RemoveFile error _ => Some (DynIo error)
  | TooFewCertificates => None
  end.

(** [impl Display for Error], given [Path]'s [Debug]. *)
Definition error_display (debug_path : string → string) (e : Error) : string :=
  match e with
  | CreateDirectory _ path => "cannot create directory " +:+ debug_path path
  | FileWrite _ path => "cannot write file " +:+ debug_path path
  | FileDecode _ (Some path) => "cannot decode file " +:+ debug_path path
  | FileDecode _ None => "cannot decode file"
  | FileRead _ (Some path) => "cannot read file " +:+ debug_path path
  | FileRead _ None => "cannot read file"
  | HashMismatch path => "hash mismatch for file " +:+ debug_path path
  | IndexDecode _ => "cannot decode index file"
  | HttpFetch _ url => "HTTP fetch error for URL " +:+ url
  | InvalidBase64 _ context => "invalid base64 for " +:+ context
  | InvalidEndEntityCertificate _ => "invalid end-entity certificate"
  | InvalidIntermediateCertificate _ index =>
      "invalid intermediate certificate at index " +:+ pretty index
  | InvalidLength expected actual context =>
      "invalid length for " +:+ context +:+ ": expected " +:+ pretty expected +:+ ", got "
      +:+ pretty actual
  | InvalidSctEncoding => "invalid SCT encoding: no ':' found"
  | InvalidSctInCertificate _ => "invalid SCT in certificate"
  | InvalidTimestamp input context =>
      "invalid timestamp for " +:+ context +:+ ": '" +:+ input +:+ "'"
  | ManifestEncode _ path => "cannot encode manifest file at " +:+ debug_path path
  | NoIssuer => "no issuer found for end-entity certificate"
  | Outdated bytes => "cache is outdated, " +:+ pretty bytes +:+ " bytes need downloading"
  | RemoveFile _ path => "cannot remove file " +:+ debug_path path
  | TooFewCertificates => "certificate chain must contain at least 2 certificates"
  end.

(** ** The manifest *)

Record ManifestFile := mkManifestFile
  { filename : string; size : Z; hash : list byte }.

Record Manifest := mkManifest
  { generated_at : Z; comment : string; manifest_files : list ManifestFile }.

(** [Manifest::introduce]: the date must be representable. *)
Definition introduce `{Chrono} (m : Manifest) : Result Error unit :=
  match from_timestamp (as_i64 (generated_at m)) with
  | Some _ => Ok tt
  | None => Err (InvalidTimestamp (pretty (Z.to_N (generated_at m)))
                                  "manifest generated (in s)")
  end.

(** ** Inputs of a check *)

(** [CertSerial] and [IssuerSpkiHash] are their bytes. *)
Record CtTimestamp := mkCtTimestamp { log_id : list byte; timestamp : Z }.

Record RevocationCheckInput := mkInput
  { cert_serial : list byte;
    issuer_spki_hash : list byte;
    sct_timestamps : list CtTimestamp;
    issuer_serial_hash : list byte }.

(** [RevocationCheckInput::new] *)
Definition input_new {E} (serial issuer : list byte) (scts : list CtTimestamp)
  : Result E RevocationCheckInput :=
  let ctx := context_new in
  let ctx := update ctx issuer in
  let ctx := update ctx serial in
  digest ← finish ctx;
  Ok {| cert_serial := serial; issuer_spki_hash := issuer;
        sct_timestamps := scts; issuer_serial_hash := digest |}.

(** [RevocationCheckInput::key] *)
Definition input_key `{Clubcard} (i : RevocationCheckInput) : CRLiteKey :=
  with_hash (issuer_spki_hash i) (cert_serial i) (issuer_serial_hash i).

Section FromCertificates.
Context `{Webpki}.

(** The loop of [find_issuer]; [i] numbers the candidates. *)
Fixpoint find_issuer_from (name : list byte) (candidates : list (list byte)) (i : nat)
  : Result Error TrustAnchor :=
  match candidates with
  | [] => Err NoIssuer
  | c :: rest =>
      root ← map_err (λ e, InvalidIntermediateCertificate (DynExt e) i)
                     (of_sum (anchor_from_trusted_cert c));
      if bool_decide (ta_subject root = name) then Ok root
      else find_issuer_from name rest (S i)
  end.

Definition find_issuer (name : list byte) (candidates : list (list byte))
  : Result Error TrustAnchor := find_issuer_from name candidates 0.

(** The loop over the SCTs of the end-entity certificate. *)
Fixpoint collect_scts (iter : list (string + (list byte * Z)))
  : Result Error (list CtTimestamp) :=
  match iter with
  | [] => Ok []
  | ts :: rest =>
      '(id, ms) ← map_err (λ e, InvalidSctInCertificate (DynExt e)) (of_sum ts);
      scts ← collect_scts rest;
      Ok (mkCtTimestamp id ms :: scts)
  end.

(** [RevocationCheckInput::from_certificates] *)
Definition from_certificates (certificates : list (list byte))
  : Result Error RevocationCheckInput :=
  match certificates with
  | [] => Err TooFewCertificates
  | end_entity :: rest =>
      end_entity ← map_err (λ e, InvalidEndEntityCertificate (DynExt e))
                           (of_sum (end_entity_try_from end_entity));
      issuer ← find_issuer (ee_issuer end_entity) rest;
      issuer_spki_hash ← digest_from [spki_for_anchor issuer];
      iter ← map_err (λ e, InvalidEndEntityCertificate (DynExt e))
                     (of_sum (ee_sct_log_timestamps end_entity));
      scts ← collect_scts iter;
      input_new (ee_serial end_entity) issuer_spki_hash scts
  end.
End FromCertificates.

(** ** Parsing ([FromStr]) *)

(** A decimal digit. *)
Definition digit (b : byte) : option Z :=
  let v := byte_val b in
  if (48 <=? v) && (v <=? 57) then Some (v - 48) else None.

(** [u64::from_str]: an optional [+], at least one digit, no overflow. *)
Definition u64_digits (l : list byte) : option Z :=
  foldl (λ acc c, acc ≫= λ v, digit c ≫= λ d, checked u64_max (v * 10 + d)) (Some 0) l.
Definition u64_from_str (s : string) : option Z :=
  match as_bytes s with
  | [] => None
  | c :: rest =>
      if bool_decide (c = x2b) then
        match rest with [] => None | _ => u64_digits rest end
      else u64_digits (c :: rest)
  end.

(** [str::split_once] on a one-byte separator. *)
Fixpoint split_once_bytes (sep : byte) (l : list byte) : option (list byte * list byte) :=
  match l with
  | [] => None
  | c :: l' => if decide (c = sep) then Some ([], l')
               else '(a, b) ← split_once_bytes sep l'; Some (c :: a, b)
  end.
Definition split_once (sep : byte) (s : string) : option (string * string) :=
  '(a, b) ← split_once_bytes sep (as_bytes s);
  Some (String.string_of_list_byte a, String.string_of_list_byte b).

Section FromStr.
Context `{Base64}.

(** [CertSerial::from_str] *)
Definition cert_serial_from_str (value : string) : Result Error (list byte) :=
  map_err (λ e, InvalidBase64 (DynExt e) "certificate serial") (of_sum (b64_decode value)).

(** [CtTimestamp::from_str] *)
Definition ct_timestamp_from_str (value : string) : Result Error CtTimestamp :=
  match split_once x3a value with
  | None => Err InvalidSctEncoding
  | Some (id, issuance_timestamp) =>
      id ← map_err (λ e, InvalidBase64 (DynExt e) "CT log ID") (of_sum (b64_decode id));
      id ← (if (length id =? 32)%nat then Ok id
            else Err (InvalidLength 32 (length id) "CT log ID"));
      ts ← ok_or (InvalidTimestamp issuance_timestamp "CT timestamp (in ms)")
                 (u64_from_str issuance_timestamp);
      Ok (mkCtTimestamp id ts)
  end.
End FromStr.

(** ** Status *)

Inductive RevocationStatus : Type :=
| NotCoveredByRevocationData | CertainlyRevoked | NotRevoked.

#[export] Instance revocation_status_eq_dec : EqDecision RevocationStatus.
Proof. solve_decision. Defined.

Definition EXIT_SUCCESS : Z := 0.
Definition EXIT_CODE_REVOCATION_REVOKED : Z := 2.

(** [RevocationStatus::to_cli]: the line printed and the exit code. *)
Definition status_debug (s : RevocationStatus) : string :=
  match s with
  | NotCoveredByRevocationData => "NotCoveredByRevocationData"
  | CertainlyRevoked => "CertainlyRevoked"
  | NotRevoked => "NotRevoked"
  end.
Definition to_cli (s : RevocationStatus) : string * Z :=
  (status_debug s,
   match s with
   | NotRevoked | NotCoveredByRevocationData => EXIT_SUCCESS
   | CertainlyRevoked => EXIT_CODE_REVOCATION_REVOKED
   end).

(** [RevocationConfig] *)
Record RevocationConfig := mkRevocationConfig { fetch_url : string }.
Definition default_revocation_config : RevocationConfig :=
  {| fetch_url := "https://upki.rustls.dev/revocation/" |}.

(** ** Theorems: finding the issuer *)

Section IssuerProofs.
Context `{Webpki}.

(** Candidate [c] is a certificate of another subject. *)
Definition other_subject (name c : list byte) : Prop :=
  ∃ ta, anchor_from_trusted_cert c = inr ta ∧ ta_subject ta ≠ name.

Lemma find_issuer_from_spec name cands i :
  match find_issuer_from name cands i with
  | Ok ta => ∃ pre c post, cands = pre ++ c :: post ∧ Forall (other_subject name) pre
              ∧ anchor_from_trusted_cert c = inr ta ∧ ta_subject ta = name
  | Err e =>
      (e = NoIssuer ∧ Forall (other_subject name) cands)
      ∨ (∃ pre c post err, cands = pre ++ c :: post ∧ Forall (other_subject name) pre
          ∧ anchor_from_trusted_cert c = inl err
          ∧ e = InvalidIntermediateCertificate (DynExt err) (i + length pre))
  | Panic => False
  end.
Proof.
  revert i. induction cands as [|c cands IH]; intros i; cbn [find_issuer_from].
  - left. by split.
  - destruct (anchor_from_trusted_cert c) as [err|ta] eqn:Hc; cbn.
    + right. exists [], c, cands, err. by rewrite Nat.add_0_r.
    + case_bool_decide as Hs; [by exists [], c, cands|].
      assert (other_subject name c) as Ho by (by exists ta).
      specialize (IH (S i)). destruct (find_issuer_from name cands (S i)) as [ta'|e|]; [..|done].
      * destruct IH as (pre & c' & post & -> & Hpre & Hrest).
        exists (c :: pre), c', post. split; [done|]. split; [by constructor|done].
      * destruct IH as [[-> Hall]|(pre & c' & post & err & -> & Hpre & Hc' & ->)].
        -- left. split; [done|by constructor].
        -- right. exists (c :: pre), c', post, err.
           split; [done|]. split; [by constructor|]. split; [done|].
           cbn [length]. f_equal. lia.
Qed.

Lemma collect_scts_ok iter scts :
  collect_scts iter = Ok scts ↔
  iter = (λ ts, inr (log_id ts, timestamp ts)) <$> scts.
Proof.
  revert scts. induction iter as [|[e|[id ms]] iter IH]; intros scts; cbn.
  - split; [by intros [= <-]|]. destruct scts; cbn; [done|discriminate].
  - split; [done|]. destruct scts; discriminate.
  - rewrite result_bind_ok. setoid_rewrite IH. split.
    + intros (scts' & -> & [= <-]). done.
    + destruct scts as [|[id' ms'] scts]; cbn; [discriminate|].
      intros [= -> -> ->]. eauto.
Qed.
End IssuerProofs.

(** The order of the candidates decides: the issuer is the first candidate with
    the wanted subject, every earlier one is a certificate of another subject,
    and an unreadable candidate before it is reported with its position. *)
Theorem find_issuer_first `{Webpki} (name : list byte) (cands : list (list byte)) :
  match find_issuer name cands with
  | Ok ta => ∃ pre c post, cands = pre ++ c :: post ∧ Forall (other_subject name) pre
              ∧ anchor_from_trusted_cert c = inr ta ∧ ta_subject ta = name
  | Err e =>
      (e = NoIssuer ∧ Forall (other_subject name) cands)
      ∨ (∃ pre c post err, cands = pre ++ c :: post ∧ Forall (other_subject name) pre
          ∧ anchor_from_trusted_cert c = inl err
          ∧ e = InvalidIntermediateCertificate (DynExt err) (length pre))
  | Panic => False
  end.
Proof. exact (find_issuer_from_spec name cands 0). Qed.

(** ** Theorems: parsing numbers *)

Definition digits_step (acc : option Z) (c : byte) : option Z :=
  acc ≫= λ v, digit c ≫= λ d, checked u64_max (v * 10 + d).

Lemma digit_pretty_N_char x :
  (x < 10)%N → digit (Ascii.byte_of_ascii (pretty_N_char x)) = Some (Z.of_N x).
Proof.
  intros Hx. assert (x = 0 ∨ x = 1 ∨ x = 2 ∨ x = 3 ∨ x = 4 ∨ x = 5 ∨ x = 6 ∨ x = 7
                     ∨ x = 8 ∨ x = 9)%N as Hc by lia.
  repeat (destruct Hc as [->|Hc]; [by vm_compute|]). by subst.
Qed.

Lemma u64_digits_pretty_go x s :
  foldl digits_step (Some 0) (as_bytes (pretty_N_go x s))
  = foldl digits_step (checked u64_max (Z.of_N x)) (as_bytes s).
Proof.
  revert s. induction (N.lt_wf_0 x) as [x _ IH]; intros s.
  destruct (decide (x = 0)%N) as [->|Hx]; [by rewrite pretty_N_go_0|].
  rewrite pretty_N_go_step by lia.
  rewrite IH by (apply N.div_lt; lia).
  cbn [as_bytes String.list_byte_of_string String.list_ascii_of_string List.map foldl].
  assert (x mod 10 < 10)%N as Hm by (apply N.mod_lt; lia).
  f_equal. unfold digits_step at 1. rewrite digit_pretty_N_char by done.
  assert (Z.of_N x = Z.of_N (x / 10) * 10 + Z.of_N (x mod 10)) as Hd
    by (pose proof (N.div_mod x 10); lia).
  destruct (decide (Z.of_N (x / 10) ≤ u64_max)) as [Hle|Hle].
  - rewrite checked_some by lia. cbn. by rewrite <- Hd.
  - rewrite (checked_none _ (Z.of_N (x / 10))) by lia. cbn.
    pose proof (N2Z.is_nonneg (x / 10)) as Hq. pose proof (N2Z.is_nonneg (x mod 10)) as Hr.
    rewrite checked_none; [done|]. rewrite Hd. revert Hle Hq Hr.
    generalize (Z.of_N (x / 10)) (Z.of_N (x mod 10)). lia.
Qed.

Lemma pretty_go_digits x s :
  Forall (λ c, is_Some (digit c)) (as_bytes s) →
  Forall (λ c, is_Some (digit c)) (as_bytes (pretty_N_go x s)).
Proof.
  revert s. induction (N.lt_wf_0 x) as [x _ IH]; intros s Hs.
  destruct (decide (x = 0)%N) as [->|Hx]; [by rewrite pretty_N_go_0|].
  rewrite pretty_N_go_step by lia. apply IH; [apply N.div_lt; lia|].
  constructor; [|done]. exists (Z.of_N (x mod 10)).
  apply digit_pretty_N_char, N.mod_lt. lia.
Qed.

Lemma pretty_digits (n : N) : Forall (λ c, is_Some (digit c)) (as_bytes (pretty n)).
Proof.
  change (pretty n) with (pretty_N n). unfold pretty_N. case_decide.
  - repeat constructor. by eexists.
  - apply pretty_go_digits. constructor.
Qed.

Lemma u64_digits_pretty (n : N) :
  u64_digits (as_bytes (pretty n)) = if Z.of_N n <=? u64_max then Some (Z.of_N n) else None.
Proof.
  change (pretty n) with (pretty_N n). unfold pretty_N. case_decide as Hn.
  - subst. by vm_compute.
  - unfold u64_digits. etransitivity; [apply (u64_digits_pretty_go n "")|].
    change (as_bytes "") with (@nil byte). cbn [foldl]. unfold checked.
    by rewrite (proj2 (Z.leb_le 0 (Z.of_N n)) (N2Z.is_nonneg n)).
Qed.

Lemma u64_from_str_pretty_aux (n : N) :
  u64_from_str (pretty n) = if Z.of_N n <=? u64_max then Some (Z.of_N n) else None.
Proof.
  destruct (decide (n = 0)%N) as [->|Hn]; [by vm_compute|].
  pose proof (u64_digits_pretty n) as Hd. pose proof (pretty_digits n) as Hf.
  unfold u64_from_str. destruct (as_bytes (pretty n)) as [|c rest].
  - change (u64_digits []) with (Some 0) in Hd. case_match; [|done].
    injection Hd as Hd. lia.
  - case_bool_decide as Hc; [|done]. subst c.
    apply Forall_cons in Hf as [[d Hd'] _]. by vm_compute in Hd'.
Qed.

(** Printing and parsing a [u64] round trip, and a number too large for a [u64]
    is refused. *)
Theorem u64_from_str_pretty (n : N) :
  u64_from_str (pretty n) = if Z.of_N n <=? u64_max then Some (Z.of_N n) else None.
Proof. apply u64_from_str_pretty_aux. Qed.

(** ** Theorems: parsing an SCT reference *)

Lemma split_once_bytes_app sep a b :
  sep ∉ a → split_once_bytes sep (a ++ sep :: b) = Some (a, b).
Proof.
  induction a as [|c a IH]; cbn; intros Hs.
  - by rewrite decide_True.
  - apply not_elem_of_cons in Hs as [Hc Ha].
    rewrite decide_False by done. by rewrite IH.
Qed.

Lemma split_once_bytes_none sep a : sep ∉ a → split_once_bytes sep a = None.
Proof.
  induction a as [|c a IH]; cbn; intros Hs; [done|].
  apply not_elem_of_cons in Hs as [Hc Ha].
  rewrite decide_False by done. by rewrite IH.
Qed.

Lemma split_once_colon a b :
  x3a ∉ as_bytes a → split_once x3a (a +:+ ":" +:+ b) = Some (a, b).
Proof.
  intros Ha. unfold split_once. rewrite !as_bytes_app.
  change (as_bytes ":") with [x3a]. cbn [app].
  rewrite split_once_bytes_app by done. cbn. by rewrite !string_of_as_bytes.
Qed.

(** C34: An SCT reference printed as base64, colon and decimal timestamp parses back,
    for any base64 text without a colon that decodes to the log id. *)
Theorem ct_timestamp_roundtrip `{Base64} (ts : CtTimestamp) (b64 : string) :
  b64_decode b64 = inr (log_id ts) → x3a ∉ as_bytes b64 →
  length (log_id ts) = 32%nat → 0 ≤ timestamp ts ≤ u64_max →
  ct_timestamp_from_str (b64 +:+ ":" +:+ pretty (Z.to_N (timestamp ts))) = Ok ts.
Proof.
  intros Hb Hc Hl Ht. unfold ct_timestamp_from_str.
  rewrite split_once_colon, Hb by done. cbn. rewrite Hl. cbn.
  rewrite u64_from_str_pretty_aux. rewrite Z2N.id by lia.
  rewrite (proj2 (Z.leb_le _ _)) by lia. cbn. by destruct ts.
Qed.

(** The three ways an SCT reference is refused, in the order they are tested. *)
Theorem ct_timestamp_errors `{Base64} (s : string) (e : Error) :
  ct_timestamp_from_str s = Err e →
  (e = InvalidSctEncoding ∧ split_once x3a s = None)
  ∨ ∃ id ts, split_once x3a s = Some (id, ts) ∧
      ((∃ err, b64_decode id = inl err ∧ e = InvalidBase64 (DynExt err) "CT log ID")
       ∨ ∃ bs, b64_decode id = inr bs ∧
           ((length bs ≠ 32%nat ∧ e = InvalidLength 32 (length bs) "CT log ID")
            ∨ (length bs = 32%nat ∧ u64_from_str ts = None
               ∧ e = InvalidTimestamp ts "CT timestamp (in ms)"))).
Proof.
  unfold ct_timestamp_from_str.
  destruct (split_once x3a s) as [[id ts]|]; [|intros [= <-]; by left].
  intros He. right. exists id, ts. split; [done|].
  destruct (b64_decode id) as [err|bs]; cbn in He.
  - left. exists err. injection He as <-. done.
  - right. exists bs. split; [done|].
    destruct (Nat.eqb_spec (length bs) 32); cbn in He.
    + destruct (u64_from_str ts); cbn in He; [discriminate|]. right. injection He as <-. done.
    + left. injection He as <-. done.
Qed.

(** ** Theorems: the input of a check *)

Lemma digest_from_ok {E} slices d :
  digest_from (E:=E) slices = Ok d → d = Fips.sha256 (concat slices).
Proof.
  unfold digest_from. rewrite (finish_holds _ _ (updates_hold _ [] _ holds_new)).
  case_match; [|done]. by intros [= <-].
Qed.

Lemma input_new_ok {E} serial issuer scts inp :
  input_new (E:=E) serial issuer scts = Ok inp →
  inp = mkInput serial issuer scts (Fips.sha256 (issuer ++ serial)).
Proof.
  unfold input_new. intros (d & Hd & [= <-])%result_bind_ok.
  apply (digest_from_ok [issuer; serial]) in Hd. cbn in Hd.
  by rewrite app_nil_r in Hd; subst d.
Qed.

(** C33: An input made from a chain names the issuer by the SHA-256 of its public key,
    carries the end-entity's serial and all its SCTs in order, and its hash is
    the SHA-256 of the issuer hash followed by the serial. *)
Theorem from_certificates_input `{Webpki} (ee : list byte) (rest : list (list byte))
    (inp : RevocationCheckInput) :
  from_certificates (ee :: rest) = Ok inp →
  ∃ cert ta, end_entity_try_from ee = inr cert
    ∧ find_issuer (ee_issuer cert) rest = Ok ta
    ∧ cert_serial inp = ee_serial cert
    ∧ issuer_spki_hash inp = Fips.sha256 (spki_for_anchor ta)
    ∧ ee_sct_log_timestamps cert
      = inr ((λ ts, inr (log_id ts, timestamp ts)) <$> sct_timestamps inp)
    ∧ issuer_serial_hash inp = Fips.sha256 (issuer_spki_hash inp ++ cert_serial inp).
Proof.
  unfold from_certificates.
  destruct (end_entity_try_from ee) as [|cert]; [done|]. cbn [of_sum map_err mbind result_bind].
  intros (ta & Hta & Hin)%result_bind_ok.
  apply result_bind_ok in Hin as (d & Hd & Hin).
  destruct (ee_sct_log_timestamps cert) as [|iter] eqn:Hi; [done|].
  cbn [of_sum map_err mbind result_bind] in Hin.
  apply result_bind_ok in Hin as (scts & Hscts & Hin).
  apply input_new_ok in Hin as ->. apply digest_from_ok in Hd as ->.
  apply collect_scts_ok in Hscts as ->.
  exists cert, ta. cbn. by rewrite app_nil_r.
Qed.

(** A chain of exactly one readable certificate is refused with [NoIssuer]:
    [TooFewCertificates] is only for the empty chain. *)
Theorem from_certificates_short `{Webpki} (ee : list byte) :
  from_certificates [] = Err TooFewCertificates
  ∧ (∀ cert, end_entity_try_from ee = inr cert → from_certificates [ee] = Err NoIssuer).
Proof. split; [done|]. intros cert Hc. unfold from_certificates. by rewrite Hc. Qed.

(** The exit codes of [to_cli]: 2 exactly for a revoked certificate, 0 otherwise. *)
Theorem to_cli_exit_code (s : RevocationStatus) :
  (to_cli s).2 = EXIT_CODE_REVOCATION_REVOKED ↔ s = CertainlyRevoked.
Proof. by destruct s. Qed.

(** ** Instances *)

Section Instances.
(** A certificate of four bytes: subject, issuer, serial, key. *)
Definition demo_webpki : Webpki := {|
  EndEntityCert := list byte;
  TrustAnchor := list byte;
  end_entity_try_from l := if (length l =? 4)%nat then inr l else inl "bad certificate";
  ee_issuer l := slice l 1 2;
  ee_serial l := slice l 2 3;
  ee_sct_log_timestamps _ := inr [inr (replicate 32 x01, 5)];
  anchor_from_trusted_cert l := if (length l =? 4)%nat then inr l else inl "bad certificate";
  ta_subject l := slice l 0 1;
  spki_for_anchor l := slice l 3 4
|}.

(** An encoding that writes bytes as themselves. *)
Definition demo_base64 : Base64 := {| b64_decode s := inr (as_bytes s) |}.
#[local] Existing Instance demo_webpki.
#[local] Existing Instance demo_base64.

Lemma from_certificates_input_witness :
  ∃ inp, from_certificates [[x01; x02; x03; x04]; [x05; x06; x07; x08]; [x02; x00; x00; x09]]
         = Ok inp
         ∧ issuer_spki_hash inp = Fips.sha256 [x09].
Proof.
  destruct (from_certificates _) as [inp|e|] eqn:E; [|by vm_compute in E..].
  exists inp. split; [reflexivity|].
  destruct (from_certificates_input _ _ _ E) as (cert & ta & Hc & Hi & _ & Hs & _).
  injection Hc as <-. vm_compute in Hi. injection Hi as <-. exact Hs.
Defined.

Lemma ct_timestamp_roundtrip_witness :
  let b64 := "aaaaaaaaaaaaaaaaaaaaaaaaaaaaaaaa" in
  let ts := mkCtTimestamp (as_bytes b64) 1234567890 in
  ct_timestamp_from_str (b64 +:+ ":" +:+ pretty (Z.to_N (timestamp ts))) = Ok ts.
Proof.
  intros b64 ts. apply ct_timestamp_roundtrip.
  - done.
  - apply (bool_decide_unpack _). by vm_compute.
  - done.
  - by vm_compute.
Defined.

Lemma ct_timestamp_errors_witness :
  ct_timestamp_from_str "abc" = Err InvalidSctEncoding ∧ split_once x3a "abc" = None.
Proof.
  destruct (ct_timestamp_errors "abc" InvalidSctEncoding eq_refl)
    as [[_ H]|(id & ts & _ & [(err & _ & H)|(bs & _ & [[_ H]|(_ & _ & H)])])];
    [done|discriminate H..].
Defined.
End Instances.
