(* ===== verification/Config.v ===== *)
(** * [upki/src/lib.rs]: configuration

    The search for a configuration file, loading it, and the default
    configuration.  The [directories] and [toml] crates are interfaces.  The three
    [platform] modules are one definition each, by cases on the platform. *)
From S2P Require Import Prelude Bytes FileSys Revocation.

(** [upki::Error] *)
Module LibError.
Inductive t : Type :=
| ConfigError (error : DynError) (path : string)
| FileRead (error : IoError) (path : string)
| NoCacheDirectoryFound
| NoConfigDirectoryFound
| NoValidHomeDirectory
| Revocation (err : Error).

(** [impl Display for Error], given [Path::display]. *)
Definition display (display_path : string → string) (e : t) : string :=
  match e with
  | ConfigError _ path => "failed to parse config file at " +:+ display_path path
  | FileRead _ path => "failed to read config file at " +:+ display_path path
  | NoCacheDirectoryFound => "no cache directory could be found"
  | NoConfigDirectoryFound => "no configuration directory could be found"
  | NoValidHomeDirectory => "could not determine user's home directory"
  | Revocation _ => "revocation error"
  end.

(** [StdError::source]: the cause, itself possibly a revocation error. *)
Definition source (e : t) : option (DynError + Error) :=
  match e with
  | ConfigError error _ => Some (inl error)
  | FileRead error _ => Some (inl (DynIo error))
  | NoCacheDirectoryFound | NoConfigDirectoryFound | NoValidHomeDirectory => None
  | Revocation err => Some (inr err)
  end.
End LibError.

Record Config := mkConfig { cache_dir : string; revocation : RevocationConfig }.

(** [directories::ProjectDirs] *)
Record ProjectDirs := mkProjectDirs { config_dir : string; user_cache_dir : string }.
Class Directories := {
  project_dirs_from : string → string → string → option ProjectDirs
}.

(** [toml::from_str::<Config>] *)
Class Toml := { toml_from_str : string → string + Config }.

Definition BUNDLE_ID : string := "dev.rustls.upki".
Definition PREFIX : string := "upki".
Definition CONFIG_FILE : string := "config.toml".

Definition VENDOR : string := "rustls".

(** The targets with a [platform] module; on Windows, with the value of the
    environment variable [ProgramData], if set. *)
Inductive Platform : Type := Apple | Unix | Windows (program_data : option string).

(** [Path::join] of a single name on Windows: a separator is added unless the path
    is empty, ends with one, or is a drive without a root.  A base in the
    verbatim form, where Rust also tidies the separators, is not told apart. *)
Definition BACKSLASH : byte := x5c.
Definition is_drive_letter (b : byte) : bool :=
  let v := byte_val b in ((65 <=? v) && (v <=? 90)) || ((97 <=? v) && (v <=? 122)).
Definition win_needs_separator (base : list byte) : bool :=
  match last base with
  | None => false
  | Some c =>
      negb (bool_decide (c = SLASH ∨ c = BACKSLASH))
      && negb match base with
              | [d; colon] => is_drive_letter d && bool_decide (colon = x3a)
              | _ => false
              end
  end.
Definition win_join (base name : string) : string :=
  if win_needs_separator (as_bytes base) then base +:+ "\" +:+ name else base +:+ name.

(** [Path::join] of a single name. *)
Definition platform_join (p : Platform) (base name : string) : string :=
  match p with
  | Apple | Unix => path_join base name
  | Windows _ => win_join base name
  end.

Definition program_data_dir (program_data : option string) : string :=
  match program_data with Some base => base | None => "C:\ProgramData" end.

Definition system_config_dir (p : Platform) : Result LibError.t string :=
  match p with
  | Apple => Ok (path_join "/Library/Application Support" PREFIX)
  | Unix => Ok (path_join "/etc" PREFIX)
  | Windows pd => Ok (win_join (win_join (program_data_dir pd) VENDOR) PREFIX)
  end.

Definition system_cache_dir (p : Platform) : Result LibError.t string :=
  match p with
  | Apple => Ok (path_join "/Library/Caches" BUNDLE_ID)
  | Unix => Ok (path_join "/var/cache" PREFIX)
  | Windows pd => Ok (win_join (win_join (win_join (program_data_dir pd) VENDOR) PREFIX) "cache")
  end.

Inductive ConfigPath : Type :=
| Specified (path : string)
| Default (path : string).

(** [impl AsRef<Path> for ConfigPath] *)
Definition config_path_as_ref (c : ConfigPath) : string :=
  match c with Specified path => path | Default path => path end.

(** [fs::read_to_string] *)
Definition read_to_string (fs : Fs) (p : string) : Result IoError string :=
  data ← fs_read fs p;
  match from_utf8 data with Some s => Ok s | None => Err InvalidData end.

Section Config.
Context `{Directories} `{Toml} (platform : Platform).

Definition project_dirs : Result LibError.t ProjectDirs :=
  ok_or LibError.NoValidHomeDirectory (project_dirs_from "dev" "rustls" PREFIX).

(** [Config::from_file] *)
Definition from_file (fs : Fs) (path : string) : Result LibError.t Config :=
  config_content ← map_err (λ error, LibError.FileRead error path) (read_to_string fs path);
  map_err (λ error, LibError.ConfigError (DynExt error) path)
          (of_sum (toml_from_str config_content)).

(** [Config::try_default] *)
Definition try_default (fs : Fs) : Result LibError.t Config :=
  dirs ← project_dirs;
  let user_cache := user_cache_dir dirs in
  dir ← (if path_exists fs user_cache then Ok user_cache
         else system_cache ← system_cache_dir platform;
              Ok (if path_exists fs system_cache then system_cache else user_cache));
  Ok {| cache_dir := dir; revocation := default_revocation_config |}.

(** [Config::from_file_or_user_default] *)
Definition from_file_or_user_default (fs : Fs) (path : ConfigPath)
  : Result LibError.t Config :=
  match path with
  | Default path => if path_exists fs path then from_file fs path else try_default fs
  | Specified path => from_file fs path
  end.

(** [ConfigPath::new] *)
Definition config_path_new (fs : Fs) (specified : option string)
  : Result LibError.t ConfigPath :=
  match specified with
  | Some f => Ok (Specified f)
  | None =>
      dirs ← project_dirs;
      let user := platform_join platform (config_dir dirs) CONFIG_FILE in
      if path_exists fs user then Ok (Default user)
      else
        dir ← system_config_dir platform;
        let system := platform_join platform dir CONFIG_FILE in
        if path_exists fs system then Ok (Default system) else Ok (Default user)
  end.
End Config.

(** [Config::revocation_cache_dir] *)
Definition revocation_cache_dir (c : Config) : string := path_join (cache_dir c) "revocation".

(** ** Theorems *)

Section ConfigProofs.
Context `{Directories} `{Toml}.

(** The search of [ConfigPath::new]: a specified path is taken as it is; else
    the user's file if it exists, else the system's if it exists, else the
    user's; it fails only without a home directory. *)
Theorem config_path_search (platform : Platform) (fs : Fs) (specified : option string) :
  config_path_new platform fs specified =
  match specified, project_dirs_from "dev" "rustls" PREFIX with
  | Some f, _ => Ok (Specified f)
  | None, None => Err LibError.NoValidHomeDirectory
  | None, Some dirs =>
      let user := platform_join platform (config_dir dirs) CONFIG_FILE in
      let system := match platform with
                    | Apple => "/Library/Application Support/upki/config.toml"
                    | Unix => "/etc/upki/config.toml"
                    | Windows None => "C:\ProgramData\rustls\upki\config.toml"
                    | Windows (Some base) =>
                        foldl win_join base ["rustls"; "upki"; "config.toml"] end in
      Ok (Default (if negb (path_exists fs user) && path_exists fs system
                   then system else user))
  end.
Proof.
  unfold config_path_new, project_dirs. destruct specified; [done|].
  destruct (project_dirs_from _ _ _) as [dirs|]; [|done]. cbn [ok_or mbind result_bind].
  destruct (path_exists fs (platform_join platform (config_dir dirs) CONFIG_FILE)); [done|].
  assert (∀ p q, p = q →
            (if path_exists fs p then Ok (Default p) else Ok (E := LibError.t) (Default (platform_join
               platform (config_dir dirs) CONFIG_FILE)))
            = Ok (Default (if negb false && path_exists fs q then q
                           else platform_join platform (config_dir dirs) CONFIG_FILE))) as Hsys.
  { intros p q ->. cbn [negb andb]. by case_match. }
  destruct platform as [| |[base|]]; cbn [system_config_dir mbind result_bind];
    apply Hsys; first [done | by vm_compute].
Qed.

(** A missing file is an error when the user named it, and means the default
    configuration when the path was found by the search. *)
Theorem missing_config_file (platform : Platform) (fs : Fs) (path : string) :
  files fs !! path = None → path ∉ dirs fs → no_nul (as_bytes path) = true →
  faults fs OpOpen path = None →
  from_file_or_user_default platform fs (Specified path) = Err (LibError.FileRead NotFound path)
  ∧ from_file_or_user_default platform fs (Default path) = try_default platform fs.
Proof.
  intros Hf Hd Hn Ho. split; cbn [from_file_or_user_default].
  - unfold from_file, read_to_string, fs_read, file_open, guard_op.
    rewrite Hn, Ho, Hf. cbn. by rewrite bool_decide_eq_false_2.
  - unfold path_exists, guard_op. rewrite Hn, Hf. cbn.
    rewrite (bool_decide_eq_false_2 (path ∈ _)) by done.
    by destruct (faults fs OpStat path).
Qed.

(** The default cache directory: the user's unless only the system's exists. *)
Theorem default_cache_dir (platform : Platform) (fs : Fs) (c : Config) :
  try_default platform fs = Ok c →
  ∃ dirs system, project_dirs_from "dev" "rustls" PREFIX = Some dirs
    ∧ system_cache_dir platform = Ok system
    ∧ revocation c = default_revocation_config
    ∧ cache_dir c = if negb (path_exists fs (user_cache_dir dirs)) && path_exists fs system
                    then system else user_cache_dir dirs.
Proof.
  unfold try_default, project_dirs. destruct (project_dirs_from _ _ _) as [dirs|]; [|done].
  cbn [ok_or mbind result_bind]. intros Hc. exists dirs.
  assert (∃ s, system_cache_dir platform = Ok s) as [s Hs] by (destruct platform; by eexists).
  rewrite Hs in *. exists s. do 2 (split; [done|]).
  destruct (path_exists fs (user_cache_dir dirs)); cbn in *; inv_result; [done|].
  by destruct (path_exists fs s).
Qed.
End ConfigProofs.

(** ** Instances *)

Section Instances.
Definition demo_directories : Directories :=
  {| project_dirs_from _ _ _ := Some (mkProjectDirs "/home/u/.config/upki" "/home/u/.cache/upki") |}.
Definition demo_toml : Toml :=
  {| toml_from_str s := inr (mkConfig s default_revocation_config) |}.
#[local] Existing Instance demo_directories.
#[local] Existing Instance demo_toml.

Definition empty_fs : Fs := mkFs ∅ {["/var/cache/upki"]} (λ _ _, None) id.

Lemma missing_config_file_witness :
  from_file_or_user_default Unix empty_fs (Specified "/x") = Err (LibError.FileRead NotFound "/x")
  ∧ from_file_or_user_default Unix empty_fs (Default "/x") = try_default Unix empty_fs.
Proof.
  apply missing_config_file; [done|apply (bool_decide_unpack _); by vm_compute|done|done].
Defined.

Lemma default_cache_dir_witness :
  ∃ c dirs system, try_default Unix empty_fs = Ok c
    ∧ project_dirs_from "dev" "rustls" PREFIX = Some dirs
    ∧ system_cache_dir Unix = Ok system
    ∧ cache_dir c = if negb (path_exists empty_fs (user_cache_dir dirs))
                       && path_exists empty_fs system
                    then system else user_cache_dir dirs.
Proof.
  destruct (default_cache_dir Unix empty_fs (mkConfig "/var/cache/upki" default_revocation_config)
              ltac:(by vm_compute)) as (dirs & system & Hd & Hs & _ & Hc).
  exists (mkConfig "/var/cache/upki" default_revocation_config), dirs, system.
  split; [by vm_compute|done].
Defined.
End Instances.
