(* ===== verification/Index.v ===== *)
(** * [upki/src/revocation/index.rs]: the binary index

    Reading the header ([from_cache]), checking a certificate ([check],
    [filename]) and building the index ([write]).  An open file is its contents
    and a position; [check] moves the position, so it threads the [Index]. *)
From S2P Require Import Prelude Bytes FileSys External Revocation Config.

(** ** Constants *)

Definition HEADER_SIZE_V1 : Z := 8 + 2 + 4.
Definition HEADER_SIZE_V0 : Z := 8 + 1 + 4.
Definition FILENAME_SIZE : Z := 32.
Definition LOG_DIR_ENTRY_SIZE : Z := 32 + 8 + 2.
Definition ENTRY_SIZE_V1 : Z := 2 + 8 + 8.
Definition ENTRY_SIZE_V0 : Z := 1 + 8 + 8.
Definition INDEX_BIN : string := "index.bin".
Definition INDEX_MAGIC_V1 : list byte := as_bytes "upkiidx1".
Definition INDEX_MAGIC_V0 : list byte := as_bytes "upkiidx0".

(** ** Open files ([std::fs::File]) *)

Record File := mkFile
  { contents : list byte;
    pos : Z;
    (** The refusal of every [read] on the handle, if any. *)
    read_fault : option IoError }.

(** [Read::read_exact] into a buffer of [n] bytes: an empty buffer asks nothing
    of the system; too few bytes move the position to the end. *)
Definition read_exact (n : Z) : Eff File IoError (list byte) := λ f,
  if n =? 0 then (f, Ok [])
  else match read_fault f with
  | Some e => (f, Err e)
  | None =>
      if pos f + n <=? Z.of_nat (length (contents f))
      then ({| contents := contents f; pos := pos f + n; read_fault := read_fault f |},
            Ok (slice (contents f) (Z.to_nat (pos f)) (Z.to_nat (pos f + n))))
      else ({| contents := contents f; pos := Z.max (pos f) (Z.of_nat (length (contents f)));
               read_fault := read_fault f |}, Err UnexpectedEof)
  end.

(** [Seek::seek(SeekFrom::Start(offset))]: the system takes a signed offset. *)
Definition seek_start (offset : Z) : Eff File IoError unit := λ f,
  if offset <=? i64_max
  then ({| contents := contents f; pos := offset; read_fault := read_fault f |}, Ok tt)
  else (f, Err InvalidInput).

(** ** The index *)

Record Index := mkIndex
  { idx_cache_dir : string;
    num_filenames : Z;
    num_logs : Z;
    logs_offset : Z;
    entry_size : Z;
    tables : list byte;
    file : File }.

Definition set_file (f : File) (i : Index) : Index :=
  {| idx_cache_dir := idx_cache_dir i; num_filenames := num_filenames i;
     num_logs := num_logs i; logs_offset := logs_offset i;
     entry_size := entry_size i; tables := tables i; file := f |}.

Definition decode_io (e : IoError) : Error := IndexDecode (DynIo e).

(** [uN::read_be(&mut data)?] *)
Definition read_be_err (n : nat) (data : list byte) : Result Error (Z * list byte) :=
  ok_or (IndexDecode (DynStr "unexpected end of index data")) (read_be n data).

(** The first part of [Index::from_cache], up to the check of the sizes that the header
    asks for: the file, the size of an entry, and the two counts. *)
Definition read_header (fs : Fs) (config : Config) : Result Error (File * Z * Z * Z) :=
  let index_path := path_join (revocation_cache_dir config) INDEX_BIN in
  data ← map_err (λ error, FileRead error (Some index_path)) (file_open fs index_path);
  let f := {| contents := data; pos := 0; read_fault := handle_fault fs index_path |} in
  (* Read 1: magic *)
  let '(f, magic) := read_exact 8 f in
  magic ← map_err decode_io magic;
  '(header_size, entry_size) ←
    (if decide (magic = INDEX_MAGIC_V1) then Ok (HEADER_SIZE_V1, ENTRY_SIZE_V1)
     else if decide (magic = INDEX_MAGIC_V0) then Ok (HEADER_SIZE_V0, ENTRY_SIZE_V0)
     else Err (IndexDecode (DynStr "invalid index magic")));
  (* Read 2: num_filenames + num_log_ids *)
  let '(f, header) := read_exact (header_size - 8) f in
  header ← map_err decode_io header;
  '(num_filenames, rest) ← read_be_err (if entry_size =? ENTRY_SIZE_V0 then 1 else 2) header;
  '(num_logs, _) ← read_be_err 4 rest;
  let logs_offset := num_filenames * FILENAME_SIZE in
  let tables_len := logs_offset + num_logs * LOG_DIR_ENTRY_SIZE in
  file_len ← map_err (λ error, FileRead error (Some index_path))
                     (guard_op fs OpMetadata index_path
                        (Ok (Z.of_nat (length (contents f)))));
  if file_len <? as_u64 (header_size + tables_len)
  then Err (IndexDecode (DynStr "index tables truncated"))
  else Ok (f, entry_size, num_filenames, num_logs).

(** [vec![0u8; n]], with the sizes allocated so far as the state. *)
Definition vec_zeroed (n : Z) : Eff (list Z) Error unit := λ allocated,
  (allocated ++ [n], Ok tt).

(** [Index::from_cache], with the sizes of the buffers that it allocates. *)
Definition from_cache_run (fs : Fs) (config : Config) : Eff (list Z) Error Index :=
  '(f, entry_size, num_filenames, num_logs) ← eff_lift (λ _, read_header fs config);
  (* Read 3: filename table + log table *)
  let logs_offset := num_filenames * FILENAME_SIZE in
  let tables_len := logs_offset + num_logs * LOG_DIR_ENTRY_SIZE in
  _ ← vec_zeroed tables_len;
  let '(f, tables) := read_exact tables_len f in
  tables ← eff_lift (λ _, map_err decode_io tables);
  mret {| idx_cache_dir := revocation_cache_dir config; num_filenames := num_filenames;
          num_logs := num_logs; logs_offset := logs_offset;
          entry_size := entry_size; tables := tables; file := f |}.
Definition from_cache (fs : Fs) (config : Config) : Result Error Index :=
  (from_cache_run fs config []).2.

(** [Index::filename] *)
Definition index_filename (self : Index) (index : Z) : Result Error string :=
  if num_filenames self <=? index
  then Err (IndexDecode (DynStr "filter index out of bounds"))
  else
    let start := index * FILENAME_SIZE in
    slot ← or_panic (slice_checked (tables self) start (start + FILENAME_SIZE));
    let end_ := match position is_nul slot with
                | Some n => n | None => Z.to_nat FILENAME_SIZE end in
    ok_or (IndexDecode DynUtf8) (from_utf8 (take end_ slot)).

(** The binary search of [check] over the log directory: the offset of the entry
    of [key], or [None] when the loop ends.  [fuel] bounds the iterations. *)
Fixpoint search_log (fuel : nat) (dir_data key : list byte) (lo hi : Z)
  : Result Error (option Z) :=
  match fuel with
  | O => Panic
  | S fuel' =>
      if hi <=? lo then Ok None
      else
        let mid := lo + (hi - lo) / 2 in
        let offset := mid * LOG_DIR_ENTRY_SIZE in
        log_id ← or_panic (slice_checked dir_data offset (offset + 32));
        match bytes_cmp log_id key with
        | Lt => search_log fuel' dir_data key (mid + 1) hi
        | Eq => Ok (Some offset)
        | Gt => search_log fuel' dir_data key lo mid
        end
  end.

(** One entry of an entry section. *)
Definition read_entry (entry_size : Z) (data : list byte)
  : Result Error (Z * Z * Z * list byte) :=
  '(filter_index, data) ← read_be_err (if entry_size =? ENTRY_SIZE_V0 then 1 else 2) data;
  '(min_ts, data) ← read_be_err 8 data;
  '(max_ts, data) ← read_be_err 8 data;
  Ok (filter_index, min_ts, max_ts, data).

(** How a loop goes on: with its variables, or out of the function. *)
Inductive Flow : Type :=
| Continue (maybe_good : bool) (seen : list bool)
| Return (status : RevocationStatus).

Section Check.
Context `{Clubcard}.

(** The query of one filter file: read, decode, ask. *)
Definition query_filter (fs : Fs) (cache_dir filename : string)
    (key : CRLiteKey) (input : RevocationCheckInput) : Result Error CRLiteStatus :=
  let path := path_join cache_dir filename in
  bytes ← map_err (λ error, FileRead error (Some path)) (fs_read fs path);
  filter ← map_err (λ error, FileDecode
                       (DynStr ("cannot decode crlite filter: " +:+ error)) (Some path))
                   (of_sum (from_bytes bytes));
  Ok (contains filter key
        ((λ ct_ts, (log_id ct_ts, timestamp ct_ts)) <$> sct_timestamps input)).

(** The body of the loop over the entries, after the entry is decoded. *)
Definition visit_entry (self : Index) (fs : Fs) (key : CRLiteKey)
    (input : RevocationCheckInput) (sct : CtTimestamp)
    (filter_index min_ts max_ts : Z) (maybe_good : bool) (seen : list bool)
  : Result Error Flow :=
  if (timestamp sct <? min_ts) || (max_ts <? timestamp sct)
  then Ok (Continue maybe_good seen)
  else
    filename ← index_filename self filter_index;
    already ← or_panic (seen !! Z.to_nat filter_index);
    if already : bool then Ok (Continue maybe_good seen)
    else
      let seen := <[Z.to_nat filter_index := true]> seen in
      status ← query_filter fs (idx_cache_dir self) filename key input;
      match status with
      | Revoked => Ok (Return CertainlyRevoked)
      | Good => Ok (Continue true seen)
      | NotEnrolled | NotCovered => Ok (Continue maybe_good seen)
      end.

Fixpoint entries_loop (self : Index) (fs : Fs) (key : CRLiteKey)
    (input : RevocationCheckInput) (sct : CtTimestamp) (count : nat)
    (data : list byte) (maybe_good : bool) (seen : list bool) : Result Error Flow :=
  match count with
  | O => Ok (Continue maybe_good seen)
  | S count' =>
      '(filter_index, min_ts, max_ts, data) ← read_entry (entry_size self) data;
      flow ← visit_entry self fs key input sct filter_index min_ts max_ts maybe_good seen;
      match flow with
      | Continue maybe_good seen =>
          entries_loop self fs key input sct count' data maybe_good seen
      | Return status => Ok (Return status)
      end
  end.

(** The body of the loop over the SCTs. *)
Definition visit_sct (fs : Fs) (key : CRLiteKey) (input : RevocationCheckInput)
    (dir_data : list byte) (sct : CtTimestamp) (maybe_good : bool) (seen : list bool)
  : Eff Index Error Flow := λ self,
  match search_log (S (Z.to_nat (num_logs self))) dir_data (log_id sct) 0 (num_logs self) with
  | Panic => (self, Panic)
  | Err e => (self, Err e)
  | Ok None => (self, Ok (Continue maybe_good seen))
  | Ok (Some entry_offset) =>
      let header := entry_data ← or_panic (slice_from dir_data (entry_offset + 32));
                    '(offset, entry_data) ← read_be_err 8 entry_data;
                    '(count, _) ← read_be_err 2 entry_data;
                    Ok (offset, count) in
      match header with
      | Panic => (self, Panic)
      | Err e => (self, Err e)
      | Ok (offset, count) =>
          let '(f, sought) := seek_start offset (file self) in
          let self := set_file f self in
          match map_err decode_io sought with
          | Panic => (self, Panic)
          | Err e => (self, Err e)
          | Ok tt =>
              let '(f, buf) := read_exact (count * entry_size self) (file self) in
              let self := set_file f self in
              (self, buf ← map_err decode_io buf;
                     entries_loop self fs key input sct (Z.to_nat count) buf
                                  maybe_good seen)
          end
      end
  end.

Fixpoint sct_loop (fs : Fs) (key : CRLiteKey) (input : RevocationCheckInput)
    (dir_data : list byte) (scts : list CtTimestamp) (maybe_good : bool) (seen : list bool)
  : Eff Index Error Flow :=
  match scts with
  | [] => mret (Continue maybe_good seen)
  | sct :: rest =>
      flow ← visit_sct fs key input dir_data sct maybe_good seen;
      match flow with
      | Continue maybe_good seen => sct_loop fs key input dir_data rest maybe_good seen
      | Return status => mret (Return status)
      end
  end.

(** [Index::check] *)
Definition check (fs : Fs) (input : RevocationCheckInput)
  : Eff Index Error RevocationStatus := λ self,
  let key := input_key input in
  match slice_from (tables self) (logs_offset self) with
  | None => (self, Panic)
  | Some dir_data =>
      let seen := replicate (Z.to_nat (num_filenames self)) false in
      let '(self, flow) :=
        sct_loop fs key input dir_data (sct_timestamps input) false seen self in
      (self, flow ← flow;
             match flow with
             | Return status => Ok status
             | Continue true _ => Ok NotRevoked
             | Continue false _ => Ok NotCoveredByRevocationData
             end)
  end.

(** ** Building the index *)

(** [by_log_id.entry(k).or_default().push(v)] on a [BTreeMap], kept as the list
    of its bindings in key order. *)
Fixpoint push_entry {V} (k : list byte) (v : V) (m : list (list byte * list V))
  : list (list byte * list V) :=
  match m with
  | [] => [(k, [v])]
  | (k', vs) :: m' =>
      match log_id_cmp k k' with
      | Lt => (k, [v]) :: m
      | Eq => (k', vs ++ [v]) :: m'
      | Gt => (k', vs) :: push_entry k v m'
      end
  end.

Definition ByLogId : Type := list (list byte * list (Z * TimestampInterval)).

(** The loop over the manifest's files; [idx] numbers them.  [None] when a file
    cannot be read or decoded. *)
Fixpoint collect_universes (fs : Fs) (dir : string) (mfiles : list ManifestFile)
    (idx : Z) (by_log_id : ByLogId) : option ByLogId :=
  match mfiles with
  | [] => Some by_log_id
  | filter :: rest =>
      if FILENAME_SIZE <? Z.of_nat (length (as_bytes (filename filter))) then None
      else
        let path := path_join dir (filename filter) in
        match fs_read fs path with
        | Ok bytes =>
            match from_bytes bytes with
            | inr clubcard =>
                let by_log_id :=
                  foldl (λ m '(log_id, interval), push_entry log_id (as_u16 idx, interval) m)
                        by_log_id (universe clubcard) in
                collect_universes fs dir rest (idx + 1) by_log_id
            | inl _ => None
            end
        | _ => None
        end
  end.

(** A fixed 32-byte slot, NULL-padded. *)
Definition filename_slot (name : string) : list byte :=
  as_bytes name ++ replicate (Z.to_nat FILENAME_SIZE - length (as_bytes name)) x00.

(** [dir_entries]: each log id with the offset and length of its section. *)
Fixpoint dir_entries (by_log_id : ByLogId) (current_offset : Z)
  : list (list byte * Z * Z) :=
  match by_log_id with
  | [] => []
  | (log_id, entries) :: rest =>
      (log_id, as_u64 current_offset, as_u16 (Z.of_nat (length entries)))
      :: dir_entries rest (current_offset + Z.of_nat (length entries) * ENTRY_SIZE_V1)
  end.

Definition dir_entry_bytes (e : list byte * Z * Z) : list byte :=
  let '(log_id, offset, count) := e in log_id ++ be_bytes 8 offset ++ be_bytes 2 count.

Definition entry_bytes (e : Z * TimestampInterval) : list byte :=
  let '(filter_idx, interval) := e in
  be_bytes 2 filter_idx ++ be_bytes 8 (low interval) ++ be_bytes 8 (high interval).

(** [Index::write] *)
Definition write (fs : Fs) (manifest : Manifest) (dir : string) : option (list byte) :=
  match collect_universes fs dir (manifest_files manifest) 0 [] with
  | None => None
  | Some by_log_id =>
      let nfiles := Z.of_nat (length (manifest_files manifest)) in
      let nlogs := Z.of_nat (length by_log_id) in
      let header_size :=
        HEADER_SIZE_V1 + nfiles * FILENAME_SIZE + nlogs * LOG_DIR_ENTRY_SIZE in
      Some (INDEX_MAGIC_V1
            ++ be_bytes 2 (as_u16 nfiles)
            ++ be_bytes 4 (as_u32 nlogs)
            ++ concat ((λ filter, filename_slot (filename filter))
                       <$> manifest_files manifest)
            ++ concat (dir_entry_bytes <$> dir_entries by_log_id header_size)
            ++ concat ((λ '(_, entries), concat (entry_bytes <$> entries)) <$> by_log_id))
  end.
End Check.
