(* ===== verification/Demo.v ===== *)
(** * Concrete instances

    Small implementations of the external interfaces and a file system, on which
    the theorems' hypotheses are shown to hold.  None is an instance by default:
    a witness names the one it uses. *)
From S2P Require Import Prelude Bytes FileSys External Revocation Config Index.

(** ** A filter format

    A filter is the one-byte serial it revokes and 48-byte records: a log id and
    the bounds of an interval. *)
Definition demo_record (r : list byte) : option (list byte * TimestampInterval) :=
  if decide (length r = 48%nat)
  then Some (take 32 r, mkInterval (be_val (slice r 32 40)) (be_val (slice r 40 48)))
  else None.

Definition demo_clubcard : Clubcard := {|
  CRLiteClubcard := byte * list byte;
  CRLiteKey := list byte * list byte * list byte;
  with_hash a b c := (a, b, c);
  from_bytes l := match l with [] => inl "empty" | r :: rest => inr (r, rest) end;
  universe c := omap demo_record (chunks 48 (length c.2 / 48) c.2);
  contains c key _ := if bool_decide (key.1.2 = [c.1]) then Revoked else Good;
  log_id_cmp := bytes_cmp
|}.

Lemma demo_clubcard_laws : @ClubcardLaws demo_clubcard.
Proof.
  split; [done|]. cbn. intros c id iv (r & _ & Hr)%list_elem_of_omap.
  unfold demo_record in Hr. case_decide as Hl; [|done]. injection Hr as <- <-. cbn.
  split; [rewrite length_take; lia|].
  assert (∀ a, (a ≤ 40)%nat → 0 ≤ be_val (slice r a (a + 8)) < 2 ^ 64) as Hb.
  { intros a Ha. pose proof (be_val_bound (slice r a (a + 8))) as H.
    unfold slice in *. rewrite length_take, length_drop in H.
    replace (Z.of_nat _) with 8 in H by lia. exact H. }
  split; [apply (Hb 32%nat)|apply (Hb 40%nat)]; lia.
Qed.

Definition demo_filter (revoked : byte) (us : list (list byte * TimestampInterval))
  : list byte :=
  revoked :: concat ((λ '(id, iv), id ++ be_bytes 8 (low iv) ++ be_bytes 8 (high iv)) <$> us).

(** ** A file system and a configuration *)

Definition demo_log (b : byte) : list byte := replicate 32 b.

Definition demo_config : Config :=
  mkConfig "/c" (mkRevocationConfig "https://upki.rustls.dev/").
Definition demo_dir : string := revocation_cache_dir demo_config.

Definition demo_fs (fs : list (string * list byte)) : Fs := {|
  files := list_to_map ((λ '(n, d), (path_join demo_dir n, d)) <$> fs);
  dirs := {[ "/"; "/c"; demo_dir ]};
  faults := λ _ _, None;
  read_size := λ n, n
|}.

(** Two filters over one log, and one over another. *)
Definition demo_filters : list (string * list byte) :=
  [ ("1.filter", demo_filter x07 [(demo_log x01, mkInterval 10 20)]);
    ("2.delta", demo_filter x08 [(demo_log x01, mkInterval 15 30);
                                 (demo_log x00, mkInterval 0 100)]) ].

Definition demo_cards : list (CRLiteClubcard (Clubcard := demo_clubcard)) :=
  omap (λ '(_, d), match from_bytes (Clubcard := demo_clubcard) d with
                   | inr c => Some c | inl _ => None end) demo_filters.

Definition demo_manifest : Manifest :=
  mkManifest 0 "" ((λ '(n, d), mkManifestFile n (Z.of_nat (length d)) []) <$> demo_filters).

(** A certificate with serial [s] and one SCT of log [b] at time [t]. *)
Definition demo_input (s b : byte) (t : Z) : RevocationCheckInput :=
  mkInput [s] [] [mkCtTimestamp (demo_log b) t] [].
