(* ===== verification/Fetch.v ===== *)
(** * [upki/src/revocation/fetch.rs]: synchronising the cache

    [fetch] gets the manifest, forms a [Plan] from the local files and executes
    it; [Manifest::from_config] and [Manifest::verify] of
    [upki/src/revocation/mod.rs] use the same parts.  The state is a [World]: the
    file system and the network.  A failed step leaves the state it reached. *)
From stdpp Require Import pretty.
From S2P Require Import Prelude Bytes Sha256 FileSys External Revocation Config Index.

(** ** Crates: [reqwest], [serde_json] and the order of a [HashSet] *)

Class Http := {
  Net : Type;
  Client : Type;
  Response : Type;
  client_build : string + Client;
  (** [client.get(url).send().await] *)
  send : Client → string → Net → Net * (string + Response);
  error_for_status : Response → string + Response;
  (** [response.bytes().await], [response.json().await] *)
  response_bytes : Response → Net → Net * (string + list byte);
  response_json : Response → Net → Net * (string + Manifest)
}.

Class Json := {
  manifest_from_reader : list byte → string + Manifest;
  manifest_to_vec : Manifest → string + list byte;
  (** The rendering of an I/O error met while reading. *)
  json_io_error : IoError → string
}.

(** A manifest that was serialised is read back. *)
Class JsonLaws `{Json} : Prop := {
  manifest_roundtrip m data :
    manifest_to_vec m = inr data → manifest_from_reader data = inr m
}.

(** [HashSet::into_iter]: some order. *)
Class HashOrder := { hash_order : list string → list string }.
Class HashOrderLaws `{HashOrder} : Prop := { hash_order_perm l : hash_order l ≡ₚ l }.

Definition MANIFEST_JSON : string := "manifest.json".

(** ** Files *)

(** The reading loop of [hash_file], from an open file with [rest] left. *)
Fixpoint hash_loop (fuel : nat) (fs : Fs) (hasher : Context) (rest : list byte)
  : option Context :=
  match fuel with
  | O => None
  | S fuel' =>
      let '(buffer, rest) := read_some fs 4096 rest in
      if (length buffer =? 0)%nat then Some hasher
      else hash_loop fuel' fs (update hasher buffer) rest
  end.

Definition hash_file (fs : Fs) (path : string) : Result IoError (list byte) :=
  data ← file_open fs path;
  match handle_fault fs path with
  | Some e => Err e
  | None =>
      hasher ← or_panic (hash_loop (S (length data)) fs context_new data);
      finish hasher
  end.

Section AtomicWrite.
Context `{TempFile}.

(** What is done with a [NamedTempFile]: unless it is persisted, it is deleted
    when it goes out of scope. *)
Definition with_temp {E} (temp : string) (body : Eff Fs E unit) : Eff Fs E unit := λ fs,
  match body fs with
  | (fs', Ok u) => (fs', Ok u)
  | (fs', Err e) => (drop_temp temp fs', Err e)
  | (fs', Panic) => (drop_temp temp fs', Panic)
  end.

Definition atomic_write (path : string) (data : list byte) : Eff Fs IoError unit :=
  match path_parent path with
  | None => λ fs, (fs, Panic)
  | Some dir =>
      temp ← tempfile_in "" dir;
      with_temp temp (_ ← write_all temp data; persist temp path)
  end.
End AtomicWrite.

(** ** The manifest in the cache *)

Section ManifestFile.
Context `{Json}.

(** [Manifest::from_config] *)
Definition manifest_from_config (fs : Fs) (config : Config) : Result Error Manifest :=
  let file_name := path_join (revocation_cache_dir config) MANIFEST_JSON in
  data ← map_err (λ error, FileRead error (Some file_name)) (file_open fs file_name);
  match handle_fault fs file_name with
  | Some e => Err (FileDecode (DynExt (json_io_error e)) (Some file_name))
  | None =>
      map_err (λ error, FileDecode (DynExt error) (Some file_name))
              (of_sum (manifest_from_reader data))
  end.
End ManifestFile.

(** ** The plan *)

Inductive PlanStep : Type :=
| CreateDir (path : string)
| Download (file : ManifestFile) (remote_url local : string)
| Delete (path : string)
| SaveIndex (manifest : Manifest) (local_dir : string)
| SaveManifest (manifest : Manifest) (local_dir : string).

(** [PlanStep::download] *)
Definition download (file : ManifestFile) (remote_url local : string) : PlanStep :=
  Download file (remote_url +:+ filename file) (path_join local (filename file)).

(** [HashSet<PathBuf>]: paths are equal when their components are. *)
Definition set_insert (p : string) (s : list string) : list string :=
  if existsb (path_eqb p) s then s else p :: s.
Definition set_remove (p : string) (s : list string) : list string :=
  filter (λ q, path_eqb p q = false) s.

(** [name.ends_with(".filter") || name.ends_with(".delta")] *)
Definition is_filter_name (name : string) : bool :=
  ends_with name ".filter" || ends_with name ".delta".

(** The loop over the directory entries. *)
Fixpoint collect_unwanted (iter : list (Result IoError string)) (unwanted_files : list string)
  : Result Error (list string) :=
  match iter with
  | [] => Ok unwanted_files
  | entry :: rest =>
      path ← map_err (λ error, FileRead error None) entry;
      collect_unwanted rest
        (if is_filter_name path then set_insert path unwanted_files else unwanted_files)
  end.

(** The loop over the manifest's files: the downloads and what stays unwanted. *)
Fixpoint plan_files (fs : Fs) (remote_url local : string) (mfiles : list ManifestFile)
    (steps : list PlanStep) (unwanted_files : list string)
  : Result Error (list PlanStep * list string) :=
  match mfiles with
  | [] => Ok (steps, unwanted_files)
  | file :: rest =>
      let unwanted_files := set_remove (filename file) unwanted_files in
      let path := path_join local (filename file) in
      match hash_file fs path with
      | Panic => Panic
      | Ok digest =>
          if decide (digest = hash file)
          then plan_files fs remote_url local rest steps unwanted_files
          else plan_files fs remote_url local rest
                 (steps ++ [download file remote_url local]) unwanted_files
      | Err _ =>
          plan_files fs remote_url local rest
            (steps ++ [download file remote_url local]) unwanted_files
      end
  end.

(** [Plan::construct] *)
Definition construct `{HashOrder} (fs : Fs) (manifest : Manifest)
    (old_manifest : option Manifest) (remote_url local : string)
  : Result Error (list PlanStep) :=
  '(steps, unwanted_files) ←
    (if path_exists fs local then
       iter ← map_err (λ error, CreateDirectory error local) (read_dir fs local);
       unwanted_files ← collect_unwanted iter [];
       Ok ([], unwanted_files)
     else Ok ([CreateDir local], []));
  '(steps, unwanted_files) ←
    plan_files fs remote_url local (manifest_files manifest) steps unwanted_files;
  let unwanted_files :=
    match old_manifest with
    | Some old_manifest =>
        foldl (λ s file, set_remove (filename file) s) unwanted_files
              (manifest_files old_manifest)
    | None => unwanted_files
    end in
  Ok (steps ++ [SaveIndex manifest local] ++ [SaveManifest manifest local]
      ++ ((λ filename, Delete (path_join local filename)) <$> hash_order unwanted_files)).

(** [Plan::download_bytes]: [usize] sums wrap in a release build. *)
Definition step_bytes (s : PlanStep) : option Z :=
  match s with Download file _ _ => Some (size file) | _ => None end.
Definition download_bytes (steps : list PlanStep) : Z :=
  foldl (λ acc n, (acc + n) mod 2 ^ 64) 0 (omap step_bytes steps).

(** [impl Display for PlanStep], given [Path]'s [Debug]. *)
Definition show_step (debug_path : string → string) (s : PlanStep) : string :=
  match s with
  | CreateDir path => "create directory " +:+ debug_path path
  | Download file remote_url local =>
      "download " +:+ pretty (size file) +:+ " bytes from " +:+ remote_url +:+ " to "
      +:+ debug_path local
  | Delete path => "delete stale file " +:+ debug_path path
  | SaveIndex _ local_dir => "build index from filters into " +:+ debug_path local_dir
  | SaveManifest _ local_dir => "save new manifest into " +:+ debug_path local_dir
  end.

(** ** Executing a plan *)

(** [ExitCode::SUCCESS], and what a run of [fetch] printed. *)
Inductive FetchOutcome : Type :=
| DryRun (lines : list string)
| Executed.

Section Execute.
Context `{Http} `{Json} `{TempFile} `{Clubcard} `{HashOrder}.

Record World := mkWorld { w_fs : Fs; w_net : Net }.

(** An action on the file system alone, on the network alone. *)
Definition on_fs {E A} (m : Eff Fs E A) : Eff World E A := λ w,
  let '(fs, r) := m (w_fs w) in ({| w_fs := fs; w_net := w_net w |}, r).
Definition on_net {A} (m : Net → Net * (string + A)) : Eff World string A := λ w,
  let '(net, r) := m (w_net w) in ({| w_fs := w_fs w; w_net := net |}, of_sum r).

(** [client.get(url).send().await?.error_for_status()?] *)
Definition http_get (client : Client) (url : string) : Eff World Error Response :=
  response ← eff_map_err (λ error, HttpFetch (DynExt error) url) (on_net (send client url));
  eff_lift (λ _, map_err (λ error, HttpFetch (DynExt error) url)
                         (of_sum (error_for_status response))).

(** The [SaveIndex] step. *)
Definition save_index (manifest : Manifest) (local_dir : string) : Eff Fs Error unit := λ fs,
  match write fs manifest local_dir with
  | None => (fs, Ok tt)
  | Some buf =>
      (local_temp ← eff_map_err (λ error, FileWrite error local_dir)
                                (tempfile_in ".new" local_dir);
       let path := path_join local_dir INDEX_BIN in
       with_temp local_temp
         (_ ← eff_map_err (λ error, FileWrite error local_temp) (write_all local_temp buf);
          eff_map_err (λ error, FileWrite error path) (persist local_temp path))) fs
  end.

(** The check of a file just downloaded. *)
Definition check_download (fs : Fs) (file : ManifestFile) (local : string)
  : Result Error unit :=
  match hash_file fs local with
  | Ok digest => if decide (digest = hash file) then Ok tt else Err (HashMismatch local)
  | Err error => Err (FileRead error (Some local))
  | Panic => Panic
  end.

(** [PlanStep::execute] *)
Definition execute (client : Client) (step : PlanStep) : Eff World Error unit :=
  match step with
  | CreateDir path =>
      on_fs (eff_map_err (λ error, CreateDirectory error path) (create_dir_all path))
  | Download file remote_url local =>
      response ← http_get client remote_url;
      bytes ← eff_map_err (λ error, HttpFetch (DynExt error) remote_url)
                          (on_net (response_bytes response));
      _ ← on_fs (eff_map_err (λ error, FileWrite error local) (atomic_write local bytes));
      eff_lift (λ w, check_download (w_fs w) file local)
  | Delete target =>
      on_fs (eff_map_err (λ error, RemoveFile error target) (remove_file target))
  | SaveIndex manifest local_dir => on_fs (save_index manifest local_dir)
  | SaveManifest manifest local_dir =>
      let path := path_join local_dir MANIFEST_JSON in
      data ← eff_lift (λ _, map_err (λ error, ManifestEncode (DynExt error) path)
                                    (of_sum (manifest_to_vec manifest)));
      on_fs (eff_map_err (λ error, FileWrite error path) (atomic_write path data))
  end.

Fixpoint execute_all (client : Client) (steps : list PlanStep) : Eff World Error unit :=
  match steps with
  | [] => mret tt
  | step :: rest => _ ← execute client step; execute_all client rest
  end.

(** The lines a dry run prints. *)
Definition dry_run_lines (debug_path : string → string) (steps : list PlanStep)
  : list string :=
  (pretty (Z.of_nat (length steps)) +:+ " steps required (" +:+ pretty (download_bytes steps)
   +:+ " bytes to download)")
  :: ((λ step, "- " +:+ show_step debug_path step) <$> steps).

(** What [fetch] gets before it plans: a client and the manifest. *)
Definition fetch_manifest (manifest_url : string) : Eff World Error (Client * Manifest) :=
  client ← eff_lift (λ _, map_err (λ error, HttpFetch (DynExt error) manifest_url)
                                  (of_sum client_build));
  response ← http_get client manifest_url;
  manifest ← eff_map_err (λ error, FileDecode (DynExt error) None)
                         (on_net (response_json response));
  mret (client, manifest).

Context `{Chrono}.

(** [fetch] *)
Definition fetch (debug_path : string → string) (dry_run : bool) (config : Config)
  : Eff World Error FetchOutcome :=
  let cache_dir := revocation_cache_dir config in
  let manifest_url := fetch_url (revocation config) +:+ MANIFEST_JSON in
  '(client, manifest) ← fetch_manifest manifest_url;
  _ ← eff_lift (λ _, introduce manifest);
  plan ← eff_lift (λ w,
           let old_manifest := ok (manifest_from_config (w_fs w) config) in
           construct (w_fs w) manifest old_manifest (fetch_url (revocation config)) cache_dir);
  if dry_run : bool then mret (DryRun (dry_run_lines debug_path plan))
  else
    _ ← execute_all client plan;
    mret Executed.

(** [Manifest::verify] *)
Definition verify (fs : Fs) (config : Config) (self : Manifest) : Result Error Z :=
  _ ← introduce self;
  plan ← construct fs self None "https://.../" (revocation_cache_dir config);
  match download_bytes plan with
  | 0 => Ok EXIT_SUCCESS
  | bytes => Err (Outdated bytes)
  end.
End Execute.
