(* ===== verification/FetchFiles.v ===== *)
(** * Hashing and atomic writes

    [hash_file] is SHA-256 of a file's contents however the system splits the
    reads, and [atomic_write] either replaces a file or changes nothing. *)
From S2P Require Import Prelude Bytes Sha256 Sha256Spec FileSys External Revocation Config Index Fetch.

(** ** [hash_file] *)

Lemma read_some_progress fs rest :
  ∃ k, read_some fs 4096 rest = (take k rest, drop k rest) ∧ (1 ≤ k)%nat.
Proof. unfold read_some. eexists. split; [done|]. lia. Qed.

Lemma hash_loop_holds fs fuel c rest m :
  (length rest < fuel)%nat → holds c m →
  ∃ c', hash_loop fuel fs c rest = Some c' ∧ holds c' (m ++ rest).
Proof.
  revert c rest m. induction fuel as [|fuel IH]; intros c rest m Hf Hc; [lia|].
  cbn [hash_loop]. destruct (read_some_progress fs rest) as (k & -> & Hk).
  destruct (Nat.eqb_spec (length (take k rest)) 0) as [E|E]; rewrite length_take in E.
  - destruct rest; [|cbn in E; lia]. rewrite app_nil_r. by exists c.
  - replace (m ++ rest) with ((m ++ take k rest) ++ drop k rest)
      by by rewrite <- (assoc_L (++)), take_drop.
    apply IH.
    + rewrite length_drop. lia.
    + by apply update_holds.
Qed.

(** What [hash_file] returns: the SHA-256 of what [fs::read] returns. *)
Definition hash_spec (fs : Fs) (path : string) : Result IoError (list byte) :=
  data ← fs_read fs path;
  if 8 * Z.of_nat (length data) <=? u64_max then Ok (Fips.sha256 data) else Panic.

Lemma hash_file_spec fs path : hash_file fs path = hash_spec fs path.
Proof.
  unfold hash_file, hash_spec, fs_read.
  destruct (file_open fs path) as [data| |]; cbn [mbind result_bind]; [|done..].
  destruct (handle_fault fs path); [done|]. cbn [mbind result_bind].
  destruct (hash_loop_holds fs (S (length data)) context_new data []) as (c & -> & Hc);
    [lia|apply holds_new|].
  cbn [or_panic mbind result_bind]. by rewrite (finish_holds _ _ Hc).
Qed.

Lemma hash_file_ok fs path d :
  hash_file fs path = Ok d →
  ∃ data, fs_read fs path = Ok data ∧ files fs !! path = Some data ∧ d = Fips.sha256 data.
Proof.
  rewrite hash_file_spec. intros (data & Hr & Hd)%result_bind_ok.
  exists data. split; [done|]. apply fs_read_inv in Hr as [-> _].
  case_match; [|done]. by injection Hd as <-.
Qed.

(** ** [atomic_write] *)

Lemma set_files_id f fs : f (files fs) = files fs → set_files f fs = fs.
Proof. destruct fs. unfold set_files. cbn. by intros ->. Qed.

Lemma set_files_compose f g fs : set_files f (set_files g fs) = set_files (f ∘ g) fs.
Proof. done. Qed.

Lemma set_files_ext f g fs : f (files fs) = g (files fs) → set_files f fs = set_files g fs.
Proof. unfold set_files. by intros ->. Qed.

Section Atomic.
Context `{TempFileLaws}.

(** An action that runs on a new temporary either writes [path] or does nothing. *)
Definition atomic {E} (path : string) (data : list byte) (m : Eff Fs E unit) : Prop :=
  ∀ fs, match m fs with
        | (fs', Ok _) => fs' = set_files <[path := data]> fs
        | (fs', Err _) => fs' = fs
        | (fs', Panic) => fs' = fs
        end.

Lemma write_persist_atomic {E} (fw fp : IoError → E) temp path data fs :
  files fs !! temp = None →
  match with_temp temp (_ ← eff_map_err fw (write_all temp data);
                        eff_map_err fp (persist temp path))
                  (set_files <[temp := []]> fs) with
  | (fs', Ok _) => fs' = set_files <[path := data]> fs
  | (fs', Err _) => fs' = fs
  | (fs', Panic) => False
  end.
Proof.
  intros Hnew. set (fs1 := set_files <[temp := []]> fs).
  assert (∀ d, drop_temp temp (set_files <[temp := d]> fs1) = fs) as Hdrop.
  { intros d. unfold fs1. rewrite drop_temp_spec, !set_files_compose. apply set_files_id.
    cbn. by rewrite insert_insert_eq, delete_insert_id. }
  unfold with_temp, mbind, eff_bind, eff_map_err, write_all.
  destruct (faults fs1 OpWrite temp); cbn [map_err].
  { unfold fs1. rewrite drop_temp_spec, set_files_compose. apply set_files_id. cbn.
    by rewrite delete_insert_id. }
  destruct (persist temp path _) as [fs' r] eqn:Ep. destruct r as [[]|e|]; cbn [map_err].
  - apply (persist_ok _ _ _ _ data) in Ep as ->; [|apply lookup_insert_eq].
    unfold fs1. rewrite !set_files_compose. apply set_files_ext. cbn.
    by rewrite insert_insert_eq, delete_insert_id.
  - apply persist_not_ok in Ep as [-> _]; [|done]. apply Hdrop.
  - by apply persist_not_ok in Ep as [_ []].
Qed.

Lemma atomic_write_atomic path data : atomic path data (atomic_write path data).
Proof.
  intros fs. unfold atomic_write. destruct (path_parent path) as [dir|]; [|done].
  unfold mbind at 1, eff_bind at 1.
  destruct (tempfile_in "" dir fs) as [fs1 [temp|e|]] eqn:E.
  - apply tempfile_in_ok in E as [Hnew ->].
    pose proof (write_persist_atomic id id temp path data fs Hnew) as Hw.
    unfold eff_map_err, map_err in Hw.
    unfold with_temp, mbind, eff_bind in *. cbn [id] in Hw.
    destruct (write_all temp data _) as [fs2 [[]|e|]]; [|done..].
    by destruct (persist temp path fs2) as [fs3 [[]|e|]].
  - by apply tempfile_in_not_ok in E as [-> _].
  - by apply tempfile_in_not_ok in E as [-> _].
Qed.

(** A panic of [atomic_write] is a path without a parent. *)
Lemma atomic_write_panic path data fs :
  (atomic_write path data fs).2 = Panic → path_parent path = None.
Proof.
  unfold atomic_write. destruct (path_parent path) as [dir|]; [|done].
  unfold mbind at 1, eff_bind at 1.
  destruct (tempfile_in "" dir fs) as [fs1 [temp|e|]] eqn:E; [|done|].
  2: { by apply tempfile_in_not_ok in E as [_ []]. }
  apply tempfile_in_ok in E as [Hnew ->].
  pose proof (write_persist_atomic id id temp path data fs Hnew) as Hw.
  unfold eff_map_err, map_err in Hw. unfold with_temp, mbind, eff_bind in *. cbn [id] in Hw.
  destruct (write_all temp data _) as [fs2 [[]|e|]]; [|done..].
  by destruct (persist temp path fs2) as [fs3 [[]|e|]].
Qed.
End Atomic.
