(* ===== verification/FetchPlan.v ===== *)
(** * The plan of a synchronisation

    [construct] downloads exactly the files of the manifest whose local copy does
    not have their hash, in the manifest's order, then saves the index and the
    manifest, then deletes filters that neither manifest names. *)
From S2P Require Import Prelude Bytes Sha256 FileSys External Revocation Config Index Fetch FetchFiles.

(** ** Paths as keys of a set *)

Lemma path_eqb_true p q : path_eqb p q = true ↔ components p = components q.
Proof. unfold path_eqb. apply bool_decide_eq_true. Qed.

Lemma path_eqb_refl p : path_eqb p p = true.
Proof. by apply path_eqb_true. Qed.

Lemma path_eqb_sym p q : path_eqb p q = path_eqb q p.
Proof.
  apply eq_true_iff_eq. rewrite !path_eqb_true. split; congruence.
Qed.

(** A name is in a set of paths when an equal path is. *)
Definition mem (p : string) (s : list string) : Prop := ∃ q, q ∈ s ∧ path_eqb p q = true.

Lemma set_insert_elem p s q : q ∈ set_insert p s → q = p ∨ q ∈ s.
Proof. unfold set_insert. case_match; [by right|]. by intros ?%elem_of_cons. Qed.

Lemma set_insert_mem p s q : mem q (set_insert p s) ↔ path_eqb q p = true ∨ mem q s.
Proof.
  unfold set_insert. destruct (existsb _ _) eqn:E.
  - split; [by right|]. intros [Hq|?]; [|done].
    apply existsb_exists in E as (r & Hr & Hpr). exists r.
    split; [by apply list_elem_of_In|]. apply path_eqb_true in Hq, Hpr.
    apply path_eqb_true. congruence.
  - unfold mem. setoid_rewrite elem_of_cons. naive_solver.
Qed.

Lemma set_remove_elem p s q : q ∈ set_remove p s ↔ q ∈ s ∧ path_eqb p q = false.
Proof. unfold set_remove. rewrite list_elem_of_filter. tauto. Qed.

Lemma set_remove_mem p s q : mem q (set_remove p s) ↔ mem q s ∧ path_eqb p q = false.
Proof.
  unfold mem. setoid_rewrite set_remove_elem.
  assert (∀ r, path_eqb q r = true → path_eqb p r = path_eqb p q) as Heq.
  { intros r Hr%path_eqb_true. apply eq_true_iff_eq. rewrite !path_eqb_true. by rewrite Hr. }
  split.
  - intros (r & [Hr Hp] & Hq). split; [by exists r|]. by rewrite <- (Heq r).
  - intros [(r & Hr & Hq) Hp]. exists r. split; [|done]. split; [done|]. by rewrite (Heq r).
Qed.

(** Removing the names of a list of files. *)
Definition remove_files (mfiles : list ManifestFile) (s : list string) : list string :=
  foldl (λ s file, set_remove (filename file) s) s mfiles.

Definition unnamed (mfiles : list ManifestFile) (q : string) : Prop :=
  Forall (λ f, path_eqb (filename f) q = false) mfiles.

Lemma remove_files_elem mfiles s q :
  q ∈ remove_files mfiles s ↔ q ∈ s ∧ unnamed mfiles q.
Proof.
  revert s. unfold unnamed. induction mfiles as [|f fs IH]; intros s; cbn [remove_files foldl].
  - split; [by split|by intros []].
  - unfold remove_files in IH. rewrite IH, set_remove_elem, Forall_cons. tauto.
Qed.

Lemma remove_files_mem mfiles s q :
  mem q (remove_files mfiles s) ↔ mem q s ∧ unnamed mfiles q.
Proof.
  revert s. unfold unnamed. induction mfiles as [|f fs IH]; intros s; cbn [remove_files foldl].
  - split; [by split|by intros []].
  - unfold remove_files in IH. rewrite IH, set_remove_mem, Forall_cons. tauto.
Qed.

(** ** The loops of [construct] *)

(** The local copy of [f] does not have its hash. *)
Definition stale (fs : Fs) (local : string) (f : ManifestFile) : Prop :=
  hash_file fs (path_join local (filename f)) ≠ Ok (hash f).

#[export] Instance stale_dec fs local f : Decision (stale fs local f).
Proof.
  unfold stale. destruct (hash_file _ _) as [d| |]; [|by left..].
  destruct (decide (d = hash f)) as [->|]; [right|left]; congruence.
Defined.

Lemma plan_files_spec fs url local mfiles steps s r :
  plan_files fs url local mfiles steps s = Ok r →
  r = (steps ++ ((λ f, download f url local) <$> filter (stale fs local) mfiles),
       remove_files mfiles s).
Proof.
  revert steps s. induction mfiles as [|f fs' IH]; intros steps s; cbn [plan_files].
  { intros [= <-]. by rewrite app_nil_r. }
  rewrite filter_cons. destruct (hash_file fs (path_join local (filename f))) as [d|e|] eqn:E;
    [|intros ->%IH|done].
  - destruct (decide (d = hash f)) as [->|Hd]; intros ->%IH.
    + rewrite decide_False; [done|]. intros Hs. by apply Hs.
    + rewrite decide_True by (unfold stale; congruence).
      by rewrite fmap_cons, <- (assoc_L (++)).
  - rewrite decide_True by (unfold stale; congruence).
    by rewrite fmap_cons, <- (assoc_L (++)).
Qed.

Lemma collect_unwanted_spec iter s r :
  collect_unwanted iter s = Ok r →
  (∀ q, q ∈ r → q ∈ s ∨ Ok q ∈ iter ∧ is_filter_name q = true)
  ∧ (∀ q, mem q s ∨ Ok q ∈ iter ∧ is_filter_name q = true → mem q r).
Proof.
  revert s. induction iter as [|x iter IH]; intros s; cbn [collect_unwanted].
  { intros [= <-]. split; [by left|]. intros q [?|[?%elem_of_nil _]]; done. }
  destruct x as [p| |]; cbn [map_err mbind result_bind]; [|done..].
  intros [H1 H2]%IH. setoid_rewrite elem_of_cons. split.
  - intros q Hq. destruct (H1 q Hq) as [Hs|[? ?]]; [|by auto].
    destruct (is_filter_name p) eqn:E; [|by auto].
    apply set_insert_elem in Hs as [->|?]; auto.
  - intros q Hq. apply H2. destruct (is_filter_name p) eqn:E.
    + rewrite set_insert_mem. destruct Hq as [?|[[[= ->]|?] ?]]; auto using path_eqb_refl.
    + destruct Hq as [?|[[[= ->]|?] ?]]; [by auto|congruence|by auto].
Qed.

(** Sets of paths have no duplicates. *)
Lemma set_insert_nodup p s : NoDup s → NoDup (set_insert p s).
Proof.
  intros Hs. unfold set_insert. destruct (existsb (path_eqb p) s) eqn:E; [done|].
  constructor; [|done]. intros Hp. apply not_true_iff_false in E. apply E.
  apply existsb_exists. exists p. split; [by apply list_elem_of_In|apply path_eqb_refl].
Qed.

Lemma remove_files_nodup mfiles s : NoDup s → NoDup (remove_files mfiles s).
Proof.
  revert s. induction mfiles as [|f l IH]; intros s Hs; cbn [remove_files foldl]; [done|].
  apply IH. by apply NoDup_filter.
Qed.

Lemma collect_unwanted_nodup iter s r :
  NoDup s → collect_unwanted iter s = Ok r → NoDup r.
Proof.
  revert s. induction iter as [|x iter IH]; intros s Hs; cbn [collect_unwanted].
  { by intros [= <-]. }
  destruct x as [p| |]; cbn [map_err mbind result_bind]; [|done..].
  apply IH. case_match; [by apply set_insert_nodup|done].
Qed.

(** ** When planning succeeds *)

Lemma collect_unwanted_ok (l : list string) s : ∃ r, collect_unwanted (Ok <$> l) s = Ok r.
Proof.
  revert s. induction l as [|x l IH]; intros s; [by eexists|]. rewrite fmap_cons.
  cbn [collect_unwanted map_err mbind result_bind]. apply IH.
Qed.

Lemma plan_files_ok fs url local mfiles steps s :
  (∀ f, f ∈ mfiles → hash_file fs (path_join local (filename f)) ≠ Panic) →
  ∃ r, plan_files fs url local mfiles steps s = Ok r.
Proof.
  revert steps s. induction mfiles as [|f l IH]; intros steps s Hh; cbn [plan_files]; [by eexists|].
  pose proof (Hh f ltac:(left)) as Hf. assert (∀ g, g ∈ l → g ∈ f :: l) as Hl by (by right).
  destruct (hash_file _ _) as [d|e|]; [case_decide|..]; try (apply IH; auto). done.
Qed.

(** ** The shape of a plan *)

Section Shape.
Context `{HashOrderLaws}.

(** The names listed in the directory. *)
Definition listed (fs : Fs) (local name : string) : Prop :=
  ∃ iter, read_dir fs local = Ok iter ∧ Ok name ∈ iter.

Definition old_files (old : option Manifest) : list ManifestFile :=
  match old with Some m => manifest_files m | None => [] end.

(** What may be deleted: a filter in the directory that neither manifest names. *)
Definition deletable (fs : Fs) (local : string) (m : Manifest) (old : option Manifest)
    (name : string) : Prop :=
  listed fs local name ∧ is_filter_name name = true
  ∧ unnamed (manifest_files m) name ∧ unnamed (old_files old) name.

Lemma construct_shape fs m old url local plan :
  construct fs m old url local = Ok plan →
  ∃ doomed,
    plan = (if path_exists fs local then [] else [CreateDir local])
           ++ ((λ f, download f url local) <$> filter (stale fs local) (manifest_files m))
           ++ [SaveIndex m local; SaveManifest m local]
           ++ ((λ name, Delete (path_join local name)) <$> doomed)
    ∧ (∀ name, name ∈ doomed → deletable fs local m old name)
    ∧ (∀ name, path_exists fs local = true → deletable fs local m old name → mem name doomed)
    ∧ NoDup doomed.
Proof.
  unfold construct. intros ([steps s] & Hs & Hp)%result_bind_ok.
  apply result_bind_ok in Hp as ([steps' s'] & Hp & [= <-]).
  apply plan_files_spec in Hp as [= -> ->].
  assert (∀ (x : option Manifest) s, match x with
            | Some o => foldl (λ s file, set_remove (filename file) s) s (manifest_files o)
            | None => s end = remove_files (old_files x) s) as -> by by intros [].
  exists (hash_order (remove_files (old_files old) (remove_files (manifest_files m) s))).
  assert (steps = if path_exists fs local then [] else [CreateDir local]) as ->.
  { destruct (path_exists fs local); [|by injection Hs as <- _].
    apply result_bind_ok in Hs as (? & _ & Hs).
    apply result_bind_ok in Hs as (? & _ & [= <- _]). done. }
  split; [by rewrite <- !(assoc_L (++))|]. split; [|split].
  - intros name Hn. rewrite hash_order_perm, !remove_files_elem in Hn.
    destruct Hn as [[Hn Hm] Ho]. destruct (path_exists fs local).
    + apply result_bind_ok in Hs as (iter & Hit%map_err_ok & Hs).
      apply result_bind_ok in Hs as (s' & Hc & [= <-]).
      apply collect_unwanted_spec in Hc as [Hc _].
      destruct (Hc name Hn) as [?%elem_of_nil|[Hl Hf]]; [done|].
      split; [by exists iter|done].
    + injection Hs as <-. by apply elem_of_nil in Hn.
  - intros name Hex ((iter & Hit & Hin) & Hf & Hm & Ho). rewrite Hex, Hit in Hs.
    cbn [map_err mbind result_bind] in Hs.
    apply result_bind_ok in Hs as (s' & Hc & [= <-]).
    apply collect_unwanted_spec in Hc as [_ Hc].
    assert (mem name (remove_files (old_files old) (remove_files (manifest_files m) s')))
      as (q & Hq & Hpq).
    { rewrite !remove_files_mem. split; [split; [|done]|done]. apply Hc. by right. }
    exists q. split; [|done]. by rewrite hash_order_perm.
  - rewrite hash_order_perm. apply remove_files_nodup, remove_files_nodup.
    destruct (path_exists fs local); [|injection Hs as <-; apply NoDup_nil_2].
    apply result_bind_ok in Hs as (iter & _ & Hs).
    apply result_bind_ok in Hs as (s' & Hc & [= <-]).
    eapply collect_unwanted_nodup, Hc. apply NoDup_nil_2.
Qed.

(** Whether planning succeeds depends on neither the old manifest nor the URL. *)
Lemma plan_files_url fs url url' local mfiles steps steps' s r :
  plan_files fs url local mfiles steps s = Ok r →
  ∃ r', plan_files fs url' local mfiles steps' s = Ok r'.
Proof.
  revert steps steps' s. induction mfiles as [|f l IH]; intros steps steps' s;
    cbn [plan_files]; [by eexists|].
  destruct (hash_file _ _) as [d|e|]; [case_match|..]; try apply IH. done.
Qed.

Lemma construct_any_old fs m old old' url url' local plan :
  construct fs m old url local = Ok plan → ∃ plan', construct fs m old' url' local = Ok plan'.
Proof.
  unfold construct. intros ([steps s] & -> & Hp)%result_bind_ok.
  apply result_bind_ok in Hp as (r & Hp & _). cbn [mbind result_bind].
  destruct (plan_files_url _ _ url' _ _ _ steps _ _ Hp) as [[r1 r2] ->]. by eexists.
Qed.

(** When planning fails. *)
Lemma construct_err fs m old url local e :
  construct fs m old url local = Err e →
  path_exists fs local = true
  ∧ ((∃ err, read_dir fs local = Err err ∧ e = CreateDirectory err local)
     ∨ ∃ iter err, read_dir fs local = Ok iter ∧ Err err ∈ iter ∧ e = FileRead err None).
Proof.
  assert (∀ mf steps s, plan_files fs url local mf steps s ≠ Err e) as Hpf.
  { induction mf as [|f mf IH]; intros steps s; cbn [plan_files]; [done|].
    repeat case_match; done || apply IH. }
  assert (∀ iter s, collect_unwanted iter s = Err e →
            ∃ err, Err err ∈ iter ∧ e = FileRead err None) as Hcu.
  { induction iter as [|x iter IH]; intros s; cbn [collect_unwanted]; [done|].
    destruct x as [p|err|]; cbn [map_err mbind result_bind]; [| |done].
    - intros (err & Hin & ->)%IH. exists err. split; [by right|done].
    - intros [= <-]. exists err. split; [left|done]. }
  unfold construct. destruct (path_exists fs local).
  - intros He. split; [done|]. destruct (read_dir fs local) as [iter|err|];
      cbn [map_err mbind result_bind] in He; [right|left|done].
    + exists iter. destruct (collect_unwanted iter []) as [s|e'|] eqn:Hc;
        cbn [mbind result_bind] in He; [|injection He as ->|done].
      * by destruct (plan_files _ _ _ _ _ _) as [[]|e'|] eqn:Hp;
          cbn [mbind result_bind] in He; [|injection He as ->; destruct (Hpf _ _ _ Hp)|].
      * apply Hcu in Hc as (err & Hin & ->). eauto.
    + injection He as <-. eauto.
  - cbn [mbind result_bind]. by destruct (plan_files _ _ _ _ _ _) as [[]|e'|] eqn:Hp;
      cbn [mbind result_bind]; [|intros [= ->]; destruct (Hpf _ _ _ Hp)|].
Qed.
End Shape.
