(* ===== verification/FetchExec.v ===== *)
(** * Executing plans

    Each step of a plan as a relation on file systems, what a failing step
    leaves behind, and sequences of steps. *)
From S2P Require Import Prelude Bytes Sha256 Sha256Spec FileSys External Revocation Config Index Fetch FetchFiles FetchPlan.

(** ** Verified files *)

(** The file at [p] can be read and has the hash [d]. *)
Record good (fs : Fs) (p : string) (d : list byte) : Prop := {
  good_data : ∃ data, files fs !! p = Some data ∧ d = Fips.sha256 data
                      ∧ 8 * Z.of_nat (length data) ≤ u64_max;
  good_nul : no_nul (as_bytes p) = true;
  good_open : faults fs OpOpen p = None;
  good_read : faults fs OpRead p = None }.

Lemma hash_file_good fs p d : hash_file fs p = Ok d ↔ good fs p d.
Proof.
  rewrite hash_file_spec. unfold hash_spec. rewrite result_bind_ok. split.
  - intros (data & (Hf & Hn & Ho & Hr)%fs_read_inv & Hd).
    destruct (Z.leb_spec (8 * Z.of_nat (length data)) u64_max); [|done].
    injection Hd as <-. split; [|done..]. by exists data.
  - intros [(data & Hf & -> & Hl) Hn Ho Hr]. exists data.
    split; [by apply fs_read_ok|]. by rewrite (proj2 (Z.leb_le _ _)).
Qed.

Lemma stale_good fs local f :
  ¬ stale fs local f ↔ good fs (path_join local (filename f)) (hash f).
Proof.
  rewrite <- hash_file_good. unfold stale. split; [|by intros -> []].
  intros Hs. by destruct (decide (hash_file fs (path_join local (filename f)) = Ok (hash f))).
Qed.

(** What a file system refuses does not depend on what it holds. *)
Record same_env (fs fs' : Fs) : Prop := {
  env_faults : faults fs' = faults fs;
  env_read : read_size fs' = read_size fs }.

#[export] Instance same_env_preorder : PreOrder same_env.
Proof. split; [by split|]. intros f1 f2 f3 [] []. split; congruence. Qed.

Lemma same_env_set_files g fs : same_env fs (set_files g fs).
Proof. by split. Qed.
#[export] Hint Resolve same_env_set_files : upki.

Lemma good_frame fs fs' p d :
  same_env fs fs' → files fs' !! p = files fs !! p → good fs p d → good fs' p d.
Proof. intros [Hf _] Hp [? ? ? ?]. split; rewrite ?Hf, ?Hp; done. Qed.

(** ** Steps as a relation *)

Section Steps.
Context `{Http} `{Json} `{TempFileLaws} `{Clubcard} `{HashOrderLaws}.

(** The whole body of a response that the server gave to a request for [url]. *)
Definition sends (url : string) (data : list byte) : Prop :=
  ∃ client net net1 net2 net3 r resp,
    send client url net = (net1, inr r) ∧ error_for_status r = inr resp
    ∧ response_bytes resp net2 = (net3, inr data).

Inductive ran : PlanStep → Fs → Fs → Prop :=
| ran_create fs p fs' :
    grown p fs fs' → p = "" ∨ p ∈ dirs fs' → ran (CreateDir p) fs fs'
| ran_download fs f url local data :
    sends url data →
    good (set_files <[local := data]> fs) local (hash f) →
    ran (Download f url local) fs (set_files <[local := data]> fs)
| ran_delete fs p : is_Some (files fs !! p) → ran (Delete p) fs (set_files (delete p) fs)
| ran_no_index fs m dir : write fs m dir = None → ran (SaveIndex m dir) fs fs
| ran_index fs m dir buf :
    write fs m dir = Some buf →
    ran (SaveIndex m dir) fs (set_files <[path_join dir INDEX_BIN := buf]> fs)
| ran_manifest fs m dir data :
    manifest_to_vec m = inr data →
    ran (SaveManifest m dir) fs (set_files <[path_join dir MANIFEST_JSON := data]> fs).

(** What a step that fails leaves: nothing changed, except that directories made before
    the error stay, and that a download does of which the whole body came and was written,
    but which cannot be verified: its hash is another, or it cannot be read back. *)
Inductive failed : PlanStep → Fs → Fs → Prop :=
| failed_same s fs : failed s fs fs
| failed_create fs p fs' : grown p fs fs' → failed (CreateDir p) fs fs'
| failed_download fs f url local data :
    sends url data → ¬ good (set_files <[local := data]> fs) local (hash f) →
    failed (Download f url local) fs (set_files <[local := data]> fs).

Lemma grown_env p fs fs' : grown p fs fs' → same_env fs fs'.
Proof. by intros []. Qed.

Lemma save_index_spec m dir fs :
  match save_index m dir fs with
  | (fs', Ok _) => ran (SaveIndex m dir) fs fs'
  | (fs', _) => fs' = fs
  end.
Proof.
  unfold save_index. destruct (write fs m dir) as [buf|] eqn:Hw; [|by constructor].
  unfold mbind at 1, eff_bind at 1, eff_map_err at 1.
  destruct (tempfile_in ".new" dir fs) as [fs1 [temp|e|]] eqn:E; cbn [map_err].
  - apply tempfile_in_ok in E as [Hnew ->].
    pose proof (write_persist_atomic (λ e, FileWrite e temp)
                  (λ e, FileWrite e (path_join dir INDEX_BIN)) temp
                  (path_join dir INDEX_BIN) buf fs Hnew) as Hwp.
    destruct (with_temp temp _ _) as [fs2 [[]|e|]]; [|done..].
    subst fs2. by constructor.
  - by apply tempfile_in_not_ok in E as [-> _].
  - by apply tempfile_in_not_ok in E as [-> _].
Qed.

Lemma remove_file_spec p fs :
  match remove_file p fs with
  | (fs', Ok _) => ran (Delete p) fs fs'
  | (fs', _) => fs' = fs
  end.
Proof.
  unfold remove_file. destruct (guard_op _ _ _ _); [|done..].
  destruct (files fs !! p) eqn:E; [|done]. constructor. by rewrite E.
Qed.

Lemma check_download_ok fs f local :
  check_download fs f local = Ok tt ↔ good fs local (hash f).
Proof.
  unfold check_download. rewrite <- hash_file_good. repeat case_match; naive_solver.
Qed.

Lemma http_get_fs client url w : w_fs (http_get client url w).1 = w_fs w.
Proof.
  unfold http_get, mbind, eff_bind, eff_map_err, on_net, eff_lift.
  destruct (send client url (w_net w)) as [net [e|r]]; done.
Qed.

Lemma http_get_ok client url w w1 resp :
  http_get client url w = (w1, Ok resp) →
  ∃ net1 r, send client url (w_net w) = (net1, inr r) ∧ error_for_status r = inr resp.
Proof.
  unfold http_get, mbind, eff_bind, eff_map_err, on_net, eff_lift.
  destruct (send client url (w_net w)) as [net1 [e|r]]; cbn [of_sum map_err]; [done|].
  destruct (error_for_status r) as [e|x] eqn:E; cbn; [done|]. intros [= _ ->]. eauto.
Qed.

(** [on_fs] around an action that ran or changed nothing. *)
Lemma on_fs_spec {E} s (m : Eff Fs E unit) w :
  match m (w_fs w) with
  | (fs', Ok _) => ran s (w_fs w) fs'
  | (fs', _) => fs' = w_fs w
  end →
  match on_fs m w with
  | (w', Ok _) => ran s (w_fs w) (w_fs w')
  | (w', _) => w_fs w' = w_fs w
  end.
Proof. unfold on_fs. by destruct (m (w_fs w)) as [fs' [u|e|]]. Qed.

Lemma map_err_spec {E F} s (g : E → F) (m : Eff Fs E unit) fs :
  match m fs with
  | (fs', Ok _) => ran s fs fs'
  | (fs', _) => fs' = fs
  end →
  match eff_map_err g m fs with
  | (fs', Ok _) => ran s fs fs'
  | (fs', _) => fs' = fs
  end.
Proof. unfold eff_map_err. by destruct (m fs) as [fs' [u|e|]]. Qed.

(** Downloading: the network may fail first, changing no file. *)
Lemma execute_download_spec client f url local w :
  match execute client (Download f url local) w with
  | (w', Ok _) => ran (Download f url local) (w_fs w) (w_fs w')
  | (w', _) => failed (Download f url local) (w_fs w) (w_fs w')
  end.
Proof.
  cbn [execute]. unfold mbind at 1, eff_bind at 1.
  pose proof (http_get_fs client url w) as Hg.
  destruct (http_get client url w) as [w1 [resp|e|]] eqn:Hget; cbn [fst] in Hg;
    [|rewrite Hg; constructor..].
  unfold mbind at 1, eff_bind at 1, eff_map_err at 1, on_net.
  destruct (response_bytes resp (w_net w1)) as [net [e|data]] eqn:Hb; cbn [of_sum map_err];
    [cbn; rewrite Hg; constructor|].
  assert (sends url data) as Hsent.
  { apply http_get_ok in Hget as (net1 & r & Hs & He). by repeat eexists. }
  unfold mbind, eff_bind, on_fs, eff_map_err, eff_lift. cbn [w_fs w_net]. rewrite Hg.
  pose proof (atomic_write_atomic local data (w_fs w)) as Ha.
  destruct (atomic_write local data (w_fs w)) as [fs' [[]|e|]]; cbn [map_err w_fs];
    [subst fs'|rewrite Ha; constructor..].
  destruct (check_download _ f local) as [[]|e|] eqn:Hc.
  - constructor; [done|]. by apply check_download_ok.
  - constructor; [done|]. rewrite <- check_download_ok. by rewrite Hc.
  - constructor; [done|]. rewrite <- check_download_ok. by rewrite Hc.
Qed.

Lemma execute_spec client s w :
  match execute client s w with
  | (w', Ok _) => ran s (w_fs w) (w_fs w')
  | (w', _) => failed s (w_fs w) (w_fs w')
  end.
Proof.
  assert (∀ (x : World * Result Error unit),
    match x with (w', Ok _) => ran s (w_fs w) (w_fs w') | (w', _) => w_fs w' = w_fs w end →
    match x with (w', Ok _) => ran s (w_fs w) (w_fs w')
               | (w', _) => failed s (w_fs w) (w_fs w') end) as Hsame.
  { intros [w' [u|e|]] Hx; [done|rewrite Hx; constructor..]. }
  destruct s as [p|f url local|p|m dir|m dir]; cbn [execute].
  - unfold on_fs, eff_map_err. destruct (create_dir_all p (w_fs w)) as [fs' r] eqn:E.
    apply create_dir_all_grown in E as [Hg Hp].
    destruct r as [[]|e|]; cbn [map_err w_fs]; constructor; auto.
  - apply execute_download_spec.
  - apply Hsame, on_fs_spec, map_err_spec, remove_file_spec.
  - apply Hsame, on_fs_spec, save_index_spec.
  - apply Hsame. unfold mbind, eff_bind, eff_lift.
    destruct (manifest_to_vec m) as [e|data] eqn:Hv; [done|]. cbn [of_sum map_err].
    apply on_fs_spec, map_err_spec.
    pose proof (atomic_write_atomic (path_join dir MANIFEST_JSON) data (w_fs w)) as Ha.
    destruct (atomic_write _ data (w_fs w)) as [fs' [[]|e|]]; [subst fs'|done..].
    by constructor.
Qed.

(** ** Sequences of steps *)

Inductive ran_all : list PlanStep → Fs → Fs → Prop :=
| ran_nil fs : ran_all [] fs fs
| ran_cons s steps fs1 fs2 fs3 :
    ran s fs1 fs2 → ran_all steps fs2 fs3 → ran_all (s :: steps) fs1 fs3.

Lemma ran_all_app l1 l2 fs fs' :
  ran_all (l1 ++ l2) fs fs' ↔ ∃ fs1, ran_all l1 fs fs1 ∧ ran_all l2 fs1 fs'.
Proof.
  revert fs. induction l1 as [|s l1 IH]; intros fs; cbn [app].
  - split; [intros ?; exists fs; split; [constructor|done]|].
    intros (fs1 & Hnil & ?). by inversion Hnil; subst.
  - split.
    + intros Hr. inversion Hr; subst.
      match goal with Hx : ran_all (_ ++ _) _ _ |- _ => apply IH in Hx as (fs1 & ? & ?) end.
      exists fs1. split; [by econstructor|done].
    + intros (fs1 & Hr & ?). inversion Hr; subst. econstructor; [done|]. apply IH. eauto.
Qed.

Lemma execute_all_spec client steps w :
  match execute_all client steps w with
  | (w', Ok _) => ran_all steps (w_fs w) (w_fs w')
  | (w', _) => ∃ done_ s rest fs1, steps = done_ ++ s :: rest
                 ∧ ran_all done_ (w_fs w) fs1 ∧ failed s fs1 (w_fs w')
  end.
Proof.
  revert w. induction steps as [|s steps IH]; intros w; cbn [execute_all].
  { constructor. }
  unfold mbind, eff_bind. pose proof (execute_spec client s w) as Hs.
  destruct (execute client s w) as [w1 [[]|e|]];
    [|exists [], s, steps, (w_fs w); repeat split; [constructor|done]..].
  specialize (IH w1). destruct (execute_all client steps w1) as [w2 [[]|e|]];
    [by econstructor|..];
    destruct IH as (d & s' & rest & fs1 & -> & Hd & Hf);
    exists (s :: d), s', rest, fs1; (split; [done|]); (split; [by econstructor|done]).
Qed.

(** ** What steps may change *)

Definition targets (s : PlanStep) : list string :=
  match s with
  | CreateDir _ => []
  | Download _ _ local => [local]
  | Delete p => [p]
  | SaveIndex _ dir => [path_join dir INDEX_BIN]
  | SaveManifest _ dir => [path_join dir MANIFEST_JSON]
  end.

Lemma ran_frame s fs fs' :
  ran s fs fs' → same_env fs fs' ∧ ∀ p, p ∉ targets s → files fs' !! p = files fs !! p.
Proof.
  assert (∀ p q d fs, p ∉ [q] → files (set_files <[q := d]> fs) !! p = files fs !! p) as Hi.
  { intros p q d fs0 Hp. cbn. apply lookup_insert_ne. set_solver. }
  destruct 1 as [fs p fs' Hg _| | | | |]; cbn [targets];
    (split; [by eauto using grown_env with upki|]); intros q Hq; auto.
  - by rewrite (grown_files _ _ _ Hg).
  - cbn. apply lookup_delete_ne. set_solver.
Qed.

Lemma failed_frame s fs fs' :
  failed s fs fs' → same_env fs fs' ∧ ∀ p, p ∉ targets s → files fs' !! p = files fs !! p.
Proof.
  destruct 1 as [|fs p fs' Hg|]; [by split|split..]; [by eapply grown_env| |by auto with upki|].
  - intros q _. by rewrite (grown_files _ _ _ Hg).
  - intros p Hp. cbn. apply lookup_insert_ne. set_solver.
Qed.

Lemma ran_all_frame steps fs fs' :
  ran_all steps fs fs' →
  same_env fs fs' ∧ ∀ p, p ∉ concat (targets <$> steps) → files fs' !! p = files fs !! p.
Proof.
  induction 1 as [fs|s steps fs1 fs2 fs3 Hs Hall [He Hf]]; [by split|].
  apply ran_frame in Hs as [He' Hf']. split; [by etransitivity|].
  intros p Hp. rewrite fmap_cons in Hp. cbn [concat] in Hp.
  apply not_elem_of_app in Hp as [Hp1 Hp2]. by rewrite Hf, Hf'.
Qed.

(** Running or failing, a plan changes its targets at most. *)
Lemma execute_all_frame client steps w :
  let w' := (execute_all client steps w).1 in
  same_env (w_fs w) (w_fs w')
  ∧ ∀ p, p ∉ concat (targets <$> steps) → files (w_fs w') !! p = files (w_fs w) !! p.
Proof.
  pose proof (execute_all_spec client steps w) as Hs.
  destruct (execute_all client steps w) as [w' [[]|e|]]; cbn [fst];
    [by apply ran_all_frame|..];
    destruct Hs as (d & s & rest & fs1 & -> & [He Hf]%ran_all_frame & [He' Hf']%failed_frame);
    (split; [by etransitivity|]); intros p Hp;
    rewrite fmap_app, fmap_cons, concat_app in Hp; cbn [concat] in Hp;
    apply not_elem_of_app in Hp as [Hp1 [Hp2 _]%not_elem_of_app];
    by rewrite Hf', Hf.
Qed.

(** ** Downloads *)

(** After the downloads every file downloaded, and every file that was good
    before, is good. *)
Lemma downloads_good local url (all l : list ManifestFile) fs fs' :
  (∀ f g, f ∈ all → g ∈ all → path_join local (filename f) = path_join local (filename g) →
          hash f = hash g) →
  (∀ f, f ∈ l → f ∈ all) →
  ran_all ((λ f, download f url local) <$> l) fs fs' →
  ∀ f, f ∈ all → f ∈ l ∨ good fs (path_join local (filename f)) (hash f) →
       good fs' (path_join local (filename f)) (hash f).
Proof.
  intros Hcons. revert fs. induction l as [|g l IH]; intros fs Hl Hr f Hf Hor.
  - inversion Hr; subst. destruct Hor as [?%elem_of_nil|?]; done.
  - rewrite fmap_cons in Hr. inversion Hr as [|s steps fs1 fs2 fs3 Hs Hrest]; subst.
    apply (IH fs2); [intros; apply Hl; by right|done|done|].
    inversion Hs as [|fs0 f0 u l0 data Hsent Hgood| | | |]; subst.
    destruct (decide (path_join local (filename f) = path_join local (filename g)))
      as [E|E].
    + right. rewrite E, (Hcons f g); [exact Hgood|done|apply Hl; left|done].
    + destruct Hor as [[->|?]%elem_of_cons|Hg]; [done|by left|right].
      eapply good_frame, Hg; [by auto with upki|]. cbn. by apply lookup_insert_ne.
Qed.
End Steps.
