(* ===== verification/IndexSafe.v ===== *)
(** * The index reader on arbitrary files

    Whatever bytes [index.bin] holds and whatever reads the system refuses,
    [from_cache] and [check] return a value or an error: every slice is in
    range, every array access is guarded, the binary search ends.  The tables
    allocated are no larger than the file. *)
From S2P Require Import Prelude Bytes FileSys External Revocation Config Index.

(** ** The invariant of an [Index] *)

Record index_wf (i : Index) : Prop := {
  wf_filenames : 0 ≤ num_filenames i < 2 ^ 16;
  wf_logs : 0 ≤ num_logs i < 2 ^ 32;
  wf_offset : logs_offset i = num_filenames i * FILENAME_SIZE;
  wf_tables : Z.of_nat (length (tables i))
              = logs_offset i + num_logs i * LOG_DIR_ENTRY_SIZE;
  wf_entry : entry_size i = ENTRY_SIZE_V0 ∨ entry_size i = ENTRY_SIZE_V1 }.

Lemma set_file_wf f i : index_wf i → index_wf (set_file f i).
Proof. intros []. by split. Qed.
#[export] Hint Resolve set_file_wf : upki.

(** ** Reading *)

Lemma read_exact_length n f f' l :
  0 ≤ n → 0 ≤ pos f → read_exact n f = (f', Ok l) → Z.of_nat (length l) = n.
Proof.
  unfold read_exact. intros Hn Hp. case_match eqn:E.
  - intros [= <- <-]. cbn. apply Z.eqb_eq in E. lia.
  - case_match; [done|]. case_match eqn:El; [|done].
    apply Z.leb_le in El. intros [= <- <-]. rewrite length_slice; lia.
Qed.

Lemma read_exact_not_panic n f : (read_exact n f).2 ≠ Panic.
Proof. unfold read_exact. by repeat case_match. Qed.

Lemma read_exact_pos n f f' r : 0 ≤ n → 0 ≤ pos f → read_exact n f = (f', r) → 0 ≤ pos f'.
Proof.
  unfold read_exact. intros Hn Hp. repeat case_match; intros [= <- <-]; cbn; lia.
Qed.

Lemma read_exact_contents n f f' r : read_exact n f = (f', r) → contents f' = contents f.
Proof. unfold read_exact. by repeat case_match; intros [= <- <-]. Qed.

Lemma read_exact_fits n f f' l :
  0 ≤ n → read_exact n f = (f', Ok l) → n = 0 ∨ pos f + n ≤ Z.of_nat (length (contents f)).
Proof.
  unfold read_exact. intros Hn. case_match eqn:E; [apply Z.eqb_eq in E; by left|].
  case_match; [done|]. case_match eqn:El; [|done]. apply Z.leb_le in El. by right.
Qed.

Lemma read_exact_succeeds n f :
  read_fault f = None → pos f + n ≤ Z.of_nat (length (contents f)) →
  ∃ f' l, read_exact n f = (f', Ok l).
Proof.
  intros Hr Hn. unfold read_exact. rewrite Hr, (proj2 (Z.leb_le _ _)) by done.
  destruct (n =? 0); by eexists _, _.
Qed.

Lemma read_exact_ok_pos n f f' l :
  read_exact n f = (f', Ok l) → pos f' = pos f + n.
Proof.
  unfold read_exact. case_match eqn:E; [apply Z.eqb_eq in E; intros [= <- <-]; lia|].
  case_match; [done|]. case_match; [|done]. by intros [= <- <-].
Qed.

Lemma read_be_err_ok n data v rest :
  read_be_err n data = Ok (v, rest) →
  length data = (n + length rest)%nat ∧ 0 ≤ v < 256 ^ Z.of_nat n.
Proof.
  unfold read_be_err. destruct (read_be n data) as [[v' rest']|] eqn:E; [|done].
  cbn. intros [= <- <-]. by apply read_be_inv.
Qed.

Lemma read_be_err_no_panic n data : no_panic (read_be_err n data).
Proof. unfold read_be_err. by destruct (read_be n data). Qed.
#[export] Hint Resolve read_be_err_no_panic : upki.

(** [from_cache] apart from what it allocates. *)
Lemma from_cache_eq fs config :
  from_cache fs config
  = '(f, es, nf, nl) ← read_header fs config;
    let '(f, tables) := read_exact (nf * FILENAME_SIZE + nl * LOG_DIR_ENTRY_SIZE) f in
    tables ← map_err decode_io tables;
    Ok (mkIndex (revocation_cache_dir config) nf nl (nf * FILENAME_SIZE) es tables f).
Proof.
  unfold from_cache, from_cache_run, mbind, eff_bind, eff_lift, vec_zeroed.
  destruct (read_header fs config) as [[[[f es] nf] nl]|e|]; [|reflexivity..]. cbn.
  destruct (read_exact _ f) as [f' [tbl|e|]]; reflexivity.
Qed.

(** [read_header] step by step: what each read returned. *)
Lemma read_header_inv fs config f es nf nl :
  let p := path_join (revocation_cache_dir config) INDEX_BIN in
  read_header fs config = Ok (f, es, nf, nl) →
  ∃ data f1 magic header hs rest rest',
    file_open fs p = Ok data
    ∧ read_exact 8 (mkFile data 0 (handle_fault fs p)) = (f1, Ok magic)
    ∧ ((magic = INDEX_MAGIC_V1 ∧ hs = HEADER_SIZE_V1 ∧ es = ENTRY_SIZE_V1)
       ∨ (magic = INDEX_MAGIC_V0 ∧ hs = HEADER_SIZE_V0 ∧ es = ENTRY_SIZE_V0))
    ∧ read_exact (hs - 8) f1 = (f, Ok header)
    ∧ read_be_err (if es =? ENTRY_SIZE_V0 then 1 else 2) header = Ok (nf, rest)
    ∧ read_be_err 4 rest = Ok (nl, rest')
    ∧ as_u64 (hs + (nf * FILENAME_SIZE + nl * LOG_DIR_ENTRY_SIZE))
      ≤ Z.of_nat (length (contents f)).
Proof.
  intros p. unfold read_header. fold p.
  destruct (file_open fs p) as [data| |]; cbn [map_err mbind result_bind]; [|done..].
  destruct (read_exact 8 _) as [f1 [magic| |]] eqn:E1; cbn [map_err mbind result_bind]; [|done..].
  intros ([hs es'] & Hm & H)%result_bind_ok. exists data, f1.
  destruct (read_exact (hs - 8) f1) as [f2 [header| |]] eqn:E2;
    cbn [map_err mbind result_bind] in H; [|done..].
  apply result_bind_ok in H as ([nf' rest] & Hnf & H).
  apply result_bind_ok in H as ([nl' rest'] & Hnl & H).
  apply result_bind_ok in H as (flen & Hlen & H).
  case_match eqn:Hle; [done|]. apply Z.ltb_ge in Hle. injection H as <- <- <- <-.
  exists magic, header, hs, rest, rest'. apply map_err_ok in Hlen.
  assert (flen = Z.of_nat (length (contents f2))) as ->
    by (unfold guard_op in Hlen; repeat case_match; inv_result; done).
  assert ((magic = INDEX_MAGIC_V1 ∧ hs = HEADER_SIZE_V1 ∧ es' = ENTRY_SIZE_V1)
          ∨ (magic = INDEX_MAGIC_V0 ∧ hs = HEADER_SIZE_V0 ∧ es' = ENTRY_SIZE_V0)) as Hm'
    by (repeat case_match; inv_result; auto).
  by repeat split.
Qed.

(** [from_cache] step by step: what each read returned. *)
Lemma from_cache_inv fs config i :
  from_cache fs config = Ok i →
  ∃ data f1 f2 magic header hs es rest rest',
    file_open fs (path_join (revocation_cache_dir config) INDEX_BIN) = Ok data
    ∧ read_exact 8 (mkFile data 0 (handle_fault fs
                      (path_join (revocation_cache_dir config) INDEX_BIN))) = (f1, Ok magic)
    ∧ ((magic = INDEX_MAGIC_V1 ∧ hs = HEADER_SIZE_V1 ∧ es = ENTRY_SIZE_V1)
       ∨ (magic = INDEX_MAGIC_V0 ∧ hs = HEADER_SIZE_V0 ∧ es = ENTRY_SIZE_V0))
    ∧ read_exact (hs - 8) f1 = (f2, Ok header)
    ∧ read_be_err (if es =? ENTRY_SIZE_V0 then 1 else 2) header = Ok (num_filenames i, rest)
    ∧ read_be_err 4 rest = Ok (num_logs i, rest')
    ∧ logs_offset i = num_filenames i * FILENAME_SIZE
    ∧ as_u64 (hs + (logs_offset i + num_logs i * LOG_DIR_ENTRY_SIZE))
      ≤ Z.of_nat (length (contents f2))
    ∧ read_exact (logs_offset i + num_logs i * LOG_DIR_ENTRY_SIZE) f2
      = (file i, Ok (tables i))
    ∧ entry_size i = es ∧ idx_cache_dir i = revocation_cache_dir config.
Proof.
  rewrite from_cache_eq. intros ([[[f2 es] nf] nl] & Hh & Ht)%result_bind_ok.
  apply read_header_inv in Hh
    as (data & f1 & magic & header & hs & rest & rest' & Ho & E1 & Hm & E2 & Hnf & Hnl & Hlen).
  destruct (read_exact _ f2) as [f3 [tbl| |]] eqn:E3; cbn [map_err mbind result_bind] in Ht; [|done..].
  injection Ht as <-. exists data, f1, f2, magic, header, hs, es, rest, rest'. by repeat split.
Qed.

Lemma from_cache_wf fs config i : from_cache fs config = Ok i → index_wf i.
Proof.
  intros (data & f1 & f2 & magic & header & hs & es & rest & rest' & _ & E1 & Hm & E2
          & Hnf & Hnl & Hoff & Hlen & E3 & Hes & _)%from_cache_inv.
  apply read_be_err_ok in Hnf as [_ Hnf], Hnl as [_ Hnl].
  assert (0 ≤ num_filenames i < 2 ^ 16) by (destruct (es =? _); cbn in Hnf; lia).
  assert (0 ≤ pos f1) as Hp1 by (eapply read_exact_pos, E1; cbn; lia).
  assert (0 ≤ pos f2) as Hp2.
  { eapply read_exact_pos, E2; [|done].
    destruct Hm as [(_ & -> & _)|(_ & -> & _)];
      unfold HEADER_SIZE_V0, HEADER_SIZE_V1; lia. }
  split; try done.
  - eapply read_exact_length; [|exact Hp2|exact E3].
    unfold FILENAME_SIZE, LOG_DIR_ENTRY_SIZE in *. lia.
  - rewrite Hes. destruct Hm as [(_ & _ & ->)|(_ & _ & ->)]; auto.
Qed.

(** The size arithmetic of the header stays far below [usize::MAX]. *)
Lemma table_sizes_bound nf nl :
  0 ≤ nf < 2 ^ 16 → 0 ≤ nl < 2 ^ 32 →
  0 ≤ HEADER_SIZE_V1 + (nf * FILENAME_SIZE + nl * LOG_DIR_ENTRY_SIZE) < 2 ^ 38.
Proof. unfold HEADER_SIZE_V1, FILENAME_SIZE, LOG_DIR_ENTRY_SIZE. lia. Qed.

(** ** The binary search *)

(** The key of the [m]-th directory entry. *)
Definition key_at (dir_data : list byte) (m : Z) : list byte :=
  slice dir_data (Z.to_nat (m * LOG_DIR_ENTRY_SIZE))
                 (Z.to_nat (m * LOG_DIR_ENTRY_SIZE + 32)).

Definition keys_sorted (dir_data : list byte) (n : Z) : Prop :=
  ∀ i j, 0 ≤ i → i < j → j < n → bytes_lt (key_at dir_data i) (key_at dir_data j).

Lemma search_log_spec dir_data key n fuel lo hi :
  Z.of_nat (length dir_data) = n * LOG_DIR_ENTRY_SIZE →
  0 ≤ lo → lo ≤ hi → hi ≤ n → hi - lo < Z.of_nat fuel →
  (∃ m, lo ≤ m < hi ∧ key_at dir_data m = key
        ∧ search_log fuel dir_data key lo hi = Ok (Some (m * LOG_DIR_ENTRY_SIZE)))
  ∨ (search_log fuel dir_data key lo hi = Ok None
     ∧ (keys_sorted dir_data n → ∀ m, lo ≤ m < hi → key_at dir_data m ≠ key)).
Proof.
  intros Hlen. revert lo hi. induction fuel as [|fuel IH]; intros lo hi Hlo Hle Hhi Hf; [lia|].
  cbn [search_log]. destruct (Z.leb_spec hi lo) as [Hge|Hlt].
  { right. split; [done|]. intros _ m Hm. lia. }
  set (mid := lo + (hi - lo) / 2).
  assert (lo ≤ mid < hi) as Hmid.
  { subst mid. assert (0 ≤ (hi - lo) / 2) by (apply Z.div_pos; lia).
    assert ((hi - lo) / 2 < hi - lo) by (apply Z.div_lt_upper_bound; lia). lia. }
  rewrite slice_checked_some by (unfold LOG_DIR_ENTRY_SIZE in *; lia).
  cbn [or_panic mbind result_bind]. fold (key_at dir_data mid).
  destruct (bytes_cmp (key_at dir_data mid) key) eqn:Hc.
  - left. exists mid. split; [done|]. split; [by apply bytes_cmp_eq|done].
  - destruct (IH (mid + 1) hi) as [(m & Hm & Hk & ->)|[-> Hn]]; [lia..| |].
    + left. exists m. split; [lia|done].
    + right. split; [done|]. intros Hs m Hm Hkm. subst key.
      destruct (Z.lt_trichotomy m mid) as [Hlt'|[->|Hgt]].
      * assert (bytes_lt (key_at dir_data m) (key_at dir_data mid)) as H by (apply Hs; lia).
        apply bytes_cmp_lt_gt in H. congruence.
      * rewrite bytes_cmp_refl in Hc. done.
      * by apply (Hn Hs m); [lia|].
  - destruct (IH lo mid) as [(m & Hm & Hk & ->)|[-> Hn]]; [lia..| |].
    + left. exists m. split; [lia|done].
    + right. split; [done|]. intros Hs m Hm Hkm. subst key.
      destruct (Z.lt_trichotomy m mid) as [Hlt'|[->|Hgt]].
      * by apply (Hn Hs m); [lia|].
      * rewrite bytes_cmp_refl in Hc. done.
      * assert (bytes_lt (key_at dir_data mid) (key_at dir_data m)) as H by (apply Hs; lia).
        unfold bytes_lt in H. congruence.
Qed.

(** ** Checking on a well-formed index *)

Section CheckSafe.
Context `{Clubcard}.

Lemma slice_checked_no_panic {E A} (l : list A) a b :
  0 ≤ a → a ≤ b → b ≤ Z.of_nat (length l) →
  no_panic (E:=E) (or_panic (slice_checked l a b)).
Proof. intros. by rewrite slice_checked_some. Qed.

Lemma index_filename_ok i k :
  index_wf i → 0 ≤ k → no_panic (index_filename i k)
  ∧ (is_ok (index_filename i k) = true → k < num_filenames i).
Proof.
  intros [] Hk. unfold index_filename.
  destruct (Z.leb_spec (num_filenames i) k); [done|].
  unfold FILENAME_SIZE, LOG_DIR_ENTRY_SIZE in *.
  rewrite slice_checked_some by lia. cbn [or_panic mbind result_bind].
  split; [by destruct (from_utf8 _)|done].
Qed.

Lemma read_entry_ok es data v rest :
  read_entry es data = Ok (v, rest) → 0 ≤ v.1.1 < 2 ^ 16.
Proof.
  unfold read_entry. intros ([fi d1] & H1 & Hr)%result_bind_ok.
  apply result_bind_ok in Hr as ([mn d2] & _ & Hr).
  apply result_bind_ok in Hr as ([mx d3] & _ & [= <- <-]).
  apply read_be_err_ok in H1 as [_ H1]. cbn. destruct (es =? _); cbn in H1; lia.
Qed.

Lemma read_entry_no_panic es data : no_panic (read_entry es data).
Proof.
  unfold read_entry. apply result_bind_no_panic; [auto with upki|]. intros [fi d1] _.
  apply result_bind_no_panic; [auto with upki|]. intros [mn d2] _.
  apply result_bind_no_panic; [auto with upki|]. by intros [mx d3] _.
Qed.

Lemma query_filter_no_panic fs dir name key input :
  no_panic (query_filter fs dir name key input).
Proof.
  unfold query_filter. apply result_bind_no_panic.
  - apply map_err_no_panic. unfold fs_read, file_open, handle_fault, guard_op, no_panic.
    by repeat case_match.
  - intros bytes _. apply result_bind_no_panic; [auto with upki|done].
Qed.

(** [seen] has one slot per filename, whatever is visited. *)
Definition flow_ok (i : Index) (flow : Flow) : Prop :=
  match flow with
  | Continue _ seen => Z.of_nat (length seen) = num_filenames i
  | Return _ => True
  end.

(** The outcome of a safe step: an error, or a flow that keeps [flow_ok]. *)
Definition safe_flow (i : Index) (r : Result Error Flow) : Prop :=
  match r with Ok flow => flow_ok i flow | Err _ => True | Panic => False end.

Lemma safe_flow_bind i r (f : Flow → Result Error Flow) :
  safe_flow i r → (∀ flow, flow_ok i flow → safe_flow i (f flow)) →
  safe_flow i (mbind f r).
Proof. destruct r; cbn; auto. Qed.

Lemma visit_entry_safe i fs key input sct fi mn mx mg seen :
  index_wf i → 0 ≤ fi → Z.of_nat (length seen) = num_filenames i →
  safe_flow i (visit_entry i fs key input sct fi mn mx mg seen).
Proof.
  intros Hwf Hfi Hseen. unfold visit_entry. case_match; [done|].
  destruct (index_filename_ok i fi Hwf Hfi) as [Hn Hlt].
  destruct (index_filename i fi) as [name| |]; cbn [mbind result_bind]; [|done..].
  specialize (Hlt eq_refl).
  destruct (seen !! Z.to_nat fi) as [already|] eqn:Hs;
    [|apply lookup_ge_None in Hs; lia].
  cbn [or_panic mbind result_bind]. destruct already; [done|].
  pose proof (query_filter_no_panic fs (idx_cache_dir i) name key input).
  destruct (query_filter _ _ _ _ _) as [st| |]; cbn [mbind result_bind]; [|done..].
  destruct st; cbn; rewrite ?length_insert; done.
Qed.

Lemma entries_loop_safe i fs key input sct count data mg seen :
  index_wf i → Z.of_nat (length seen) = num_filenames i →
  safe_flow i (entries_loop i fs key input sct count data mg seen).
Proof.
  intros Hwf. revert data mg seen. induction count as [|count IH]; intros data mg seen Hs;
    cbn [entries_loop]; [done|].
  pose proof (read_entry_no_panic (entry_size i) data) as Hnp.
  destruct (read_entry (entry_size i) data) as [[[[fi mn] mx] d]| |] eqn:E;
    cbn [mbind result_bind]; [|done..].
  apply read_entry_ok in E. cbn in E.
  apply safe_flow_bind; [by apply visit_entry_safe; [|lia|]|].
  intros [mg' seen'|st] Hf; [by apply IH|done].
Qed.

(** A step of [check] keeps the index well formed up to its file position. *)
Definition same_index (i i' : Index) : Prop := ∃ f, i' = set_file f i.

Lemma same_index_refl i : same_index i i.
Proof. exists (file i). by destruct i. Qed.

Lemma same_index_trans i1 i2 i3 : same_index i1 i2 → same_index i2 i3 → same_index i1 i3.
Proof. intros [f ->] [g ->]. by exists g. Qed.

Lemma same_index_wf i i' : same_index i i' → index_wf i → index_wf i'.
Proof. intros [f ->]. auto with upki. Qed.

(** The log directory of a well-formed index. *)
Lemma dir_data_some i :
  index_wf i → ∃ d, slice_from (tables i) (logs_offset i) = Some d
    ∧ d = drop (Z.to_nat (logs_offset i)) (tables i)
    ∧ Z.of_nat (length d) = num_logs i * LOG_DIR_ENTRY_SIZE.
Proof.
  intros []. unfold LOG_DIR_ENTRY_SIZE, FILENAME_SIZE in *. eexists.
  rewrite slice_from_some by lia. split; [done|]. split; [done|].
  rewrite length_drop. lia.
Qed.

Lemma visit_sct_safe fs key input d sct mg seen i :
  index_wf i → Z.of_nat (length d) = num_logs i * LOG_DIR_ENTRY_SIZE →
  Z.of_nat (length seen) = num_filenames i →
  same_index i (visit_sct fs key input d sct mg seen i).1
  ∧ safe_flow i (visit_sct fs key input d sct mg seen i).2.
Proof.
  intros Hwf Hd Hs. unfold visit_sct. pose proof (wf_logs _ Hwf) as Hl.
  destruct (search_log_spec d (log_id sct) (num_logs i) (S (Z.to_nat (num_logs i)))
              0 (num_logs i) Hd) as [(m & Hm & _ & ->)|[-> _]]; [lia..| |].
  2: { split; [apply same_index_refl|done]. }
  rewrite slice_from_some by (unfold LOG_DIR_ENTRY_SIZE in *; lia).
  cbn [or_panic mbind result_bind].
  pose proof (read_be_err_no_panic 8 (drop (Z.to_nat (m * LOG_DIR_ENTRY_SIZE + 32)) d)).
  destruct (read_be_err 8 _) as [[off d1]| |]; cbn [mbind result_bind];
    [|split; [apply same_index_refl|done]..].
  pose proof (read_be_err_no_panic 2 d1).
  destruct (read_be_err 2 d1) as [[cnt d2]| |]; cbn [mbind result_bind];
    [|split; [apply same_index_refl|done]..].
  unfold seek_start. destruct (off <=? i64_max); cbn [map_err];
    [|split; [by eexists|done]].
  set (i1 := set_file _ i).
  pose proof (read_exact_not_panic (cnt * entry_size i1) (file i1)) as Hnp.
  destruct (read_exact _ _) as [f [buf|e|]]; cbn in Hnp; [|split; [by eexists|done]..].
  split; [by eexists|]. cbn [snd map_err mbind result_bind].
  apply (entries_loop_safe (set_file f i1)); [|done]. subst i1. auto with upki.
Qed.

Lemma sct_loop_safe fs key input d scts mg seen i :
  index_wf i → Z.of_nat (length d) = num_logs i * LOG_DIR_ENTRY_SIZE →
  Z.of_nat (length seen) = num_filenames i →
  same_index i (sct_loop fs key input d scts mg seen i).1
  ∧ safe_flow i (sct_loop fs key input d scts mg seen i).2.
Proof.
  revert mg seen i. induction scts as [|sct scts IH]; intros mg seen i Hwf Hd Hs;
    cbn [sct_loop].
  - split; [apply same_index_refl|done].
  - unfold mbind, eff_bind.
    destruct (visit_sct_safe fs key input d sct mg seen i Hwf Hd Hs) as [Hi Hf].
    destruct (visit_sct _ _ _ _ _ _ _ _) as [i' [[mg' seen'|st]| |]]; cbn in Hi, Hf;
      [|by split..].
    destruct Hi as [f ->]. destruct (IH mg' seen' (set_file f i)) as [Hi' Hf'];
      [by auto with upki|done|done|].
    split; [by eapply same_index_trans; [eexists|]|].
    destruct (sct_loop _ _ _ _ _ _ _ _) as [i' [[]| |]]; done.
Qed.

Lemma check_safe fs input i :
  index_wf i → same_index i (check fs input i).1 ∧ no_panic (check fs input i).2.
Proof.
  intros Hwf. unfold check. destruct (dir_data_some i Hwf) as (d & -> & _ & Hd).
  pose proof (wf_filenames _ Hwf).
  destruct (sct_loop_safe fs (input_key input) input d (sct_timestamps input) false
              (replicate (Z.to_nat (num_filenames i)) false) i Hwf Hd) as [Hi Hf].
  { rewrite length_replicate. lia. }
  destruct (sct_loop _ _ _ _ _ _ _ _) as [i' [[mg seen|st]| |]]; cbn in *; try done.
  by destruct mg.
Qed.
End CheckSafe.

Lemma from_cache_no_panic fs config : no_panic (from_cache fs config).
Proof.
  rewrite from_cache_eq. apply result_bind_no_panic.
  2: { intros [[[f es] nf] nl] _.
       match goal with |- context [read_exact ?n f] =>
         pose proof (read_exact_not_panic n f) as H3; destruct (read_exact n f) as [f3 r3] end.
       cbn [snd] in H3. apply result_bind_no_panic; [by auto with upki|done]. }
  unfold read_header. set (p := path_join _ INDEX_BIN).
  apply result_bind_no_panic.
  { apply map_err_no_panic. unfold file_open, guard_op, no_panic. by repeat case_match. }
  intros data _.
  pose proof (read_exact_not_panic 8 (mkFile data 0 (handle_fault fs p))) as H1.
  destruct (read_exact 8 _) as [f1 r1]. cbn [snd] in H1.
  apply result_bind_no_panic; [by auto with upki|]. intros magic _.
  apply result_bind_no_panic; [by repeat case_match|]. intros [hs es] _.
  pose proof (read_exact_not_panic (hs - 8) f1) as H2.
  destruct (read_exact (hs - 8) f1) as [f2 r2]. cbn [snd] in H2.
  apply result_bind_no_panic; [by auto with upki|]. intros header _.
  apply result_bind_no_panic; [by auto with upki|]. intros [nf rest] _.
  apply result_bind_no_panic; [by auto with upki|]. intros [nl rest'] _.
  apply result_bind_no_panic.
  { apply map_err_no_panic. unfold guard_op, no_panic. by repeat case_match. }
  intros flen _. by case_match.
Qed.

(** C13: Whatever [index.bin] and the filter files hold and whatever the file system
    refuses, loading the index and checking a certificate never panic, and a
    check changes nothing of the index but its file position. *)
Theorem index_never_panics `{Clubcard} (fs fs' : Fs) (config : Config)
    (input : RevocationCheckInput) :
  match from_cache fs config with
  | Ok i => no_panic (check fs' input i).2 ∧ ∃ f, (check fs' input i).1 = set_file f i
  | Err _ => True
  | Panic => False
  end.
Proof.
  pose proof (from_cache_no_panic fs config).
  destruct (from_cache fs config) as [i| |] eqn:E; [|done..].
  apply from_cache_wf in E. by destruct (check_safe fs' input i E).
Qed.

(** A header that is accepted asks for no more than the file holds. *)
Lemma read_header_fits fs config f es nf nl :
  read_header fs config = Ok (f, es, nf, nl) →
  ∃ data, file_open fs (path_join (revocation_cache_dir config) INDEX_BIN) = Ok data
    ∧ 0 ≤ nf * FILENAME_SIZE + nl * LOG_DIR_ENTRY_SIZE
    ∧ nf * FILENAME_SIZE + nl * LOG_DIR_ENTRY_SIZE + HEADER_SIZE_V0 ≤ Z.of_nat (length data)
    ∧ nf * FILENAME_SIZE + nl * LOG_DIR_ENTRY_SIZE + HEADER_SIZE_V1 ≤ usize_max.
Proof.
  intros (data & f1 & magic & header & hs & rest & rest' & Ho & E1 & Hm & E2
          & [_ Hnf]%read_be_err_ok & [_ Hnl]%read_be_err_ok & Hle)%read_header_inv.
  rewrite (read_exact_contents _ _ _ _ E2), (read_exact_contents _ _ _ _ E1) in Hle.
  cbn [contents] in Hle. exists data. split; [done|].
  assert (hs = HEADER_SIZE_V1 ∨ hs = HEADER_SIZE_V0) as Hhs by naive_solver.
  assert (0 ≤ nf < 2 ^ 16) as Hf by (destruct (es =? ENTRY_SIZE_V0); lia).
  pose proof (table_sizes_bound nf nl Hf ltac:(lia)).
  rewrite as_u64_small in Hle
    by (destruct Hhs as [-> | ->]; unfold HEADER_SIZE_V0, HEADER_SIZE_V1, FILENAME_SIZE, LOG_DIR_ENTRY_SIZE in *; lia).
  unfold usize_max, u64_max.
  destruct Hhs as [-> | ->]; unfold HEADER_SIZE_V0, HEADER_SIZE_V1, FILENAME_SIZE, LOG_DIR_ENTRY_SIZE in *; lia.
Qed.

(** C31: Whatever [index.bin] holds and whatever loading it comes to, every buffer that
    loading allocates is smaller than the file, so that a corrupt header cannot ask for
    more memory than the file has bytes; an index that loads took one, for its tables; and
    the sizes computed from its header do not overflow a [usize]. *)
Theorem from_cache_alloc_bound (fs : Fs) (config : Config) :
  Forall (λ n, ∃ data, file_open fs (path_join (revocation_cache_dir config) INDEX_BIN) = Ok data
                       ∧ 0 ≤ n ∧ n + HEADER_SIZE_V0 ≤ Z.of_nat (length data))
         (from_cache_run fs config []).1
  ∧ ∀ i, from_cache fs config = Ok i →
      (from_cache_run fs config []).1 = [Z.of_nat (length (tables i))]
      ∧ num_filenames i * FILENAME_SIZE + num_logs i * LOG_DIR_ENTRY_SIZE + HEADER_SIZE_V1
        ≤ usize_max.
Proof.
  split.
  - unfold from_cache_run, mbind, eff_bind, eff_lift, vec_zeroed.
    destruct (read_header fs config) as [[[[f es] nf] nl]|e|] eqn:Hh; [|constructor..].
    apply read_header_fits in Hh as (data & Ho & Hp & Hl & _). cbv zeta.
    destruct (read_exact _ f) as [f' [tbl|e|]]; (constructor; [by exists data|constructor]).
  - intros i Hi. pose proof (from_cache_wf _ _ _ Hi) as [_ _ Hoff Htab _].
    rewrite Htab, Hoff. unfold from_cache, from_cache_run, mbind, eff_bind, eff_lift, vec_zeroed in *.
    destruct (read_header fs config) as [[[[f es] nf] nl]|e|] eqn:Hh; [|done..].
    apply read_header_fits in Hh as (data & _ & _ & _ & Hu). cbv zeta in *.
    destruct (read_exact _ f) as [f' [tbl|e|]]; [|done..]. cbn in Hi. by injection Hi as <-.
Qed.
