(* ===== verification/IndexSpec.v ===== *)
(** * The index format

    [encode] is the layout of the module's documentation, for both versions of the
    format.  Loading an encoded index gives its header and tables back, and an SCT is
    looked up in it: the directory entry found, the section read, each entry decoded. *)
From Stdlib Require Import Sorting.Sorted.
From S2P Require Import Prelude Bytes FileSys External Revocation Config Index IndexSafe.

(** ** The encoding of [index.rs]'s documentation *)

Inductive Version : Type := V0 | V1.

(** The width of a filter number, the magic and the sizes of a version. *)
Definition width (v : Version) : nat := match v with V0 => 1 | V1 => 2 end.
Definition magic (v : Version) : list byte :=
  match v with V0 => INDEX_MAGIC_V0 | V1 => INDEX_MAGIC_V1 end.
Definition header_size (v : Version) : Z :=
  match v with V0 => HEADER_SIZE_V0 | V1 => HEADER_SIZE_V1 end.
Definition entry_size_of (v : Version) : Z :=
  match v with V0 => ENTRY_SIZE_V0 | V1 => ENTRY_SIZE_V1 end.

Definition encode_entry (v : Version) (e : Z * TimestampInterval) : list byte :=
  be_bytes (width v) e.1 ++ be_bytes 8 (low e.2) ++ be_bytes 8 (high e.2).

Definition encode_section (v : Version) (entries : list (Z * TimestampInterval)) : list byte :=
  concat (encode_entry v <$> entries).

(** The log directory, when the first section starts at [off]. *)
Fixpoint encode_dir (v : Version) (m : ByLogId) (off : Z) : list (list byte) :=
  match m with
  | [] => []
  | (id, entries) :: rest =>
      (id ++ be_bytes 8 off ++ be_bytes 2 (Z.of_nat (length entries)))
      :: encode_dir v rest (off + Z.of_nat (length entries) * entry_size_of v)
  end.

(** Where the entry sections start. *)
Definition sections_start (v : Version) (names : list string) (m : ByLogId) : Z :=
  header_size v + Z.of_nat (length names) * FILENAME_SIZE
  + Z.of_nat (length m) * LOG_DIR_ENTRY_SIZE.

Definition encode_tables (v : Version) (names : list string) (m : ByLogId) : list byte :=
  concat (filename_slot <$> names) ++ concat (encode_dir v m (sections_start v names m)).

Definition encode_head (v : Version) (names : list string) (m : ByLogId) : list byte :=
  be_bytes (width v) (Z.of_nat (length names)) ++ be_bytes 4 (Z.of_nat (length m)).

Definition encode (v : Version) (names : list string) (m : ByLogId) : list byte :=
  magic v ++ encode_head v names m ++ encode_tables v names m
  ++ concat (encode_section v <$> m.*2).

(** What fits the fields of the format. *)
Record fits (v : Version) (names : list string) (m : ByLogId) : Prop := {
  fit_names : Z.of_nat (length names) < 256 ^ Z.of_nat (width v);
  fit_name : Forall (λ n, (length (as_bytes n) ≤ 32)%nat) names;
  fit_logs : Z.of_nat (length m) < 2 ^ 32;
  fit_key : Forall (λ e, length e.1 = 32%nat) m;
  fit_sorted : StronglySorted bytes_lt m.*1;
  fit_count : Forall (λ e, Z.of_nat (length e.2) < 2 ^ 16) m;
  fit_entry : Forall (λ e, Forall (λ x, 0 ≤ x.1 < 256 ^ Z.of_nat (width v)
                ∧ 0 ≤ low x.2 < 2 ^ 64 ∧ 0 ≤ high x.2 < 2 ^ 64) e.2) m;
  fit_file : Z.of_nat (length (encode v names m)) ≤ i64_max }.

(** ** Lengths *)

Lemma length_filename_slot n : (length (as_bytes n) ≤ 32)%nat → length (filename_slot n) = 32%nat.
Proof.
  intros. unfold filename_slot. rewrite length_app, length_replicate.
  change (Z.to_nat FILENAME_SIZE) with 32%nat. lia.
Qed.

Lemma length_slots names :
  Forall (λ n, (length (as_bytes n) ≤ 32)%nat) names →
  Forall (λ l, length l = 32%nat) (filename_slot <$> names).
Proof. intros. apply Forall_fmap. eapply Forall_impl; [done|]. apply length_filename_slot. Qed.

Lemma length_encode_entry v e : Z.of_nat (length (encode_entry v e)) = entry_size_of v.
Proof. unfold encode_entry. rewrite !length_app, !length_be_bytes. by destruct v. Qed.

Lemma length_encode_section v entries :
  Z.of_nat (length (encode_section v entries))
  = Z.of_nat (length entries) * entry_size_of v.
Proof.
  unfold encode_section. induction entries as [|e es IH]; [done|].
  rewrite fmap_cons. cbn [concat length].
  rewrite length_app, Nat2Z.inj_add, length_encode_entry, IH. lia.
Qed.

Lemma length_encode_dir v m off :
  Forall (λ e, length e.1 = 32%nat) m →
  Forall (λ l, length l = 42%nat) (encode_dir v m off).
Proof.
  revert off. induction m as [|[id es] m IH]; intros off; cbn [encode_dir]; [constructor|].
  intros [Hid Hm]%Forall_cons. constructor; [|by apply IH].
  cbn in Hid. rewrite !length_app, !length_be_bytes, Hid. done.
Qed.

Lemma length_encode_dir_list v m off : length (encode_dir v m off) = length m.
Proof. revert off. induction m as [|[] m IH]; intros off; cbn; auto. Qed.

Lemma length_slots_concat names :
  Forall (λ n, (length (as_bytes n) ≤ 32)%nat) names →
  length (concat (filename_slot <$> names)) = (length names * 32)%nat.
Proof.
  intros H. rewrite (length_concat_const 32) by by apply length_slots.
  by rewrite length_fmap.
Qed.

Lemma length_dir_concat v m off :
  Forall (λ e, length e.1 = 32%nat) m →
  length (concat (encode_dir v m off)) = (length m * 42)%nat.
Proof.
  intros H. rewrite (length_concat_const 42) by by apply length_encode_dir.
  by rewrite length_encode_dir_list.
Qed.

Lemma length_encode_tables v names m :
  fits v names m →
  Z.of_nat (length (encode_tables v names m))
  = Z.of_nat (length names) * FILENAME_SIZE + Z.of_nat (length m) * LOG_DIR_ENTRY_SIZE.
Proof.
  intros []. unfold encode_tables, FILENAME_SIZE, LOG_DIR_ENTRY_SIZE.
  rewrite length_app, length_slots_concat, length_dir_concat by done. lia.
Qed.

Lemma length_encode_head v names m :
  Z.of_nat (length (encode_head v names m)) = header_size v - 8.
Proof. unfold encode_head. rewrite length_app, !length_be_bytes. by destruct v. Qed.

(** ** What an index read from the encoding is *)

Record reads (v : Version) (names : list string) (m : ByLogId) (i : Index) : Prop := {
  rd_filenames : num_filenames i = Z.of_nat (length names);
  rd_logs : num_logs i = Z.of_nat (length m);
  rd_offset : logs_offset i = Z.of_nat (length names) * FILENAME_SIZE;
  rd_entry : entry_size i = entry_size_of v;
  rd_tables : tables i = encode_tables v names m;
  rd_contents : contents (file i) = encode v names m;
  rd_fault : read_fault (file i) = None }.

Lemma read_exact_ok pre l post p n :
  p = Z.of_nat (length pre) → n = Z.of_nat (length l) →
  read_exact n (mkFile (pre ++ l ++ post) p None)
  = (mkFile (pre ++ l ++ post) (p + n) None, Ok l).
Proof.
  intros -> ->. unfold read_exact. case_match eqn:E.
  - apply Z.eqb_eq in E. destruct l; [|cbn in E; lia]. cbn. by rewrite Z.add_0_r.
  - cbn [read_fault pos contents]. rewrite (proj2 (Z.leb_le _ _)) by
      (rewrite !length_app; lia).
    do 2 f_equal. rewrite <- Nat2Z.inj_add, !Nat2Z.id.
    replace (length pre) with (length pre + 0)%nat at 1 by lia.
    rewrite slice_app_skip by done. rewrite slice_app_l by done. by apply slice_all.
Qed.

Lemma read_exact_start l post n :
  n = Z.of_nat (length l) →
  read_exact n (mkFile (l ++ post) 0 None) = (mkFile (l ++ post) (0 + n) None, Ok l).
Proof. intros. by apply (read_exact_ok []). Qed.

Lemma magic_v0_v1 : INDEX_MAGIC_V0 ≠ INDEX_MAGIC_V1.
Proof. by vm_compute. Qed.

Lemma read_be_err_bytes n z rest :
  0 ≤ z < 256 ^ Z.of_nat n → read_be_err n (be_bytes n z ++ rest) = Ok (z, rest).
Proof. intros. unfold read_be_err. by rewrite read_be_bytes. Qed.

Lemma width_sel v : (if entry_size_of v =? ENTRY_SIZE_V0 then 1%nat else 2%nat) = width v.
Proof. by destruct v. Qed.

Lemma read_head v names m :
  fits v names m →
  read_be_err (width v) (encode_head v names m)
    = Ok (Z.of_nat (length names), be_bytes 4 (Z.of_nat (length m)))
  ∧ read_be_err 4 (be_bytes 4 (Z.of_nat (length m))) = Ok (Z.of_nat (length m), []).
Proof.
  intros []. unfold encode_head. rewrite read_be_err_bytes by lia. split; [done|].
  rewrite <- (app_nil_r (be_bytes 4 _)). apply read_be_err_bytes. cbn. lia.
Qed.

(** No refusal of what [from_cache] asks of the file at [p]. *)
Definition readable (fs : Fs) (p : string) : Prop :=
  no_nul (as_bytes p) = true ∧ faults fs OpOpen p = None ∧ faults fs OpRead p = None
  ∧ faults fs OpMetadata p = None.

Lemma from_cache_encode fs config v names m :
  let p := path_join (revocation_cache_dir config) INDEX_BIN in
  readable fs p → files fs !! p = Some (encode v names m) → fits v names m →
  ∃ i, from_cache fs config = Ok i ∧ reads v names m i
       ∧ idx_cache_dir i = revocation_cache_dir config.
Proof.
  intros p (Hn & Ho & Hr & Hm) Hf Hfit. rewrite from_cache_eq. unfold read_header. cbv zeta.
  change (path_join (revocation_cache_dir config) INDEX_BIN) with p.
  rewrite (file_open_ok _ _ _ Hn Ho Hf). cbn [map_err mbind result_bind].
  rewrite (handle_fault_ok _ _ _ Hf), Hr. unfold encode at 1.
  rewrite (read_exact_start (magic v)) by (by destruct v).
  cbn [app map_err mbind result_bind].
  replace (if decide (magic v = INDEX_MAGIC_V1) then _ else _)
    with (Ok (E:=Error) (header_size v, entry_size_of v)).
  2: { destruct v; cbn [magic]; [rewrite decide_False by apply magic_v0_v1|];
       by rewrite decide_True. }
  cbn [mbind result_bind].
  rewrite (read_exact_ok (magic v) (encode_head v names m)) by
    (rewrite ?length_encode_head; by destruct v).
  cbn [map_err mbind result_bind]. rewrite width_sel.
  destruct (read_head _ _ _ Hfit) as [-> E4].
  cbn [mbind result_bind]. rewrite E4. cbn [mbind result_bind]. rewrite guard_op_ok by done.
  cbn [map_err mbind result_bind contents].
  pose proof (length_encode_tables _ _ _ Hfit) as Ht.
  pose proof (length_encode_head v names m) as Hh.
  assert (Z.of_nat (length (magic v)) = 8) as Hmg by by destruct v.
  rewrite (proj2 (Z.ltb_ge _ _)).
  2: { rewrite !length_app. rewrite as_u64_small.
       - unfold FILENAME_SIZE, LOG_DIR_ENTRY_SIZE in *. lia.
       - pose proof (fit_file _ _ _ Hfit) as Hs. unfold encode, i64_max in Hs.
         rewrite !length_app in Hs. unfold FILENAME_SIZE, LOG_DIR_ENTRY_SIZE in *.
         destruct v; cbn [header_size] in *; unfold HEADER_SIZE_V0, HEADER_SIZE_V1 in *; lia. }
  cbn [mbind result_bind]. rewrite (assoc_L (++) (magic v)).
  rewrite (read_exact_ok (magic v ++ encode_head v names m) (encode_tables v names m)).
  - cbn [map_err mbind result_bind]. eexists. split; [done|]. split; [|done].
    split; try done. cbn. unfold encode. by rewrite <- (assoc_L (++)).
  - rewrite length_app. destruct v; cbn [header_size] in *; lia.
  - by rewrite Ht.
Qed.

(** ** The filename table *)

Lemma position_slot n :
  no_nul (as_bytes n) = true → (length (as_bytes n) ≤ 32)%nat →
  match position is_nul (filename_slot n) with
  | Some e => e | None => Z.to_nat FILENAME_SIZE end = length (as_bytes n).
Proof.
  intros Hn Hl. unfold filename_slot. change (Z.to_nat FILENAME_SIZE) with 32%nat.
  destruct (32 - length (as_bytes n))%nat eqn:E.
  - cbn [replicate]. rewrite app_nil_r, position_none by done. lia.
  - cbn [replicate]. by rewrite position_app.
Qed.

Lemma filename_encode v names m i k n :
  reads v names m i → fits v names m → names !! k = Some n →
  no_nul (as_bytes n) = true → utf8_valid (as_bytes n) = true →
  index_filename i (Z.of_nat k) = Ok n.
Proof.
  intros Hr Hf Hk Hn Hu. unfold index_filename.
  pose proof (lookup_lt_Some _ _ _ Hk) as Hlt.
  pose proof (fit_name _ _ _ Hf) as Hnames.
  pose proof (length_encode_tables _ _ _ Hf) as Hlen.
  rewrite (rd_filenames _ _ _ _ Hr), (rd_tables _ _ _ _ Hr).
  rewrite (proj2 (Z.leb_gt _ _)) by lia. unfold FILENAME_SIZE, LOG_DIR_ENTRY_SIZE in *.
  rewrite slice_checked_some by lia. cbn [or_panic mbind result_bind].
  replace (Z.to_nat (Z.of_nat k * 32)) with (k * 32)%nat by lia.
  replace (Z.to_nat (Z.of_nat k * 32 + 32)) with (k * 32 + 32)%nat by lia.
  unfold encode_tables. rewrite slice_app_l by (rewrite length_slots_concat by done; lia).
  rewrite (slice_concat_const 32 _ _ (filename_slot n)).
  - change (Z.to_nat 32) with (Z.to_nat FILENAME_SIZE).
    rewrite position_slot; [|done|by eapply (Forall_lookup_1 _ _ _ _ Hnames)].
    unfold filename_slot. by rewrite take_app_length, from_utf8_as_bytes.
  - by apply length_slots.
  - by rewrite list_lookup_fmap, Hk.
Qed.

(** ** The log directory *)

(** The bytes of the sections before the [k]-th. *)
Definition sections_before (v : Version) (m : ByLogId) (k : nat) : list byte :=
  concat (encode_section v <$> (take k m).*2).

Lemma encode_dir_lookup v m off k id es :
  m !! k = Some (id, es) →
  encode_dir v m off !! k
  = Some (id ++ be_bytes 8 (off + Z.of_nat (length (sections_before v m k)))
             ++ be_bytes 2 (Z.of_nat (length es))).
Proof.
  revert off k. induction m as [|[id' es'] m IH]; intros off k; [done|].
  destruct k as [|k]; cbn [lookup list_lookup encode_dir].
  - intros [= -> ->]. by rewrite Z.add_0_r.
  - intros Hk. specialize (IH (off + Z.of_nat (length es') * entry_size_of v) k Hk).
    etransitivity; [exact IH|]. do 4 f_equal.
    unfold sections_before. cbn [take firstn]. rewrite !fmap_cons. cbn [concat snd].
    rewrite length_app, Nat2Z.inj_add, length_encode_section. lia.
Qed.

Lemma dir_slice v names m i k id es a b :
  reads v names m i → fits v names m → m !! k = Some (id, es) →
  (a ≤ b ≤ 42)%nat →
  slice (drop (Z.to_nat (logs_offset i)) (tables i)) (k * 42 + a) (k * 42 + b)
  = slice (id ++ be_bytes 8 (sections_start v names m
                             + Z.of_nat (length (sections_before v m k)))
              ++ be_bytes 2 (Z.of_nat (length es))) a b.
Proof.
  intros Hr Hf Hk Hab.
  rewrite (rd_offset _ _ _ _ Hr), (rd_tables _ _ _ _ Hr). unfold encode_tables.
  rewrite drop_app_length' by
    (rewrite length_slots_concat by apply Hf; unfold FILENAME_SIZE; lia).
  pose proof (encode_dir_lookup v m (sections_start v names m) k id es Hk) as Hd.
  pose proof (length_encode_dir v m (sections_start v names m) (fit_key _ _ _ Hf)) as Hl.
  pose proof (slice_concat_const 42 _ k _ Hl Hd) as Hs.
  assert (k < length m)%nat by by eapply lookup_lt_Some.
  unfold slice in *. rewrite <- Hs.
  replace (k * 42 + 42 - k * 42)%nat with 42%nat by lia.
  rewrite skipn_firstn_comm, take_take, drop_drop.
  f_equal. lia.
Qed.

Lemma key_at_encode v names m i k id es :
  reads v names m i → fits v names m → m !! k = Some (id, es) →
  key_at (drop (Z.to_nat (logs_offset i)) (tables i)) (Z.of_nat k) = id.
Proof.
  intros Hr Hf Hk. unfold key_at, LOG_DIR_ENTRY_SIZE.
  replace (Z.to_nat (Z.of_nat k * (32 + 8 + 2))) with (k * 42 + 0)%nat by lia.
  replace (Z.to_nat (Z.of_nat k * (32 + 8 + 2) + 32)) with (k * 42 + 32)%nat by lia.
  rewrite (dir_slice v names m i k id es 0 32) by (done || lia).
  assert (length id = 32%nat) as Hid
    by exact (Forall_lookup_1 _ _ _ _ (fit_key _ _ _ Hf) Hk).
  rewrite slice_app_l by lia. by apply slice_all.
Qed.

Lemma sorted_lookup_lt (l : list (list byte)) i j a b :
  StronglySorted bytes_lt l → (i < j)%nat → l !! i = Some a → l !! j = Some b → bytes_lt a b.
Proof.
  intros Hs. revert i j. induction Hs as [|x l Hs IH Hx]; intros i j Hij Hi Hj; [done|].
  destruct j as [|j]; [lia|]. destruct i as [|i]; cbn in Hi, Hj.
  - injection Hi as <-. by eapply (Forall_lookup_1 _ _ _ _ Hx).
  - eapply (IH i j); [lia|done|done].
Qed.

Lemma keys_sorted_encode v names m i :
  reads v names m i → fits v names m →
  keys_sorted (drop (Z.to_nat (logs_offset i)) (tables i)) (Z.of_nat (length m)).
Proof.
  intros Hr Hf a b Ha Hab Hb.
  destruct (lookup_lt_is_Some_2 m (Z.to_nat a)) as [[ida ea] Hma]; [lia|].
  destruct (lookup_lt_is_Some_2 m (Z.to_nat b)) as [[idb eb] Hmb]; [lia|].
  pose proof (key_at_encode _ _ _ _ _ _ _ Hr Hf Hma) as Ea.
  pose proof (key_at_encode _ _ _ _ _ _ _ Hr Hf Hmb) as Eb.
  rewrite Z2Nat.id in Ea, Eb by lia. rewrite Ea, Eb.
  eapply (sorted_lookup_lt m.*1 (Z.to_nat a) (Z.to_nat b));
    [apply Hf|lia|by rewrite list_lookup_fmap, Hma|by rewrite list_lookup_fmap, Hmb].
Qed.

(** ** Reading a section *)

Lemma read_entry_encode v e rest :
  0 ≤ e.1 < 256 ^ Z.of_nat (width v) → 0 ≤ low e.2 < 2 ^ 64 → 0 ≤ high e.2 < 2 ^ 64 →
  read_entry (entry_size_of v) (encode_entry v e ++ rest)
  = Ok (e.1, low e.2, high e.2, rest).
Proof.
  intros. unfold read_entry, encode_entry. rewrite width_sel, <- !(assoc_L (++)).
  rewrite read_be_err_bytes by done. cbn [mbind result_bind].
  rewrite read_be_err_bytes by done. cbn [mbind result_bind].
  by rewrite read_be_err_bytes.
Qed.

(** Binding of a log id in [m]. *)
Fixpoint entries_of (key : list byte) (m : ByLogId) : option (list (Z * TimestampInterval)) :=
  match m with
  | [] => None
  | (id, es) :: m' => if decide (id = key) then Some es else entries_of key m'
  end.

Lemma entries_of_lookup key m k es :
  StronglySorted bytes_lt m.*1 → m !! k = Some (key, es) → entries_of key m = Some es.
Proof.
  revert k. induction m as [|[id es'] m IH]; intros k Hs Hk; [done|].
  cbn [entries_of]. rewrite fmap_cons in Hs. apply StronglySorted_inv in Hs as [Hs Hx].
  destruct k as [|k]; cbn in Hk.
  - injection Hk as -> ->. by rewrite decide_True.
  - change (m !! k = Some (key, es)) in Hk.
    rewrite decide_False; [by eapply IH|]. intros ->.
    assert (bytes_lt key key) as Hc.
    { eapply (Forall_lookup_1 _ _ k _ Hx). by rewrite list_lookup_fmap, Hk. }
    by apply (irreflexivity bytes_lt) in Hc.
Qed.

Lemma entries_of_elem key m es : entries_of key m = Some es → (key, es) ∈ m.
Proof.
  induction m as [|[id es'] m IH]; [done|]. cbn [entries_of].
  case_decide as E; [intros [= <-]; subst; left|intros ?; right; auto].
Qed.

Lemma entries_of_none key m :
  (∀ k id es, m !! k = Some (id, es) → id ≠ key) → entries_of key m = None.
Proof.
  induction m as [|[id es] m IH]; intros H; [done|]. cbn [entries_of].
  rewrite decide_False by by apply (H 0%nat id es). apply IH.
  intros k id' es'. apply (H (S k)).
Qed.

(** ** A check on decoded entries *)

Section Runs.
Context `{Clubcard}.

(** [entries_loop] on entries already decoded. *)
Fixpoint run_entries (self : Index) (fs : Fs) (key : CRLiteKey)
    (input : RevocationCheckInput) (sct : CtTimestamp)
    (es : list (Z * TimestampInterval)) (mg : bool) (seen : list bool)
  : Result Error Flow :=
  match es with
  | [] => Ok (Continue mg seen)
  | e :: rest =>
      flow ← visit_entry self fs key input sct e.1 (low e.2) (high e.2) mg seen;
      match flow with
      | Continue mg seen => run_entries self fs key input sct rest mg seen
      | Return status => Ok (Return status)
      end
  end.

Lemma entries_loop_encode v i fs key input sct es mg seen :
  entry_size i = entry_size_of v →
  Forall (λ x, 0 ≤ x.1 < 256 ^ Z.of_nat (width v)
               ∧ 0 ≤ low x.2 < 2 ^ 64 ∧ 0 ≤ high x.2 < 2 ^ 64) es →
  entries_loop i fs key input sct (length es) (encode_section v es) mg seen
  = run_entries i fs key input sct es mg seen.
Proof.
  intros He Hes. revert mg seen. induction Hes as [|e es (H1 & H2 & H3) Hes IH];
    intros mg seen; cbn [length entries_loop run_entries]; [done|].
  unfold encode_section. rewrite fmap_cons. cbn [concat].
  rewrite He, read_entry_encode by done. cbn [mbind result_bind].
  destruct (visit_entry _ _ _ _ _ _ _ _ _ _) as [[mg' seen'|st]| |]; [|done..].
  cbn [mbind result_bind]. apply IH.
Qed.

Lemma run_entries_set_file f i fs key input sct es mg seen :
  run_entries (set_file f i) fs key input sct es mg seen
  = run_entries i fs key input sct es mg seen.
Proof.
  revert mg seen. induction es as [|e es IH]; intros mg seen; cbn; [done|].
  change (visit_entry (set_file f i)) with (visit_entry i).
  destruct (visit_entry _ _ _ _ _ _ _ _ _ _) as [[]| |]; cbn; auto.
Qed.

Lemma reads_set_file v names m i p :
  reads v names m i → reads v names m
    (set_file (mkFile (encode v names m) p None) i).
Proof. intros []. by split. Qed.

(** The bytes of the [k]-th section, found at the offset the directory gives. *)
Lemma section_read v names m k id es :
  m !! k = Some (id, es) → fits v names m →
  read_exact (Z.of_nat (length es) * entry_size_of v)
    (mkFile (encode v names m)
       (sections_start v names m + Z.of_nat (length (sections_before v m k))) None)
  = (mkFile (encode v names m)
       (sections_start v names m + Z.of_nat (length (sections_before v m k))
        + Z.of_nat (length es) * entry_size_of v) None,
     Ok (encode_section v es)).
Proof.
  intros Hk Hf.
  assert (encode v names m
          = (magic v ++ encode_head v names m ++ encode_tables v names m
             ++ sections_before v m k)
            ++ encode_section v es
            ++ concat (encode_section v <$> (drop (S k) m).*2)) as E.
  { unfold encode, sections_before.
    rewrite <- (take_drop_middle _ _ _ Hk) at 3.
    rewrite fmap_app, fmap_app, fmap_cons, fmap_cons, concat_app. cbn [concat snd].
    by rewrite <- !(assoc_L (++)). }
  rewrite E. apply read_exact_ok.
  - pose proof (length_encode_tables _ _ _ Hf). pose proof (length_encode_head v names m).
    rewrite !length_app. unfold sections_start.
    assert (length (magic v) = 8%nat) by by destruct v. lia.
  - by rewrite length_encode_section.
Qed.

Lemma section_offset_bound v names m k id es :
  m !! k = Some (id, es) → fits v names m →
  0 ≤ sections_start v names m + Z.of_nat (length (sections_before v m k)) ≤ i64_max.
Proof.
  intros Hk Hf. pose proof (fit_file _ _ _ Hf) as Hl. unfold encode in Hl.
  rewrite !length_app in Hl. pose proof (length_encode_tables _ _ _ Hf).
  pose proof (length_encode_head v names m).
  assert (length (magic v) = 8%nat) by by destruct v.
  assert (length (sections_before v m k)
          ≤ length (concat (encode_section v <$> m.*2)))%nat.
  { unfold sections_before. rewrite <- (take_drop k m) at 2.
    rewrite !fmap_app, concat_app, length_app. lia. }
  unfold sections_start. destruct v; cbn [header_size] in *;
    unfold HEADER_SIZE_V0, HEADER_SIZE_V1, FILENAME_SIZE, LOG_DIR_ENTRY_SIZE in *; lia.
Qed.

(** The offset and count stored with the [k]-th log id. *)
Lemma dir_entry_read v names m i k id es :
  reads v names m i → fits v names m → m !! k = Some (id, es) →
  let d := drop (Z.to_nat (logs_offset i)) (tables i) in
  (entry_data ← or_panic (slice_from d (Z.of_nat k * LOG_DIR_ENTRY_SIZE + 32));
   '(offset, entry_data) ← read_be_err 8 entry_data;
   '(count, _) ← read_be_err 2 entry_data;
   Ok (offset, count))
  = Ok (E:=Error) (sections_start v names m + Z.of_nat (length (sections_before v m k)),
                   Z.of_nat (length es)).
Proof.
  intros Hr Hf Hk d.
  pose proof (section_offset_bound _ _ _ _ _ _ Hk Hf) as Hoff.
  set (off := sections_start v names m + _) in *.
  assert (Z.of_nat (length es) < 2 ^ 16) as Hc
    by exact (Forall_lookup_1 _ _ _ _ (fit_count _ _ _ Hf) Hk).
  assert (length id = 32%nat) as Hid
    by exact (Forall_lookup_1 _ _ _ _ (fit_key _ _ _ Hf) Hk).
  assert (k < length m)%nat as Hkm by by eapply lookup_lt_Some.
  assert (length d = length m * 42)%nat as Hd.
  { subst d. pose proof (length_encode_tables _ _ _ Hf) as Hl.
    rewrite (rd_tables _ _ _ _ Hr), (rd_offset _ _ _ _ Hr), length_drop.
    unfold FILENAME_SIZE, LOG_DIR_ENTRY_SIZE in *. lia. }
  rewrite slice_from_some by (unfold LOG_DIR_ENTRY_SIZE; lia).
  cbn [or_panic mbind result_bind].
  pose proof (dir_slice v names m i k id es 32 42 Hr Hf Hk ltac:(lia)) as Hs.
  fold d in Hs. fold off in Hs.
  replace (slice (id ++ _) 32 42)
    with (be_bytes 8 off ++ be_bytes 2 (Z.of_nat (length es))) in Hs.
  2: { symmetry. change 42%nat with (32 + 10)%nat. change 32%nat with (32 + 0)%nat at 1.
       rewrite slice_app_skip by done. apply slice_all.
       by rewrite length_app, !length_be_bytes. }
  replace (drop (Z.to_nat (Z.of_nat k * LOG_DIR_ENTRY_SIZE + 32)) d)
    with (be_bytes 8 off ++ be_bytes 2 (Z.of_nat (length es)) ++ drop (k * 42 + 42) d).
  2: { rewrite (assoc_L (++)), <- Hs. unfold slice, LOG_DIR_ENTRY_SIZE.
       replace (Z.to_nat (Z.of_nat k * (32 + 8 + 2) + 32)) with (k * 42 + 32)%nat by lia.
       replace (k * 42 + 42 - (k * 42 + 32))%nat with 10%nat by lia.
       replace (k * 42 + 42)%nat with (k * 42 + 32 + 10)%nat by lia.
       rewrite <- (drop_drop d 10 (k * 42 + 32)). apply take_drop. }
  rewrite read_be_err_bytes by (unfold i64_max in Hoff; cbn; lia). cbn [mbind result_bind].
  by rewrite read_be_err_bytes by (cbn; lia).
Qed.

(** One SCT: the section of its log id, if the index has one. *)
Lemma visit_sct_encode v names m i fs key input sct mg seen :
  reads v names m i → fits v names m →
  ∃ i', reads v names m i' ∧ same_index i i' ∧
    visit_sct fs key input (drop (Z.to_nat (logs_offset i)) (tables i)) sct mg seen i
    = (i', match entries_of (log_id sct) m with
           | None => Ok (Continue mg seen)
           | Some es => run_entries i fs key input sct es mg seen
           end).
Proof.
  intros Hr Hf. unfold visit_sct.
  set (d := drop (Z.to_nat (logs_offset i)) (tables i)).
  assert (Z.of_nat (length d) = Z.of_nat (length m) * LOG_DIR_ENTRY_SIZE) as Hd.
  { subst d. pose proof (length_encode_tables _ _ _ Hf) as Hl.
    rewrite (rd_tables _ _ _ _ Hr), (rd_offset _ _ _ _ Hr), length_drop.
    unfold FILENAME_SIZE, LOG_DIR_ENTRY_SIZE in *. lia. }
  rewrite (rd_logs _ _ _ _ Hr), Nat2Z.id.
  destruct (search_log_spec d (log_id sct) (Z.of_nat (length m)) (S (length m))
              0 (Z.of_nat (length m)) Hd) as [(k & Hk & Hkey & ->)|[-> Hnone]]; [lia..| |].
  - destruct (lookup_lt_is_Some_2 m (Z.to_nat k)) as [[id es] Hm]; [lia|].
    pose proof (key_at_encode _ _ _ _ _ _ _ Hr Hf Hm) as Ek. fold d in Ek.
    rewrite Z2Nat.id in Ek by lia. rewrite Hkey in Ek. rewrite <- Ek in Hm.
    rewrite (entries_of_lookup _ _ _ _ (fit_sorted _ _ _ Hf) Hm).
    pose proof (dir_entry_read _ _ _ _ _ _ _ Hr Hf Hm) as E. cbv zeta in E. fold d in E.
    rewrite Z2Nat.id in E by lia. rewrite E. unfold seek_start.
    pose proof (section_offset_bound _ _ _ _ _ _ Hm Hf) as Hb.
    rewrite (proj2 (Z.leb_le _ _)) by lia. cbn [map_err set_file file].
    rewrite (rd_contents _ _ _ _ Hr), (rd_fault _ _ _ _ Hr).
    cbn [entry_size set_file]. rewrite (rd_entry _ _ _ _ Hr), (section_read _ _ _ _ _ _ Hm Hf).
    cbn [map_err mbind result_bind]. rewrite Nat2Z.id.
    eexists. split; [|split].
    3: { f_equal. rewrite (entries_loop_encode v).
         - apply (run_entries_set_file _ i).
         - apply Hr.
         - exact (Forall_lookup_1 _ _ _ _ (fit_entry _ _ _ Hf) Hm). }
    + exact (reads_set_file _ _ _ _ _ Hr).
    + by eexists.
  - exists i. split; [done|]. split; [apply same_index_refl|].
    rewrite entries_of_none; [done|]. intros k id es Hm ->.
    apply (Hnone (keys_sorted_encode _ _ _ _ Hr Hf) (Z.of_nat k)).
    + apply lookup_lt_Some in Hm. lia.
    + by eapply key_at_encode.
Qed.
End Runs.
