(* ===== verification/IndexCheck.v ===== *)
(** * What a check answers

    [reference_status] is the answer a check promises: it asks every filter of
    the manifest that covers one of the certificate's SCTs.  The loops of
    [check] over an encoded index compute it, whatever the version, and [write]
    produces an encoded index. *)
From Stdlib Require Import Sorting.Sorted.
From S2P Require Import Prelude Bytes FileSys External Revocation Config Index IndexSafe IndexSpec.

(** ** The specification *)

Section Spec.
Context `{Clubcard}.

(** The interval of a log holds the timestamp of an SCT of that log. *)
Definition in_interval (iv : TimestampInterval) (ts : Z) : bool :=
  negb ((ts <? low iv) || (high iv <? ts)).

Definition covers (c : CRLiteClubcard) (sct : CtTimestamp) : bool :=
  existsb (λ '(id, iv), bool_decide (id = log_id sct) && in_interval iv (timestamp sct))
          (universe c).

Definition queried (input : RevocationCheckInput) (c : CRLiteClubcard) : bool :=
  existsb (covers c) (sct_timestamps input).

Definition answer (input : RevocationCheckInput) (c : CRLiteClubcard) : CRLiteStatus :=
  contains c (input_key input)
    ((λ ct_ts, (log_id ct_ts, timestamp ct_ts)) <$> sct_timestamps input).

(** Revoked wins over good, good over not covered. *)
Definition reference_status (cards : list CRLiteClubcard) (input : RevocationCheckInput)
  : RevocationStatus :=
  let answers := answer input <$> filter (λ c, queried input c = true) cards in
  if bool_decide (Revoked ∈ answers) then CertainlyRevoked
  else if bool_decide (Good ∈ answers) then NotRevoked
  else NotCoveredByRevocationData.
End Spec.

(** ** The filters a loop has looked at *)

(** Entries of [es] whose interval holds [ts] are marked in [seen]. *)
Definition touch (ts : Z) (es : list (Z * TimestampInterval)) (seen : list bool) : list bool :=
  foldl (λ seen e, if in_interval e.2 ts then <[Z.to_nat e.1 := true]> seen else seen) seen es.

Definition touch_sct (m : ByLogId) (seen : list bool) (sct : CtTimestamp) : list bool :=
  match entries_of (log_id sct) m with
  | None => seen
  | Some es => touch (timestamp sct) es seen
  end.

Lemma insert_true_lookup (seen : list bool) j k :
  <[j := true]> seen !! k = Some true
  ↔ seen !! k = Some true ∨ (j = k ∧ (k < length seen)%nat).
Proof.
  destruct (decide (j = k)) as [->|Hn].
  - destruct (decide (k < length seen)%nat) as [Hl|Hl].
    + rewrite list_lookup_insert_eq by done. naive_solver.
    + rewrite list_insert_ge by lia. naive_solver.
  - rewrite list_lookup_insert_ne by done. naive_solver.
Qed.

Lemma length_touch ts es seen : length (touch ts es seen) = length seen.
Proof.
  revert seen. induction es as [|e es IH]; intros seen; [done|].
  unfold touch in *. cbn [foldl]. rewrite IH. case_match; by rewrite ?length_insert.
Qed.

Lemma touch_lookup ts es seen k :
  touch ts es seen !! k = Some true
  ↔ seen !! k = Some true
    ∨ (k < length seen)%nat ∧ ∃ e, e ∈ es ∧ Z.to_nat e.1 = k ∧ in_interval e.2 ts = true.
Proof.
  revert seen. induction es as [|e es IH]; intros seen.
  { cbn. split; [by left|]. intros [?|(_ & e & Hin & _)]; [done|]. by apply elem_of_nil in Hin. }
  unfold touch in *. cbn [foldl]. rewrite IH. setoid_rewrite elem_of_cons.
  destruct (in_interval e.2 ts) eqn:E; [rewrite insert_true_lookup, length_insert|]; split.
  - intros [[?|[<- ?]]|(? & x & ? & ?)]; [by left|right; eauto 6..].
  - intros [?|(? & x & [->|?] & <- & ?)]; [by left; left|left; right; done|right; eauto 6].
  - intros [?|(? & x & ? & ?)]; [by left|right; eauto 6].
  - intros [?|(? & x & [->|?] & <- & ?)]; [by left|congruence|right; eauto 6].
Qed.

Lemma length_touch_sct m seen sct : length (touch_sct m seen sct) = length seen.
Proof. unfold touch_sct. case_match; [apply length_touch|done]. Qed.

Lemma touch_sct_lookup m seen sct k :
  touch_sct m seen sct !! k = Some true
  ↔ seen !! k = Some true
    ∨ (k < length seen)%nat ∧ ∃ es e, entries_of (log_id sct) m = Some es ∧ e ∈ es
        ∧ Z.to_nat e.1 = k ∧ in_interval e.2 (timestamp sct) = true.
Proof.
  unfold touch_sct. destruct (entries_of _ m) as [es|]; [|naive_solver].
  rewrite touch_lookup. naive_solver.
Qed.

Lemma touch_scts_lookup m scts seen k :
  foldl (touch_sct m) seen scts !! k = Some true
  ↔ seen !! k = Some true
    ∨ (k < length seen)%nat ∧ ∃ sct es e, sct ∈ scts
        ∧ entries_of (log_id sct) m = Some es ∧ e ∈ es
        ∧ Z.to_nat e.1 = k ∧ in_interval e.2 (timestamp sct) = true.
Proof.
  revert seen. induction scts as [|sct scts IH]; intros seen; cbn [foldl].
  { split; [by left|]. intros [?|(_ & s & es & e & Hin & _)]; [done|].
    by apply elem_of_nil in Hin. }
  rewrite IH, touch_sct_lookup, length_touch_sct. setoid_rewrite elem_of_cons. split.
  - intros [[?|(? & es & e & ?)]|(? & s & es & e & ? & ?)];
      [by left|right; split; [done|]; exists sct, es, e; naive_solver
      |right; split; [done|]; exists s, es, e; naive_solver].
  - intros [?|(Hl & s & es & e & [->|Hs] & ?)]; [by left; left|left; right|right]; eauto 10.
Qed.

(** ** The loops over an encoded index *)

Section Loops.
Context `{Clubcard} (v : Version) (names : list string) (m : ByLogId).
Context (fs : Fs) (dir : string) (key : CRLiteKey) (input : RevocationCheckInput).
(** The answer of the [k]-th filter. *)
Context (st : nat → CRLiteStatus).
Context (Hfits : fits v names m).
Context (Hindex : Forall (λ e, Forall (λ x, x.1 < Z.of_nat (length names)) e.2) m).
Context (Hnames : Forall (λ n, no_nul (as_bytes n) = true
                               ∧ utf8_valid (as_bytes n) = true) names).
Context (Hquery : ∀ k n, names !! k = Some n →
                  query_filter fs dir n key input = Ok (st k)).

(** The variables of the loops when the filters marked in [seen] were asked. *)
Definition asked (mg : bool) (seen : list bool) : Prop :=
  length seen = length names
  ∧ (mg = true ↔ ∃ k, seen !! k = Some true ∧ st k = Good)
  ∧ (∀ k, seen !! k = Some true → st k ≠ Revoked).

(** How a loop that marks [target] ends. *)
Definition ends (target : list bool) (f : Flow) : Prop :=
  match f with
  | Return s => s = CertainlyRevoked ∧ ∃ k, target !! k = Some true ∧ st k = Revoked
  | Continue mg seen => seen = target ∧ asked mg seen
  end.

Lemma asked_mark mg seen k :
  asked mg seen → (k < length names)%nat → st k ≠ Revoked →
  asked (mg || bool_decide (st k = Good)) (<[k := true]> seen).
Proof.
  intros (Hl & Hg & Hr) Hk Hs. split; [by rewrite length_insert|].
  setoid_rewrite insert_true_lookup. split.
  - rewrite orb_true_iff, bool_decide_eq_true, Hg. naive_solver lia.
  - intros j [?|[-> ?]]; auto.
Qed.

Lemma visit_entry_ends i sct e mg seen :
  reads v names m i → idx_cache_dir i = dir → 0 ≤ e.1 < Z.of_nat (length names) →
  asked mg seen →
  ∃ f, visit_entry i fs key input sct e.1 (low e.2) (high e.2) mg seen = Ok f
       ∧ ends (touch (timestamp sct) [e] seen) f.
Proof.
  intros Hr Hd Hk Ha. pose proof Ha as (Hl & Hg & Hnr). unfold visit_entry, touch.
  cbn [foldl]. unfold in_interval. destruct (_ || _); cbn [negb].
  { eexists. split; [done|]. by split. }
  destruct (lookup_lt_is_Some_2 names (Z.to_nat e.1)) as [n Hn]; [lia|].
  destruct (Forall_lookup_1 _ _ _ _ Hnames Hn) as [Hn1 Hn2].
  pose proof (filename_encode _ _ _ _ _ _ Hr Hfits Hn Hn1 Hn2) as E.
  rewrite Z2Nat.id in E by lia. rewrite E. cbn [mbind result_bind].
  destruct (lookup_lt_is_Some_2 seen (Z.to_nat e.1)) as [b Hb]; [lia|].
  rewrite Hb. cbn [or_panic mbind result_bind]. destruct b.
  { eexists. split; [done|]. rewrite list_insert_id by done. by split. }
  rewrite Hd, (Hquery _ _ Hn). cbn [mbind result_bind].
  assert (Z.to_nat e.1 < length names)%nat as Hlt by lia.
  pose proof (asked_mark mg seen (Z.to_nat e.1) Ha Hlt) as Hmark.
  destruct (st (Z.to_nat e.1)) eqn:Est; (eexists; split; [done|]).
  - split; [done|]. rewrite orb_true_r in Hmark. by apply Hmark.
  - split; [done|]. rewrite orb_false_r in Hmark. by apply Hmark.
  - split; [done|]. rewrite orb_false_r in Hmark. by apply Hmark.
  - split; [done|]. exists (Z.to_nat e.1). split; [|done].
    apply insert_true_lookup. right. split; [done|lia].
Qed.

(** A loop that has returned has done so whatever is left to mark. *)
Lemma ends_return target target' s :
  (∀ k, target !! k = Some true → target' !! k = Some true) →
  ends target (Return s) → ends target' (Return s).
Proof. intros Hm (-> & k & Hk & Hs). split; [done|]. exists k. auto. Qed.

Lemma run_entries_ends i sct es mg seen :
  reads v names m i → idx_cache_dir i = dir →
  Forall (λ x, 0 ≤ x.1 < Z.of_nat (length names)) es → asked mg seen →
  ∃ f, run_entries i fs key input sct es mg seen = Ok f
       ∧ ends (touch (timestamp sct) es seen) f.
Proof.
  intros Hr Hd Hes. revert mg seen. induction Hes as [|e es He Hes IH];
    intros mg seen Ha; cbn [run_entries].
  { eexists. split; [done|]. by split. }
  destruct (visit_entry_ends i sct e mg seen Hr Hd He Ha) as (f & -> & Hf).
  cbn [mbind result_bind].
  change (touch (timestamp sct) (e :: es) seen)
    with (touch (timestamp sct) es (touch (timestamp sct) [e] seen)).
  destruct f as [mg' seen'|s].
  - destruct Hf as [<- Ha']. by apply IH.
  - exists (Return s). split; [done|]. eapply ends_return, Hf.
    intros k Hk. apply touch_lookup. by left.
Qed.

Lemma sct_loop_ends i scts mg seen :
  reads v names m i → idx_cache_dir i = dir → asked mg seen →
  ∃ f, (sct_loop fs key input (drop (Z.to_nat (logs_offset i)) (tables i))
                 scts mg seen i).2 = Ok f
       ∧ ends (foldl (touch_sct m) seen scts) f.
Proof.
  revert i mg seen. induction scts as [|sct scts IH]; intros i mg seen Hr Hd Ha;
    cbn [sct_loop foldl].
  { eexists. split; [done|]. by split. }
  unfold mbind at 1, eff_bind.
  destruct (visit_sct_encode v names m i fs key input sct mg seen Hr Hfits)
    as (i' & Hr' & Hi' & ->).
  assert (∃ f, match entries_of (log_id sct) m with
               | None => Ok (Continue mg seen)
               | Some es => run_entries i fs key input sct es mg seen
               end = Ok f ∧ ends (touch_sct m seen sct) f) as (f & -> & Hf).
  { unfold touch_sct. destruct (entries_of _ m) as [es|] eqn:E.
    - apply run_entries_ends; [done..| |done].
      apply entries_of_elem in E. rewrite Forall_forall in Hindex.
      pose proof (fit_entry _ _ _ Hfits) as Hfe. rewrite Forall_forall in Hfe.
      pose proof (Hindex _ E) as H1. pose proof (Hfe _ E) as H2. cbn in H1, H2.
      rewrite Forall_forall in H1, H2 |- *. intros x Hx.
      specialize (H1 x Hx). destruct (H2 x Hx). lia.
    - eexists. split; [done|]. by split. }
  destruct Hi' as [g ->]. destruct f as [mg' seen'|s].
  - destruct Hf as [<- Ha']. apply (IH (set_file g i)); done.
  - exists (Return s). split; [done|]. eapply ends_return, Hf.
    intros k Hk. apply touch_scts_lookup. by left.
Qed.

(** What [check] answers, by the filters its loops mark. *)
Lemma check_ends i :
  reads v names m i → idx_cache_dir i = dir → key = input_key input →
  let marked := foldl (touch_sct m) (replicate (length names) false)
                      (sct_timestamps input) in
  ∃ s, (check fs input i).2 = Ok s ∧
    (s = CertainlyRevoked ↔ ∃ k, marked !! k = Some true ∧ st k = Revoked) ∧
    (s = NotRevoked ↔ (¬ ∃ k, marked !! k = Some true ∧ st k = Revoked)
                      ∧ ∃ k, marked !! k = Some true ∧ st k = Good).
Proof.
  intros Hr Hd Hkey marked. unfold check. rewrite <- Hkey, slice_from_some.
  2, 3: pose proof (length_encode_tables _ _ _ Hfits);
        rewrite (rd_offset _ _ _ _ Hr), ?(rd_tables _ _ _ _ Hr);
        unfold FILENAME_SIZE, LOG_DIR_ENTRY_SIZE in *; lia.
  rewrite (rd_filenames _ _ _ _ Hr), Nat2Z.id.
  assert (asked false (replicate (length names) false)) as Ha.
  { split; [by rewrite length_replicate|].
    assert (∀ k, replicate (length names) false !! k ≠ Some true) as Hno
      by (intros k [? _]%lookup_replicate_1; done).
    split; [split; [done|intros (k & Hk & _)]|intros k Hk]; by destruct (Hno k). }
  destruct (sct_loop_ends i (sct_timestamps input) _ _ Hr Hd Ha) as (f & Hf & He).
  fold marked in He. destruct (sct_loop _ _ _ _ _ _ _ _) as [i' r]. cbn in Hf. subst r.
  cbn [snd mbind result_bind]. destruct f as [mg seen|s].
  - destruct He as (-> & _ & Hg & Hnr).
    destruct mg; (eexists; split; [done|]); naive_solver.
  - destruct He as [-> Hk]. eexists. split; [done|]. naive_solver.
Qed.
End Loops.
