(* ===== verification/IndexWrite.v ===== *)
(** * What [Index::write] builds

    The map from log ids to entries that [write] collects, by the filters it
    read; that the bytes it writes are the encoding of that map; and the main
    theorem: writing an index, loading it and checking answer
    [reference_status]. *)
From Stdlib Require Import Sorting.Sorted.
From S2P Require Import Prelude Bytes FileSys External Revocation Config Index IndexSafe IndexSpec IndexCheck.

(** ** The map of [write] *)

(** The entries bound to a log id, none when there is no binding. *)
Definition bound (id : list byte) (m : ByLogId) : list (Z * TimestampInterval) :=
  default [] (entries_of id m).

Section Collect.
Context `{ClubcardLaws}.

Lemma push_entry_keys k x (m : ByLogId) :
  ∀ id, id ∈ (push_entry k x m).*1 → id = k ∨ id ∈ m.*1.
Proof.
  induction m as [|[k' vs] m IH]; intros id; cbn [push_entry].
  - rewrite fmap_cons, elem_of_cons. naive_solver.
  - destruct (log_id_cmp k k'); rewrite !fmap_cons, !elem_of_cons; naive_solver.
Qed.

Lemma push_entry_sorted k x (m : ByLogId) :
  StronglySorted bytes_lt m.*1 → StronglySorted bytes_lt (push_entry k x m).*1.
Proof.
  induction m as [|[k' vs] m IH]; intros Hs; cbn [push_entry].
  { repeat constructor. }
  rewrite fmap_cons in Hs. apply StronglySorted_inv in Hs as [Hs Hk'].
  rewrite log_id_cmp_bytes. destruct (bytes_cmp k k') eqn:E.
  - by constructor.
  - rewrite !fmap_cons. constructor; [by constructor|]. constructor; [done|].
    eapply Forall_impl; [exact Hk'|]. intros id Hid. by transitivity k'.
  - constructor; [by apply IH|]. rewrite Forall_forall in Hk' |- *.
    intros id [->|Hid]%push_entry_keys; [by apply bytes_cmp_lt_gt|by apply Hk'].
Qed.

Lemma bound_push id k x (m : ByLogId) :
  StronglySorted bytes_lt m.*1 →
  bound id (push_entry k x m) = bound id m ++ (if decide (k = id) then [x] else []).
Proof.
  induction m as [|[k' vs] m IH]; intros Hs; unfold bound in *; cbn [push_entry].
  { cbn. by case_decide. }
  rewrite fmap_cons in Hs. apply StronglySorted_inv in Hs as [Hs Hk'].
  rewrite log_id_cmp_bytes. destruct (bytes_cmp k k') eqn:E; cbn [entries_of].
  - apply bytes_cmp_eq in E as <-. case_decide; cbn; [done|by rewrite app_nil_r].
  - destruct (decide (k = id)) as [->|]; [|by rewrite app_nil_r].
    rewrite decide_False, (entries_of_none id m); [done|..].
    + intros j id' es Hj ->. rewrite Forall_forall in Hk'.
      assert (bytes_lt k' id) as Hl.
      { apply Hk', list_elem_of_fmap. exists (id, es).
        split; [done|by eapply list_elem_of_lookup_2]. }
      apply (irreflexivity bytes_lt id). by transitivity k'.
    + intros ->. by rewrite bytes_cmp_refl in E.
  - destruct (decide (k' = id)) as [->|]; [|by apply IH].
    rewrite decide_False; [by rewrite app_nil_r|].
    intros ->. by rewrite bytes_cmp_refl in E.
Qed.

(** What [write] collects is a sorted map whose keys are log ids and whose
    entries have fields of the widths of the format, for filters below [n]. *)
Record map_ok (n : Z) (m : ByLogId) : Prop := {
  map_sorted : StronglySorted bytes_lt m.*1;
  map_keys : Forall (λ id, length id = 32%nat) m.*1;
  map_entries : ∀ id, Forall (λ x, 0 ≤ x.1 < n ∧ 0 ≤ low x.2 < 2 ^ 64
                                   ∧ 0 ≤ high x.2 < 2 ^ 64) (bound id m) }.

Lemma map_ok_nil : map_ok 0 [].
Proof. split; [constructor..|intros id; constructor]. Qed.

Lemma map_ok_mono n n' m : n ≤ n' → map_ok n m → map_ok n' m.
Proof.
  intros Hn []. split; try done. intros id. eapply Forall_impl; [done|].
  intros x. cbn. lia.
Qed.

Lemma push_entry_map_ok n k x m :
  map_ok n m → length k = 32%nat → 0 ≤ x.1 < n → 0 ≤ low x.2 < 2 ^ 64 →
  0 ≤ high x.2 < 2 ^ 64 → map_ok n (push_entry k x m).
Proof.
  intros [Hs Hk He] ????. split.
  - by apply push_entry_sorted.
  - rewrite Forall_forall in Hk |- *. by intros id [->|?]%push_entry_keys; auto.
  - intros id. rewrite bound_push by done. apply Forall_app. split; [done|].
    case_decide; [|done]. by apply Forall_singleton.
Qed.

(** The intervals of a log in a list of a filter's intervals. *)
Definition of_log (id : list byte) (us : list (list byte * TimestampInterval))
  : list TimestampInterval := (filter (λ u, u.1 = id) us).*2.

(** The entries of a log: those of each filter in turn, numbered from [idx]. *)
Fixpoint log_section (idx : Z) (cards : list CRLiteClubcard) (id : list byte)
  : list (Z * TimestampInterval) :=
  match cards with
  | [] => []
  | c :: cs => ((λ iv, (idx, iv)) <$> of_log id (universe c)) ++ log_section (idx + 1) cs id
  end.

Lemma push_universe n idx us m :
  map_ok n m → 0 ≤ idx < n →
  Forall (λ u, length u.1 = 32%nat ∧ 0 ≤ low u.2 < 2 ^ 64 ∧ 0 ≤ high u.2 < 2 ^ 64) us →
  let m' := foldl (λ m '(log_id, interval), push_entry log_id (idx, interval) m) m us in
  map_ok n m' ∧ ∀ id, bound id m' = bound id m ++ ((λ iv, (idx, iv)) <$> of_log id us).
Proof.
  intros Hm Hi Hus. revert m Hm.
  induction Hus as [|[k iv] us (Hk & Hlo & Hhi) Hus IH]; intros m Hm; cbn [foldl].
  { split; [done|]. intros id. cbn. by rewrite app_nil_r. }
  destruct (IH (push_entry k (idx, iv) m)) as [Hok Hb].
  { by apply push_entry_map_ok. }
  split; [done|]. intros id. rewrite Hb, bound_push by apply Hm.
  unfold of_log. rewrite filter_cons. cbn [fst].
  case_decide; [by rewrite <- (assoc_L (++))|by rewrite app_nil_r].
Qed.

(** A filter file that can be read and decoded. *)
Definition load_card (fs : Fs) (dir name : string) : option CRLiteClubcard :=
  match fs_read fs (path_join dir name) with
  | Ok bytes => match from_bytes bytes with inr c => Some c | inl _ => None end
  | _ => None
  end.

Lemma collect_spec fs dir mfiles idx m :
  map_ok idx m → 0 ≤ idx → idx + Z.of_nat (length mfiles) ≤ 2 ^ 16 →
  match collect_universes fs dir mfiles idx m with
  | Some m' => ∃ cards,
      mapM (load_card fs dir) (filename <$> mfiles) = Some cards
      ∧ Forall (λ n, (length (as_bytes n) ≤ 32)%nat) (filename <$> mfiles)
      ∧ map_ok (idx + Z.of_nat (length mfiles)) m'
      ∧ ∀ id, bound id m' = bound id m ++ log_section idx cards id
  | None => mapM (load_card fs dir) (filename <$> mfiles) = None
            ∨ ¬ Forall (λ n, (length (as_bytes n) ≤ 32)%nat) (filename <$> mfiles)
  end.
Proof.
  revert idx m. induction mfiles as [|f fs' IH]; intros idx m Hm H0' Hn;
    cbn [collect_universes].
  { exists []. cbn. rewrite Z.add_0_r. split; [done|]. split; [constructor|].
    split; [done|]. intros id. by rewrite app_nil_r. }
  cbn [length] in Hn. unfold FILENAME_SIZE. rewrite fmap_cons.
  destruct (Z.ltb_spec 32 (Z.of_nat (length (as_bytes (filename f))))).
  { right. intros [? _]%Forall_cons. lia. }
  cbn [mapM].
  assert (load_card fs dir (filename f)
          = match fs_read fs (path_join dir (filename f)) with
            | Ok bytes => match from_bytes bytes with inr c => Some c | inl _ => None end
            | _ => None end) as -> by done.
  destruct (fs_read fs (path_join dir (filename f))) as [bytes| |]; [|by left..].
  destruct (from_bytes bytes) as [e|c]; [by left|].
  rewrite as_u16_small by lia.
  destruct (push_universe (idx + 1) idx (universe c) m) as [Hok Hb].
  { eapply map_ok_mono, Hm. lia. }
  { lia. }
  { apply Forall_forall. intros [id iv] Hu. by apply (universe_wf c). }
  specialize (IH (idx + 1) _ Hok ltac:(lia) ltac:(lia)).
  destruct (collect_universes _ _ _ _ _) as [m'|].
  - destruct IH as (cards & Hc & Hl & Hok' & Hb'). exists (c :: cards).
    cbn [mbind option_bind]. rewrite Hc. cbn. split; [done|]. split; [constructor; [lia|done]|].
    split; [eapply map_ok_mono, Hok'; cbn [length]; lia|].
    intros id. cbn [log_section]. by rewrite Hb', Hb, <- (assoc_L (++)).
  - cbn [mbind option_bind]. destruct IH as [->|Hl]; [by left|right; by intros [_ ?]%Forall_cons].
Qed.

Lemma of_log_elem id us iv : iv ∈ of_log id us ↔ (id, iv) ∈ us.
Proof.
  unfold of_log. rewrite list_elem_of_fmap. split.
  - intros ([id' iv'] & -> & [Hi Hin]%list_elem_of_filter). cbn in Hi. by subst.
  - intros Hin. exists (id, iv). split; [done|]. by apply list_elem_of_filter.
Qed.

Lemma log_section_elem idx cards id e :
  e ∈ log_section idx cards id
  ↔ ∃ k c, cards !! k = Some c ∧ e.1 = idx + Z.of_nat k ∧ (id, e.2) ∈ universe c.
Proof.
  revert idx. induction cards as [|c cs IH]; intros idx; cbn [log_section].
  { split; [by intros ?%elem_of_nil|by intros (k & c & Hk & _)]. }
  rewrite elem_of_app, IH, list_elem_of_fmap. split.
  - intros [(iv & -> & Hiv%of_log_elem)|(k & c' & Hk & He & Hin)].
    + exists 0%nat, c. cbn. split; [done|]. split; [lia|done].
    + exists (S k), c'. split; [done|]. split; [lia|done].
  - intros ([|k] & c' & Hk & He & Hin); cbn in Hk.
    + injection Hk as <-. left. exists e.2. rewrite of_log_elem. split; [|done].
      destruct e; cbn in *. f_equal. lia.
    + right. exists k, c'. split; [done|]. split; [lia|done].
Qed.

(** ** The bytes *)

Lemma be_bytes_mod n z : be_bytes n (z mod 256 ^ Z.of_nat n) = be_bytes n z.
Proof.
  rewrite <- be_val_bytes. rewrite <- (length_be_bytes n z) at 1. apply be_bytes_val.
Qed.

Lemma entry_bytes_encode es : concat (entry_bytes <$> es) = encode_section V1 es.
Proof.
  unfold encode_section. f_equal. apply list_fmap_ext. by intros _ [idx iv] _.
Qed.

Lemma dir_entries_encode m off :
  dir_entry_bytes <$> dir_entries m off = encode_dir V1 m off.
Proof.
  revert off. induction m as [|[id es] m IH]; intros off; [done|].
  cbn [dir_entries encode_dir]. rewrite fmap_cons, IH. f_equal.
  unfold dir_entry_bytes, as_u64, as_u16.
  change (2 ^ 64) with (256 ^ Z.of_nat 8). change (2 ^ 16) with (256 ^ Z.of_nat 2).
  by rewrite !be_bytes_mod.
Qed.

(** Its casts do not matter: the fields keep the low bytes anyway. *)
Lemma write_encode fs manifest dir m :
  collect_universes fs dir (manifest_files manifest) 0 [] = Some m →
  write fs manifest dir = Some (encode V1 (filename <$> manifest_files manifest) m).
Proof.
  intros Hm. unfold write. rewrite Hm. f_equal.
  unfold encode, encode_head, encode_tables, sections_start, as_u16, as_u32.
  change (2 ^ 16) with (256 ^ Z.of_nat 2). change (2 ^ 32) with (256 ^ Z.of_nat 4).
  rewrite !be_bytes_mod, dir_entries_encode, <- list_fmap_compose, length_fmap.
  rewrite <- !(assoc_L (++)). do 4 f_equal. f_equal. f_equal.
  rewrite <- list_fmap_compose. apply list_fmap_ext. intros _ [id es] _.
  apply entry_bytes_encode.
Qed.

Lemma map_ok_elem n m e : map_ok n m → e ∈ m → bound e.1 m = e.2.
Proof.
  intros Hm [k Hk]%list_elem_of_lookup_1. destruct e as [id es]. unfold bound. cbn [fst].
  by rewrite (entries_of_lookup id m k es) by (done || apply Hm).
Qed.

Lemma map_ok_fits names m :
  map_ok (Z.of_nat (length names)) m →
  Z.of_nat (length names) < 2 ^ 16 →
  Forall (λ n, (length (as_bytes n) ≤ 32)%nat) names →
  (∀ id, Z.of_nat (length (bound id m)) < 2 ^ 16) →
  Z.of_nat (length (encode V1 names m)) < 2 ^ 32 →
  fits V1 names m.
Proof.
  intros Hm Hn Hl Hc Hs. pose proof Hm as [Hsort Hk He].
  assert (Forall (λ e, length e.1 = 32%nat) m) as Hk' by by apply Forall_fmap in Hk.
  split; try done.
  - unfold encode, encode_tables in Hs.
    rewrite !length_app, length_dir_concat in Hs by done. lia.
  - rewrite Forall_forall. intros e Hin. rewrite <- (map_ok_elem _ _ _ Hm Hin). apply Hc.
  - rewrite Forall_forall. intros e Hin. rewrite <- (map_ok_elem _ _ _ Hm Hin).
    eapply Forall_impl; [apply He|]. cbn. lia.
  - unfold i64_max. lia.
Qed.

(** The filters that the loops of [check] mark are those the reference asks. *)
Lemma marked_queried (names : list string) m (cards : list CRLiteClubcard) input k :
  map_ok (Z.of_nat (length names)) m →
  (∀ id, bound id m = log_section 0 cards id) → length cards = length names →
  foldl (touch_sct m) (replicate (length names) false) (sct_timestamps input)
    !! k = Some true
  ↔ ∃ c, cards !! k = Some c ∧ queried input c = true.
Proof.
  intros Hm Hb Hlen. rewrite touch_scts_lookup, length_replicate.
  unfold queried, covers. split.
  - intros [[? _]%lookup_replicate_1|(Hk & sct & es & e & Hs & He & Hin & <- & Hiv)]; [done|].
    assert (e ∈ log_section 0 cards (log_id sct)) as Hin'.
    { rewrite <- Hb. unfold bound. by rewrite He. }
    apply log_section_elem in Hin' as (j & c & Hj & Ej & Hu).
    rewrite Ej, Z.add_0_l, Nat2Z.id. exists c. split; [done|].
    apply existsb_exists. exists sct. split; [by apply list_elem_of_In|].
    apply existsb_exists. eexists. split; [by apply list_elem_of_In|].
    cbn. by rewrite bool_decide_true.
  - intros (c & Hc & Hq). right.
    apply lookup_lt_Some in Hc as Hk. split; [lia|].
    apply existsb_exists in Hq as (sct & Hs & Hq).
    apply existsb_exists in Hq as ([id iv] & Hu & Hq).
    apply andb_true_iff in Hq as [->%bool_decide_eq_true Hiv].
    assert ((Z.of_nat k, iv) ∈ bound (log_id sct) m) as Hin.
    { rewrite Hb. apply log_section_elem. exists k, c. split; [done|]. split; [done|].
      by apply list_elem_of_In. }
    unfold bound in Hin. destruct (entries_of (log_id sct) m) as [es|] eqn:E;
      [|by apply elem_of_nil in Hin].
    exists sct, es, (Z.of_nat k, iv). rewrite list_elem_of_In.
    repeat split; [done..|apply Nat2Z.id|done].
Qed.

(** ** Checking an encoded index *)

Lemma load_card_query fs dir n c input :
  load_card fs dir n = Some c →
  no_nul (as_bytes n) = true
  ∧ query_filter fs dir n (input_key input) input = Ok (answer input c).
Proof.
  unfold load_card, query_filter. destruct (fs_read _ _) as [bytes| |] eqn:E; [|done..].
  apply fs_read_inv in E as (_ & Hn & _). split.
  - by eapply no_nul_path_join.
  - cbn [map_err mbind result_bind]. destruct (from_bytes bytes) as [|c']; [done|].
    by simplify_eq.
Qed.

(** The statuses the filters marked by [queried] answer. *)
Lemma elem_of_answers s (cards : list CRLiteClubcard) input :
  s ∈ answer input <$> filter (λ c, queried input c = true) cards
  ↔ ∃ k c, cards !! k = Some c ∧ queried input c = true ∧ answer input c = s.
Proof.
  rewrite list_elem_of_fmap. setoid_rewrite list_elem_of_filter.
  setoid_rewrite list_elem_of_lookup. naive_solver.
Qed.

Lemma check_encode v fs names m (cards : list CRLiteClubcard) input i :
  reads v names m i → fits v names m → map_ok (Z.of_nat (length names)) m →
  (∀ id, bound id m = log_section 0 cards id) →
  Forall (λ n, utf8_valid (as_bytes n) = true) names →
  mapM (load_card fs (idx_cache_dir i)) names = Some cards →
  (check fs input i).2 = Ok (reference_status cards input).
Proof.
  intros Hr Hf Hm Hb Hu Hc. apply mapM_Some in Hc.
  pose proof (Forall2_length _ _ _ Hc) as Hlen.
  set (st k := match cards !! k with Some c => answer input c | None => NotCovered end).
  destruct (check_ends v names m fs (idx_cache_dir i) (input_key input) input st Hf)
    with (i := i) as (s & -> & Hrev & Hgood); try done.
  - apply Forall_forall. intros e He. rewrite <- (map_ok_elem _ _ _ Hm He).
    eapply Forall_impl; [apply Hm|]. cbn. lia.
  - apply Forall_forall. intros n Hn. rewrite Forall_forall in Hu. split; [|by apply Hu].
    apply list_elem_of_lookup_1 in Hn as [k Hk].
    destruct (Forall2_lookup_l _ _ _ _ _ Hc Hk) as (c & _ & Hl).
    by apply (load_card_query _ _ _ _ input) in Hl as [].
  - intros k n Hk. destruct (Forall2_lookup_l _ _ _ _ _ Hc Hk) as (c & Hck & Hl).
    unfold st. rewrite Hck. by apply load_card_query.
  - setoid_rewrite (λ k, marked_queried names m cards input k Hm Hb (eq_sym Hlen)) in Hrev.
    setoid_rewrite (λ k, marked_queried names m cards input k Hm Hb (eq_sym Hlen)) in Hgood.
    assert (∀ x, (∃ k, (∃ c, cards !! k = Some c ∧ queried input c = true) ∧ st k = x)
            ↔ x ∈ answer input <$> filter (λ c, queried input c = true) cards) as Hans.
    { intros x. rewrite elem_of_answers. unfold st. split.
      - intros (k & (c & Hk & Hq) & Hx). rewrite Hk in Hx. eauto.
      - intros (k & c & Hk & Hq & Hx). exists k. rewrite Hk. eauto. }
    setoid_rewrite Hans in Hrev. setoid_rewrite Hans in Hgood.
    unfold reference_status. f_equal. repeat case_bool_decide; destruct s; naive_solver.
Qed.
End Collect.

(** ** Writing, loading and checking *)

(** The file system with [data] as the index. *)
Definition index_path (config : Config) : string :=
  path_join (revocation_cache_dir config) INDEX_BIN.
Definition with_index (fs : Fs) (config : Config) (data : list byte) : Fs :=
  set_files <[index_path config := data]> fs.

(** No filter is stored over the index. *)
Definition apart (config : Config) (names : list string) : Prop :=
  Forall (λ n, path_join (revocation_cache_dir config) n ≠ index_path config) names.

Section Theorems.
Context `{ClubcardLaws}.

Lemma load_card_with_index fs config data n :
  path_join (revocation_cache_dir config) n ≠ index_path config →
  load_card (with_index fs config data) (revocation_cache_dir config) n
  = load_card fs (revocation_cache_dir config) n.
Proof.
  intros Hn. unfold load_card, fs_read, file_open, handle_fault, guard_op, with_index.
  cbn [faults dirs files set_files]. by rewrite lookup_insert_ne.
Qed.

Lemma load_cards_with_index fs config data names :
  apart config names →
  mapM (load_card (with_index fs config data) (revocation_cache_dir config)) names
  = mapM (load_card fs (revocation_cache_dir config)) names.
Proof.
  intros Ha. unfold apart in Ha. rewrite Forall_forall in Ha.
  induction names as [|n names IH]; [done|]. cbn [mapM].
  rewrite load_card_with_index by (apply Ha; left).
  rewrite IH; [done|]. intros x Hx. apply Ha. by right.
Qed.

Lemma log_section_length cards id :
  (length (log_section 0 cards id)
   ≤ sum_list ((λ c, length (universe c)) <$> cards))%nat.
Proof.
  generalize 0. induction cards as [|c cs IH]; intros idx; cbn [log_section]; [done|].
  rewrite fmap_cons, length_app, length_fmap. cbn [sum_list foldr].
  specialize (IH (idx + 1)). unfold of_log. rewrite length_fmap.
  change (Datatypes.id (length (universe c))) with (length (universe c)).
  pose proof (length_filter (λ u, u.1 = id) (universe c)). unfold sum_list in *. lia.
Qed.

(** What [write] collects, encoded in either version, answers the reference. *)
Lemma encoded_check fs config v mfiles m cards input :
  let names := filename <$> mfiles in
  collect_universes fs (revocation_cache_dir config) mfiles 0 [] = Some m →
  mapM (load_card fs (revocation_cache_dir config)) names = Some cards →
  fits v names m → Z.of_nat (length names) ≤ 2 ^ 16 →
  Forall (λ n, utf8_valid (as_bytes n) = true) names →
  apart config names → readable fs (index_path config) →
  let fs' := with_index fs config (encode v names m) in
  ∃ i, from_cache fs' config = Ok i ∧ (check fs' input i).2 = Ok (reference_status cards input).
Proof.
  intros names Hm Hc Hf Hn Hu Ha Hr fs'.
  destruct (from_cache_encode fs' config v names m) as (i & Hi & Hreads & Hdir).
  - exact Hr.
  - apply lookup_insert_eq.
  - done.
  - exists i. split; [done|].
    pose proof (collect_spec fs (revocation_cache_dir config) mfiles 0 [] map_ok_nil ltac:(lia))
      as Hspec.
    rewrite Hm in Hspec. destruct Hspec as (cards' & Hc' & _ & Hok & Hb).
    { unfold names in Hn. rewrite length_fmap in Hn. lia. }
    assert (cards' = cards) as -> by (subst names; congruence).
    apply (check_encode v fs' names m); try done.
    + unfold names. by rewrite length_fmap.
    + rewrite Hdir. unfold fs'. by rewrite load_cards_with_index.
Qed.
End Theorems.

(** Writing, loading and checking, for filters that load and fit. *)
Lemma written_check `{ClubcardLaws} (fs : Fs) (config : Config) (manifest : Manifest)
    (cards : list CRLiteClubcard) (input : RevocationCheckInput) :
  let dir := revocation_cache_dir config in
  let names := filename <$> manifest_files manifest in
  mapM (load_card fs dir) names = Some cards →
  Forall (λ n, utf8_valid (as_bytes n) = true) names →
  Forall (λ n, (length (as_bytes n) ≤ 32)%nat) names →
  apart config names →
  Z.of_nat (length names) < 2 ^ 16 →
  (∀ id, Z.of_nat (length (log_section 0 cards id)) < 2 ^ 16) →
  readable fs (index_path config) →
  ∃ bytes, write fs manifest dir = Some bytes ∧
    (Z.of_nat (length bytes) < 2 ^ 32 →
     let fs' := with_index fs config bytes in
     ∃ i, from_cache fs' config = Ok i
          ∧ (check fs' input i).2 = Ok (reference_status cards input)).
Proof.
  intros dir names Hc Hu Hl Ha Hn Hs Hr.
  pose proof (collect_spec fs dir (manifest_files manifest) 0 [] map_ok_nil ltac:(lia)) as Hspec.
  destruct (collect_universes _ _ _ _ _) as [m|] eqn:E.
  - destruct Hspec as (cards' & Hc' & _ & Hok & Hb).
    { unfold names in Hn. rewrite length_fmap in Hn. lia. }
    assert (cards' = cards) as -> by (subst names; congruence).
    eexists. split; [by apply write_encode|]. intros Hsize.
    apply (encoded_check fs config V1 (manifest_files manifest)); try done; [|fold names; lia].
    apply map_ok_fits; try done.
    + by rewrite length_fmap.
    + intros id. rewrite Hb. apply Hs.
  - destruct Hspec as [Hc'|Hl']; [|subst names; congruence|done].
    unfold names in Hn. rewrite length_fmap in Hn. lia.
Qed.
