(* ===== verification/IndexMem.v ===== *)
(** * A check as a fold over the index in memory

    The file format, the binary search, the seeks and the file names decoded on
    the way do not matter: on an encoded index of either version, [check] is a
    fold over the entries of the SCTs' logs that asks a filter at most once and
    stops at the first revocation or error. *)
From S2P Require Import Prelude Bytes FileSys External Revocation Config Index IndexSafe IndexSpec.

Section Fold.
Variable names : list string.
(** What asking the filter of a file name gives. *)
Variable ask : string → Result Error CRLiteStatus.

Definition mem_entry (ts : Z) (e : Z * TimestampInterval) (maybe_good : bool)
    (seen : list bool) : Result Error Flow :=
  if (ts <? low e.2) || (high e.2 <? ts) then Ok (Continue maybe_good seen)
  else match names !! Z.to_nat e.1 with
  | None => Err (IndexDecode (DynStr "filter index out of bounds"))
  | Some name =>
      if seen !!! Z.to_nat e.1 : bool then Ok (Continue maybe_good seen)
      else
        let seen := <[Z.to_nat e.1 := true]> seen in
        status ← ask name;
        match status with
        | Revoked => Ok (Return CertainlyRevoked)
        | Good => Ok (Continue true seen)
        | NotEnrolled | NotCovered => Ok (Continue maybe_good seen)
        end
  end.

Fixpoint mem_entries (ts : Z) (es : list (Z * TimestampInterval)) (maybe_good : bool)
    (seen : list bool) : Result Error Flow :=
  match es with
  | [] => Ok (Continue maybe_good seen)
  | e :: rest =>
      flow ← mem_entry ts e maybe_good seen;
      match flow with
      | Continue maybe_good seen => mem_entries ts rest maybe_good seen
      | Return status => Ok (Return status)
      end
  end.

Fixpoint mem_scts (m : ByLogId) (scts : list CtTimestamp) (maybe_good : bool)
    (seen : list bool) : Result Error RevocationStatus :=
  match scts with
  | [] => Ok (if maybe_good then NotRevoked else NotCoveredByRevocationData)
  | sct :: rest =>
      flow ← (match entries_of (log_id sct) m with
              | None => Ok (Continue maybe_good seen)
              | Some es => mem_entries (timestamp sct) es maybe_good seen
              end);
      match flow with
      | Continue maybe_good seen => mem_scts m rest maybe_good seen
      | Return status => Ok status
      end
  end.

Definition mem_check (m : ByLogId) (scts : list CtTimestamp) : Result Error RevocationStatus :=
  mem_scts m scts false (replicate (length names) false).
End Fold.

(** Only the answers for the names of the index matter. *)
Lemma mem_entries_ext names ask ask' ts es mg seen :
  (∀ n, n ∈ names → ask n = ask' n) →
  mem_entries names ask ts es mg seen = mem_entries names ask' ts es mg seen.
Proof.
  intros Ha. revert mg seen. induction es as [|e es IH]; intros mg seen; [done|].
  cbn [mem_entries].
  assert (mem_entry names ask ts e mg seen = mem_entry names ask' ts e mg seen) as ->.
  { unfold mem_entry. destruct (names !! Z.to_nat e.1) as [n|] eqn:En; [|done].
    rewrite (Ha n); [done|]. by eapply list_elem_of_lookup_2. }
  destruct (mem_entry _ _ _ _ _ _) as [[]| |]; cbn; auto.
Qed.

Lemma mem_check_ext names ask ask' m scts :
  (∀ n, n ∈ names → ask n = ask' n) → mem_check names ask m scts = mem_check names ask' m scts.
Proof.
  intros Ha. unfold mem_check. generalize false at 1 3. intros mg.
  generalize (replicate (length names) false). intros seen. revert mg seen.
  induction scts as [|sct scts IH]; intros mg seen; [done|]. cbn [mem_scts].
  assert ((match entries_of (log_id sct) m with
           | None => Ok (Continue mg seen)
           | Some es => mem_entries names ask (timestamp sct) es mg seen end)
          = match entries_of (log_id sct) m with
            | None => Ok (Continue mg seen)
            | Some es => mem_entries names ask' (timestamp sct) es mg seen end) as ->.
  { destruct (entries_of _ _); [by apply mem_entries_ext|done]. }
  destruct (match entries_of _ _ with Some _ => _ | None => _ end) as [[]| |]; cbn; auto.
Qed.

(** ** The simulation *)

Section Simulation.
Context `{Clubcard} (v : Version) (names : list string) (m : ByLogId) (fs : Fs)
  (input : RevocationCheckInput).
Hypothesis Hfits : fits v names m.
Hypothesis Hnames :
  Forall (λ n, no_nul (as_bytes n) = true ∧ utf8_valid (as_bytes n) = true) names.

(** The query of a file in the cache directory [dir]. *)
Definition ask_file (dir name : string) : Result Error CRLiteStatus :=
  query_filter fs dir name (input_key input) input.

Lemma visit_entry_mem i sct e mg seen :
  reads v names m i → 0 ≤ e.1 → length seen = length names →
  visit_entry i fs (input_key input) input sct e.1 (low e.2) (high e.2) mg seen
  = mem_entry names (ask_file (idx_cache_dir i)) (timestamp sct) e mg seen.
Proof.
  intros Hr He Hs. unfold visit_entry, mem_entry. case_match; [done|].
  destruct (names !! Z.to_nat e.1) as [n|] eqn:En.
  - rewrite Forall_forall in Hnames.
    destruct (Hnames n) as [Hn Hu]; [by eapply list_elem_of_lookup_2|].
    pose proof (filename_encode _ _ _ _ _ _ Hr Hfits En Hn Hu) as Hf.
    rewrite Z2Nat.id in Hf by done. rewrite Hf. cbn [mbind result_bind].
    destruct (lookup_lt_is_Some_2 seen (Z.to_nat e.1)) as [b Hb];
      [rewrite Hs; by eapply lookup_lt_Some|].
    rewrite (list_lookup_total_correct _ _ _ Hb), Hb. by destruct b.
  - apply lookup_ge_None in En. unfold index_filename.
    rewrite (rd_filenames _ _ _ _ Hr), (proj2 (Z.leb_le _ _)) by lia. done.
Qed.

Lemma mem_entry_length dir ts e mg seen mg' seen' :
  mem_entry names (ask_file dir) ts e mg seen = Ok (Continue mg' seen') →
  length seen' = length seen.
Proof.
  unfold mem_entry. case_match; [by intros [= <- <-]|].
  destruct (names !! _); [|done]. case_match; [by intros [= <- <-]|].
  destruct (ask_file _ _) as [[]| |]; cbn; intros [= <- <-]; by rewrite ?length_insert.
Qed.

Lemma run_entries_mem i sct es mg seen :
  reads v names m i → Forall (λ e, 0 ≤ e.1) es → length seen = length names →
  run_entries i fs (input_key input) input sct es mg seen
  = mem_entries names (ask_file (idx_cache_dir i)) (timestamp sct) es mg seen.
Proof.
  intros Hr Hes. revert mg seen. induction Hes as [|e es He Hes IH]; intros mg seen Hs; [done|].
  cbn [run_entries mem_entries]. rewrite visit_entry_mem by done.
  destruct (mem_entry _ _ _ _ _ _) as [[mg' seen'|s]| |] eqn:E; [|done..]. cbn.
  apply IH. apply mem_entry_length in E. congruence.
Qed.

Lemma mem_entries_length dir ts es mg seen mg' seen' :
  mem_entries names (ask_file dir) ts es mg seen = Ok (Continue mg' seen') →
  length seen' = length seen.
Proof.
  revert mg seen. induction es as [|e es IH]; intros mg seen; cbn [mem_entries].
  { by intros [= _ <-]. }
  destruct (mem_entry _ _ _ _ _ _) as [[mg1 seen1|s]| |] eqn:E; [|done..]. cbn.
  intros Hl%IH. apply mem_entry_length in E. congruence.
Qed.

Lemma entries_nonneg id es : entries_of id m = Some es → Forall (λ e, 0 ≤ e.1) es.
Proof.
  intros Hi%entries_of_elem. pose proof (fit_entry _ _ _ Hfits) as Hf.
  rewrite Forall_forall in Hf. specialize (Hf _ Hi). cbn in Hf.
  eapply Forall_impl; [exact Hf|]. cbn. lia.
Qed.

Lemma sct_loop_mem i scts mg seen :
  reads v names m i → length seen = length names →
  match (sct_loop fs (input_key input) input (drop (Z.to_nat (logs_offset i)) (tables i))
                  scts mg seen i).2 with
  | Ok (Return s) => Ok s
  | Ok (Continue true _) => Ok NotRevoked
  | Ok (Continue false _) => Ok NotCoveredByRevocationData
  | Err e => Err e
  | Panic => Panic
  end = mem_scts names (ask_file (idx_cache_dir i)) m scts mg seen.
Proof.
  revert i mg seen. induction scts as [|sct scts IH]; intros i mg seen Hr Hs;
    cbn [sct_loop mem_scts]; [by destruct mg|].
  unfold mbind at 1, eff_bind.
  destruct (visit_sct_encode v names m i fs (input_key input) input sct mg seen Hr Hfits)
    as (i' & Hr' & [f ->] & ->).
  destruct (entries_of (log_id sct) m) as [es|] eqn:Ees.
  - rewrite (run_entries_mem i sct es) by (done || by eapply entries_nonneg).
    destruct (mem_entries _ _ _ _ _ _) as [[mg' seen'|s]| |] eqn:E; [|done..].
    apply (IH (set_file f i)); [done|]. apply mem_entries_length in E. congruence.
  - by apply (IH (set_file f i)).
Qed.

Lemma check_mem i :
  reads v names m i →
  (check fs input i).2
  = mem_check names (ask_file (idx_cache_dir i)) m (sct_timestamps input).
Proof.
  intros Hr. unfold check, mem_check. rewrite slice_from_some.
  2, 3: pose proof (length_encode_tables _ _ _ Hfits);
        rewrite (rd_offset _ _ _ _ Hr), ?(rd_tables _ _ _ _ Hr);
        unfold FILENAME_SIZE, LOG_DIR_ENTRY_SIZE in *; lia.
  rewrite (rd_filenames _ _ _ _ Hr), Nat2Z.id.
  rewrite <- (sct_loop_mem i) by (done || apply length_replicate).
  destruct (sct_loop _ _ _ _ _ _ _ _) as [i' [[mg seen|s]| |]]; [by destruct mg|done..].
Qed.
End Simulation.
