(* ===== verification/IndexTheorems.v ===== *)
(** * The index: theorems

    What writing, loading and checking an index promise, each with an instance
    on which its hypotheses hold. *)
From Stdlib Require Import Sorting.Sorted.
From S2P Require Import Prelude Bytes FileSys External Revocation Config Index Demo IndexSafe IndexSpec IndexCheck IndexWrite.

(** C1: An index that [write] builds from filters it can load, once in place, loads,
    and a check answers what the filters that cover the certificate's SCTs say:
    revoked if one says so, else not revoked if one knows the certificate, else
    not covered. *)
Theorem write_then_check `{ClubcardLaws} (fs : Fs) (config : Config) (manifest : Manifest)
    (cards : list CRLiteClubcard) (input : RevocationCheckInput) :
  let dir := revocation_cache_dir config in
  let names := filename <$> manifest_files manifest in
  mapM (load_card fs dir) names = Some cards →
  Forall (λ n, utf8_valid (as_bytes n) = true) names →
  Forall (λ n, (length (as_bytes n) ≤ 32)%nat) names →
  apart config names →
  Z.of_nat (length names) < 2 ^ 16 →
  (∀ id, Z.of_nat (length (log_section 0 cards id)) < 2 ^ 16) →
  readable fs (index_path config) →
  ∃ bytes, write fs manifest dir = Some bytes ∧
    (Z.of_nat (length bytes) < 2 ^ 32 →
     let fs' := with_index fs config bytes in
     ∃ i, from_cache fs' config = Ok i
          ∧ (check fs' input i).2 = Ok (reference_status cards input)).
Proof. apply written_check. Qed.

(** [write] fails exactly when a filter cannot be read or decoded, or a filename
    does not fit its slot: it never leaves a file out. *)
Theorem write_none_iff `{ClubcardLaws} (fs : Fs) (manifest : Manifest) (dir : string) :
  let names := filename <$> manifest_files manifest in
  Z.of_nat (length names) ≤ 2 ^ 16 →
  write fs manifest dir = None
  ↔ mapM (load_card fs dir) names = None
    ∨ ¬ Forall (λ n, (length (as_bytes n) ≤ 32)%nat) names.
Proof.
  intros names Hn. unfold names in Hn. rewrite length_fmap in Hn.
  pose proof (collect_spec fs dir (manifest_files manifest) 0 [] map_ok_nil
                ltac:(lia) ltac:(lia)) as Hspec.
  unfold write. destruct (collect_universes _ _ _ _ _) as [m|]; [|by split].
  destruct Hspec as (cards & Hc & Hl & _). split; [done|].
  intros [Hc'|Hl']; [subst names; congruence|done].
Qed.

(** C17: Both versions of the format hold the same information: an index of either
    version with what [write] collects answers the reference status. *)
Theorem either_version_answers `{ClubcardLaws} (fs : Fs) (config : Config) (v : Version)
    (manifest : Manifest) (m : ByLogId) (cards : list CRLiteClubcard)
    (input : RevocationCheckInput) :
  let dir := revocation_cache_dir config in
  let names := filename <$> manifest_files manifest in
  collect_universes fs dir (manifest_files manifest) 0 [] = Some m →
  mapM (load_card fs dir) names = Some cards →
  fits v names m →
  Forall (λ n, utf8_valid (as_bytes n) = true) names →
  apart config names → readable fs (index_path config) →
  let fs' := with_index fs config (encode v names m) in
  ∃ i, from_cache fs' config = Ok i
       ∧ (check fs' input i).2 = Ok (reference_status cards input).
Proof.
  intros dir names Hm Hc Hf Hu Ha Hr. apply (encoded_check fs config v); try done.
  pose proof (fit_names _ _ _ Hf) as Hn. fold names. generalize dependent (length names).
  intros n Hn. destruct v; [change (Z.of_nat n < 256) in Hn|change (Z.of_nat n < 65536) in Hn]; lia.
Qed.

(** The filters of a manifest that load are collected, however many there are, under
    the 32 bytes of log ids. *)
Lemma collect_some `{ClubcardLaws} fs dir mfiles idx (m : ByLogId) cards :
  mapM (load_card fs dir) (filename <$> mfiles) = Some cards →
  Forall (λ n, (length (as_bytes n) ≤ 32)%nat) (filename <$> mfiles) →
  Forall (λ k, length k = 32%nat) m.*1 →
  ∃ m', collect_universes fs dir mfiles idx m = Some m' ∧ Forall (λ k, length k = 32%nat) m'.*1.
Proof.
  revert idx m cards. induction mfiles as [|f mfiles IH]; intros idx m cards; [by exists m|].
  rewrite fmap_cons. cbn [mapM collect_universes].
  destruct (load_card fs dir (filename f)) as [c|] eqn:Hc; [|done]. unfold load_card in Hc.
  destruct (fs_read fs _) as [bytes|e|]; [|done..].
  destruct (from_bytes bytes) as [|c']; [done|]. injection Hc as ->. cbn [mbind option_bind].
  destruct (mapM _ _) as [cs|] eqn:Hcs; [|done]. intros _ [Hl Hls]%Forall_cons Hm.
  rewrite (proj2 (Z.ltb_ge _ _)) by (unfold FILENAME_SIZE; lia).
  apply (IH _ _ cs); [done..|].
  assert (Forall (λ x, length x.1 = 32%nat) (universe c)) as Hu.
  { apply Forall_forall. intros [id iv] Hin. by apply universe_wf in Hin as (? & _). }
  revert m Hm. induction Hu as [|[id iv] u Hid _ IHu]; intros m Hm; cbn [foldl]; [done|].
  apply IHu, Forall_forall. intros k [->|Hk]%push_entry_keys; [done|].
  rewrite Forall_forall in Hm. by apply Hm.
Qed.

(** The encoding of any number of names loads, with its counts modulo their widths. *)
Lemma encode_loads fs config names m :
  readable fs (index_path config) →
  files fs !! index_path config = Some (encode V1 names m) →
  Forall (λ n, (length (as_bytes n) ≤ 32)%nat) names → Forall (λ k, length k = 32%nat) m.*1 →
  let n := Z.of_nat (length names) in
  ∃ i, from_cache fs config = Ok i
       ∧ num_filenames i = n mod 2 ^ 16 ∧ logs_offset i = n mod 2 ^ 16 * FILENAME_SIZE.
Proof.
  intros (Hn & Ho & Hr & Hm) Hf Hnames Hids n. rewrite from_cache_eq. unfold read_header, index_path in *.
  rewrite (file_open_ok _ _ _ Hn Ho Hf). cbn [map_err mbind result_bind].
  rewrite (handle_fault_ok _ _ _ Hf), Hr. unfold encode. set (rest := concat _).
  rewrite (read_exact_start INDEX_MAGIC_V1) by done. cbn [map_err mbind result_bind].
  rewrite decide_True by done. cbn [mbind result_bind].
  rewrite (read_exact_ok INDEX_MAGIC_V1 (encode_head V1 names m)) by
    (rewrite ?length_encode_head; done).
  cbn [map_err mbind result_bind]. unfold encode_head.
  change (if ENTRY_SIZE_V1 =? ENTRY_SIZE_V0 then 1%nat else 2%nat) with (width V1).
  rewrite <- (be_bytes_mod (width V1)), <- (be_bytes_mod 4), <- (app_nil_r (be_bytes 4 _)).
  change (256 ^ Z.of_nat (width V1)) with (2 ^ 16). change (256 ^ Z.of_nat 4) with (2 ^ 32).
  rewrite read_be_err_bytes by (apply Z.mod_pos_bound; lia). cbn [mbind result_bind].
  rewrite read_be_err_bytes by (apply Z.mod_pos_bound; lia). cbn [mbind result_bind].
  rewrite guard_op_ok by done. cbn [map_err mbind result_bind contents].
  set (nl := Z.of_nat (length m)). fold n.
  set (len := n mod 2 ^ 16 * FILENAME_SIZE + nl mod 2 ^ 32 * LOG_DIR_ENTRY_SIZE).
  assert (Forall (λ e, length e.1 = 32%nat) m) as Hids' by by apply Forall_fmap in Hids.
  assert (0 ≤ len < 2 ^ 38 ∧ len ≤ Z.of_nat (length (encode_tables V1 names m))) as [Hlen Hle].
  { pose proof (Z.mod_pos_bound n (2 ^ 16) ltac:(lia)). pose proof (Z.mod_pos_bound nl (2 ^ 32) ltac:(lia)).
    pose proof (Z.mod_le n (2 ^ 16) ltac:(lia) ltac:(lia)).
    pose proof (Z.mod_le nl (2 ^ 32) ltac:(lia) ltac:(lia)).
    unfold encode_tables. rewrite length_app, length_slots_concat, length_dir_concat by done.
    unfold len, FILENAME_SIZE, LOG_DIR_ENTRY_SIZE. lia. }
  rewrite (proj2 (Z.ltb_ge _ _)).
  2: { rewrite as_u64_small by (unfold HEADER_SIZE_V1; lia). rewrite !length_app, !length_be_bytes.
       change (length INDEX_MAGIC_V1) with 8%nat. unfold HEADER_SIZE_V1, width. lia. }
  cbn [mbind result_bind]. fold nl len.
  match goal with |- context [read_exact len ?f] =>
    destruct (read_exact_succeeds len f) as (f' & tbl & ->); [done| |] end.
  { cbn [pos contents]. rewrite !length_app, !length_be_bytes.
    change (length INDEX_MAGIC_V1) with 8%nat. unfold HEADER_SIZE_V1, width. lia. }
  cbn [map_err mbind result_bind]. by eexists.
Qed.

(** C36: The file count of an index wraps at 16 bits: an index of 65536 files or more is
    written without complaint, and loads as one of that many files fewer, with its log
    directory at the wrong place. *)
Theorem write_count_wraps `{ClubcardLaws} (fs : Fs) (config : Config) (manifest : Manifest)
    (dir : string) (cards : list CRLiteClubcard) :
  let names := filename <$> manifest_files manifest in
  let n := Z.of_nat (length names) in
  2 ^ 16 ≤ n → mapM (load_card fs dir) names = Some cards →
  Forall (λ name, (length (as_bytes name) ≤ 32)%nat) names →
  ∃ bytes, write fs manifest dir = Some bytes ∧
    ∀ fs', readable fs' (index_path config) → files fs' !! index_path config = Some bytes →
    ∃ i, from_cache fs' config = Ok i
         ∧ num_filenames i = n mod 2 ^ 16 ∧ num_filenames i < n
         ∧ logs_offset i = n mod 2 ^ 16 * FILENAME_SIZE ∧ logs_offset i < n * FILENAME_SIZE.
Proof.
  intros names n Hn Hc Hl.
  destruct (collect_some fs dir (manifest_files manifest) 0 [] cards Hc Hl) as (m & Hm & Hk);
    [constructor|].
  exists (encode V1 names m). split; [by apply write_encode|]. intros fs' Hr Hf.
  destruct (encode_loads fs' config names m Hr Hf Hl Hk) as (i & Hi & Hnum & Hoff).
  pose proof (Z.mod_pos_bound n (2 ^ 16) ltac:(lia)). fold n in Hnum, Hoff.
  exists i. split; [done|]. rewrite Hnum, Hoff. unfold FILENAME_SIZE. lia.
Qed.

(** C32: The binary search over a sorted log directory of [n] entries ends within
    [n + 1] iterations and finds the entry of the key iff there is one. *)
Theorem search_log_finds (dir_data key : list byte) (n : nat) :
  length dir_data = (n * 42)%nat → keys_sorted dir_data (Z.of_nat n) →
  match search_log (S n) dir_data key 0 (Z.of_nat n) with
  | Ok (Some offset) => ∃ k, offset = k * LOG_DIR_ENTRY_SIZE
                             ∧ 0 ≤ k < Z.of_nat n ∧ key_at dir_data k = key
  | Ok None => ∀ k, 0 ≤ k < Z.of_nat n → key_at dir_data k ≠ key
  | _ => False
  end.
Proof.
  intros Hl Hs.
  destruct (search_log_spec dir_data key (Z.of_nat n) (S n) 0 (Z.of_nat n))
    as [(k & Hk & Hkey & ->)|[-> Hn]]; [unfold LOG_DIR_ENTRY_SIZE; lia|lia..| |].
  - by exists k.
  - by apply Hn.
Qed.

(** ** Instances *)

Section Instances.
#[local] Existing Instance demo_clubcard.
#[local] Existing Instance demo_clubcard_laws.

Lemma write_then_check_witness :
∃ bytes, write (demo_fs demo_filters) demo_manifest demo_dir = Some bytes ∧
  (Z.of_nat (length bytes) < 2 ^ 32 →
   let fs' := with_index (demo_fs demo_filters) demo_config bytes in
   ∃ i, from_cache fs' demo_config = Ok i
        ∧ (check fs' (demo_input x07 x01 17) i).2
          = Ok (reference_status demo_cards (demo_input x07 x01 17))).
Proof.
apply write_then_check.
- by vm_compute.
- by repeat constructor.
- apply (bool_decide_unpack _). by vm_compute.
- apply (bool_decide_unpack _). by vm_compute.
- by vm_compute.
- intros id. pose proof (log_section_length demo_cards id) as Hl.
  change (sum_list _) with 3%nat in Hl. lia.
- by repeat split.
Defined.

Lemma write_none_iff_witness :
Z.of_nat (length demo_filters) ≤ 2 ^ 16
∧ (write (demo_fs []) demo_manifest demo_dir = None
   ↔ mapM (load_card (demo_fs []) demo_dir) (filename <$> manifest_files demo_manifest) = None
     ∨ ¬ Forall (λ n, (length (as_bytes n) ≤ 32)%nat)
                (filename <$> manifest_files demo_manifest)).
Proof. split; [by vm_compute|]. by apply write_none_iff. Defined.

Lemma either_version_answers_witness :
∃ m, collect_universes (demo_fs demo_filters) demo_dir (manifest_files demo_manifest) 0 []
     = Some m
∧ let fs' := with_index (demo_fs demo_filters) demo_config (encode V0 demo_filters.*1 m) in
  ∃ i, from_cache fs' demo_config = Ok i
       ∧ (check fs' (demo_input x08 x00 40) i).2
         = Ok (reference_status demo_cards (demo_input x08 x00 40)).
Proof.
eexists. split; [by vm_compute|].
apply (either_version_answers (demo_fs demo_filters) demo_config V0 demo_manifest).
- by vm_compute.
- by vm_compute.
- split.
  + by vm_compute.
  + apply (bool_decide_unpack _). by vm_compute.
  + by vm_compute.
  + apply (bool_decide_unpack _). by vm_compute.
  + by repeat constructor.
  + apply (bool_decide_unpack _). by vm_compute.
  + apply (bool_decide_unpack _). by vm_compute.
  + by vm_compute.
- by repeat constructor.
- apply (bool_decide_unpack _). by vm_compute.
- by repeat split.
Defined.

Definition demo_index_fs : Fs :=
with_index (demo_fs demo_filters) demo_config
  (default [] (write (demo_fs demo_filters) demo_manifest demo_dir)).

(** A manifest that lists a file 65537 times, as an index of one file. *)
Definition many_files : Manifest :=
  mkManifest 0 "" (replicate (Z.to_nat 65537) (mkManifestFile "1.filter" 1 [])).

Lemma mapM_replicate {A B} (f : A → option B) n x y :
  f x = Some y → mapM f (replicate n x) = Some (replicate n y).
Proof. intros Hf. apply mapM_Some. induction n; cbn; by constructor. Qed.

Lemma write_count_wraps_witness :
  ∃ bytes, write (demo_fs demo_filters) many_files demo_dir = Some bytes
    ∧ ∃ i, from_cache (with_index (demo_fs demo_filters) demo_config bytes) demo_config = Ok i
           ∧ num_filenames i = 1.
Proof.
  destruct (load_card (demo_fs demo_filters) demo_dir "1.filter") as [c|] eqn:Hc; [|by vm_compute in Hc].
  assert (Z.of_nat (length (filename <$> manifest_files many_files)) = 65537) as Hn
    by (cbn [manifest_files many_files]; rewrite length_fmap, length_replicate; apply Z2Nat.id; lia).
  destruct (write_count_wraps (demo_fs demo_filters) demo_config many_files demo_dir
              (replicate (Z.to_nat 65537) c)) as (bytes & Hw & Hload).
  - rewrite Hn. lia.
  - cbn [manifest_files many_files]. rewrite fmap_replicate. by apply mapM_replicate.
  - cbn [manifest_files many_files]. rewrite fmap_replicate. apply Forall_replicate.
    cbn [filename]. vm_compute. lia.
  - exists bytes. split; [exact Hw|].
    destruct (Hload (with_index (demo_fs demo_filters) demo_config bytes)) as (i & Hi & Hnum & _).
    + by repeat split.
    + unfold with_index. apply lookup_insert_eq.
    + exists i. split; [exact Hi|]. rewrite Hnum, Hn. reflexivity.
Defined.

Lemma from_cache_alloc_bound_witness :
  ∃ i, from_cache demo_index_fs demo_config = Ok i
       ∧ (from_cache_run demo_index_fs demo_config []).1 = [Z.of_nat (length (tables i))].
Proof.
  destruct (from_cache demo_index_fs demo_config) as [i|e|] eqn:E; [|by vm_compute in E..].
  exists i. split; [reflexivity|]. by apply (from_cache_alloc_bound demo_index_fs demo_config).
Defined.

Lemma search_log_finds_witness :
match search_log 2 (demo_log x03 ++ replicate 10 x00) (demo_log x03) 0 1 with
| Ok (Some offset) => ∃ k, offset = k * LOG_DIR_ENTRY_SIZE ∧ 0 ≤ k < Z.of_nat 1
                           ∧ key_at (demo_log x03 ++ replicate 10 x00) k = demo_log x03
| Ok None => ∀ k, 0 ≤ k < Z.of_nat 1
                  → key_at (demo_log x03 ++ replicate 10 x00) k ≠ demo_log x03
| _ => False
end.
Proof. apply (search_log_finds _ _ 1); [done|]. intros i j. lia. Defined.
End Instances.
