(* ===== verification/RevokeTest.v ===== *)
(** * [revoke-test/src/lib.rs]: reading SCTs out of a certificate

    [CertificateDetail::from_chain] finds the SCT extension, takes its OCTET
    STRING apart and reads the list of SCTs.  X.509 parsing, base64 and the digest
    are interfaces; an error is its message. *)
From stdpp Require Import pretty.
From S2P Require Import Prelude Bytes External.

(** ** Interfaces *)

(** [x509_parser], base64 encoding and [aws_lc_rs::digest]. *)
Class X509 := {
  X509Certificate : Type;
  x509_from_der : list byte → string + X509Certificate;
  (** The extensions: object identifier and value. *)
  extensions : X509Certificate → list (string * list byte);
  raw_serial : X509Certificate → list byte;
  public_key_raw : X509Certificate → list byte;
  b64_encode : list byte → string;
  (** [None]: an error, rendered nowhere but in the message below. *)
  b64_decode : string → option (list byte);
  sha256_digest : list byte → list byte
}.

Definition SCT_OID : string := "1.3.6.1.4.1.11129.2.4.2".

(** ** ASN.1 *)

(** The loop of [parse_asn1_length] over the length octets. *)
Definition length_octets (data : list byte) : Z :=
  foldl (λ length b, Z.lor (Z.shiftl length 8) (byte_val b)) 0 data.

Definition parse_asn1_length (data : list byte) : Result string (Z * Z) :=
  match data with
  | [] => Err "empty length"
  | first :: rest =>
      if Z.land (byte_val first) 0x80 =? 0 then Ok (byte_val first, 1)
      else
        let num_octets := Z.land (byte_val first) 0x7f in
        if (4 <? num_octets) || (Z.of_nat (length data) <? 1 + num_octets)
        then Err "invalid ASN.1 length"
        else Ok (length_octets (take (Z.to_nat num_octets) rest), 1 + num_octets)
  end.

Definition parse_octet_string (data : list byte) : Result string (list byte) :=
  match data with
  | [] => Err "empty data"
  | first :: rest =>
      if negb (byte_val first =? 0x04) then Err "not an OCTET STRING"
      else
        '(length, length_bytes) ← parse_asn1_length rest;
        let content_start := 1 + length_bytes in
        if Z.of_nat (Datatypes.length data) <? content_start + length
        then Err "OCTET STRING length exceeds data"
        else or_panic (slice_checked data content_start (content_start + length))
  end.

(** ** The list of test sites *)

(** [RevocationTestSites::expired], [now] in nanoseconds since the epoch.  The sum
    of two [Duration]s panics beyond [u64::MAX] seconds and [checked_add] answers
    [None] beyond [i64::MAX] seconds, which [unwrap] makes a panic. *)
Definition one_month : Z := 60 * 60 * 24 * 30.
Definition expired (timestamp now : Z) : Result string bool :=
  let secs := timestamp + one_month in
  if 2 ^ 64 <=? secs then Panic
  else
    deadline ← or_panic (if secs <? 2 ^ 63 then Some secs else None);
    Ok (bool_decide (deadline * 1000000000 < now)).

Section Scts.
Context `{X509}.

Record Sct := mkSct { sct_log_id : string; sct_timestamp : Z }.

(** [i64::from_be_bytes] *)
Definition i64_be_val (l : list byte) : Z :=
  let v := be_val l in if v <? 2 ^ 63 then v else v - 2 ^ 64.

(** [Sct::from_der]: the SCT at [offset], and the offset after it. *)
Definition sct_from_der (sct_list : list byte) (offset : Z) : Result string (Sct * Z) :=
  sct_len ← or_panic (slice_checked sct_list offset (offset + 2));
  let sct_len := be_val sct_len in
  let offset := offset + 2 in
  if Z.of_nat (length sct_list) <? offset + sct_len
  then Err ("invalid SCT length: offset=" +:+ pretty offset +:+ " sct_len=" +:+ pretty sct_len
            +:+ " total_len=" +:+ pretty (length sct_list))
  else
    sct_data ← or_panic (slice_checked sct_list offset (offset + sct_len));
    if (length sct_data <? 41)%nat then Err "SCT too short"
    else
      log_id ← or_panic (slice_checked sct_data 1 33);
      timestamp ← or_panic (slice_checked sct_data 33 41);
      Ok ({| sct_log_id := b64_encode log_id; sct_timestamp := i64_be_val timestamp |},
          offset + sct_len).

(** The loop of [from_chain]; [fuel] bounds its iterations. *)
Fixpoint scts_loop (fuel : nat) (sct_list : list byte) (list_len offset : Z)
    (scts : list Sct) : Result string (list Sct) :=
  match fuel with
  | O => Panic
  | S fuel' =>
      if (offset <? Z.of_nat (length sct_list)) && (offset <? list_len + 2) then
        if Z.of_nat (length sct_list) <? offset + 2 then Ok scts
        else
          '(sct, offset) ← sct_from_der sct_list offset;
          scts_loop fuel' sct_list list_len offset (scts ++ [sct])
      else Ok scts
  end.

(** The SCTs of an SCT list. *)
Definition read_sct_list (sct_list : list byte) : Result string (list Sct) :=
  if (length sct_list <? 2)%nat
  then Err ("SCT list too short: " +:+ pretty (length sct_list) +:+ " bytes")
  else
    list_len ← or_panic (slice_checked sct_list 0 2);
    scts_loop (length sct_list) sct_list (be_val list_len) 2 [].

Record CertificateDetail := mkDetail
  { end_entity_cert : string;
    detail_intermediates : list string;
    detail_serial : string;
    issuer_spki_sha256 : string;
    detail_scts : list Sct }.

(** [CertificateDetail::from_chain] *)
Definition from_chain (certs : list (list byte)) : Result string CertificateDetail :=
  match certs with
  | ee_der :: (issuer_der :: _) as intermediates =>
      end_entity ← of_sum (x509_from_der ee_der);
      sct_ext ← ok_or "missing from ct"
                      (list_find (λ ext, ext.1 = SCT_OID) (extensions end_entity));
      sct_list ← parse_octet_string sct_ext.2.2;
      scts ← read_sct_list sct_list;
      issuer ← of_sum (x509_from_der issuer_der);
      Ok {| end_entity_cert := b64_encode ee_der;
            detail_intermediates := b64_encode <$> intermediates;
            detail_serial := b64_encode (raw_serial end_entity);
            issuer_spki_sha256 := b64_encode (sha256_digest (public_key_raw issuer));
            detail_scts := scts |}
  | _ => Err "no issuer"
  end.

(** [CertificateDetail::end_entity_cert_der]; the [Debug] form of the decoder's
    error is left out of the message. *)
Definition cert_der (encoded : string) : Result string (list byte) :=
  ok_or "cannot base64-decode certificate" (b64_decode encoded).
Definition end_entity_cert_der (self : CertificateDetail) : Result string (list byte) :=
  cert_der (end_entity_cert self).

(** [CertificateDetail::intermediates_der] *)
Definition intermediates_der (self : CertificateDetail) : list (Result string (list byte)) :=
  cert_der <$> detail_intermediates self.

(** ** No panics, and termination *)

Lemma land_127 b : 0 ≤ Z.land (byte_val b) 0x7f < 128.
Proof. change 0x7f with (Z.ones 7). rewrite Z.land_ones by lia. apply Z.mod_pos_bound. lia. Qed.

Lemma length_octets_nonneg l : 0 ≤ length_octets l.
Proof.
  unfold length_octets. assert (∀ acc, 0 ≤ acc → 0 ≤ foldl
    (λ length b, Z.lor (Z.shiftl length 8) (byte_val b)) acc l) as Hg; [|by apply Hg].
  induction l as [|b l IH]; intros acc Hacc; [done|]. cbn [foldl]. apply IH.
  apply Z.lor_nonneg. split; [by apply Z.shiftl_nonneg|]. apply byte_val_bound.
Qed.

Lemma parse_asn1_length_bounds data n k :
  parse_asn1_length data = Ok (n, k) → 0 ≤ n ∧ 1 ≤ k ≤ Z.of_nat (length data).
Proof.
  destruct data as [|b rest]; [done|]. cbn [parse_asn1_length length].
  destruct (_ =? 0).
  - intros [= <- <-]. pose proof (byte_val_bound b). lia.
  - destruct (_ || _) eqn:E; [done|]. intros [= <- <-].
    apply orb_false_iff in E as [_ E%Z.ltb_ge]. cbn [length] in E.
    split; [apply length_octets_nonneg|]. pose proof (land_127 b). lia.
Qed.

Lemma parse_octet_string_no_panic data : no_panic (parse_octet_string data).
Proof.
  unfold parse_octet_string. destruct data as [|b rest]; [done|].
  destruct (negb _); [done|].
  destruct (parse_asn1_length rest) as [[n k]|e|] eqn:E; cbn [mbind result_bind]; [|done|].
  - apply parse_asn1_length_bounds in E as [Hn Hk]. case_match eqn:Hl; [done|].
    apply Z.ltb_ge in Hl. by rewrite slice_checked_some by lia.
  - exfalso. unfold parse_asn1_length in E. by repeat case_match.
Qed.

(** Reading an SCT where two bytes are left: it ends past them or fails. *)
Lemma sct_from_der_safe sct_list offset :
  0 ≤ offset → offset + 2 ≤ Z.of_nat (length sct_list) →
  match sct_from_der sct_list offset with
  | Ok (_, offset') => offset + 43 ≤ offset' ≤ Z.of_nat (length sct_list)
  | Err _ => True
  | Panic => False
  end.
Proof.
  intros H0 H2. unfold sct_from_der. rewrite slice_checked_some by lia.
  cbn [or_panic mbind result_bind]. set (n := be_val _).
  assert (0 ≤ n) as Hn by apply be_val_bound.
  destruct (Z.ltb_spec (Z.of_nat (length sct_list)) (offset + 2 + n)); [done|].
  rewrite slice_checked_some by lia. cbn [or_panic mbind result_bind].
  set (d := slice _ _ _).
  assert (Z.of_nat (length d) = n) as Hd.
  { subst d. unfold slice. rewrite length_take, length_drop. lia. }
  destruct (Nat.ltb_spec (length d) 41); [done|].
  rewrite !slice_checked_some by lia. cbn. lia.
Qed.

Lemma scts_loop_no_panic fuel sct_list list_len offset scts :
  0 ≤ offset ≤ Z.of_nat (length sct_list) →
  Z.of_nat (length sct_list) - offset < Z.of_nat fuel →
  no_panic (scts_loop fuel sct_list list_len offset scts).
Proof.
  revert offset scts. induction fuel as [|fuel IH]; intros offset scts H0 Hf; cbn [scts_loop].
  - lia.
  - destruct (_ && _); [|done].
    destruct (Z.ltb_spec (Z.of_nat (length sct_list)) (offset + 2)); [done|].
    pose proof (sct_from_der_safe sct_list offset ltac:(lia) ltac:(lia)) as Hs.
    destruct (sct_from_der sct_list offset) as [[sct offset']|e|]; cbn [mbind result_bind];
      [|done..]. apply IH; lia.
Qed.

Lemma read_sct_list_no_panic sct_list : no_panic (read_sct_list sct_list).
Proof.
  unfold read_sct_list. destruct (Nat.ltb_spec (length sct_list) 2); [done|].
  rewrite slice_checked_some by lia. cbn [or_panic mbind result_bind].
  apply scts_loop_no_panic; lia.
Qed.

(** Whatever the certificates hold, reading a chain terminates and does not panic. *)
Theorem from_chain_never_panics (certs : list (list byte)) : no_panic (from_chain certs).
Proof.
  destruct certs as [|ee [|issuer rest]]; [done..|]. unfold from_chain.
  apply result_bind_no_panic; [apply of_sum_no_panic|]. intros cert _.
  apply result_bind_no_panic; [by destruct (list_find _ _)|]. intros ext _.
  apply result_bind_no_panic; [apply parse_octet_string_no_panic|]. intros l _.
  apply result_bind_no_panic; [apply read_sct_list_no_panic|]. intros scts _.
  apply result_bind_no_panic; [apply of_sum_no_panic|]. done.
Qed.

(** What is stored of a chain is that chain, if base64 decodes what it encodes. *)
Theorem from_chain_keeps_chain (certs : list (list byte)) (d : CertificateDetail) :
  (∀ l, b64_decode (b64_encode l) = Some l) →
  from_chain certs = Ok d →
  end_entity_cert_der d :: intermediates_der d = Ok <$> certs.
Proof.
  intros Hb. destruct certs as [|ee [|issuer rest]]; [done..|]. unfold from_chain.
  do 5 (intros (? & _ & Hd)%result_bind_ok; revert Hd). intros [= <-].
  unfold end_entity_cert_der, intermediates_der, cert_der. cbn [end_entity_cert detail_intermediates].
  rewrite Hb, !fmap_cons, Hb. cbn [ok_or]. do 2 f_equal.
  rewrite <- list_fmap_compose. apply list_fmap_ext. intros ? ? _. unfold compose. by rewrite Hb.
Qed.

(** ** Round trip with the format of RFC 6962, section 3.3 *)

Definition encode_sct (sct : list byte) : list byte :=
  be_bytes 2 (Z.of_nat (length sct)) ++ sct.
Definition encode_sct_list (scts : list (list byte)) : list byte :=
  be_bytes 2 (Z.of_nat (length (concat (encode_sct <$> scts)))) ++ concat (encode_sct <$> scts).

(** The log id and the timestamp of a serialised SCT. *)
Definition sct_of (sct : list byte) : Sct :=
  mkSct (b64_encode (slice sct 1 33)) (i64_be_val (slice sct 33 41)).

Lemma slice_checked_app (pre l post : list byte) :
  slice_checked (pre ++ l ++ post) (Z.of_nat (length pre))
    (Z.of_nat (length pre) + Z.of_nat (length l)) = Some l.
Proof.
  rewrite slice_checked_some by (rewrite ?length_app; lia). f_equal.
  rewrite <- Nat2Z.inj_add, !Nat2Z.id.
  replace (length pre) with (length pre + 0)%nat at 1 by lia.
  rewrite slice_app_skip by done. rewrite slice_app_l by done. by apply slice_all.
Qed.

Lemma sct_from_der_encode pre sct post :
  (41 ≤ length sct)%nat → Z.of_nat (length sct) < 2 ^ 16 →
  sct_from_der (pre ++ encode_sct sct ++ post) (Z.of_nat (length pre))
  = Ok (sct_of sct, Z.of_nat (length (pre ++ encode_sct sct))).
Proof.
  intros Hl Hs. unfold sct_from_der, encode_sct.
  rewrite <- !(assoc_L (++)).
  pose proof (slice_checked_app pre (be_bytes 2 (Z.of_nat (length sct))) (sct ++ post)) as E.
  rewrite length_be_bytes in E. change (Z.of_nat 2) with 2 in E. rewrite E.
  cbn [or_panic mbind result_bind]. rewrite be_val_bytes_small by (cbn; lia).
  rewrite (proj2 (Z.ltb_ge _ _)) by (rewrite !length_app, length_be_bytes; lia).
  pose proof (slice_checked_app (pre ++ be_bytes 2 (Z.of_nat (length sct))) sct post) as E2.
  rewrite length_app, length_be_bytes, Nat2Z.inj_add, <- (assoc_L (++)) in E2.
  change (Z.of_nat 2) with 2 in E2. rewrite E2. cbn [or_panic mbind result_bind].
  rewrite (proj2 (Nat.ltb_ge _ _)) by done. rewrite !slice_checked_some by lia.
  cbn [or_panic mbind result_bind]. do 2 f_equal.
  rewrite !length_app, length_be_bytes. lia.
Qed.

Lemma scts_loop_encode fuel pre scts acc list_len :
  Forall (λ s, (41 ≤ length s)%nat ∧ Z.of_nat (length s) < 2 ^ 16) scts →
  (length scts < fuel)%nat →
  list_len + 2 = Z.of_nat (length (pre ++ concat (encode_sct <$> scts))) →
  scts_loop fuel (pre ++ concat (encode_sct <$> scts)) list_len (Z.of_nat (length pre)) acc
  = Ok (acc ++ (sct_of <$> scts)).
Proof.
  intros Hs. revert fuel pre acc. induction Hs as [|s scts [Hl Hb] Hs IH];
    intros fuel pre acc Hf Hlen; (destruct fuel as [|fuel]; [lia|]); cbn [scts_loop].
  - cbn [fmap list_fmap concat]. rewrite !app_nil_r.
    by rewrite Z.ltb_irrefl.
  - rewrite fmap_cons in *. cbn [concat length] in *.
    rewrite !(proj2 (Z.ltb_lt _ _)) by (rewrite ?Hlen, !length_app; unfold encode_sct;
      rewrite ?length_app, ?length_be_bytes; lia).
    cbn [andb].
    rewrite (proj2 (Z.ltb_ge _ _)) by (rewrite !length_app; unfold encode_sct;
      rewrite ?length_app, ?length_be_bytes; lia).
    rewrite sct_from_der_encode by done. cbn [mbind result_bind].
    rewrite (assoc_L (++)) in *. rewrite IH by (done || lia).
    by rewrite fmap_cons, <- (assoc_L (++)).
Qed.

(** A list of SCTs laid out as RFC 6962 says is read back, in order. *)
Lemma read_sct_list_roundtrip (scts : list (list byte)) :
  Forall (λ s, (41 ≤ length s)%nat) scts →
  Z.of_nat (length (concat (encode_sct <$> scts))) < 2 ^ 16 →
  read_sct_list (encode_sct_list scts) = Ok (sct_of <$> scts).
Proof.
  intros Hs Hlen. unfold read_sct_list, encode_sct_list.
  set (body := concat (encode_sct <$> scts)) in *.
  rewrite length_app, length_be_bytes. cbn [Nat.add Nat.ltb Nat.leb].
  pose proof (slice_checked_app [] (be_bytes 2 (Z.of_nat (length body))) body) as E.
  rewrite length_be_bytes in E. cbn [length app] in E.
  change (Z.of_nat 0 + Z.of_nat 2) with 2 in E. change (Z.of_nat 0) with 0 in E. rewrite E.
  cbn [or_panic mbind result_bind]. rewrite be_val_bytes_small by (cbn; lia).
  assert (∀ s, s ∈ scts → (2 + length s ≤ length body)%nat) as Hin.
  { subst body. clear. induction scts as [|s' scts IH]; intros s; [by intros ?%elem_of_nil|].
    rewrite fmap_cons. cbn [concat]. rewrite length_app. unfold encode_sct at 1.
    rewrite length_app, length_be_bytes. intros [->|Hs]%elem_of_cons; [lia|].
    specialize (IH s Hs). lia. }
  assert (length scts ≤ length body)%nat as Hle.
  { subst body. clear. induction scts as [|s' scts IH]; [done|].
    rewrite fmap_cons. cbn [concat length]. rewrite length_app. unfold encode_sct at 1.
    rewrite length_app, length_be_bytes. lia. }
  pose proof (scts_loop_encode (S (S (length body)))
    (be_bytes 2 (Z.of_nat (length body))) scts [] (Z.of_nat (length body))) as Hr.
  rewrite length_be_bytes in Hr. apply Hr; clear Hr.
  - rewrite Forall_forall in Hs |- *. intros s Hin'. specialize (Hin s Hin').
    split; [by apply Hs|lia].
  - lia.
  - fold body. rewrite length_app, length_be_bytes. lia.
Qed.

(** An OCTET STRING in DER (X.690, 8.1.3 and 8.7), up to [2 ^ 24] bytes. *)
Definition der_length (n : Z) : list byte :=
  if n <? 2 ^ 7 then [byte_of n]
  else if n <? 2 ^ 8 then byte_of 0x81 :: be_bytes 1 n
  else if n <? 2 ^ 16 then byte_of 0x82 :: be_bytes 2 n
  else byte_of 0x83 :: be_bytes 3 n.
Definition der_octet_string (l : list byte) : list byte :=
  byte_of 4 :: der_length (Z.of_nat (length l)) ++ l.

Lemma length_octets_be_val l : length_octets l = be_val l.
Proof.
  induction l as [|b l IH] using rev_ind; [done|].
  rewrite be_val_snoc. unfold length_octets in *. rewrite foldl_app. cbn [foldl]. rewrite IH.
  pose proof (byte_val_bound b).
  rewrite Z.shiftl_mul_pow2 by lia. change (2 ^ 8) with 256.
  enough (Z.land (be_val l * 256) (byte_val b) = 0) as E
    by (rewrite <- (Z.add_lor_land (be_val l * 256)), E; lia).
  apply Z.bits_inj_0. intros i. rewrite Z.land_spec. change 256 with (2 ^ 8).
  destruct (Z.ltb_spec i 8); [by rewrite Z.mul_pow2_bits_low|].
  rewrite (Z.bits_above_log2 (byte_val b)), andb_false_r; [done|lia|].
  destruct (decide (byte_val b = 0)) as [->|]; [cbn; lia|].
  apply Z.lt_le_trans with 8; [|done]. apply Z.log2_lt_pow2; [lia|]. change (2 ^ 8) with 256. lia.
Qed.

Lemma parse_asn1_length_der n rest :
  0 ≤ n < 2 ^ 24 →
  parse_asn1_length (der_length n ++ rest) = Ok (n, Z.of_nat (length (der_length n))).
Proof.
  intros Hn. unfold der_length.
  destruct (Z.ltb_spec n (2 ^ 7)) as [H7|H7].
  - cbn [app parse_asn1_length]. rewrite byte_val_of, Z.mod_small by lia.
    replace (Z.land n 0x80) with 0; [done|]. symmetry. apply Z.bits_inj_0. intros i.
    rewrite Z.land_spec. change 0x80 with (2 ^ 7). rewrite Z.pow2_bits_eqb by lia.
    destruct (Z.eqb_spec 7 i) as [<-|]; [|apply andb_false_r].
    rewrite andb_true_r. apply Z.testbit_false; [lia|]. by rewrite Z.div_small by lia.
  - assert (∀ k : nat, (0 < k ≤ 4)%nat → n < 256 ^ Z.of_nat k →
      parse_asn1_length ((byte_of (0x80 + Z.of_nat k) :: be_bytes k n) ++ rest)
      = Ok (n, Z.of_nat (S k))) as Hk.
    { intros k Hk Hb. cbn [app parse_asn1_length]. rewrite byte_val_of, Z.mod_small by lia.
      assert (Z.land (0x80 + Z.of_nat k) 0x80 = 0x80 ∧
              Z.land (0x80 + Z.of_nat k) 0x7f = Z.of_nat k) as [-> ->].
      { clear -Hk. destruct k as [|[|[|[|[|k]]]]]; [lia|by vm_compute..|lia]. }
      change (0x80 =? 0) with false. cbv iota.
      rewrite (proj2 (orb_false_iff _ _)).
      - rewrite Nat2Z.id, take_app_length' by by rewrite length_be_bytes.
        rewrite length_octets_be_val, be_val_bytes_small by lia. do 2 f_equal. lia.
      - split; apply Z.ltb_ge; [lia|]. cbn [length]. rewrite length_app, length_be_bytes. lia. }
    destruct (Z.ltb_spec n (2 ^ 8)); [apply (Hk 1%nat); lia|].
    destruct (Z.ltb_spec n (2 ^ 16)); [apply (Hk 2%nat); lia|].
    apply (Hk 3%nat); lia.
Qed.

Lemma parse_octet_string_der l rest :
  Z.of_nat (length l) < 2 ^ 24 → parse_octet_string (der_octet_string l ++ rest) = Ok l.
Proof.
  intros Hl. unfold der_octet_string. cbn [app parse_octet_string].
  rewrite byte_val_of. change (4 mod 256 =? 4) with true. cbn [negb].
  rewrite <- (assoc_L (++)), parse_asn1_length_der by lia. cbn [mbind result_bind].
  set (d := der_length _).
  rewrite (proj2 (Z.ltb_ge _ _)) by (cbn [length]; rewrite !length_app; lia).
  pose proof (slice_checked_app (byte_of 4 :: d) l rest) as E.
  cbn [app length] in E. replace (1 + Z.of_nat (length d)) with (Z.of_nat (S (length d))) by lia.
  by rewrite E.
Qed.

(** C37: The whole of [from_chain] on a certificate whose SCT extension (the first one,
    if there are several) is encoded as RFC 6962 says. *)
Theorem from_chain_reads_scts ee issuer rest cert issuer_cert before value after scts junk :
  x509_from_der ee = inr cert →
  x509_from_der issuer = inr issuer_cert →
  extensions cert = before ++ (SCT_OID, value) :: after →
  Forall (λ ext, ext.1 ≠ SCT_OID) before →
  value = der_octet_string (encode_sct_list scts) ++ junk →
  Forall (λ s, (41 ≤ length s)%nat) scts →
  Z.of_nat (length (concat (encode_sct <$> scts))) < 2 ^ 16 →
  from_chain (ee :: issuer :: rest) =
  Ok {| end_entity_cert := b64_encode ee;
        detail_intermediates := b64_encode <$> issuer :: rest;
        detail_serial := b64_encode (raw_serial cert);
        issuer_spki_sha256 := b64_encode (sha256_digest (public_key_raw issuer_cert));
        detail_scts := sct_of <$> scts |}.
Proof.
  intros Hee Hi Hext Hb -> Hs Hl. unfold from_chain. rewrite Hee, Hi. cbn [of_sum mbind result_bind].
  rewrite Hext, list_find_app_r by by apply list_find_None.
  cbn [list_find fst]. rewrite decide_True by done. cbn [fmap option_fmap option_map prod_map ok_or].
  cbn [mbind result_bind snd fst id].
  rewrite parse_octet_string_der
    by (unfold encode_sct_list; rewrite length_app, length_be_bytes; lia).
  cbn [mbind result_bind]. by rewrite read_sct_list_roundtrip.
Qed.
End Scts.

(** ** A concrete chain *)

(** Toy encodings: a "certificate" is its extension's value, "base64" is the
    identity on bytes, the digest is the first byte. *)
Module RevokeTestDemo.
Definition demo_x509 : X509 := {|
  X509Certificate := list byte;
  x509_from_der l := match l with [] => inl "empty" | _ => inr l end;
  extensions l := [("2.5.29.15", []); (SCT_OID, l)];
  raw_serial l := take 1 l;
  public_key_raw l := l;
  b64_encode l := string_of_list_byte l;
  b64_decode s := Some (list_byte_of_string s);
  sha256_digest l := take 1 l
|}.

Definition sct : list byte := repeat x07 41 ++ [x00].
Definition ee : list byte := der_octet_string (encode_sct_list [sct; sct]).
End RevokeTestDemo.

Lemma from_chain_reads_scts_witness :
  from_chain (H := RevokeTestDemo.demo_x509) [RevokeTestDemo.ee; [x01]] =
  Ok {| end_entity_cert := b64_encode (X509 := RevokeTestDemo.demo_x509) RevokeTestDemo.ee;
        detail_intermediates := [b64_encode (X509 := RevokeTestDemo.demo_x509) [x01]];
        detail_serial := b64_encode (X509 := RevokeTestDemo.demo_x509) [x04];
        issuer_spki_sha256 := b64_encode (X509 := RevokeTestDemo.demo_x509) [x01];
        detail_scts := sct_of (H := RevokeTestDemo.demo_x509) <$>
                       [RevokeTestDemo.sct; RevokeTestDemo.sct] |}.
Proof.
  apply (@from_chain_reads_scts RevokeTestDemo.demo_x509 RevokeTestDemo.ee [x01] []
    RevokeTestDemo.ee [x01] [("2.5.29.15", [])] RevokeTestDemo.ee [] _ []).
  - reflexivity.
  - reflexivity.
  - reflexivity.
  - repeat constructor. discriminate.
  - by rewrite app_nil_r.
  - repeat constructor; vm_compute; lia.
  - reflexivity.
Defined.

Lemma from_chain_keeps_chain_witness :
  ∃ d, @from_chain RevokeTestDemo.demo_x509 [RevokeTestDemo.ee; [x01]] = Ok d ∧
  @end_entity_cert_der RevokeTestDemo.demo_x509 d
    :: @intermediates_der RevokeTestDemo.demo_x509 d = Ok <$> [RevokeTestDemo.ee; [x01]].
Proof.
  eexists. split; [reflexivity|].
  apply (@from_chain_keeps_chain RevokeTestDemo.demo_x509); [|reflexivity].
  intros l. apply (f_equal Some), as_bytes_of_list.
Defined.
