(* ===== verification/IndexTests.v ===== *)
(** * The unit tests of [upki/src/revocation/index.rs]

    The tests of the module, with the index writer they have of their own, as
    programs on a temporary directory.  They pass on the model for every filter
    builder that does what its documentation says, and the tests' writer agrees
    with [Index::write]. *)
From Stdlib Require Import Sorting.Sorted.
From stdpp Require Import pretty.
From S2P Require Import Prelude Bytes Sha256 FileSys External Revocation Config Index Demo IndexSafe IndexSpec IndexCheck IndexWrite IndexMem.

(** ** The tests' index writer *)

(** A log id and the bounds of an interval; a file name with its intervals. *)
Definition Coverage : Type := list (list byte * Z * Z).
Definition IndexFilter : Type := string * Coverage.

(** [BTreeMap<[u8; 32], Vec<_>>] *)
Fixpoint push_by_id {V} (k : list byte) (v : V) (m : list (list byte * list V))
  : list (list byte * list V) :=
  match m with
  | [] => [(k, [v])]
  | (k', vs) :: m' =>
      match bytes_cmp k k' with
      | Lt => (k, [v]) :: m
      | Eq => (k', vs ++ [v]) :: m'
      | Gt => (k', vs) :: push_by_id k v m'
      end
  end.

(** The loops that aggregate the entries by log id. *)
Definition push_intervals (filter_idx : nat) (entries : Coverage) (m : ByLogId) : ByLogId :=
  foldl (λ m '(log_id, min_ts, max_ts),
           push_by_id log_id (as_u16 (Z.of_nat filter_idx), mkInterval min_ts max_ts) m)
        m entries.
Fixpoint aggregate_from (filter_idx : nat) (filters : list IndexFilter) (m : ByLogId)
  : ByLogId :=
  match filters with
  | [] => m
  | (_, entries) :: rest =>
      aggregate_from (S filter_idx) rest (push_intervals filter_idx entries m)
  end.
Definition aggregate (filters : list IndexFilter) : ByLogId := aggregate_from 0 filters [].

(** [slot[..bytes.len()].copy_from_slice(bytes)] panics on a longer name. *)
Definition test_slot (name : string) : option (list byte) :=
  if Z.of_nat (length (as_bytes name)) <=? FILENAME_SIZE then Some (filename_slot name) else None.

Fixpoint test_directory (entry_size : Z) (m : ByLogId) (current_offset : Z) : list byte :=
  match m with
  | [] => []
  | (log_id, entries) :: rest =>
      log_id ++ be_bytes 8 (as_u64 current_offset)
      ++ be_bytes 2 (as_u16 (Z.of_nat (length entries)))
      ++ test_directory entry_size rest
           (current_offset + Z.of_nat (length entries) * entry_size)
  end.

Definition test_entry (entry_size : Z) (e : Z * TimestampInterval) : list byte :=
  (if entry_size =? ENTRY_SIZE_V0 then be_bytes 1 (e.1 mod 2 ^ 8) else be_bytes 2 e.1)
  ++ be_bytes 8 (low e.2) ++ be_bytes 8 (high e.2).

(** [None] is a panic. *)
Definition build_index_with_magic (magic : list byte) (filters : list IndexFilter)
  : option (list byte) :=
  let '(base_size, entry_size) :=
    if decide (magic = INDEX_MAGIC_V0) then (HEADER_SIZE_V0, ENTRY_SIZE_V0)
    else (HEADER_SIZE_V1, ENTRY_SIZE_V1) in
  let by_log_id := aggregate filters in
  let nfilters := Z.of_nat (length filters) in
  let header_size := base_size + nfilters * FILENAME_SIZE
                     + Z.of_nat (length by_log_id) * LOG_DIR_ENTRY_SIZE in
  slots ← mapM test_slot filters.*1;
  Some (magic
        ++ (if entry_size =? ENTRY_SIZE_V0 then be_bytes 1 (nfilters mod 2 ^ 8)
            else be_bytes 2 (as_u16 nfilters))
        ++ be_bytes 4 (as_u32 (Z.of_nat (length by_log_id)))
        ++ concat slots
        ++ test_directory entry_size by_log_id header_size
        ++ concat ((λ entries, concat (test_entry entry_size <$> entries)) <$> by_log_id.*2)).

Definition build_index (filters : list IndexFilter) : option (list byte) :=
  build_index_with_magic INDEX_MAGIC_V1 filters.
Definition build_index_v0 (filters : list IndexFilter) : option (list byte) :=
  build_index_with_magic INDEX_MAGIC_V0 filters.

Lemma test_directory_encode v m off :
  test_directory (entry_size_of v) m off = concat (encode_dir v m off).
Proof.
  revert off. induction m as [|[id es] m IH]; intros off; [done|].
  cbn [test_directory encode_dir concat]. rewrite IH, <- !(assoc_L (++)).
  unfold as_u64, as_u16. change (2 ^ 64) with (256 ^ Z.of_nat 8).
  change (2 ^ 16) with (256 ^ Z.of_nat 2). by rewrite !be_bytes_mod.
Qed.

Lemma test_entry_encode v e : test_entry (entry_size_of v) e = encode_entry v e.
Proof.
  unfold test_entry, encode_entry. destruct v; cbn [entry_size_of width]; [|done].
  change (2 ^ 8) with (256 ^ Z.of_nat 1). rewrite be_bytes_mod. done.
Qed.

Lemma test_count_encode v n :
  (if entry_size_of v =? ENTRY_SIZE_V0 then be_bytes 1 (n mod 2 ^ 8) else be_bytes 2 (as_u16 n))
  = be_bytes (width v) n.
Proof.
  destruct v; unfold as_u16;
    [change (2 ^ 8) with (256 ^ Z.of_nat 1)|change (2 ^ 16) with (256 ^ Z.of_nat 2)];
    apply be_bytes_mod.
Qed.

(** The writer produces the format of the documentation. *)
Lemma build_encode v filters :
  Forall (λ n, (length (as_bytes n) ≤ 32)%nat) filters.*1 →
  build_index_with_magic (magic v) filters = Some (encode v filters.*1 (aggregate filters)).
Proof.
  intros Hn. unfold build_index_with_magic.
  replace (if decide (magic v = INDEX_MAGIC_V0) then _ else _)
    with (header_size v, entry_size_of v).
  2: { destruct v; cbn [magic]; [by rewrite decide_True|].
       rewrite decide_False; [done|]. by intros E%eq_sym%magic_v0_v1. }
  assert (mapM test_slot filters.*1 = Some (filename_slot <$> filters.*1)) as ->.
  { apply mapM_Some. induction Hn as [|n ns Hl Hn IH]; constructor; [|done].
    unfold test_slot. by rewrite (proj2 (Z.leb_le _ _)) by (unfold FILENAME_SIZE; lia). }
  cbn [mbind option_bind]. f_equal. unfold encode, encode_head, encode_tables, sections_start.
  rewrite test_directory_encode, length_fmap, <- !(assoc_L (++)). f_equal.
  rewrite test_count_encode.
  unfold as_u32. change (2 ^ 32) with (256 ^ Z.of_nat 4). rewrite be_bytes_mod.
  do 5 f_equal. apply list_fmap_ext. intros _ es _. unfold encode_section. f_equal.
  apply list_fmap_ext. intros. apply test_entry_encode.
Qed.

(** ** The writer and [Index::write] *)

Section Agree.
Context `{ClubcardLaws}.

Lemma push_by_id_entry {V} k (v : V) m : push_by_id k v m = push_entry k v m.
Proof.
  induction m as [|[k' vs] m IH]; cbn [push_by_id push_entry]; [done|].
  rewrite log_id_cmp_bytes, IH. done.
Qed.

Lemma push_intervals_sorted k entries m :
  StronglySorted bytes_lt m.*1 → StronglySorted bytes_lt (push_intervals k entries m).*1.
Proof.
  revert m. induction entries as [|[[id lo] hi] entries IH]; intros m Hm; [done|].
  apply IH. rewrite push_by_id_entry. by apply push_entry_sorted.
Qed.

(** The intervals a filter declares, as the tests list them. *)
Definition coverage_of (c : CRLiteClubcard) : Coverage :=
  (λ '(id, iv), (id, low iv, high iv)) <$> universe c.

Lemma push_intervals_universe k c m :
  push_intervals k (coverage_of c) m
  = foldl (λ m '(id, iv), push_entry id (as_u16 (Z.of_nat k), iv) m) m (universe c).
Proof.
  unfold coverage_of, push_intervals. revert m.
  induction (universe c) as [|[id [lo hi]] us IH]; intros m; [done|].
  rewrite fmap_cons. cbn [foldl low high]. by rewrite IH, push_by_id_entry.
Qed.

Lemma collect_aggregate fs dir mfiles k m cards :
  mapM (load_card fs dir) (filename <$> mfiles) = Some cards →
  Forall (λ n, (length (as_bytes n) ≤ 32)%nat) (filename <$> mfiles) →
  collect_universes fs dir mfiles (Z.of_nat k) m
  = Some (aggregate_from k (zip (filename <$> mfiles) (coverage_of <$> cards)) m).
Proof.
  revert k m cards. induction mfiles as [|f mfiles IH]; intros k m cards.
  { by intros [= <-]. }
  rewrite fmap_cons. cbn [mapM]. intros Hc [Hl Hls]%Forall_cons.
  apply bind_Some in Hc as (c & Hc & Hcs). apply bind_Some in Hcs as (cs & Hcs & [= <-]).
  unfold load_card in Hc. cbn [collect_universes]. unfold FILENAME_SIZE.
  rewrite (proj2 (Z.ltb_ge _ _)) by lia.
  destruct (fs_read fs (path_join dir (filename f))) as [bytes| |]; [|done..].
  destruct (from_bytes bytes) as [e|c']; [done|]. injection Hc as ->.
  rewrite fmap_cons. cbn [zip zip_with aggregate_from].
  rewrite push_intervals_universe. replace (Z.of_nat k + 1) with (Z.of_nat (S k)) by lia.
  by apply IH.
Qed.

(** A collection that succeeds read names that fit their slots. *)
Lemma collect_names_short fs dir mfiles idx m m' :
  collect_universes fs dir mfiles idx m = Some m' →
  Forall (λ n, (length (as_bytes n) ≤ 32)%nat) (filename <$> mfiles).
Proof.
  revert idx m. induction mfiles as [|f mfiles IH]; intros idx m; [by constructor|].
  cbn [collect_universes]. unfold FILENAME_SIZE.
  destruct (Z.ltb_spec 32 (Z.of_nat (length (as_bytes (filename f))))); [done|].
  destruct (fs_read fs _) as [bytes| |]; [|done..]. destruct (from_bytes bytes); [done|].
  intros Hc%IH. rewrite fmap_cons. constructor; [lia|done].
Qed.
End Agree.

Lemma aggregate_sorted filters : StronglySorted bytes_lt (aggregate filters).*1.
Proof.
  unfold aggregate. generalize 0%nat. assert (StronglySorted bytes_lt (@nil (list byte))) as H
    by constructor.
  change [] with ((@nil (list byte * list (Z * TimestampInterval))).*1) in H. revert H.
  generalize (@nil (list byte * list (Z * TimestampInterval))).
  induction filters as [|[n es] filters IH]; intros m Hm k; [done|].
  apply IH. by apply (push_intervals_sorted (H := demo_clubcard) (H0 := demo_clubcard_laws)).
Qed.

(** ** Filters *)

Inductive CRLiteBuilderItem : Type :=
| item_revoked (issuer serial : list byte)
| item_not_revoked (issuer serial : list byte).

(** The [clubcard] builder, as one call with what was put into it: the items of
    the approximate and of the exact ribbon of a block, and the coverage. *)
Class FilterBuilder := {
  CRLiteCoverage : Type;
  from_mozilla_ct_logs_json : list byte → CRLiteCoverage;
  build_to_bytes : list byte → list CRLiteBuilderItem → Z → list CRLiteBuilderItem →
                   CRLiteCoverage → list byte;
  b64_encode : list byte → string
}.

Definition FilterArgs : Type := list byte * list (list byte) * list (list byte) * Coverage.

Section BuildFilter.
Context `{FilterBuilder}.

Definition quoted (s : string) : string :=
  String.String "034"%char (s +:+ String.String "034"%char "").

Definition coverage_json (coverage : Coverage) : string :=
  "[" +:+ String.concat ","
    ((λ '(log_id, min_ts, max_ts),
        "{" +:+ quoted "LogID" +:+ ":" +:+ quoted (b64_encode log_id) +:+ ","
        +:+ quoted "MaxTimestamp" +:+ ":" +:+ pretty (max_ts : Z) +:+ ","
        +:+ quoted "MinTimestamp" +:+ ":" +:+ pretty (min_ts : Z) +:+ ","
        +:+ quoted "MMD" +:+ ":0," +:+ quoted "MinEntry" +:+ ":0}") <$> coverage) +:+ "]".

Definition build_filter (issuer : list byte) (revoked unrevoked : list (list byte))
    (coverage : Coverage) : list byte :=
  let universe_size := Z.shiftl 1 8 in
  let approx := item_revoked issuer <$> revoked in
  let exact :=
    (item_revoked issuer <$> revoked) ++ (item_not_revoked issuer <$> unrevoked)
    ++ ((λ j, item_not_revoked issuer (reverse (be_bytes 8 j))) <$> seqZ 0 universe_size) in
  build_to_bytes issuer approx universe_size exact
    (from_mozilla_ct_logs_json (as_bytes (coverage_json coverage))).

Definition build_args (f : FilterArgs) : list byte :=
  let '(issuer, revoked, unrevoked, coverage) := f in
  build_filter issuer revoked unrevoked coverage.
End BuildFilter.

(** What the documentation of [build_filter] promises of a query; nothing for a
    serial of the issuer that is not listed. *)
Definition promised (f : FilterArgs) (input : RevocationCheckInput) : option CRLiteStatus :=
  let '(issuer, revoked, unrevoked, coverage) := f in
  if negb (existsb (λ sct, existsb (λ '(id, min_ts, max_ts),
             bool_decide (id = log_id sct) && (min_ts <=? timestamp sct)
             && (timestamp sct <=? max_ts)) coverage) (sct_timestamps input))
  then Some NotCovered
  else if negb (bool_decide (issuer = issuer_spki_hash input)) then Some NotEnrolled
  else if bool_decide (cert_serial input ∈ revoked) then Some Revoked
  else if bool_decide (cert_serial input ∈ unrevoked) then Some Good
  else None.

(** ** The helpers of the tests *)

Section Tests.
Context `{Clubcard} `{FilterBuilder}.

Definition SERIAL : list byte := [x01; x02; x03].
Definition log_of (b : byte) : list byte := replicate 32 b.

Definition multi_sct_input (scts : list (list byte * Z)) : Result Error RevocationCheckInput :=
  input_new SERIAL (log_of xaa) ((λ '(log_id, timestamp), mkCtTimestamp log_id timestamp) <$> scts).

Definition test_input : Result Error RevocationCheckInput :=
  input_new SERIAL (log_of xaa) [mkCtTimestamp (log_of xbb) 1000].

Definition test_config (dir : string) : Config := mkConfig dir default_revocation_config.

(** [Result::unwrap] *)
Definition unwrap {E F A} (r : Result E A) : Result F A :=
  match r with Ok a => Ok a | _ => Panic end.
Definition eff_unwrap {S E F A} (m : Eff S E A) : Eff S F A := λ s,
  let '(s, r) := m s in (s, unwrap r).

Definition write_file (dir name : string) (data : list byte) : Eff Fs Error unit :=
  let revocation_dir := path_join dir "revocation" in
  _ ← eff_unwrap (create_dir_all revocation_dir);
  eff_unwrap (fs_write (path_join revocation_dir name) data).

(** A new temporary directory, and an index written into it. *)
Definition tempdir : string := "/t".
Definition tempdir_fs : Fs := mkFs ∅ {["/"; "/t"]} (λ _ _, None) id.
Definition write_index (data : option (list byte)) : Eff Fs Error unit :=
  data ← eff_lift (λ _, or_panic data); write_file tempdir INDEX_BIN data.

(** [Index::from_cache(&config)] followed by [check(&input)] *)
Definition checked (input : Result Error RevocationCheckInput) (fs : Fs)
  : Result Error RevocationStatus :=
  index ← from_cache fs (test_config tempdir); input ← input; (check fs input index).2.

(** [assert_eq!], [assert!(matches!(_, IndexDecode(_)))] *)
Definition assert_eq {A} `{EqDecision A} (a b : A) : Result Error unit :=
  if decide (a = b) then Ok tt else Panic.
Definition assert_index_decode {A} (r : Result Error A) : Result Error unit :=
  match r with Err (IndexDecode _) => Ok tt | _ => Panic end.
Definition assert_file_read {A} (r : Result Error A) : Result Error unit :=
  match r with Err (FileRead _ _) => Ok tt | _ => Panic end.

(** The last statement of most tests, with [unwrap] and with [?]. *)
Definition assert_unwrapped (input : Result Error RevocationCheckInput)
    (expected : RevocationStatus) : Eff Fs Error unit :=
  eff_lift (λ fs, status ← unwrap (checked input fs); assert_eq status expected).
Definition assert_checked (input : Result Error RevocationCheckInput)
    (expected : RevocationStatus) : Eff Fs Error unit :=
  eff_lift (λ fs, status ← checked input fs; assert_eq status expected).
Definition assert_rejected : Eff Fs Error unit :=
  eff_lift (λ fs, assert_index_decode (from_cache fs (test_config tempdir))).

(** ** The tests *)

Definition check_empty_index : Eff Fs Error unit :=
  _ ← write_index (build_index []);
  assert_unwrapped test_input NotCoveredByRevocationData.

(** The input has log id [0xbb...], the index [0xcc...]. *)
Definition check_no_matching_log_id : Eff Fs Error unit :=
  _ ← write_index (build_index [("test.filter", [(log_of xcc, 500, 1500)])]);
  assert_unwrapped test_input NotCoveredByRevocationData.

Definition check_no_matching_timestamp_range : Eff Fs Error unit :=
  _ ← write_index (build_index [("test.filter", [(log_of xbb, 2000, 3000)])]);
  assert_unwrapped test_input NotCoveredByRevocationData.

Definition invalid_magic : Eff Fs Error unit :=
  _ ← write_file tempdir INDEX_BIN (as_bytes "wrongmag" ++ replicate 5 x00);
  assert_rejected.

Definition truncated_after_magic : Eff Fs Error unit :=
  _ ← write_file tempdir INDEX_BIN INDEX_MAGIC_V1; assert_rejected.

Definition truncated_before_magic : Eff Fs Error unit :=
  _ ← write_file tempdir INDEX_BIN (as_bytes "upki"); assert_rejected.

Definition oversized_table_counts : Eff Fs Error unit :=
  let data := INDEX_MAGIC_V1 ++ be_bytes 2 (2 ^ 16 - 1) ++ be_bytes 4 (2 ^ 32 - 1) in
  _ ← write_file tempdir INDEX_BIN data; assert_rejected.

Definition missing_index : Eff Fs Error unit :=
  eff_lift (λ fs, assert_file_read (from_cache fs (test_config tempdir))).

Definition check_single_filter_revoked : Eff Fs Error unit :=
  let f0 := build_filter (log_of xaa) [SERIAL] []
             [(log_of xbb, 0, 2000)] in
  _ ← write_file tempdir "f0.filter" f0;
  _ ← write_index (build_index
         [("f0.filter", [(log_of xbb, 0, 2000)])]);
  assert_checked test_input CertainlyRevoked.

(** The filter revokes a different serial. *)
Definition check_single_filter_not_revoked : Eff Fs Error unit :=
  let f0 := build_filter (log_of xaa) [[x09; x09; x09]] [SERIAL]
             [(log_of xbb, 0, 2000)] in
  _ ← write_file tempdir "f0.filter" f0;
  _ ← write_index (build_index
         [("f0.filter", [(log_of xbb, 0, 2000)])]);
  assert_checked test_input NotRevoked.

(** [f0] enrolls a different issuer; [f1] revokes our serial. *)
Definition check_continues_past_not_enrolled_to_revoked : Eff Fs Error unit :=
  let log_a := log_of xb1 in
  let log_b := log_of xb2 in
  let f0 := build_filter (log_of xcc) [[x07; x07]] []
             [(log_a, 0, 2000)] in
  let f1 := build_filter (log_of xaa) [SERIAL] []
             [(log_b, 0, 2000)] in
  _ ← write_file tempdir "f0.filter" f0;
  _ ← write_file tempdir "f1.filter" f1;
  _ ← write_index (build_index
         [("f0.filter", [(log_a, 0, 2000)]);
          ("f1.filter", [(log_b, 0, 2000)])]);
  assert_checked (multi_sct_input [(log_a, 1000); (log_b, 1000)]) CertainlyRevoked.

Definition check_continues_past_not_enrolled_to_not_revoked : Eff Fs Error unit :=
  let log_a := log_of xb1 in
  let log_b := log_of xb2 in
  let f0 := build_filter (log_of xcc) [[x07; x07]] []
             [(log_a, 0, 2000)] in
  let f1 := build_filter (log_of xaa) [[x09; x09; x09]] [SERIAL]
             [(log_b, 0, 2000)] in
  _ ← write_file tempdir "f0.filter" f0;
  _ ← write_file tempdir "f1.filter" f1;
  _ ← write_index (build_index
         [("f0.filter", [(log_a, 0, 2000)]);
          ("f1.filter", [(log_b, 0, 2000)])]);
  assert_checked (multi_sct_input [(log_a, 1000); (log_b, 1000)]) NotRevoked.

Definition check_all_filters_not_enrolled : Eff Fs Error unit :=
  let log_a := log_of xb1 in
  let log_b := log_of xb2 in
  let f0 := build_filter (log_of xcc) [[x07; x07]] []
             [(log_a, 0, 2000)] in
  let f1 := build_filter (log_of xdd) [[x08; x08]] []
             [(log_b, 0, 2000)] in
  _ ← write_file tempdir "f0.filter" f0;
  _ ← write_file tempdir "f1.filter" f1;
  _ ← write_index (build_index
         [("f0.filter", [(log_a, 0, 2000)]);
          ("f1.filter", [(log_b, 0, 2000)])]);
  assert_checked (multi_sct_input [(log_a, 1000); (log_b, 1000)]) NotCoveredByRevocationData.

(** Only the file of [f0] exists: a check that loaded [f1] would fail. *)
Definition check_stops_at_first_revoked : Eff Fs Error unit :=
  let log_a := log_of xb1 in
  let log_b := log_of xb2 in
  let f0 := build_filter (log_of xaa) [SERIAL] []
             [(log_a, 0, 2000)] in
  _ ← write_file tempdir "f0.filter" f0;
  _ ← write_index (build_index
         [("f0.filter", [(log_a, 0, 2000)]);
          ("f1.filter", [(log_b, 0, 2000)])]);
  assert_checked (multi_sct_input [(log_a, 1000); (log_b, 1000)]) CertainlyRevoked.

(** A filter that answers good does not end the check. *)
Definition check_continues_past_not_revoked_to_revoked : Eff Fs Error unit :=
  let log_a := log_of xb1 in
  let log_b := log_of xb2 in
  let f0 := build_filter (log_of xaa) [[x09; x09; x09]] [SERIAL]
             [(log_a, 0, 2000)] in
  let f1 := build_filter (log_of xaa) [SERIAL] []
             [(log_b, 0, 2000)] in
  _ ← write_file tempdir "f0.filter" f0;
  _ ← write_file tempdir "f1.filter" f1;
  _ ← write_index (build_index
         [("f0.filter", [(log_a, 0, 2000)]);
          ("f1.filter", [(log_b, 0, 2000)])]);
  assert_checked (multi_sct_input [(log_a, 1000); (log_b, 1000)]) CertainlyRevoked.

Definition check_multiple_filters_same_log_revoked : Eff Fs Error unit :=
  let log_a := log_of xb1 in
  let f0 := build_filter (log_of xcc) [[x07; x07]] []
             [(log_a, 0, 2000)] in
  let f1 := build_filter (log_of xaa) [SERIAL] []
             [(log_a, 0, 2000)] in
  _ ← write_file tempdir "f0.filter" f0;
  _ ← write_file tempdir "f1.filter" f1;
  _ ← write_index (build_index
         [("f0.filter", [(log_a, 0, 2000)]);
          ("f1.filter", [(log_a, 0, 2000)])]);
  assert_checked (multi_sct_input [(log_a, 1000)]) CertainlyRevoked.

Definition check_multiple_filters_same_log_not_revoked : Eff Fs Error unit :=
  let log_a := log_of xb1 in
  let f0 := build_filter (log_of xcc) [[x07; x07]] []
             [(log_a, 0, 2000)] in
  let f1 := build_filter (log_of xaa) [[x09; x09; x09]] [SERIAL]
             [(log_a, 0, 2000)] in
  _ ← write_file tempdir "f0.filter" f0;
  _ ← write_file tempdir "f1.filter" f1;
  _ ← write_index (build_index
         [("f0.filter", [(log_a, 0, 2000)]);
          ("f1.filter", [(log_a, 0, 2000)])]);
  assert_checked (multi_sct_input [(log_a, 1000)]) NotRevoked.

(** An interval that misses the SCT skips its entry only. *)
Definition check_later_timestamp_entry_same_log_revoked : Eff Fs Error unit :=
  let log_a := log_of xb1 in
  let f0 := build_filter (log_of xcc) [[x07; x07]] []
             [(log_a, 2000, 3000)] in
  let f1 := build_filter (log_of xaa) [SERIAL] []
             [(log_a, 0, 2000)] in
  _ ← write_file tempdir "f0.filter" f0;
  _ ← write_file tempdir "f1.filter" f1;
  _ ← write_index (build_index
         [("f0.filter", [(log_a, 2000, 3000)]);
          ("f1.filter", [(log_a, 0, 2000)])]);
  assert_checked (multi_sct_input [(log_a, 1000)]) CertainlyRevoked.

Definition check_later_timestamp_entry_same_log_not_revoked : Eff Fs Error unit :=
  let log_a := log_of xb1 in
  let f0 := build_filter (log_of xcc) [[x07; x07]] []
             [(log_a, 2000, 3000)] in
  let f1 := build_filter (log_of xaa) [[x09; x09; x09]] [SERIAL]
             [(log_a, 0, 2000)] in
  _ ← write_file tempdir "f0.filter" f0;
  _ ← write_file tempdir "f1.filter" f1;
  _ ← write_index (build_index
         [("f0.filter", [(log_a, 2000, 3000)]);
          ("f1.filter", [(log_a, 0, 2000)])]);
  assert_checked (multi_sct_input [(log_a, 1000)]) NotRevoked.

(** The file of [f0] is absent. *)
Definition check_skips_non_matching_entry_without_loading_filter : Eff Fs Error unit :=
  let log_a := log_of xb1 in
  let f1 := build_filter (log_of xaa) [SERIAL] []
             [(log_a, 0, 2000)] in
  _ ← write_file tempdir "f1.filter" f1;
  _ ← write_index (build_index
         [("f0.filter", [(log_a, 2000, 3000)]);
          ("f1.filter", [(log_a, 0, 2000)])]);
  assert_checked (multi_sct_input [(log_a, 1000)]) CertainlyRevoked.

(** [f0] covers both logs and is asked once. *)
Definition check_skips_queried_filter_but_not_later_filters : Eff Fs Error unit :=
  let log_a := log_of xb1 in
  let log_b := log_of xb2 in
  let f0 := build_filter (log_of xcc) [[x07; x07]] []
             [(log_a, 0, 2000); (log_b, 0, 2000)] in
  let f1 := build_filter (log_of xaa) [SERIAL] []
             [(log_b, 0, 2000)] in
  _ ← write_file tempdir "f0.filter" f0;
  _ ← write_file tempdir "f1.filter" f1;
  _ ← write_index (build_index
         [("f0.filter", [(log_a, 0, 2000); (log_b, 0, 2000)]);
          ("f1.filter", [(log_b, 0, 2000)])]);
  assert_checked (multi_sct_input [(log_a, 1000); (log_b, 1000)]) CertainlyRevoked.

Definition check_single_filter_covering_multiple_scts_not_revoked : Eff Fs Error unit :=
  let log_a := log_of xb1 in
  let log_b := log_of xb2 in
  let f0 := build_filter (log_of xaa) [[x09; x09; x09]] [SERIAL]
             [(log_a, 0, 2000); (log_b, 0, 2000)] in
  _ ← write_file tempdir "f0.filter" f0;
  _ ← write_index (build_index
         [("f0.filter", [(log_a, 0, 2000); (log_b, 0, 2000)])]);
  assert_checked (multi_sct_input [(log_a, 1000); (log_b, 1000)]) NotRevoked.

(** A legacy index. *)
Definition check_v0_index_revoked : Eff Fs Error unit :=
  let log_a := log_of xb1 in
  let log_b := log_of xb2 in
  let f0 := build_filter (log_of xcc) [[x07; x07]] []
             [(log_a, 0, 2000)] in
  let f1 := build_filter (log_of xaa) [SERIAL] []
             [(log_b, 0, 2000)] in
  _ ← write_file tempdir "f0.filter" f0;
  _ ← write_file tempdir "f1.filter" f1;
  _ ← write_index (build_index_v0
         [("f0.filter", [(log_a, 0, 2000)]);
          ("f1.filter", [(log_b, 0, 2000)])]);
  assert_checked (multi_sct_input [(log_a, 1000); (log_b, 1000)]) CertainlyRevoked.

Definition check_v0_index_not_revoked : Eff Fs Error unit :=
  let f0 := build_filter (log_of xaa) [[x09; x09; x09]] [SERIAL]
             [(log_of xbb, 0, 2000)] in
  _ ← write_file tempdir "f0.filter" f0;
  _ ← write_index (build_index_v0
         [("f0.filter", [(log_of xbb, 0, 2000)])]);
  assert_checked test_input NotRevoked.

Definition check_empty_v0_index : Eff Fs Error unit :=
  _ ← write_index (build_index_v0 []);
  assert_unwrapped test_input NotCoveredByRevocationData.

(** The sole entry's filter number is overwritten. *)
Definition check_filter_index_out_of_bounds : Eff Fs Error unit :=
  data ← eff_lift (λ _, or_panic (build_index [("f0.filter", [(log_of xbb, 0, 2000)])]));
  let entry_offset := (length data - Z.to_nat ENTRY_SIZE_V1)%nat in
  _ ← write_file tempdir INDEX_BIN (splice data entry_offset (be_bytes 2 500));
  eff_lift (λ fs,
    index ← unwrap (from_cache fs (test_config tempdir));
    input ← unwrap (E := Error) test_input;
    assert_index_decode (check fs input index).2).
End Tests.

(** ** Running a test *)

Definition assoc {V} (n : string) (l : list (string * V)) : option V :=
  snd ∘ snd <$> list_find (λ x, x.1 = n) l.

Definition test_dirs : gset string :=
  list_to_set (ancestors (String.length "/t/revocation") "/t/revocation") ∪ {["/"; "/t"]}.

(** The directory with the files written so far. *)
Definition after (m : gmap string (list byte)) : Fs := mkFs m test_dirs (λ _ _, None) id.
Definition test_path (n : string) : string := path_join "/t/revocation" n.

(** The files the tests write. *)
Definition test_names : list string := ["f0.filter"; "f1.filter"; INDEX_BIN].

Lemma write_file_test n data m (d : gset string) :
  n ∈ test_names → d = {["/"; "/t"]} ∨ d = test_dirs → m !! "/t/revocation" = None →
  write_file tempdir n data (mkFs m d (λ _ _, None) id)
  = (after (<[test_path n := data]> m), Ok tt)
  ∧ (<[test_path n := data]> m) !! "/t/revocation" = None.
Proof.
  intros Hn Hd Hm.
  assert (no_nul (as_bytes (test_path n)) = true ∧ bool_decide (test_path n ∈ test_dirs) = false
          ∧ path_parent (test_path n) = Some "/t/revocation" ∧ test_path n ≠ "/t/revocation")
    as (Hnul & Hfree & Hpar & Hne).
  { unfold test_names in Hn. rewrite !elem_of_cons in Hn.
    destruct Hn as [->|[->|[->|?%elem_of_nil]]]; [by vm_compute..|done]. }
  split; [|by rewrite lookup_insert_ne].
  assert (create_dir_all "/t/revocation" (mkFs m d (λ _ _, None) id) = (after m, Ok tt)) as Hc.
  { unfold create_dir_all. cbn [String.length create_dirs]. rewrite bool_decide_eq_false_2 by done.
    unfold make_dir. rewrite guard_op_ok by done. cbn [files dirs]. destruct Hd as [->| ->].
    - rewrite bool_decide_eq_false_2.
      2: { rewrite Hm. intros [[? ?]|Hin]; [done|]. revert Hin. apply (bool_decide_unpack _). by vm_compute. }
      change (path_parent "/t/revocation") with (Some "/t"). cbv iota.
      rewrite (bool_decide_eq_true_2 ("/t" = "" ∨ _)) by
        (right; apply (bool_decide_unpack _); by vm_compute).
      assert ({["/t/revocation"]} ∪ {["/"; "/t"]} = test_dirs) as Hu
        by (apply (bool_decide_unpack _); by vm_compute).
      unfold after. by rewrite <- Hu.
    - rewrite bool_decide_eq_true_2 by (right; apply (bool_decide_unpack _); by vm_compute).
      unfold path_is_dir. rewrite guard_op_ok by done. cbn [dirs].
      rewrite bool_decide_eq_true_2 by (apply (bool_decide_unpack _); by vm_compute). done. }
  unfold write_file, mbind, eff_bind, eff_unwrap.
  change (path_join tempdir "revocation") with "/t/revocation". rewrite Hc. cbn [unwrap].
  unfold fs_write, guard_op. fold (test_path n). rewrite Hnul. cbn [negb faults dirs after].
  rewrite Hfree. unfold parent_exists. rewrite Hpar. cbn [dirs after].
  rewrite bool_decide_eq_true_2 by (right; apply (bool_decide_unpack _); by vm_compute).
  unfold write_all, set_files, after. cbn. by rewrite insert_insert_eq.
Qed.

Section Running.
Context `{Clubcard} `{FilterBuilder}.

(** Writing filters, then an index, then something else. *)
Definition scenario (files : list (string * FilterArgs)) (data : option (list byte))
    (last : Eff Fs Error unit) : Eff Fs Error unit :=
  foldr (λ '(n, f) k, _ ← write_file tempdir n (build_args f); k)
        (_ ← write_index data; last) files.

Lemma scenario_run files data last m d :
  NoDup files.*1 → Forall (λ n, n ∈ test_names ∧ n ≠ INDEX_BIN) files.*1 →
  d = {["/"; "/t"]} ∨ d = test_dirs → m !! "/t/revocation" = None →
  ∃ m', scenario files (Some data) last (mkFs m d (λ _ _, None) id) = last (after m')
    ∧ m' !! test_path INDEX_BIN = Some data
    ∧ ∀ n, is_absolute n = false → n ≠ INDEX_BIN →
        m' !! test_path n = match assoc n files with
                            | Some f => Some (build_args f) | None => m !! test_path n end.
Proof.
  revert m d. induction files as [|[n f] files IH]; intros m d Hnd Hf Hd Hm.
  - destruct (write_file_test INDEX_BIN data m d) as [Hw _]; [by do 2 right; left|done..|].
    exists (<[test_path INDEX_BIN := data]> m). cbn [scenario foldr].
    unfold mbind, eff_bind, write_index, eff_lift. cbn [or_panic]. unfold mbind, eff_bind.
    rewrite Hw. split; [done|]. split; [apply lookup_insert_eq|].
    intros k Hk Hne. cbn. apply lookup_insert_ne. by intros E%path_join_inj.
  - rewrite fmap_cons in Hnd, Hf. apply NoDup_cons in Hnd as [Hin Hnd].
    apply Forall_cons in Hf as [[Hn Hni] Hf]. cbn [fst] in *.
    destruct (write_file_test n (build_args f) m d Hn Hd Hm) as [Hw Hm'].
    destruct (IH (<[test_path n := build_args f]> m) test_dirs) as (m' & Hs & Hi & Hl);
      [done|done|by right|done|].
    exists m'. split; [|split; [done|]].
    + cbn [scenario foldr]. unfold mbind at 1, eff_bind at 1. rewrite Hw. exact Hs.
    + intros k Hk Hne. rewrite Hl by done. unfold assoc. cbn [list_find fst].
      destruct (decide (n = k)) as [->|Hnk]; cbn.
      * rewrite lookup_insert_eq. destruct (list_find (λ x, x.1 = k) files) as [[j y]|] eqn:E; [|done].
        apply list_find_Some in E as (Hj & Hy & _). destruct Hin. rewrite <- Hy.
        apply list_elem_of_fmap. eexists. split; [done|]. by eapply list_elem_of_lookup_2.
      * rewrite lookup_insert_ne; [by destruct (list_find _ files) as [[]|]|].
        intros E%path_join_inj; [done| |done].
        unfold test_names in Hn. rewrite !elem_of_cons in Hn.
        by destruct Hn as [->|[->|[->|?%elem_of_nil]]].
Qed.

(** The filters the tests build. *)
Definition test_filters : list FilterArgs :=
  ((λ cov, (log_of xaa, [SERIAL], [], cov)) <$>
    [[(log_of xbb, 0, 2000)]; [(log_of xb1, 0, 2000)]; [(log_of xb2, 0, 2000)]])
  ++ ((λ cov, (log_of xaa, [[x09; x09; x09]], [SERIAL], cov)) <$>
    [[(log_of xbb, 0, 2000)]; [(log_of xb1, 0, 2000)]; [(log_of xb2, 0, 2000)];
     [(log_of xb1, 0, 2000); (log_of xb2, 0, 2000)]])
  ++ ((λ cov, (log_of xcc, [[x07; x07]], [], cov)) <$>
    [[(log_of xb1, 0, 2000)]; [(log_of xb1, 2000, 3000)];
     [(log_of xb1, 0, 2000); (log_of xb2, 0, 2000)]])
  ++ [(log_of xdd, [[x08; x08]], [], [(log_of xb2, 0, 2000)])].

(** The builder's filters decode and answer as promised. *)
Class FilterBuilderLaws : Prop := {
  built_filter f : f ∈ test_filters →
    ∃ c, from_bytes (build_args f) = inr c
         ∧ ∀ input s, promised f input = Some s → answer input c = s }.

(** What asking for a file gives, when [files] were written. *)
Definition test_ask (files : list (string * FilterArgs)) (input : RevocationCheckInput)
    (n : string) : Result Error CRLiteStatus :=
  match assoc n files with
  | None => Err (FileRead NotFound (Some (test_path n)))
  | Some f => match promised f input with Some s => Ok s | None => Panic end
  end.

Definition index_name (n : string) : Prop :=
  is_absolute n = false ∧ n ≠ INDEX_BIN ∧ test_path n ∉ test_dirs
  ∧ no_nul (as_bytes (test_path n)) = true ∧ no_nul (as_bytes n) = true
  ∧ utf8_valid (as_bytes n) = true ∧ (length (as_bytes n) ≤ 32)%nat.

Lemma ask_file_test `{!FilterBuilderLaws} written input m n :
  index_name n → Forall (λ '(_, f), f ∈ test_filters ∧ is_Some (promised f input)) written →
  m !! test_path n = (build_args <$> assoc n written) →
  ask_file (after m) input "/t/revocation" n = test_ask written input n.
Proof.
  intros (_ & _ & Hd & Hn & _) Hf Hm. unfold ask_file, query_filter, test_ask.
  fold (test_path n). unfold fs_read, file_open. rewrite guard_op_ok by done.
  cbn [after FileSys.files]. rewrite Hm. destruct (assoc n written) as [f|] eqn:Ea; cbn [fmap option_fmap option_map].
  - assert (f ∈ test_filters ∧ is_Some (promised f input)) as [Hin [s Hs]].
    { unfold assoc in Ea. destruct (list_find _ written) as [[j [k g]]|] eqn:E; [|done].
      injection Ea as ->. apply list_find_Some in E as (Hj & _).
      exact (Forall_lookup_1 _ _ _ _ Hf Hj). }
    destruct (built_filter f Hin) as (c & Hc & Hans).
    cbn [mbind result_bind]. rewrite (handle_fault_ok _ _ (build_args f)) by done.
    cbn [after faults map_err mbind result_bind]. rewrite Hc. cbn [of_sum map_err mbind result_bind].
    rewrite Hs. f_equal. apply (Hans input s Hs).
  - by rewrite bool_decide_eq_false_2.
Qed.

(** A check of an index that a scenario wrote. *)
Lemma scenario_checked `{!FilterBuilderLaws} v files filters last input i :
  NoDup files.*1 → Forall (λ n, n ∈ test_names ∧ n ≠ INDEX_BIN) files.*1 →
  Forall (λ '(_, f), f ∈ test_filters ∧ is_Some (promised f i)) files →
  Forall index_name filters.*1 → fits v filters.*1 (aggregate filters) →
  input = Ok i →
  ∃ fs, scenario files (build_index_with_magic (magic v) filters) last tempdir_fs = last fs
    ∧ checked input fs
      = mem_check filters.*1 (test_ask files i) (aggregate filters) (sct_timestamps i).
Proof.
  intros Hnd Hf Hp Hn Hfits ->. pose proof Hn as Hn'. rewrite Forall_forall in Hn'.
  rewrite build_encode by (eapply Forall_impl; [exact Hn|]; by intros ? (_ & _ & _ & _ & _ & _ & ?)).
  destruct (scenario_run files (encode v filters.*1 (aggregate filters)) last ∅ {["/"; "/t"]})
    as (m & Hs & Hi & Hl); [done..|by left|done|].
  exists (after m). split; [exact Hs|]. unfold checked.
  destruct (from_cache_encode (after m) (test_config tempdir) v filters.*1 (aggregate filters))
    as (idx & -> & Hr & Hdir); [by repeat split|exact Hi|done|].
  cbn [mbind result_bind].
  rewrite (check_mem v filters.*1 (aggregate filters)); [|done| |done].
  - apply mem_check_ext. intros n Hin. rewrite Hdir. apply ask_file_test; [by apply Hn'|done|].
    destruct (Hn' n Hin) as (Hrel & Hne & _). rewrite (Hl n Hrel Hne), lookup_empty.
    by destruct (assoc n files).
  - eapply Forall_impl; [exact Hn|]. by intros ? (_ & _ & _ & _ & ? & ? & _).
Qed.

Lemma scenario_passes `{!FilterBuilderLaws} v files filters input expected i :
  NoDup files.*1 → Forall (λ n, n ∈ test_names ∧ n ≠ INDEX_BIN) files.*1 →
  Forall (λ '(_, f), f ∈ test_filters ∧ is_Some (promised f i)) files →
  Forall index_name filters.*1 → fits v filters.*1 (aggregate filters) →
  input = Ok i →
  mem_check filters.*1 (test_ask files i) (aggregate filters) (sct_timestamps i) = Ok expected →
  (scenario files (build_index_with_magic (magic v) filters)
            (assert_checked input expected) tempdir_fs).2 = Ok tt
  ∧ (scenario files (build_index_with_magic (magic v) filters)
              (assert_unwrapped input expected) tempdir_fs).2 = Ok tt.
Proof.
  intros ?????? Hc.
  destruct (scenario_checked v files filters (assert_checked input expected) input i)
    as (fs & -> & E); [done..|].
  destruct (scenario_checked v files filters (assert_unwrapped input expected) input i)
    as (fs' & -> & E'); [done..|].
  unfold assert_checked, assert_unwrapped, eff_lift. cbn [snd]. rewrite E, E', Hc.
  cbn [unwrap mbind result_bind]. unfold assert_eq. by rewrite decide_True.
Qed.

#[export] Instance index_name_dec n : Decision (index_name n).
Proof. unfold index_name. apply _. Defined.

Definition tests : list (Eff Fs Error unit) :=
  [ check_empty_index; check_no_matching_log_id; check_no_matching_timestamp_range;
    invalid_magic; truncated_after_magic; truncated_before_magic; oversized_table_counts;
    missing_index; check_single_filter_revoked; check_single_filter_not_revoked;
    check_continues_past_not_enrolled_to_revoked;
    check_continues_past_not_enrolled_to_not_revoked; check_all_filters_not_enrolled;
    check_stops_at_first_revoked; check_continues_past_not_revoked_to_revoked;
    check_multiple_filters_same_log_revoked; check_multiple_filters_same_log_not_revoked;
    check_later_timestamp_entry_same_log_revoked;
    check_later_timestamp_entry_same_log_not_revoked;
    check_skips_non_matching_entry_without_loading_filter;
    check_skips_queried_filter_but_not_later_filters;
    check_single_filter_covering_multiple_scts_not_revoked;
    check_v0_index_revoked; check_v0_index_not_revoked; check_empty_v0_index;
    check_filter_index_out_of_bounds ].
End Running.

(** The steps of a test's proof: the files and the index are read off its text. *)
Ltac solve_fits :=
  split;
  [ by vm_compute | apply (bool_decide_unpack _); by vm_compute | by vm_compute
  | apply (bool_decide_unpack _); by vm_compute | apply aggregate_sorted
  | apply (bool_decide_unpack _); by vm_compute
  | apply (bool_decide_unpack _); by vm_compute | by vm_compute ].

Ltac run_scenario v written filters last :=
  match goal with |- (?t tempdir_fs).2 = _ =>
    change t with (scenario written (build_index_with_magic (magic v) filters) last) end;
  lazymatch last with
  | assert_checked ?i ?e => refine (proj1 (scenario_passes v written filters i e _ _ _ _ _ _ _ _))
  | assert_unwrapped ?i ?e => refine (proj2 (scenario_passes v written filters i e _ _ _ _ _ _ _ _))
  end;
  [ apply (bool_decide_unpack _); by vm_compute
  | apply (bool_decide_unpack _); by vm_compute
  |
  | apply (bool_decide_unpack _); by vm_compute
  | solve_fits
  | by vm_compute
  | by vm_compute ];
  repeat (apply Forall_cons; split); try apply Forall_nil_2;
  (split; apply (bool_decide_unpack _); by vm_compute).

Ltac pass_test :=
  match goal with |- (?t tempdir_fs).2 = _ => let u := eval red in t in change t with u end;
  lazymatch goal with
  | |- ((_ ← write_file tempdir ?n1 (build_filter ?a1 ?b1 ?c1 ?d1);
         _ ← write_file tempdir ?n2 (build_filter ?a2 ?b2 ?c2 ?d2);
         _ ← write_index (build_index ?x); ?last) tempdir_fs).2 = _ =>
      run_scenario V1 [(n1, (a1, b1, c1, d1)); (n2, (a2, b2, c2, d2))] x last
  | |- ((_ ← write_file tempdir ?n1 (build_filter ?a1 ?b1 ?c1 ?d1);
         _ ← write_file tempdir ?n2 (build_filter ?a2 ?b2 ?c2 ?d2);
         _ ← write_index (build_index_v0 ?x); ?last) tempdir_fs).2 = _ =>
      run_scenario V0 [(n1, (a1, b1, c1, d1)); (n2, (a2, b2, c2, d2))] x last
  | |- ((_ ← write_file tempdir ?n1 (build_filter ?a1 ?b1 ?c1 ?d1);
         _ ← write_index (build_index ?x); ?last) tempdir_fs).2 = _ =>
      run_scenario V1 [(n1, (a1, b1, c1, d1))] x last
  | |- ((_ ← write_file tempdir ?n1 (build_filter ?a1 ?b1 ?c1 ?d1);
         _ ← write_index (build_index_v0 ?x); ?last) tempdir_fs).2 = _ =>
      run_scenario V0 [(n1, (a1, b1, c1, d1))] x last
  | |- ((_ ← write_index (build_index ?x); ?last) tempdir_fs).2 = _ =>
      run_scenario V1 (@nil (string * FilterArgs)) x last
  | |- ((_ ← write_index (build_index_v0 ?x); ?last) tempdir_fs).2 = _ =>
      run_scenario V0 (@nil (string * FilterArgs)) x last
  end.

Section Passing.
Context `{Clubcard} `{FilterBuilder} `{!FilterBuilderLaws}.

(** The tests that never query a filter. *)
Lemma rejecting_tests_pass :
  Forall (λ t : Eff Fs Error unit, (t tempdir_fs).2 = Ok tt)
    [ invalid_magic; truncated_after_magic; truncated_before_magic; oversized_table_counts;
      missing_index; check_filter_index_out_of_bounds ].
Proof. repeat (apply Forall_cons; split); [..|apply Forall_nil_2]; by vm_compute. Qed.

(** C26: The unit tests of [index.rs], with their own writer of indices, pass for every
    filter builder whose filters decode and answer as promised. *)
Theorem unit_tests_pass : Forall (λ t : Eff Fs Error unit, (t tempdir_fs).2 = Ok tt) tests.
Proof.
  pose proof rejecting_tests_pass as Hr. rewrite !Forall_cons in Hr.
  destruct Hr as (?&?&?&?&?&?&_).
  repeat (apply Forall_cons; split); [..|apply Forall_nil_2]; first [assumption|pass_test].
Qed.
End Passing.

(** C18: The index writer of the tests and [Index::write] agree: for filters that load,
    [write] gives the bytes the tests would build from the filters' names and
    declared intervals; neither gives any when a name is too long. *)
Theorem writers_agree `{ClubcardLaws} (fs : Fs) (manifest : Manifest) (dir : string)
    (cards : list CRLiteClubcard) :
  let names := filename <$> manifest_files manifest in
  mapM (load_card fs dir) names = Some cards →
  write fs manifest dir = build_index (zip names (coverage_of <$> cards)).
Proof.
  intros names Hc.
  assert (length names = length (coverage_of <$> cards)) as Hlen.
  { rewrite length_fmap. by eapply Forall2_length, mapM_Some. }
  assert ((zip names (coverage_of <$> cards)).*1 = names) as Hfst
    by (apply fst_zip; by rewrite Hlen).
  destruct (decide (Forall (λ n, (length (as_bytes n) ≤ 32)%nat) names)) as [Hn|Hn].
  - unfold build_index. rewrite (build_encode V1) by by rewrite Hfst.
    pose proof (collect_aggregate fs dir (manifest_files manifest) 0 [] cards Hc Hn) as Hcol.
    rewrite (write_encode _ _ _ _ Hcol), Hfst. done.
  - assert (mapM test_slot names = None) as Hs.
    { destruct (mapM test_slot names) as [slots|] eqn:E; [|done]. destruct Hn.
      apply mapM_Some in E. clear -E. induction E as [|n s ns ss Hs E IH]; constructor; [|done].
      unfold test_slot, FILENAME_SIZE in Hs. destruct (Z.leb_spec (Z.of_nat (length (as_bytes n))) 32);
        [lia|done]. }
    unfold build_index, build_index_with_magic. rewrite Hfst, Hs.
    rewrite decide_False by by intros ?%eq_sym%magic_v0_v1. cbn [mbind option_bind].
    unfold write. destruct (collect_universes fs dir (manifest_files manifest) 0 []) eqn:E; [|done].
    destruct Hn. by eapply collect_names_short.
Qed.

(** C11: On an index of either version, loading and checking is a fold over the entries
    of the SCTs' logs: each filter whose interval holds the SCT is asked once, in
    order, until one revokes or fails. *)
Theorem check_is_fold `{Clubcard} (fs : Fs) (config : Config) (v : Version)
    (names : list string) (m : ByLogId) (input : RevocationCheckInput) :
  fits v names m →
  Forall (λ n, no_nul (as_bytes n) = true ∧ utf8_valid (as_bytes n) = true) names →
  readable fs (index_path config) → files fs !! index_path config = Some (encode v names m) →
  ∃ i, from_cache fs config = Ok i
    ∧ (check fs input i).2
      = mem_check names (ask_file fs input (revocation_cache_dir config)) m
                  (sct_timestamps input).
Proof.
  intros Hf Hn Hr Hi.
  destruct (from_cache_encode fs config v names m Hr Hi Hf) as (i & Hl & Hreads & <-).
  exists i. split; [done|]. by apply (check_mem v).
Qed.

(** ** Instances *)

(** A builder that numbers the tests' filters. *)
Definition demo_builder0 : FilterBuilder := {|
  CRLiteCoverage := list byte;
  from_mozilla_ct_logs_json := id;
  build_to_bytes _ _ _ _ _ := [];
  b64_encode := String.string_of_list_byte
|}.

Definition same_filter (issuer : list byte) (exact : list CRLiteBuilderItem)
    (json : list byte) (f : FilterArgs) : Prop :=
  let '(i, revoked, unrevoked, coverage) := f in
  i = issuer
  ∧ take (length revoked + length unrevoked) exact
    = (item_revoked i <$> revoked) ++ (item_not_revoked i <$> unrevoked)
  ∧ as_bytes (@coverage_json demo_builder0 coverage) = json.

#[export] Instance builder_item_eq_dec : EqDecision CRLiteBuilderItem.
Proof. solve_decision. Defined.
#[export] Instance same_filter_dec i e j f : Decision (same_filter i e j f).
Proof. destruct f as [[[? ?] ?] ?]. unfold same_filter. apply _. Defined.

Definition demo_builder : FilterBuilder := {|
  CRLiteCoverage := list byte;
  from_mozilla_ct_logs_json := id;
  build_to_bytes issuer _ _ exact json :=
    match list_find (same_filter issuer exact json) test_filters with
    | Some (k, _) => be_bytes 1 (Z.of_nat k)
    | None => []
    end;
  b64_encode := String.string_of_list_byte
|}.

Definition builder_clubcard : Clubcard := {|
  CRLiteClubcard := FilterArgs;
  CRLiteKey := list byte * list byte;
  with_hash issuer serial _ := (issuer, serial);
  from_bytes l := match l with
                  | [_] => match test_filters !! Z.to_nat (be_val l) with
                           | Some f => inr f | None => inl "unknown" end
                  | _ => inl "length" end;
  universe _ := [];
  contains f key scts :=
    default Good (promised f (mkInput key.2 key.1 (uncurry mkCtTimestamp <$> scts) []));
  log_id_cmp := bytes_cmp
|}.

Lemma demo_builder_laws : @FilterBuilderLaws builder_clubcard demo_builder.
Proof.
  split. intros f Hf. exists f. split.
  - revert f Hf. apply Forall_forall. repeat (apply Forall_cons; split); [..|apply Forall_nil_2];
      by vm_compute.
  - intros input s Hs. unfold answer. cbn [contains builder_clubcard input_key with_hash fst snd].
    rewrite <- list_fmap_compose.
    assert ((uncurry mkCtTimestamp ∘ (λ ct, (log_id ct, timestamp ct))) <$> sct_timestamps input
            = sct_timestamps input) as ->.
    { rewrite <- list_fmap_id. apply list_fmap_ext. by intros _ [] _. }
    assert (promised f (mkInput (cert_serial input) (issuer_spki_hash input)
                                (sct_timestamps input) []) = promised f input) as ->
      by (by destruct f as [[[? ?] ?] ?]).
    by rewrite Hs.
Qed.

Lemma unit_tests_pass_witness :
  Forall (λ t : Eff Fs Error unit, (t tempdir_fs).2 = Ok tt)
         (@tests builder_clubcard demo_builder).
Proof.
  exact (@unit_tests_pass builder_clubcard demo_builder demo_builder_laws).
Defined.

Section Instances.
#[local] Existing Instance demo_clubcard.
#[local] Existing Instance demo_clubcard_laws.

Lemma writers_agree_witness :
  write (demo_fs demo_filters) demo_manifest demo_dir
  = build_index (zip demo_filters.*1 (coverage_of <$> demo_cards)).
Proof.
  apply (writers_agree (demo_fs demo_filters) demo_manifest demo_dir demo_cards).
  by vm_compute.
Defined.

(** An index whose second filter is missing: the check fails where it is asked. *)
Definition missing_filter_fs : Fs :=
  with_index (demo_fs (take 1 demo_filters)) demo_config
    (encode V0 demo_filters.*1 (aggregate (zip demo_filters.*1 (coverage_of <$> demo_cards)))).

Lemma check_is_fold_witness :
  ∃ i, from_cache missing_filter_fs demo_config = Ok i
    ∧ (check missing_filter_fs (demo_input x08 x00 40) i).2
      = Err (FileRead NotFound (Some "/c/revocation/2.delta")).
Proof.
  destruct (check_is_fold missing_filter_fs demo_config V0 demo_filters.*1
              (aggregate (zip demo_filters.*1 (coverage_of <$> demo_cards)))
              (demo_input x08 x00 40)) as (i & Hi & Hc).
  - solve_fits.
  - apply (bool_decide_unpack _). by vm_compute.
  - by repeat split.
  - by apply lookup_insert_eq.
  - exists i. split; [exact Hi|]. rewrite Hc. by vm_compute.
Defined.
End Instances.
