(* ===== verification/Collect.v ===== *)
(** * [revoke-test/src/bin/fetch.rs]: collecting the test data

    [main] visits the revoked-certificate test site of every root in the CCADB,
    takes its chain apart and writes the result, sorted by the roots' fingerprints.
    The network, TLS, URLs and JSON are interfaces. *)
From Stdlib Require Import Sorting.Sorted.
From stdpp Require Import pretty.
From S2P Require Import Prelude Bytes FileSys RevokeTest.

(** ** Interfaces *)

(** [webpki_ccadb::CertificateMetadata]: the fields in use. *)
Record CertificateMetadata := mkMetadata
  { sha256_fingerprint : string;
    common_name_or_certificate_name : string;
    metadata_test_website_revoked : string }.

(** [webpki_ccadb], [http], [tokio], [tokio_rustls], and the clock. *)
Class Sites := {
  SiteNet : Type;
  Uri : Type;
  TcpStream : Type;
  TlsConnector : Type;
  TlsServerName : Type;
  TlsStream : Type;
  (** [fetch_ccadb_roots().await.into_values()] *)
  fetch_ccadb_roots : SiteNet → SiteNet * list CertificateMetadata;
  (** The client configuration, from the webpki roots, without resumption. *)
  tls_connector : string + TlsConnector;
  uri_from_str : string → string + Uri;
  uri_host : Uri → option string;
  (** [port().as_u16()] *)
  uri_port : Uri → option Z;
  tcp_connect : string → SiteNet → SiteNet * (string + TcpStream);
  server_name_try_from : string → string + TlsServerName;
  tls_connect : TlsConnector → TlsServerName → TcpStream → SiteNet →
                SiteNet * (string + TlsStream);
  peer_certificates : TlsStream → option (list (list byte));
  (** Seconds since the epoch; [None] before it. *)
  system_now : SiteNet → option Z
}.

Definition ENTRUST_SUCKS : list string :=
  ["https://entrustrootcertificationauthorityec1.sectigo.com:444"].

Section Collect.
Context `{X509} `{Sites}.

Record RevocationTestSite := mkSite
  { ca_sha256_fingerprint : string;
    ca_label : string;
    test_website_revoked : string;
    site_error : option string;
    detail : option CertificateDetail }.

(** [serde_json::to_writer_pretty] of a [RevocationTestSites]. *)
Context (to_vec_pretty : list RevocationTestSite → Z → list byte)
  (io_message : IoError → string).

(** The file system, the network and the lines printed. *)
Record State := mkState { s_fs : Fs; s_net : SiteNet; s_out : list string }.

Definition on_site_net {A} (m : SiteNet → SiteNet * (string + A)) : Eff State string A := λ s,
  let '(net, r) := m (s_net s) in
  ({| s_fs := s_fs s; s_net := net; s_out := s_out s |}, of_sum r).

Definition println (line : string) : Eff State string unit := λ s,
  ({| s_fs := s_fs s; s_net := s_net s; s_out := s_out s ++ [line] |}, Ok tt).

Definition pure_result {A} (r : Result string A) : Eff State string A := eff_lift (λ _, r).

(** [dissect] *)
Definition dissect (url : string) (connector : TlsConnector) : Eff State string CertificateDetail :=
  if decide (url ∈ ENTRUST_SUCKS) then pure_result (Err "entrust cannot run a website")
  else
    url_parsed ← pure_result (of_sum (uri_from_str url));
    host ← pure_result (ok_or "no host in URL" (uri_host url_parsed));
    let port := match uri_port url_parsed with Some port => port | None => 443 end in
    tcp_stream ← on_site_net (tcp_connect (host +:+ ":" +:+ pretty port));
    server_name ← pure_result (map_err (λ e, "invalid server name: " +:+ e)
                                       (of_sum (server_name_try_from host)));
    tls_stream ← on_site_net (tls_connect connector server_name tcp_stream);
    peer_certs ← pure_result (ok_or "no peer certificates" (peer_certificates tls_stream));
    pure_result (from_chain peer_certs).

(** The outcome of an action as a value. *)
Definition catch {A} (m : Eff State string A) : Eff State string (string + A) := λ s,
  match m s with
  | (s, Ok a) => (s, Ok (inr a))
  | (s, Err e) => (s, Ok (inl e))
  | (s, Panic) => (s, Panic)
  end.

(** The body of the loop over the roots. *)
Definition visit_site (connector : TlsConnector) (metadata : CertificateMetadata)
  : Eff State string RevocationTestSite :=
  let site := {| ca_sha256_fingerprint := sha256_fingerprint metadata;
                 ca_label := common_name_or_certificate_name metadata;
                 test_website_revoked := metadata_test_website_revoked metadata;
                 site_error := None; detail := None |} in
  let url := test_website_revoked site in
  _ ← println ("processing URL: " +:+ url);
  dissected ← catch (dissect url connector);
  match dissected with
  | inr d =>
      mret {| ca_sha256_fingerprint := ca_sha256_fingerprint site; ca_label := ca_label site;
              test_website_revoked := url; site_error := None; detail := Some d |}
  | inl e =>
      _ ← println ("failed: " +:+ e);
      mret {| ca_sha256_fingerprint := ca_sha256_fingerprint site; ca_label := ca_label site;
              test_website_revoked := url; site_error := Some e; detail := None |}
  end.

Fixpoint visit_sites (connector : TlsConnector) (l : list CertificateMetadata)
  : Eff State string (list RevocationTestSite) :=
  match l with
  | [] => mret []
  | metadata :: rest =>
      site ← visit_site connector metadata;
      sites ← visit_sites connector rest;
      mret (site :: sites)
  end.

(** [sites.sort_by(..)], stable, on the bytes of the fingerprints. *)
Definition site_cmp (a b : RevocationTestSite) : comparison :=
  bytes_cmp (as_bytes (ca_sha256_fingerprint a)) (as_bytes (ca_sha256_fingerprint b)).
Fixpoint insert_site (x : RevocationTestSite) (l : list RevocationTestSite)
  : list RevocationTestSite :=
  match l with
  | [] => [x]
  | y :: l' => match site_cmp x y with
               | Gt => y :: insert_site x l'
               | _ => x :: l
               end
  end.
Definition sort_sites (l : list RevocationTestSite) : list RevocationTestSite :=
  foldr insert_site [] l.

(** [File::create] *)
Definition file_create (p : string) : Eff Fs IoError unit := λ fs,
  match guard_op fs OpOpen p
          (if bool_decide (p ∈ dirs fs) then Err IsADirectory
           else if parent_exists fs p then Ok tt else Err NotFound) with
  | Ok _ => (set_files <[p := []]> fs, Ok tt)
  | Err e => (fs, Err e)
  | Panic => (fs, Panic)
  end.

Definition on_site_fs {A} (m : Eff Fs IoError A) : Eff State string A := λ s,
  let '(fs, r) := m (s_fs s) in
  ({| s_fs := fs; s_net := s_net s; s_out := s_out s |}, map_err io_message r).

Definition OUTPUT : string := "test-sites.json".

(** [main] *)
Definition main : Eff State string unit :=
  connector ← pure_result (map_err (λ e, "failed to set protocol versions: " +:+ e)
                                   (of_sum tls_connector));
  metadata ← on_site_net (λ net, let '(net, l) := fetch_ccadb_roots net in (net, inr l));
  sites ← visit_sites connector metadata;
  let sites := sort_sites sites in
  _ ← on_site_fs (file_create OUTPUT);
  timestamp ← eff_lift (λ s, or_panic (system_now (s_net s)));
  on_site_fs (write_all OUTPUT (to_vec_pretty sites timestamp)).

(** ** Theorems *)

(** The chain that the test site of [url] serves, from a state [net] of the network. *)
Record served (connector : TlsConnector) (url : string) (net : SiteNet)
    (chain : list (list byte)) : Prop := {
  served_allowed : url ∉ ENTRUST_SUCKS;
  served_over : ∃ uri host net1 tcp name net2 tls,
    uri_from_str url = inr uri ∧ uri_host uri = Some host
    ∧ tcp_connect (host +:+ ":" +:+ pretty (default 443 (uri_port uri))) net = (net1, inr tcp)
    ∧ server_name_try_from host = inr name
    ∧ tls_connect connector name tcp net1 = (net2, inr tls)
    ∧ peer_certificates tls = Some chain }.

(** What a site says of its root, visited in the state [st]: what it is, and either the
    details of the chain that its test site served or the error met. *)
Record describes (connector : TlsConnector) (st : State) (m : CertificateMetadata)
    (s : RevocationTestSite) : Prop := {
  described : ca_sha256_fingerprint s = sha256_fingerprint m
              ∧ ca_label s = common_name_or_certificate_name m
              ∧ test_website_revoked s = metadata_test_website_revoked m;
  detailed d : detail s = Some d ↔
    ∃ chain, served connector (metadata_test_website_revoked m) (s_net st) chain
             ∧ from_chain chain = Ok d;
  failed_with e : site_error s = Some e ↔
    (dissect (metadata_test_website_revoked m) connector st).2 = Err e;
  either_way : is_Some (detail s) ↔ site_error s = None }.

(** The roots one after the other, each in the state that the visits before it left. *)
Inductive visits (connector : TlsConnector)
  : State → list CertificateMetadata → list RevocationTestSite → Prop :=
| visits_nil st : visits connector st [] []
| visits_cons st m ms s ss :
    describes connector st m s → visits connector (visit_site connector m st).1 ms ss →
    visits connector st (m :: ms) (s :: ss).

Lemma on_site_net_fs {A} (m : SiteNet → SiteNet * (string + A)) s :
  s_fs (on_site_net m s).1 = s_fs s.
Proof. unfold on_site_net. by destruct (m (s_net s)). Qed.

(** Actions that leave the files alone. *)
Definition keeps_files {A} (m : Eff State string A) : Prop := ∀ s, s_fs (m s).1 = s_fs s.

Lemma keeps_files_bind {A B} (m : Eff State string A) (k : A → Eff State string B) :
  keeps_files m → (∀ a, keeps_files (k a)) → keeps_files (m ≫= k).
Proof.
  intros Hm Hk s. unfold mbind, eff_bind. specialize (Hm s).
  destruct (m s) as [s' [a|e|]]; cbn in *; [by rewrite Hk|done..].
Qed.

Lemma keeps_files_pure {A} (r : Result string A) : keeps_files (pure_result r).
Proof. done. Qed.
Lemma keeps_files_net {A} (m : SiteNet → SiteNet * (string + A)) : keeps_files (on_site_net m).
Proof. intros s. apply on_site_net_fs. Qed.
#[local] Hint Resolve keeps_files_pure keeps_files_net : core.

Lemma dissect_keeps_files url connector : keeps_files (dissect url connector).
Proof.
  unfold dissect. case_decide; [done|].
  repeat (apply keeps_files_bind; [done|intros ?]). done.
Qed.

(** [dissect] succeeds with the details of the chain served. *)
Lemma dissect_ok url connector st d :
  (dissect url connector st).2 = Ok d ↔
  ∃ chain, served connector url (s_net st) chain ∧ from_chain chain = Ok d.
Proof.
  unfold dissect, mbind, eff_bind, pure_result, eff_lift, on_site_net. split.
  - case_decide as Hin; [done|].
    destruct (uri_from_str url) as [e|uri] eqn:Hu; cbn; [done|].
    destruct (uri_host uri) as [host|] eqn:Hh; cbn; [|done].
    destruct (tcp_connect _ _) as [net1 [e|tcp]] eqn:Ht; cbn; [done|].
    destruct (server_name_try_from host) as [e|name] eqn:Hn; cbn; [done|].
    destruct (tls_connect _ _ _ _) as [net2 [e|tls]] eqn:Hs; cbn; [done|].
    destruct (peer_certificates tls) as [chain|] eqn:Hp; cbn; [|done].
    intros Hd. exists chain. split; [|done]. split; [done|].
    exists uri, host, net1, tcp, name, net2, tls. do 2 (split; [done|]).
    split; [|done]. rewrite <- Ht. by destruct (uri_port uri).
  - intros (chain & [Hin (uri & host & net1 & tcp & name & net2 & tls & Hu & Hh & Ht & Hn & Hs & Hp)] & Hd).
    rewrite decide_False by done. rewrite Hu. cbn. rewrite Hh. cbn.
    replace (match uri_port uri with Some port => port | None => 443 end)
      with (default 443 (uri_port uri)) by by destruct (uri_port uri).
    rewrite Ht. cbn. rewrite Hn. cbn. rewrite Hs. cbn. rewrite Hp. cbn. exact Hd.
Qed.

(** What is printed does not matter to it. *)
Lemma dissect_out url connector st out :
  (dissect url connector {| s_fs := s_fs st; s_net := s_net st; s_out := out |}).2
  = (dissect url connector st).2.
Proof.
  unfold dissect. case_decide; [done|].
  unfold mbind, eff_bind, pure_result, eff_lift, on_site_net. cbn.
  destruct (uri_from_str url); cbn; [done|]. destruct (uri_host _); cbn; [|done].
  destruct (tcp_connect _ _) as [? []]; cbn; [done|].
  destruct (server_name_try_from _); cbn; [done|].
  destruct (tls_connect _ _ _ _) as [? []]; cbn; [done|]. by destruct (peer_certificates _).
Qed.

Lemma visit_site_spec connector m st :
  s_fs (visit_site connector m st).1 = s_fs st
  ∧ ∀ site, (visit_site connector m st).2 = Ok site → describes connector st m site.
Proof.
  unfold visit_site, mbind, eff_bind, catch, println. cbv zeta.
  pose proof (dissect_keeps_files (metadata_test_website_revoked m) connector) as Hd.
  cbn [test_website_revoked].
  match goal with |- context [dissect _ _ {| s_fs := _; s_net := _; s_out := ?o |}] =>
    pose proof (dissect_out (metadata_test_website_revoked m) connector st o) as Ho end.
  match goal with |- context [dissect _ _ ?s'] => specialize (Hd s') end.
  destruct (dissect _ _ {| s_fs := _ |}) as [s' [d|e|]]; cbn in *; (split; [done|]); intros site; [..|done];
    intros [= <-]; (split; [done|..]); cbn.
  - intros d'. rewrite <- dissect_ok, <- Ho. naive_solver.
  - rewrite <- Ho. naive_solver.
  - split; [done|by eexists].
  - intros d'. rewrite <- dissect_ok, <- Ho. naive_solver.
  - rewrite <- Ho. naive_solver.
  - split; [by intros []|done].
Qed.

Lemma visit_sites_spec connector l st :
  s_fs (visit_sites connector l st).1 = s_fs st
  ∧ ∀ sites, (visit_sites connector l st).2 = Ok sites → visits connector st l sites.
Proof.
  revert st. induction l as [|m l IH]; intros st; cbn [visit_sites].
  { split; [done|]. intros sites [= <-]. constructor. }
  unfold mbind, eff_bind. destruct (visit_site_spec connector m st) as [Hf Hd].
  destruct (visit_site connector m st) as [s1 [site|e|]] eqn:E; cbn in *; [|done..].
  destruct (IH s1) as [Hf1 Hd1]. destruct (visit_sites connector l s1) as [s2 [sites|e|]];
    cbn in *; (split; [congruence|]); intros ss; [|done..].
  intros [= <-]. constructor; [by auto|]. rewrite E. auto.
Qed.

Lemma visits_length connector st l sites : visits connector st l sites → length l = length sites.
Proof. induction 1 as [|st m ms s ss _ _ IH]; cbn; [done|by rewrite IH]. Qed.

Definition site_le (a b : RevocationTestSite) : Prop := site_cmp a b ≠ Gt.

Lemma site_le_trans a b c : site_le a b → site_le b c → site_le a c.
Proof.
  unfold site_le, site_cmp. set (x := as_bytes _). set (y := as_bytes _). set (z := as_bytes _).
  intros H1 H2 H3. apply H2. apply bytes_cmp_lt_gt in H3. apply bytes_cmp_lt_gt.
  destruct (bytes_cmp x y) eqn:E; [| |by destruct H1].
  - apply bytes_cmp_eq in E. by rewrite <- E.
  - by eapply bytes_cmp_lt_trans.
Qed.

Lemma insert_site_perm x l : insert_site x l ≡ₚ x :: l.
Proof.
  induction l as [|y l IH]; cbn [insert_site]; [done|].
  destruct (site_cmp x y); [done..|]. rewrite IH. constructor.
Qed.

Lemma insert_site_sorted x l : StronglySorted site_le l → StronglySorted site_le (insert_site x l).
Proof.
  induction l as [|y l IH]; intros Hs; cbn [insert_site]; [repeat constructor|].
  apply StronglySorted_inv in Hs as [Hs Hy].
  assert (site_le x y → StronglySorted site_le (x :: y :: l)) as Hle.
  { intros Hxy. constructor; [by constructor|]. constructor; [done|].
    eapply Forall_impl; [exact Hy|]. intros z. by apply site_le_trans. }
  destruct (site_cmp x y) eqn:E; [apply Hle; unfold site_le; congruence..|].
  constructor; [by apply IH|]. rewrite insert_site_perm. constructor; [|done].
  unfold site_le, site_cmp in *. apply bytes_cmp_lt_gt in E. by rewrite E.
Qed.

Lemma sort_sites_spec l : sort_sites l ≡ₚ l ∧ StronglySorted site_le (sort_sites l).
Proof.
  induction l as [|x l [Hp Hs]]; cbn [sort_sites foldr]; [split; [done|constructor]|].
  split; [by rewrite insert_site_perm, Hp|by apply insert_site_sorted].
Qed.

(** C28: A collection that succeeds writes one entry per root, sorted by fingerprint: with
    the details of the chain that its test site served when it was visited, or the error
    met; and no other file changes, whether it succeeds or not. *)
Theorem collection_complete st :
  (∀ p, p ≠ OUTPUT → files (s_fs (main st).1) !! p = files (s_fs st) !! p)
  ∧ ((main st).2 = Ok tt →
     ∃ connector sites now, let '(net, roots) := fetch_ccadb_roots (s_net st) in
       tls_connector = inr connector
       ∧ files (s_fs (main st).1) !! OUTPUT = Some (to_vec_pretty sites now)
       ∧ StronglySorted site_le sites
       ∧ ∃ unsorted, sites ≡ₚ unsorted
           ∧ visits connector (mkState (s_fs st) net (s_out st)) roots unsorted).
Proof.
  unfold main, mbind, eff_bind, pure_result, eff_lift, on_site_net.
  destruct tls_connector as [e|connector]; cbn [of_sum map_err]; [done|].
  destruct (fetch_ccadb_roots (s_net st)) as [net roots]. cbn [of_sum snd].
  set (s1 := mkState _ _ _). destruct (visit_sites_spec connector roots s1) as [Hf Hd].
  destruct (visit_sites connector roots s1) as [s2 [sites|e|]]; cbn [fst snd] in *;
    [|split; [intros p _; by rewrite Hf|done]..].
  cbn [s_fs s1] in Hf. specialize (Hd sites eq_refl).
  unfold on_site_fs, file_create. rewrite Hf.
  destruct (guard_op _ _ _ _) as [u|e|]; cbn [map_err fst snd s_fs]; [|split; [done|done]..].
  destruct (system_now _) as [now|]; cbn [or_panic fst snd s_fs].
  2: { split; [|done]. intros p Hp. cbn. by apply lookup_insert_ne. }
  unfold write_all. destruct (faults _ OpWrite OUTPUT); cbn [map_err fst snd s_fs].
  { split; [|done]. intros p Hp. cbn. by apply lookup_insert_ne. }
  split. { intros p Hp. cbn. by rewrite !lookup_insert_ne. }
  intros _. destruct (sort_sites_spec sites) as [Hp Hs].
  exists connector, (sort_sites sites), now. split; [done|]. split; [cbn; by rewrite lookup_insert_eq|].
  split; [done|]. by exists sites.
Qed.
End Collect.

(** ** Instances *)

(** Two roots; the chain of the second is the demo chain of [RevokeTest]. *)
Definition demo_sites : Sites := {|
  SiteNet := nat;
  Uri := string;
  TcpStream := string;
  TlsConnector := unit;
  TlsServerName := string;
  TlsStream := string;
  fetch_ccadb_roots n := (S n, [mkMetadata "b" "B" "https://b"; mkMetadata "a" "A" "https://a"]);
  tls_connector := inr tt;
  uri_from_str := inr;
  uri_host url := if decide (url = "https://b") then None else Some "a";
  uri_port _ := None;
  tcp_connect addr n := (S n, if decide (addr = "a:443") then inr addr else inl "refused");
  server_name_try_from := inr;
  tls_connect _ name _ n := (S n, inr name);
  peer_certificates _ := Some [RevokeTestDemo.ee; [x01]];
  system_now n := Some (Z.of_nat n)
|}.

Definition demo_state : @State demo_sites :=
  @mkState demo_sites (mkFs ∅ ∅ (λ _ _, None) id) 0%nat [].
Definition demo_json_sites (l : list (@RevocationTestSite)) (now : Z) : list byte :=
  as_bytes (String.concat "," (ca_sha256_fingerprint <$> l)).
Definition demo_main :=
  @main RevokeTestDemo.demo_x509 demo_sites demo_json_sites (λ _, "io").

(** The site of the first root has no host; that of the second serves the demo chain. *)
Lemma collection_complete_witness :
  ∃ sites now,
    files (s_fs (demo_main demo_state).1) !! OUTPUT = Some (demo_json_sites sites now)
    ∧ length sites = 2%nat
    ∧ ∃ site d, site ∈ sites ∧ detail site = Some d
        ∧ @from_chain RevokeTestDemo.demo_x509 [RevokeTestDemo.ee; [x01]] = Ok d.
Proof.
  destruct (@collection_complete RevokeTestDemo.demo_x509 demo_sites demo_json_sites (λ _, "io") demo_state)
    as [_ Hok].
  destruct Hok as (connector & sites & now & _ & Hf & _ & unsorted & Hp & Hu); [by vm_compute|].
  exists sites, now. split; [exact Hf|].
  pose proof (visits_length _ _ _ _ Hu) as Hl. split; [rewrite Hp; symmetry; exact Hl|].
  inversion Hu as [|st1 m1 ms1 s1 ss1 _ Hu1]; subst.
  inversion Hu1 as [|st2 m2 ms2 s2 ss2 Hd2 _]; subst.
  destruct (@from_chain RevokeTestDemo.demo_x509 [RevokeTestDemo.ee; [x01]]) as [d|e|] eqn:E;
    [|exfalso; vm_compute in E; discriminate..].
  exists s2, d. split; [rewrite Hp; right; left|]. split; [|done].
  apply (detailed _ _ _ _ Hd2 d). eexists. split; [|exact E]. split; [by intros ?%list_elem_of_singleton|].
  eexists _, _, _, _, _, _, _. repeat split.
Defined.
