(* ===== verification/Ffi.v ===== *)
(** * [upki/src/ffi.rs]: the C interface

    Configurations live behind pointers handed to C: [Heap] maps a live pointer to
    the configuration boxed there.  A null pointer is [None].  Reading a pointer
    that is not live is undefined behaviour, which the contract of the functions
    excludes: [None] as a result. *)
From S2P Require Import Prelude Bytes FileSys External Revocation Config Index IndexSafe Demo.

(** ** Result codes *)

Inductive upki_result : Type :=
| UPKI_OK
| UPKI_REVOCATION_NOT_COVERED
| UPKI_REVOCATION_REVOKED
| UPKI_REVOCATION_NOT_REVOKED
| UPKI_ERR_NULL_POINTER
| UPKI_ERR_CONFIG_PATH
| UPKI_ERR_UNKNOWN
| UPKI_ERR_PANICKED
| UPKI_ERR_CONFIG_DECODE
| UPKI_ERR_CONFIG_READ
| UPKI_ERR_NO_CACHE_DIR
| UPKI_ERR_NO_CONFIG_DIR
| UPKI_ERR_NO_HOME_DIR
| UPKI_ERR_REVOCATION_CREATE_DIR
| UPKI_ERR_REVOCATION_FILE_WRITE
| UPKI_ERR_REVOCATION_FILE_DECODE
| UPKI_ERR_REVOCATION_FILE_READ
| UPKI_ERR_REVOCATION_HASH_MISMATCH
| UPKI_ERR_REVOCATION_HTTP_FETCH
| UPKI_ERR_REVOCATION_INVALID_BASE64
| UPKI_ERR_REVOCATION_INVALID_END_ENTITY_CERT
| UPKI_ERR_REVOCATION_INVALID_INTERMEDIATE_CERT
| UPKI_ERR_REVOCATION_INVALID_LENGTH
| UPKI_ERR_REVOCATION_INVALID_SCT_ENCODING
| UPKI_ERR_REVOCATION_INVALID_SCT_IN_CERT
| UPKI_ERR_REVOCATION_INVALID_TIMESTAMP
| UPKI_ERR_REVOCATION_MANIFEST_ENCODE
| UPKI_ERR_REVOCATION_NO_ISSUER
| UPKI_ERR_REVOCATION_OUTDATED
| UPKI_ERR_REVOCATION_REMOVE_FILE
| UPKI_ERR_REVOCATION_TOO_FEW_CERTS.

#[export] Instance upki_result_eq_dec : EqDecision upki_result.
Proof. solve_decision. Defined.

(** The discriminants. *)
Definition code (r : upki_result) : Z :=
  match r with
  | UPKI_OK => 0
  | UPKI_REVOCATION_NOT_COVERED => 1
  | UPKI_REVOCATION_REVOKED => 2
  | UPKI_REVOCATION_NOT_REVOKED => 3
  | UPKI_ERR_NULL_POINTER => 16
  | UPKI_ERR_CONFIG_PATH => 17
  | UPKI_ERR_UNKNOWN => 18
  | UPKI_ERR_PANICKED => 19
  | UPKI_ERR_CONFIG_DECODE => 32
  | UPKI_ERR_CONFIG_READ => 33
  | UPKI_ERR_NO_CACHE_DIR => 34
  | UPKI_ERR_NO_CONFIG_DIR => 35
  | UPKI_ERR_NO_HOME_DIR => 36
  | UPKI_ERR_REVOCATION_CREATE_DIR => 64
  | UPKI_ERR_REVOCATION_FILE_WRITE => 65
  | UPKI_ERR_REVOCATION_FILE_DECODE => 66
  | UPKI_ERR_REVOCATION_FILE_READ => 67
  | UPKI_ERR_REVOCATION_HASH_MISMATCH => 68
  | UPKI_ERR_REVOCATION_HTTP_FETCH => 69
  | UPKI_ERR_REVOCATION_INVALID_BASE64 => 70
  | UPKI_ERR_REVOCATION_INVALID_END_ENTITY_CERT => 71
  | UPKI_ERR_REVOCATION_INVALID_INTERMEDIATE_CERT => 72
  | UPKI_ERR_REVOCATION_INVALID_LENGTH => 73
  | UPKI_ERR_REVOCATION_INVALID_SCT_ENCODING => 74
  | UPKI_ERR_REVOCATION_INVALID_SCT_IN_CERT => 75
  | UPKI_ERR_REVOCATION_INVALID_TIMESTAMP => 76
  | UPKI_ERR_REVOCATION_MANIFEST_ENCODE => 77
  | UPKI_ERR_REVOCATION_NO_ISSUER => 78
  | UPKI_ERR_REVOCATION_OUTDATED => 79
  | UPKI_ERR_REVOCATION_REMOVE_FILE => 80
  | UPKI_ERR_REVOCATION_TOO_FEW_CERTS => 81
  end.

(** [impl From<Error> for upki_result] *)
Definition from_error (err : LibError.t) : upki_result :=
  match err with
  | LibError.ConfigError _ _ => UPKI_ERR_CONFIG_DECODE
  | LibError.FileRead _ _ => UPKI_ERR_CONFIG_READ
  | LibError.NoCacheDirectoryFound => UPKI_ERR_NO_CACHE_DIR
  | LibError.NoConfigDirectoryFound => UPKI_ERR_NO_CONFIG_DIR
  | LibError.NoValidHomeDirectory => UPKI_ERR_NO_HOME_DIR
  | LibError.Revocation (CreateDirectory _ _) => UPKI_ERR_REVOCATION_CREATE_DIR
  | LibError.Revocation (FileWrite _ _) => UPKI_ERR_REVOCATION_FILE_WRITE
  | LibError.Revocation (FileDecode _ _) => UPKI_ERR_REVOCATION_FILE_DECODE
  | LibError.Revocation (FileRead _ _) => UPKI_ERR_REVOCATION_FILE_READ
  | LibError.Revocation (HashMismatch _) => UPKI_ERR_REVOCATION_HASH_MISMATCH
  | LibError.Revocation (HttpFetch _ _) => UPKI_ERR_REVOCATION_HTTP_FETCH
  | LibError.Revocation (InvalidBase64 _ _) => UPKI_ERR_REVOCATION_INVALID_BASE64
  | LibError.Revocation (InvalidEndEntityCertificate _) =>
      UPKI_ERR_REVOCATION_INVALID_END_ENTITY_CERT
  | LibError.Revocation (InvalidIntermediateCertificate _ _) =>
      UPKI_ERR_REVOCATION_INVALID_INTERMEDIATE_CERT
  | LibError.Revocation (InvalidLength _ _ _) => UPKI_ERR_REVOCATION_INVALID_LENGTH
  | LibError.Revocation InvalidSctEncoding => UPKI_ERR_REVOCATION_INVALID_SCT_ENCODING
  | LibError.Revocation (InvalidSctInCertificate _) => UPKI_ERR_REVOCATION_INVALID_SCT_IN_CERT
  | LibError.Revocation (InvalidTimestamp _ _) => UPKI_ERR_REVOCATION_INVALID_TIMESTAMP
  | LibError.Revocation (ManifestEncode _ _) => UPKI_ERR_REVOCATION_MANIFEST_ENCODE
  | LibError.Revocation NoIssuer => UPKI_ERR_REVOCATION_NO_ISSUER
  | LibError.Revocation (Outdated _) => UPKI_ERR_REVOCATION_OUTDATED
  | LibError.Revocation (RemoveFile _ _) => UPKI_ERR_REVOCATION_REMOVE_FILE
  | LibError.Revocation TooFewCertificates => UPKI_ERR_REVOCATION_TOO_FEW_CERTS
  | _ => UPKI_ERR_UNKNOWN
  end.

(** ** The functions *)

Notation Heap := (gmap positive Config).

(** [catch_unwind(..).unwrap_or(UPKI_ERR_PANICKED)] on a closure that returns a
    code: its errors are codes, its panics are caught. *)
Definition catch_unwind (r : Result upki_result upki_result) : upki_result :=
  match r with Ok c => c | Err c => c | Panic => UPKI_ERR_PANICKED end.

Definition status_result (s : RevocationStatus) : upki_result :=
  match s with
  | NotCoveredByRevocationData => UPKI_REVOCATION_NOT_COVERED
  | CertainlyRevoked => UPKI_REVOCATION_REVOKED
  | NotRevoked => UPKI_REVOCATION_NOT_REVOKED
  end.

Section Api.
Context `{Webpki} `{Clubcard} `{Directories} `{Toml}.

(** What the closure of [upki_check_revocation] does with live arguments. *)
Definition check_certificates (fs : Fs) (config : Config) (certs : list (list byte))
  : Result upki_result upki_result :=
  input ← map_err (λ err, from_error (LibError.Revocation err)) (from_certificates certs);
  index ← map_err (λ err, from_error (LibError.Revocation err)) (from_cache fs config);
  status ← map_err (λ err, from_error (LibError.Revocation err)) (check fs input index).2;
  Ok (status_result status).

Definition upki_check_revocation (heap : Heap) (fs : Fs) (config : option positive)
    (certificates : option (list (list byte))) : option upki_result :=
  match config, certificates with
  | None, _ | _, None => Some UPKI_ERR_NULL_POINTER
  | Some config, Some certificates =>
      config ← heap !! config;
      Some (catch_unwind (check_certificates fs config certificates))
  end.

(** [upki_config_new]: the heap after it, the code, and what is written to [out];
    [path] is the bytes of a C string. *)
Definition upki_config_new (platform : Platform) (fs : Fs) (path : option (list byte))
    (out_is_null : bool) : Heap → Heap * upki_result * option positive := λ heap,
  if out_is_null then (heap, UPKI_ERR_NULL_POINTER, None)
  else
    let config :=
      path ← match path with
             | None => map_err from_error (config_path_new platform fs None)
             | Some path =>
                 path ← ok_or UPKI_ERR_CONFIG_PATH (from_utf8 path);
                 Ok (Specified path)
             end;
      map_err from_error (from_file_or_user_default platform fs path) in
    match config with
    | Ok config =>
        let p := fresh (dom heap) in (<[p := config]> heap, UPKI_OK, Some p)
    | Err c => (heap, c, None)
    | Panic => (heap, UPKI_ERR_PANICKED, None)
    end.

(** [upki_config_free]: [None] is freeing a pointer that is not live. *)
Definition upki_config_free (config : option positive) (heap : Heap) : option Heap :=
  match config with
  | None => Some heap
  | Some config => _ ← heap !! config; Some (delete config heap)
  end.

(** ** Theorems *)

Lemma from_error_code e : 16 ≤ code (from_error e).
Proof. by destruct e as [| | | | |[]]. Qed.

Lemma status_result_inj s : status_result s = UPKI_REVOCATION_REVOKED ↔ s = CertainlyRevoked.
Proof. by destruct s. Qed.

(** The codes of a check: below 16 exactly when the library's check returns a
    status, which the code then names; and never [UPKI_OK]. *)
Theorem check_revocation_codes heap fs p config certs :
  heap !! p = Some config →
  ∃ r, upki_check_revocation heap fs (Some p) (Some certs) = Some r
    ∧ r ≠ UPKI_OK
    ∧ ((code r < 16 ∧ ∃ input index s,
          from_certificates certs = Ok input ∧ from_cache fs config = Ok index
          ∧ (check fs input index).2 = Ok s ∧ r = status_result s)
       ∨ (16 ≤ code r ∧ ¬ ∃ input index s,
          from_certificates certs = Ok input ∧ from_cache fs config = Ok index
          ∧ (check fs input index).2 = Ok s)).
Proof.
  intros Hp. unfold upki_check_revocation. rewrite Hp. cbn [mbind option_bind].
  eexists. split; [done|]. unfold check_certificates.
  assert (∀ e, from_error e ≠ UPKI_OK) as Hne by by intros [| | | | |[]].
  destruct (from_certificates certs) as [input|e|]; cbn [map_err mbind result_bind catch_unwind].
  2, 3: split; [done || apply Hne|right; split; [done || apply from_error_code|by intros (? & ? & ? & ? & _)]].
  destruct (from_cache fs config) as [index|e|]; cbn [map_err mbind result_bind catch_unwind].
  2, 3: split; [done || apply Hne|right; split; [done || apply from_error_code|by intros (? & ? & ? & _ & ? & _)]].
  destruct (check fs input index).2 as [s|e|] eqn:E; cbn [map_err mbind result_bind catch_unwind].
  2, 3: split; [done || apply Hne|right; split; [done || apply from_error_code|]];
        intros (? & ? & ? & [= <-] & [= <-] & Hs); congruence.
  split; [by destruct s|]. left. split; [by destruct s|].
  by exists input, index, s.
Qed.

(** The only library error without a code of its own is a corrupt index. *)
Theorem unknown_code_is_index_decode (e : LibError.t) :
  from_error e = UPKI_ERR_UNKNOWN ↔ ∃ d, e = LibError.Revocation (IndexDecode d).
Proof.
  split; [|by intros [d ->]]. destruct e as [| | | | |[]]; try done. by eexists.
Qed.

(** Where [upki_config_new] leaves the heap. *)
Lemma config_new_heap platform fs path out_is_null heap :
  match upki_config_new platform fs path out_is_null heap with
  | (heap', r, Some p) =>
      r = UPKI_OK ∧ heap !! p = None ∧ upki_config_free (Some p) heap' = Some heap
      ∧ ∃ config cp, heap' = <[p := config]> heap
          ∧ from_file_or_user_default platform fs cp = Ok config
          ∧ match path with
            | None => config_path_new platform fs None = Ok cp
            | Some bytes => ∃ s, from_utf8 bytes = Some s ∧ cp = Specified s
            end
  | (heap', r, None) => heap' = heap ∧ 16 ≤ code r
  end.
Proof.
  unfold upki_config_new. destruct out_is_null; [done|].
  assert (∀ (cp : ConfigPath) config,
    from_file_or_user_default platform fs cp = Ok config →
    let p := fresh (dom heap) in
    heap !! p = None ∧ upki_config_free (Some p) (<[p := config]> heap) = Some heap) as Hnew.
  { intros cp config _ p. assert (heap !! p = None) as Hp.
    { apply not_elem_of_dom, is_fresh. }
    split; [done|]. unfold upki_config_free. rewrite lookup_insert_eq.
    cbn [mbind option_bind]. by rewrite delete_insert_id. }
  destruct path as [bytes|].
  - destruct (from_utf8 bytes) as [s|]; cbn [ok_or mbind result_bind]; [|done].
    destruct (from_file_or_user_default platform fs _) as [config|e|] eqn:E;
      cbn [map_err]; [|split; [done|apply from_error_code]|done].
    destruct (Hnew _ _ E) as [? ?]. split; [done|]. split; [done|]. split; [done|].
    exists config, (Specified s). eauto.
  - destruct (config_path_new platform fs None) as [cp|e|] eqn:Ec;
      cbn [map_err mbind result_bind]; [|split; [done|apply from_error_code]|done].
    destruct (from_file_or_user_default platform fs cp) as [config|e|] eqn:E;
      cbn [map_err]; [|split; [done|apply from_error_code]|done].
    destruct (Hnew _ _ E) as [? ?]. split; [done|]. split; [done|]. split; [done|].
    exists config, cp. eauto.
Qed.

(** The life of a configuration: on success [upki_config_new] writes a pointer
    that was not live and now holds the configuration loaded, and freeing it
    restores the heap; on failure nothing is written or allocated. *)
Theorem config_lifecycle platform fs path out_is_null heap :
  match upki_config_new platform fs path out_is_null heap with
  | (heap', r, Some p) =>
      r = UPKI_OK ∧ heap !! p = None ∧ upki_config_free (Some p) heap' = Some heap
      ∧ ∃ config cp, heap' = <[p := config]> heap
          ∧ from_file_or_user_default platform fs cp = Ok config
          ∧ match path with
            | None => config_path_new platform fs None = Ok cp
            | Some bytes => ∃ s, from_utf8 bytes = Some s ∧ cp = Specified s
            end
  | (heap', r, None) => heap' = heap ∧ 16 ≤ code r
  end.
Proof. apply config_new_heap. Qed.
End Api.

(** ** Instances *)

Section Instances.
#[local] Existing Instance demo_webpki.
#[local] Existing Instance demo_clubcard.

Lemma check_revocation_codes_witness :
  ∃ r, upki_check_revocation {[1%positive := demo_config]} (demo_fs []) (Some 1%positive) (Some [])
       = Some r ∧ r = UPKI_ERR_REVOCATION_TOO_FEW_CERTS.
Proof.
  destruct (check_revocation_codes {[1%positive := demo_config]} (demo_fs []) 1%positive
              demo_config [] ltac:(by vm_compute)) as (r & Hr & _).
  exists r. split; [exact Hr|]. vm_compute in Hr. by injection Hr as <-.
Defined.
End Instances.
