(* ===== verification/OpenSsl.v ===== *)
(** * [upki-openssl/src/lib.rs]: the OpenSSL callback

    The callback and the configuration an [SSL_CTX] owns, over the heap of [Ffi].
    What OpenSSL holds and answers is an argument: the fields of a store context
    and of a stack are the results of the functions that the code calls on them.
    [None] as the result of an operation is undefined behaviour. *)
From S2P Require Import Prelude Bytes FileSys External Revocation Config Index Demo Ffi.

Definition X509_V_ERR_CERT_REVOKED : Z := 23.
Definition X509_V_ERR_APPLICATION_VERIFICATION : Z := 50.

(** ** What OpenSSL answers *)

(** An [X509]: the length [i2d_X509] returns, and the buffer it allocates, if any. *)
Record X509 := mkX509 { i2d_len : Z; i2d_ptr : option (list byte) }.

(** A stack: [OPENSSL_sk_num], and the elements [OPENSSL_sk_value] finds, of which
    some may be NULL. *)
Record X509Stack := mkStack { sk_num : Z; sk_values : list (option X509) }.
Definition sk_value (s : X509Stack) (i : nat) : option X509 :=
  match sk_values s !! i with Some x => x | None => None end.

(** A store context: [X509_STORE_CTX_get_error_depth] and [_get0_chain], the error
    set, and its ex data: the [SSL], when there is one, with its [SSL_CTX], of which
    we keep the slot of the configuration. *)
Record StoreCtx := mkStoreCtx
  { error_depth : Z;
    chain : option X509Stack;
    error : option Z;
    ssl : option (option (option positive)) }.

Definition set_error (err : Z) (x : StoreCtx) : StoreCtx :=
  {| error_depth := error_depth x; chain := chain x; error := Some err; ssl := ssl x |}.

(** [UPKI_SSL_CTX_CONFIG_INDEX], from what [CRYPTO_get_ex_new_index] returned. *)
Definition config_index (new_index : Z) : option Z :=
  if new_index =? -1 then None else Some new_index.

(** [BorrowedX509StoreCtx::ssl_ctx]: the slot of the [SSL_CTX]. *)
Definition ssl_ctx (x : StoreCtx) : option (option positive) :=
  match ssl x with None => None | Some ctx => ctx end.

(** [BorrowedX509StoreCtx::upki_config_from_ssl_ctx] *)
Definition upki_config_from_ssl_ctx (index : option Z) (x : StoreCtx) : option positive :=
  match ssl_ctx x, index with
  | Some slot, Some _ => slot
  | _, _ => None
  end.

(** [x509_to_certificate_der] *)
Definition x509_to_certificate_der (x509 : X509) : option (list byte) :=
  if i2d_len x509 <=? 0 then None
  else match i2d_ptr x509 with
  | None => None
  | Some ptr => Some (take (Z.to_nat (i2d_len x509)) ptr)
  end.

(** The loop of [copy_certs], with [n] elements to go. *)
Fixpoint copy_loop (self : X509Stack) (n i : nat) : option (list (list byte)) :=
  match n with
  | O => Some []
  | S n' =>
      x509 ← sk_value self i;
      cert ← x509_to_certificate_der x509;
      certs ← copy_loop self n' (S i);
      Some (cert :: certs)
  end.

(** [BorrowedX509Stack::copy_certs] *)
Definition copy_certs (self : X509Stack) : option (list (list byte)) :=
  if sk_num self <? 0 then None else copy_loop self (Z.to_nat (sk_num self)) 0.

(** [UpkiConfig] *)
Inductive UpkiConfig : Type :=
| FromContext (config : positive)
| Owned (config : positive).

Definition as_ptr (c : UpkiConfig) : positive :=
  match c with FromContext p => p | Owned p => p end.

(** [impl Drop for UpkiConfig] *)
Definition drop_config (c : UpkiConfig) (heap : Heap) : option Heap :=
  match c with FromContext _ => Some heap | Owned p => upki_config_free (Some p) heap end.

Section Callback.
Context `{Webpki} `{Clubcard} `{Directories} `{Toml} (platform : Platform) (index : option Z).

(** [UpkiConfig::new] *)
Definition upki_config (fs : Fs) (x : StoreCtx) (heap : Heap) : Heap * option UpkiConfig :=
  match upki_config_from_ssl_ctx index x with
  | Some p => (heap, Some (FromContext p))
  | None =>
      let '(heap, _, out) := upki_config_new platform fs None false heap in
      (heap, Owned <$> out)
  end.

(** [upki_openssl_verify_callback]: the heap and the store context after it, and
    what it returns.  The configuration is dropped on every way out. *)
Definition upki_openssl_verify_callback (fs : Fs) (preverify_ok : Z)
    (x509_ctx : option StoreCtx) (heap : Heap) : option (Heap * option StoreCtx * Z) :=
  if preverify_ok =? 0 then Some (heap, x509_ctx, preverify_ok)
  else match x509_ctx with
  | None => Some (heap, None, 0)
  | Some x =>
      if negb (error_depth x =? 0) then Some (heap, Some x, preverify_ok)
      else match chain x with
      | None => Some (heap, Some x, 0)
      | Some stack =>
          match copy_certs stack with
          | None => Some (heap, Some x, 0)
          | Some [] =>
              Some (heap, Some (set_error X509_V_ERR_APPLICATION_VERIFICATION x), 0)
          | Some certs =>
              let '(heap, config) := upki_config fs x heap in
              match config with
              | None => Some (heap, Some x, 0)
              | Some config =>
                  r ← upki_check_revocation heap fs (Some (as_ptr config)) (Some certs);
                  let '(x, preverify_ok) :=
                    match r with
                    | UPKI_REVOCATION_REVOKED => (set_error X509_V_ERR_CERT_REVOKED x, 0)
                    | UPKI_REVOCATION_NOT_COVERED | UPKI_REVOCATION_NOT_REVOKED =>
                        (x, preverify_ok)
                    | _ => (set_error X509_V_ERR_APPLICATION_VERIFICATION x, 0)
                    end in
                  heap ← drop_config config heap;
                  Some (heap, Some x, preverify_ok)
              end
          end
      end
  end.

(** [upki_openssl_set_config] on the slot of an [SSL_CTX]; [stored]: whether
    [SSL_CTX_set_ex_data], whose result is not looked at, could store the pointer. *)
Definition upki_openssl_set_config (stored : bool) (ctx : option (option positive))
    (config : option positive) (heap : Heap) : option (Heap * option (option positive)) :=
  match ctx with
  | None => Some (heap, None)
  | Some slot =>
      match index with
      | None => Some (heap, Some slot)
      | Some _ =>
          heap ← upki_config_free slot heap;
          Some (heap, Some (if stored then config else slot))
      end
  end.

(** [ssl_ctx_upki_config_free]: what freeing the [SSL_CTX] does with its slot. *)
Definition ssl_ctx_upki_config_free (slot : option positive) (heap : Heap) : option Heap :=
  upki_config_free slot heap.

(** ** Theorems *)

Lemma upki_config_heap fs x heap :
  match upki_config fs x heap with
  | (heap', None) => heap' = heap ∧ upki_config_from_ssl_ctx index x = None
  | (heap', Some c) =>
      (heap' = heap ∧ ∃ p, c = FromContext p ∧ upki_config_from_ssl_ctx index x = Some p)
      ∨ ∃ p config, c = Owned p ∧ upki_config_from_ssl_ctx index x = None ∧ heap !! p = None
                    ∧ heap' = <[p := config]> heap
  end.
Proof.
  unfold upki_config. destruct (upki_config_from_ssl_ctx index x) as [p|]; [left; eauto|].
  pose proof (config_new_heap platform fs None false heap) as Hl.
  destruct (upki_config_new platform fs None false heap) as [[heap' r] [p|]]; cbn; [|by destruct Hl].
  destruct Hl as (_ & Hp & _ & config & cp & -> & _). right. exists p, config. done.
Qed.

(** Every way out of the callback gives the heap back. *)
Lemma callback_runs fs preverify_ok x heap :
  (∀ p, upki_config_from_ssl_ctx index x = Some p → is_Some (heap !! p)) →
  ∃ x' r, upki_openssl_verify_callback fs preverify_ok (Some x) heap = Some (heap, Some x', r)
    ∧ (r = 0 ∨ r = preverify_ok)
    ∧ (preverify_ok = 0 → r = 0 ∧ x' = x)
    ∧ (error x' ≠ error x → r = 0).
Proof.
  intros Hlive. unfold upki_openssl_verify_callback.
  destruct (Z.eqb_spec preverify_ok 0) as [->|Hp]; [eauto 10|].
  assert (∀ y s, (s = 0 ∨ s = preverify_ok) → (error y ≠ error x → s = 0) →
            ∃ x' r, Some (heap, Some y, s) = Some (heap, Some x', r)
            ∧ (r = 0 ∨ r = preverify_ok) ∧ (preverify_ok = 0 → r = 0 ∧ x' = x)
            ∧ (error x' ≠ error x → r = 0)) as Hret.
  { intros y s ??. exists y, s. split; [done|]. split; [done|]. split; [by intros|done]. }
  destruct (error_depth x =? 0); cbn [negb]; [|apply Hret; [by right|done]].
  destruct (chain x) as [stack|]; [|apply Hret; [by left|done]].
  destruct (copy_certs stack) as [[|c certs]|]; [apply Hret; [by left|done]| |apply Hret; [by left|done]].
  pose proof (upki_config_heap fs x heap) as Hc.
  destruct (upki_config fs x heap) as [heap' [config|]]; [|destruct Hc as [-> _]; apply Hret; [by left|done]].
  assert (∃ cfg, heap' !! as_ptr config = Some cfg ∧ drop_config config heap' = Some heap)
    as (cfg & Hcfg & Hdrop).
  { destruct Hc as [(-> & p & -> & Hx)|(p & cfg & -> & _ & Hp' & ->)].
    - destruct (Hlive p Hx) as [cfg Hcfg]. by exists cfg.
    - exists cfg. cbn [as_ptr]. split; [apply lookup_insert_eq|].
      cbn [drop_config]. unfold upki_config_free. rewrite lookup_insert_eq.
      cbn [mbind option_bind]. by rewrite delete_insert_id. }
  unfold upki_check_revocation. rewrite Hcfg. cbn [mbind option_bind].
  destruct (catch_unwind _); rewrite Hdrop; cbn [mbind option_bind];
    (apply Hret; [by (left + right)|done]).
Qed.

(** C23: The callback is defined whenever the configuration set on the context is live;
    it never makes a failed verification succeed, leaves the heap as it was, and
    reports a revoked chain as revoked. *)
Theorem callback_sound fs preverify_ok x heap :
  (∀ p, upki_config_from_ssl_ctx index x = Some p → is_Some (heap !! p)) →
  ∃ x' r, upki_openssl_verify_callback fs preverify_ok (Some x) heap = Some (heap, Some x', r)
    ∧ (r = 0 ∨ r = preverify_ok)
    ∧ (preverify_ok = 0 → r = 0 ∧ x' = x)
    ∧ (error x' ≠ error x → r = 0).
Proof. apply callback_runs. Qed.

(** The final call for a chain: what it answers and the error it leaves, by the
    result of [upki_check_revocation] with the configuration of the context. *)
Theorem callback_leaf fs preverify_ok x heap p config stack c certs :
  preverify_ok ≠ 0 → error_depth x = 0 → chain x = Some stack → copy_certs stack = Some (c :: certs) →
  upki_config_from_ssl_ctx index x = Some p → heap !! p = Some config →
  upki_openssl_verify_callback fs preverify_ok (Some x) heap
  = match catch_unwind (check_certificates fs config (c :: certs)) with
    | UPKI_REVOCATION_REVOKED => Some (heap, Some (set_error X509_V_ERR_CERT_REVOKED x), 0)
    | UPKI_REVOCATION_NOT_COVERED | UPKI_REVOCATION_NOT_REVOKED =>
        Some (heap, Some x, preverify_ok)
    | _ => Some (heap, Some (set_error X509_V_ERR_APPLICATION_VERIFICATION x), 0)
    end.
Proof.
  intros Hp Hd Hc Hcerts Hx Hh. unfold upki_openssl_verify_callback.
  rewrite (proj2 (Z.eqb_neq _ _) Hp), Hd, Hc. cbn [Z.eqb negb]. rewrite Hcerts.
  unfold upki_config. rewrite Hx. cbn [as_ptr]. unfold upki_check_revocation. rewrite Hh.
  cbn [mbind option_bind]. by destruct (catch_unwind _).
Qed.

(** Setting a configuration frees the one set before: only the new one stays live,
    and freeing the context frees that too.  Setting the one that is already set, or
    failing to store the new one, leaves a freed pointer in the context. *)
Theorem set_config_ownership heap p q c d :
  is_Some index → heap !! p = Some c → heap !! q = Some d →
  (p ≠ q →
   upki_openssl_set_config true (Some (Some p)) (Some q) heap
     = Some (delete p heap, Some (Some q))
   ∧ ssl_ctx_upki_config_free (Some q) (delete p heap) = Some (delete q (delete p heap)))
  ∧ upki_openssl_set_config true (Some (Some p)) (Some p) heap
    = Some (delete p heap, Some (Some p))
  ∧ upki_openssl_set_config false (Some (Some p)) (Some q) heap
    = Some (delete p heap, Some (Some p))
  ∧ ssl_ctx_upki_config_free (Some p) (delete p heap) = None.
Proof.
  intros [k Hk] Hp Hq. unfold upki_openssl_set_config, ssl_ctx_upki_config_free, upki_config_free.
  rewrite Hk, Hp. cbn [mbind option_bind]. split; [|do 2 (split; [done|])].
  - intros Hne. split; [done|]. rewrite lookup_delete_ne by done. by rewrite Hq.
  - by rewrite lookup_delete_eq.
Qed.
End Callback.

(** ** Instances *)

Section Instances.
#[local] Existing Instance demo_webpki.
#[local] Existing Instance demo_clubcard.
#[local] Existing Instance demo_directories.
#[local] Existing Instance demo_toml.

Definition demo_ctx : StoreCtx :=
  mkStoreCtx 0 (Some (mkStack 1 [Some (mkX509 1 (Some [x07]))])) None (Some (Some (Some 1%positive))).
Definition demo_heap : Heap := {[1%positive := demo_config]}.

Lemma callback_sound_witness :
  ∃ x' r, upki_openssl_verify_callback Unix (config_index 0) (demo_fs []) 1 (Some demo_ctx) demo_heap
          = Some (demo_heap, Some x', r) ∧ (error x' ≠ error demo_ctx → r = 0).
Proof.
  destruct (callback_sound Unix (config_index 0) (demo_fs []) 1 demo_ctx demo_heap) as (x' & r & E & _ & _ & He).
  - intros p [= <-]. exists demo_config. by vm_compute.
  - by exists x', r.
Defined.

Lemma callback_leaf_witness :
  upki_openssl_verify_callback Unix (config_index 0) (demo_fs []) 1 (Some demo_ctx) demo_heap
  = Some (demo_heap, Some (set_error X509_V_ERR_APPLICATION_VERIFICATION demo_ctx), 0).
Proof.
  rewrite (callback_leaf Unix (config_index 0) (demo_fs []) 1 demo_ctx demo_heap 1%positive
             demo_config (mkStack 1 [Some (mkX509 1 (Some [x07]))]) [x07] []);
    [by vm_compute|done|done|done|done|done|by vm_compute].
Defined.

Definition demo_two : Heap := {[1%positive := demo_config; 2%positive := demo_config]}.

Lemma set_config_ownership_witness :
  ssl_ctx_upki_config_free (Some 1%positive) (delete 1%positive demo_two) = None.
Proof. by apply (set_config_ownership (config_index 0) demo_two 1 2 demo_config demo_config). Defined.
End Instances.
