(* ===== verification/OpenSslSession.v ===== *)
(** * A program that uses [upki-openssl]

    The calls a C program makes around one [SSL_CTX], in any order: configurations are
    made and freed, given to the context, and used by its callbacks.  A session is a
    state machine over the heap of [Ffi].  The safety comments of [upki/src/ffi.rs] and
    [upki-openssl/src/lib.rs] ask for valid pointers ([allowed]); what it takes for
    memory safety beyond that is [careful], and no call that is not will do. *)
From S2P Require Import Prelude Bytes FileSys External Revocation Config Index Demo Ffi OpenSsl.

(** The heap, the slot of the [SSL_CTX], and the configurations that the program
    made and still owns. *)
Record Session := mkSession
  { s_heap : Heap; s_slot : option positive; s_owned : gset positive }.

Inductive Call : Type :=
| ConfigNew (path : option (list byte))
| ConfigFree (config : option positive)
| CheckRevocation (config : option positive) (certs : list (list byte))
(** [stored]: whether [SSL_CTX_set_ex_data] could store the pointer. *)
| SetConfig (config : option positive) (stored : bool)
| VerifyCallback (preverify_ok : Z) (x509_ctx : StoreCtx).

(** The pointers a call consumes. *)
Definition option_set (p : option positive) : gset positive :=
  match p with Some p => {[p]} | None => ∅ end.

(** What the safety comments ask of a call: pointers that are valid, that is live, or NULL;
    and a store context of a connection of the [SSL_CTX], or of none. *)
Definition allowed (s : Session) (c : Call) : Prop :=
  match c with
  | ConfigNew _ => True
  | ConfigFree p | CheckRevocation p _ | SetConfig p _ => option_set p ⊆ dom (s_heap s)
  | VerifyCallback _ x => ssl_ctx x = None ∨ ssl_ctx x = Some (s_slot s)
  end.

Section Session.
Context `{Webpki} `{Clubcard} `{Directories} `{Toml} (platform : Platform) (index : option Z).

(** What they do not ask for: that the program neither frees the configuration that the
    context holds nor gives it to the context again, and that a configuration that is
    given to the context, or replaced there, can be stored: there is an index for it, and
    [SSL_CTX_set_ex_data] succeeds. *)
Definition careful (s : Session) (c : Call) : Prop :=
  match c with
  | ConfigFree p => p = None ∨ p ≠ s_slot s
  | SetConfig p stored =>
      match index with
      | Some _ => (p = None ∨ p ≠ s_slot s) ∧ (stored = true ∨ p = None ∧ s_slot s = None)
      | None => p = None
      end
  | _ => True
  end.

Lemma careful_dec s c : careful s c ∨ ¬ careful s c.
Proof.
  destruct c as [path|p|p certs|p stored|ok x]; cbn [careful]; try tauto; [|destruct index as [k|]];
    destruct (decide (p = None)); try tauto; destruct (decide (p = s_slot s)); try tauto.
  all: destruct stored, (decide (s_slot s = None)); naive_solver.
Qed.

(** A call; [None] when it is undefined behaviour. *)
Definition session_call (fs : Fs) (s : Session) (c : Call) : option Session :=
  match c with
  | ConfigNew path =>
      let '(heap, _, out) := upki_config_new platform fs path false (s_heap s) in
      Some (mkSession heap (s_slot s) (option_set out ∪ s_owned s))
  | ConfigFree p =>
      heap ← upki_config_free p (s_heap s);
      Some (mkSession heap (s_slot s) (s_owned s ∖ option_set p))
  | CheckRevocation p certs =>
      _ ← upki_check_revocation (s_heap s) fs p (Some certs);
      Some s
  | SetConfig p stored =>
      '(heap, ctx) ← upki_openssl_set_config index stored (Some (s_slot s)) p (s_heap s);
      Some (mkSession heap (default None ctx) (s_owned s ∖ option_set p))
  | VerifyCallback preverify_ok x =>
      '(heap, _, _) ← upki_openssl_verify_callback platform index fs preverify_ok (Some x) (s_heap s);
      Some (mkSession heap (s_slot s) (s_owned s))
  end.

(** A session of calls, each allowed and careful where it is made; the files may change
    between the calls. *)
Inductive session : Session → list (Fs * Call) → option Session → Prop :=
| session_end s : session s [] (Some s)
| session_next s fs c s' calls r :
    allowed s c → careful s c → session_call fs s c = Some s' → session s' calls r →
    session s ((fs, c) :: calls) r
| session_undefined s fs c calls :
    allowed s c → careful s c → session_call fs s c = None → session s ((fs, c) :: calls) None.

(** What is live is what the program owns and what the context holds, and nothing is
    owned twice; without an index the context holds nothing. *)
Record well_owned (s : Session) : Prop := {
  wo_live : dom (s_heap s) = option_set (s_slot s) ∪ s_owned s;
  wo_apart : option_set (s_slot s) ## s_owned s;
  wo_index : index = None → s_slot s = None }.

Lemma owned_free p heap :
  option_set p ⊆ dom heap →
  ∃ heap', upki_config_free p heap = Some heap' ∧ dom heap' = dom heap ∖ option_set p.
Proof.
  unfold upki_config_free. destruct p as [p|]; cbn [option_set].
  - intros [c Hc]%singleton_subseteq_l%elem_of_dom. rewrite Hc. eexists. split; [done|].
    apply dom_delete_L.
  - intros _. eexists. split; [done|]. set_solver.
Qed.

(** Freeing the context is defined, and leaves what the program owns and nothing else. *)
Definition ends_well (s : Session) : Prop :=
  ∃ heap, ssl_ctx_upki_config_free (s_slot s) (s_heap s) = Some heap ∧ dom heap = s_owned s.

Lemma well_owned_ends s : well_owned s → ends_well s.
Proof.
  intros [Hd Ha _]. destruct (owned_free (s_slot s) (s_heap s)) as (heap & Hf & Hh); [set_solver|].
  exists heap. split; [exact Hf|]. rewrite Hh. set_solver.
Qed.

Lemma free_dangling p (heap : Heap) : upki_config_free (Some p) (delete p heap) = None.
Proof. unfold upki_config_free. by rewrite lookup_delete_eq. Qed.

Lemma session_call_safe fs s c :
  well_owned s → allowed s c → careful s c →
  ∃ s', session_call fs s c = Some s' ∧ well_owned s'.
Proof.
  intros [Hd Ha Hx] Hc Hcare.
  destruct c as [path|p|p certs|p stored|ok x]; cbn [session_call allowed careful] in *.
  - pose proof (config_new_heap platform fs path false (s_heap s)) as Hn.
    destruct (upki_config_new _ _ _ _ _) as [[heap r] [p|]].
    + destruct Hn as (_ & Hp & _ & config & cp & -> & _). eexists. split; [done|].
      apply not_elem_of_dom in Hp. split; cbn; rewrite ?dom_insert_L; set_solver.
    + destruct Hn as [-> _]. eexists. split; [done|]. split; cbn; set_solver.
  - destruct (owned_free p (s_heap s)) as (heap & -> & Hh); [set_solver|].
    eexists. split; [done|].
    assert (option_set p ## option_set (s_slot s)) as Hp.
    { destruct Hcare as [->|Hne]; [set_solver|]. destruct p, (s_slot s); set_solver. }
    split; cbn; [rewrite Hh| |exact Hx]; set_solver.
  - exists s. split; [|done]. unfold upki_check_revocation. destruct p as [p|]; [|done].
    assert (p ∈ dom (s_heap s)) as [config Hp]%elem_of_dom by set_solver. by rewrite Hp.
  - unfold upki_openssl_set_config. destruct index as [k|] eqn:Hk;
      [|subst p; eexists; split; [done|]; split; cbn; unfold id; set_solver].
    destruct Hcare as [Hne Hst].
    destruct (owned_free (s_slot s) (s_heap s)) as (heap & -> & Hh); [set_solver|].
    eexists. split; [done|].
    assert ((if stored then p else s_slot s) = p) as Hp
      by (destruct Hst as [->|[-> ->]]; [done|by destruct stored]).
    assert (option_set p ⊆ s_owned s) as Ho.
    { destruct Hne as [->|Hne]; [set_solver|]. destruct p, (s_slot s); set_solver. }
    split; cbn; [rewrite Hp, Hh, Hd|rewrite Hp; set_solver|congruence].
    apply set_eq. intros q. destruct (decide (q ∈ option_set p)); set_solver.
  - destruct (callback_runs platform index fs ok x (s_heap s)) as (x' & r & Hv & _).
    + intros p Hp. unfold upki_config_from_ssl_ctx in Hp. apply elem_of_dom. rewrite Hd.
      destruct Hc as [Hc|Hc]; rewrite Hc in Hp; [done|].
      destruct index; [|done]. rewrite Hp. set_solver.
    + rewrite Hv. eexists. by split; [|split].
Qed.

(** A call with valid pointers that is not careful: the next use of the context's slot is
    a use after free, or a configuration is lost. *)
Lemma careless_call fs s c :
  well_owned s → allowed s c → ¬ careful s c →
  ∃ s', session_call fs s c = Some s' ∧ ¬ ends_well s'.
Proof.
  intros [Hd Ha Hx] Hc Hcare.
  destruct c as [path|p|p certs|p stored|ok x]; cbn [session_call allowed careful] in *; try tauto.
  - destruct p as [p|]; [|tauto].
    assert (s_slot s = Some p) as Hs by (destruct (decide (s_slot s = Some p)); [done|]; naive_solver).
    assert (p ∈ dom (s_heap s)) as [config Hp]%elem_of_dom by set_solver.
    unfold upki_config_free. rewrite Hp. eexists. split; [done|]. intros (heap & Hf & _).
    unfold ssl_ctx_upki_config_free in Hf. cbn [s_slot s_heap] in Hf.
    by rewrite Hs, free_dangling in Hf.
  - unfold upki_openssl_set_config. destruct index as [k|] eqn:Hk.
    2:{ destruct p as [p|]; [|done]. eexists. split; [done|].
        intros (heap & Hf & Hdom). unfold ssl_ctx_upki_config_free in Hf.
        cbn [s_slot s_heap s_owned default option_set] in *. unfold id in Hf.
        rewrite Hx in Hf by done. injection Hf as <-. set_solver. }
    destruct (s_slot s) as [q|] eqn:Hs.
    + assert (q ∈ dom (s_heap s)) as [config Hq]%elem_of_dom by set_solver.
      unfold upki_config_free. rewrite Hq. eexists. split; [done|]. intros (heap & Hf & _).
      unfold ssl_ctx_upki_config_free in Hf. cbn [s_slot s_heap default] in Hf.
      assert ((if stored then p else Some q) = Some q) as Eq.
      { destruct stored; [|done]. destruct (decide (p = Some q)); [done|]. naive_solver. }
      unfold id in Hf. by rewrite Eq, free_dangling in Hf.
    + destruct p as [p|]; [|destruct Hcare; auto]. destruct stored; [naive_solver|].
      eexists. split; [done|]. intros (heap & [= <-] & Hdom). cbn [s_owned s_heap] in Hdom.
      cbn [option_set] in *. assert (p ∈ dom (s_heap s)) as Hp by set_solver.
      rewrite Hdom in Hp. set_solver.
Qed.

(** C22: However a program interleaves its calls around one [SSL_CTX], when it uses valid
    pointers, leaves alone the configuration that the context holds and the context can
    store what it is given (there is an index, and setting the pointer works): no call uses or frees a configuration that is not live, and
    when the context is freed at the end, what the program still owns is live and nothing
    else.  Of the calls with valid pointers, every other one breaks that. *)
Theorem session_safe :
  (∀ calls r, session (mkSession ∅ None ∅) calls r → ∃ s, r = Some s ∧ ends_well s)
  ∧ ∀ fs s c, well_owned s → allowed s c →
      (careful s c ↔ ∃ s', session_call fs s c = Some s' ∧ ends_well s').
Proof.
  split.
  - intros calls r. assert (well_owned (mkSession ∅ None ∅)) as Hw by (split; [set_solver..|done]).
    revert Hw. generalize (mkSession ∅ None ∅). intros s Hw Hs.
    induction Hs as [s|s fs c s' calls r Hc Hk Hx _ IH|s fs c calls Hc Hk Hx].
    + exists s. split; [done|]. by apply well_owned_ends.
    + apply IH. destruct (session_call_safe fs s c Hw Hc Hk) as (s1 & Hx1 & Hw1). congruence.
    + destruct (session_call_safe fs s c Hw Hc Hk) as (s1 & Hx1 & _). congruence.
  - intros fs s c Hw Hc. split.
    + intros Hk. destruct (session_call_safe fs s c Hw Hc Hk) as (s1 & Hx1 & Hw1).
      exists s1. split; [done|]. by apply well_owned_ends.
    + intros (s1 & Hx1 & He). destruct (careful_dec s c) as [|Hn]; [done|].
      destruct (careless_call fs s c Hw Hc Hn) as (s2 & Hx2 & Hne). congruence.
Qed.

(** The configuration set on a context is the one its connections are checked with: the
    final call for a chain answers, and sets the error, as a check of the chain with
    the configuration that was handed over. *)
Theorem configured_callback fs fs' s s' p config x stack c certs preverify_ok :
  is_Some index → well_owned s → p ∈ s_owned s → s_heap s !! p = Some config →
  session_call fs s (SetConfig (Some p) true) = Some s' →
  ssl_ctx x = Some (s_slot s') → error_depth x = 0 → chain x = Some stack →
  copy_certs stack = Some (c :: certs) → preverify_ok ≠ 0 →
  ∃ answer, upki_check_revocation (s_heap s) fs' (Some p) (Some (c :: certs)) = Some answer
    ∧ upki_openssl_verify_callback platform index fs' preverify_ok (Some x) (s_heap s')
      = Some (s_heap s',
              Some match answer with
                   | UPKI_REVOCATION_REVOKED => set_error X509_V_ERR_CERT_REVOKED x
                   | UPKI_REVOCATION_NOT_COVERED | UPKI_REVOCATION_NOT_REVOKED => x
                   | _ => set_error X509_V_ERR_APPLICATION_VERIFICATION x
                   end,
              match answer with
              | UPKI_REVOCATION_NOT_COVERED | UPKI_REVOCATION_NOT_REVOKED => preverify_ok
              | _ => 0
              end).
Proof.
  intros [k Hk] [Hd Ha _] Hp Hc Hset Hx He Hch Hcerts Hok.
  exists (catch_unwind (check_certificates fs' config (c :: certs))).
  split; [unfold upki_check_revocation; by rewrite Hc|].
  assert (s_slot s' = Some p ∧ s_heap s' !! p = Some config) as [Hs Hl].
  { cbn [session_call] in Hset. unfold upki_openssl_set_config in Hset. rewrite Hk in Hset.
    unfold upki_config_free in Hset. destruct (s_slot s) as [q|] eqn:Hq.
    - destruct (s_heap s !! q); cbn [mbind option_bind] in Hset; [|done].
      injection Hset as <-. cbn. split; [done|]. rewrite lookup_delete_ne; [done|].
      intros ->. set_solver.
    - cbn in Hset. by injection Hset as <-. }
  rewrite (callback_leaf platform index fs' preverify_ok x (s_heap s') p config stack c certs)
    by (try done; unfold upki_config_from_ssl_ctx; by rewrite Hx, Hs, Hk).
  by destruct (catch_unwind _).
Qed.
End Session.

(** ** Instances *)

Section Instances.
#[local] Existing Instance demo_webpki.
#[local] Existing Instance demo_clubcard.
#[local] Existing Instance demo_directories.
#[local] Existing Instance demo_toml.

(** A configuration file. *)
Definition session_fs : Fs :=
  mkFs {[ "/cfg" := as_bytes "/c" ]} {[ "/" ]} (λ _ _, None) (λ n, n).

(** Two configurations: the second replaces the first, a third stays the program's. *)
Definition demo_calls : list Call :=
  [ConfigNew (Some (as_bytes "/cfg")); SetConfig (Some 1%positive) true;
   VerifyCallback 1 demo_ctx;
   ConfigNew (Some (as_bytes "/cfg")); SetConfig (Some 2%positive) true; ConfigFree None;
   ConfigNew (Some (as_bytes "/cfg"))].

Lemma session_safe_witness :
  ∃ s, session Unix (Some 0) (mkSession ∅ None ∅) ((session_fs,.) <$> demo_calls) (Some s)
    ∧ ends_well s ∧ s_owned s = {[3%positive]} ∧ s_slot s = Some 2%positive
    ∧ ¬ careful (Some 0) s (SetConfig (Some 2%positive) true)
    ∧ ¬ ∃ s', session_call Unix (Some 0) session_fs s (SetConfig (Some 2%positive) true) = Some s'
              ∧ ends_well s'.
Proof.
  eassert (session Unix (Some 0) (mkSession ∅ None ∅) ((session_fs,.) <$> demo_calls) (Some _))
    as Hs.
  { repeat (eapply session_next;
            [cbn [allowed ssl_ctx ssl demo_ctx s_heap s_slot s_owned option_set];
             first [done|by left|by right|apply (bool_decide_unpack _); by vm_compute]
            |cbn [careful s_slot];
             first [done|by left|by right|split; [by (left + right)|by left]]
            |by vm_compute|]).
    apply session_end. }
  destruct (session_safe Unix (Some 0)) as [Hsafe Hexact].
  destruct (Hsafe _ _ Hs) as (s & Hr & He). injection Hr as <-.
  eexists. split; [exact Hs|]. split; [exact He|]. split; [by vm_compute|]. split; [done|].
  assert (∀ heap owned,
            ¬ careful (Some 0) (mkSession heap (Some 2%positive) owned) (SetConfig (Some 2%positive) true))
    as Hn by (intros heap owned [[?|[]] _]; done).
  split; [apply Hn|]. rewrite <- Hexact; [apply Hn| |].
  - split; [apply (bool_decide_unpack _); by vm_compute..|done].
  - cbn [allowed s_heap]. apply (bool_decide_unpack _). by vm_compute.
Defined.

Definition set_session : Session := mkSession {[1%positive := demo_config]} None {[1%positive]}.

Lemma configured_callback_witness :
  ∃ answer, upki_check_revocation {[1%positive := demo_config]} (demo_fs []) (Some 1%positive) (Some [[x07]])
            = Some answer
    ∧ answer = UPKI_ERR_REVOCATION_INVALID_END_ENTITY_CERT.
Proof.
  destruct (configured_callback Unix (Some 0) session_fs (demo_fs []) set_session
              (mkSession {[1%positive := demo_config]} (Some 1%positive) ∅) 1%positive demo_config
              demo_ctx (mkStack 1 [Some (mkX509 1 (Some [x07]))]) [x07] [] 1)
    as (answer & Ha & _).
  - by exists 0.
  - split; [apply (bool_decide_unpack _); by vm_compute..|done].
  - apply (bool_decide_unpack _). by vm_compute.
  - done.
  - by vm_compute.
  - done.
  - done.
  - done.
  - by vm_compute.
  - done.
  - exists answer. split; [exact Ha|]. vm_compute in Ha. by injection Ha as <-.
Defined.
End Instances.
