(* ===== verification/OpenSslTests.v ===== *)
(** * The unit tests of [upki-openssl]

    The tests of [upki-openssl/src/test.rs], which pass whatever the platform, the
    files, the heap and the index that OpenSSL gave.  [StoreCtx] and [Chain] of the
    tests are those of [OpenSsl]. *)
From S2P Require Import Prelude Bytes FileSys External Revocation Config Index Ffi OpenSsl.

Definition UNTOUCHED_ERROR : Z := 12345678.

(** [StoreCtx::new], and its setters. *)
Definition store_ctx : StoreCtx := mkStoreCtx 0 None (Some UNTOUCHED_ERROR) None.
Definition set_error_depth (depth : Z) (x : StoreCtx) : StoreCtx :=
  mkStoreCtx depth (chain x) (error x) (ssl x).
Definition set_verified_chain (c : X509Stack) (x : StoreCtx) : StoreCtx :=
  mkStoreCtx (error_depth x) (Some c) (error x) (ssl x).
Definition untouched_error (x : option StoreCtx) : Prop :=
  match x with Some x => error x = Some UNTOUCHED_ERROR | None => True end.

(** [Chain::new] and [Chain::push_null] *)
Definition empty_chain : X509Stack := mkStack 0 [].
Definition push_null (c : X509Stack) : X509Stack := mkStack (sk_num c + 1) (sk_values c ++ [None]).

Section Tests.
Context `{Webpki} `{Clubcard} `{Directories} `{Toml} (platform : Platform) (index : option Z)
  (fs : Fs) (heap : Heap).

(** A call of the callback returns [r] and leaves a context with [P]. *)
Definition returns (preverify_ok : Z) (x : option StoreCtx) (r : Z) (P : option StoreCtx → Prop)
  : Prop :=
  match upki_openssl_verify_callback platform index fs preverify_ok x heap with
  | Some (heap', x', r') => r' = r ∧ heap' = heap ∧ P x'
  | None => False
  end.

Definition preverify_zero_returns_zero : Prop := returns 0 None 0 untouched_error.
Definition null_ctx_returns_zero : Prop := returns 1 None 0 untouched_error.
Definition preverify_ok_zero_valid_ctx_returns_zero : Prop :=
  returns 0 (Some store_ctx) 0 untouched_error.
Definition preverify_ok_zero_nonzero_depth_returns_zero : Prop :=
  returns 0 (Some (set_error_depth 3 store_ctx)) 0 untouched_error.
Definition error_depth_various_nonzero_all_pass_through : Prop :=
  Forall (λ depth, returns 1 (Some (set_error_depth depth store_ctx)) 1 untouched_error)
         [-1; 1; 3; 5; 10; 100].
Definition error_depth_nonzero_preserves_arbitrary_preverify_ok_value : Prop :=
  Forall (λ '(depth, pv), returns pv (Some (set_error_depth depth store_ctx)) pv untouched_error)
         [(1, 2); (2, 42); (5, -1); (10, 100)].
Definition missing_chain_returns_zero : Prop := returns 1 (Some store_ctx) 0 untouched_error.
Definition empty_chain_reports_error : Prop :=
  returns 1 (Some (set_verified_chain empty_chain store_ctx)) 0
    (λ x, error <$> x = Some (Some X509_V_ERR_APPLICATION_VERIFICATION)).
Definition malformed_chain_returns_zero : Prop :=
  returns 1 (Some (set_verified_chain (push_null empty_chain) store_ctx)) 0 untouched_error.

(** [upki_config_new(NULL, &mut config)] and [upki_openssl_set_config(ctx, config)]: the
    variable keeps its pointer when no configuration can be made. *)
Definition new_and_set (s : option (Heap * option positive * option positive))
  : option (Heap * option positive * option positive) :=
  '(heap, slot, config) ← s;
  let '(heap, _, out) := upki_config_new platform fs None false heap in
  let config := match out with Some p => Some p | None => config end in
  '(heap, ctx) ← upki_openssl_set_config index true (Some slot) config heap;
  Some (heap, default None ctx, config).

(** [SSL_CTX_free]: nothing is used after it was freed, and what was live before the test
    is what is live after it. *)
Definition context_freed (s : option (Heap * option positive * option positive)) : Prop :=
  match s with
  | Some (heap', slot, _) => ssl_ctx_upki_config_free slot heap' = Some heap
  | None => False
  end.

Definition set_config_twice : Prop :=
  context_freed (new_and_set (new_and_set (Some (heap, None, None)))).
Definition set_config_is_freed : Prop :=
  context_freed (new_and_set (Some (heap, None, None))).

Lemma new_and_set_once :
  is_Some index →
  (∃ p config, heap !! p = None ∧ upki_config_new platform fs None false heap
                               = (<[p := config]> heap, UPKI_OK, Some p)
      ∧ new_and_set (Some (heap, None, None)) = Some (<[p := config]> heap, Some p, Some p))
  ∨ (∃ c, upki_config_new platform fs None false heap = (heap, c, None))
    ∧ new_and_set (Some (heap, None, None)) = Some (heap, None, None).
Proof.
  intros [k Hk]. unfold new_and_set. cbn [mbind option_bind].
  pose proof (config_new_heap platform fs None false heap) as Hn.
  destruct (upki_config_new platform fs None false heap) as [[heap' r] [p|]] eqn:E.
  - destruct Hn as (-> & Hp & _ & config & cp & -> & _). left. exists p, config.
    split; [done|]. split; [done|]. unfold upki_openssl_set_config. by rewrite Hk.
  - destruct Hn as [-> _]. right. split; [by eexists|]. unfold upki_openssl_set_config. by rewrite Hk.
Qed.
End Tests.

(** The result of [upki_config_new] depends on the heap in the pointer alone. *)
Lemma config_new_any `{Directories} `{Toml} platform fs (h1 h2 : Heap) :
  (∃ c, upki_config_new platform fs None false h1 = (h1, c, None)) →
  ∃ c, upki_config_new platform fs None false h2 = (h2, c, None).
Proof.
  unfold upki_config_new.
  destruct (map_err from_error (config_path_new _ _ _)) as [cp|e|]; cbn [mbind result_bind]; [|by eexists..].
  destruct (map_err from_error (from_file_or_user_default _ _ _)); [by intros [? [=]]|by eexists..].
Qed.

(** The tests pass. *)
Theorem openssl_tests_pass `{Webpki} `{Clubcard} `{Directories} `{Toml} platform index fs heap :
  preverify_zero_returns_zero platform index fs heap
  ∧ null_ctx_returns_zero platform index fs heap
  ∧ preverify_ok_zero_valid_ctx_returns_zero platform index fs heap
  ∧ preverify_ok_zero_nonzero_depth_returns_zero platform index fs heap
  ∧ error_depth_various_nonzero_all_pass_through platform index fs heap
  ∧ error_depth_nonzero_preserves_arbitrary_preverify_ok_value platform index fs heap
  ∧ missing_chain_returns_zero platform index fs heap
  ∧ empty_chain_reports_error platform index fs heap
  ∧ malformed_chain_returns_zero platform index fs heap
  ∧ (is_Some index → set_config_is_freed platform index fs heap
                     ∧ set_config_twice platform index fs heap).
Proof.
  do 9 (split; [repeat constructor|]). intros Hi.
  assert (∀ q c, heap !! q = None → ssl_ctx_upki_config_free (Some q) (<[q := c]> heap) = Some heap)
    as Hfree.
  { intros q c Hq. unfold ssl_ctx_upki_config_free, upki_config_free. rewrite lookup_insert_eq.
    cbn [mbind option_bind]. by rewrite delete_insert_id. }
  unfold set_config_is_freed, set_config_twice, context_freed.
  destruct (new_and_set_once platform index fs heap Hi) as [(p & config & Hp & Hn & ->)|[[c Hn] Heq]].
  - split; [by apply Hfree|]. unfold new_and_set. cbn [mbind option_bind].
    pose proof (config_new_heap platform fs None false (<[p := config]> heap)) as Hh.
    destruct (upki_config_new platform fs None false (<[p := config]> heap))
      as [[heap' r] [q|]] eqn:E.
    + destruct Hh as (_ & Hq & _ & config' & cp & -> & _).
      apply lookup_insert_None in Hq as [Hq Hpq].
      unfold upki_openssl_set_config. destruct Hi as [k ->].
      unfold upki_config_free. rewrite lookup_insert_ne, lookup_insert_eq by done.
      cbn [mbind option_bind default]. rewrite delete_insert_ne, delete_insert_id by done.
      by apply Hfree.
    + destruct Hh as [-> _].
      destruct (config_new_any platform fs (<[p := config]> heap) heap) as [c Hc]; [by exists r|].
      congruence.
  - rewrite Heq. split; [done|]. unfold new_and_set. cbn [mbind option_bind]. rewrite Hn.
    unfold upki_openssl_set_config. by destruct Hi as [k ->].
Qed.
