(* ===== verification/RustlsUpki.v ===== *)
(** * [rustls-upki/src/lib.rs]: the server certificate verifier

    [ServerVerifier] verifies a chain with [webpki], then its revocation with the
    index; [Policy] says what happens when there is no answer.  [webpki] and
    [rustls] are interfaces; the errors that the code takes apart are inductive
    types with the variants it names. *)
From S2P Require Import Prelude Bytes Sha256 Sha256Spec FileSys External Revocation Config Index Demo IndexSafe IndexTheorems.

(** ** Errors of [webpki] and [rustls] *)

Module WebpkiError.
Inductive t : Type :=
| BadDer | BadDerTime | TrailingData
| CertNotValidYet (time not_before : Z)
| CertExpired (time not_after : Z)
| InvalidCertValidity
| UnknownIssuer
| CertNotValidForName (expected : string) (presented : list string)
| CertRevoked
| UnknownRevocationStatus
| CrlExpired (time next_update : Z)
| IssuerNotCrlSigner
| InvalidSignatureForPublicKey
| UnsupportedSignatureAlgorithm (id : list byte) (supported : list (list byte))
| UnsupportedSignatureAlgorithmForPublicKey (id key_id : list byte)
| InvalidCrlSignatureForPublicKey
| UnsupportedCrlSignatureAlgorithm (id : list byte) (supported : list (list byte))
| UnsupportedCrlSignatureAlgorithmForPublicKey (id key_id : list byte)
| RequiredEkuNotFound (required : list Z) (present : list (list Z))
| OtherError (rendered : string).
End WebpkiError.

(** [webpki::sct::Error] *)
Inductive SctError : Type := MalformedSct | UnsupportedSctVersion | OtherSctError.

Inductive ExtendedKeyPurpose : Type := ClientAuth | ServerAuth | OtherPurpose (values : list Z).

Module CertificateError.
Inductive t : Type :=
| BadEncoding
| NotValidYetContext (time not_before : Z)
| ExpiredContext (time not_after : Z)
| Expired
| UnknownIssuer
| NotValidForNameContext (expected : string) (presented : list string)
| Revoked
| UnknownRevocationStatus
| ExpiredRevocationListContext (time next_update : Z)
| BadSignature
| UnsupportedSignatureAlgorithmContext (id : list byte) (supported : list (list byte))
| UnsupportedSignatureAlgorithmForPublicKeyContext (id key_id : list byte)
| InvalidPurposeContext (required : ExtendedKeyPurpose) (presented : list ExtendedKeyPurpose)
| Other (rendered : WebpkiError.t).
End CertificateError.

Module CrlError.
Inductive t : Type :=
| IssuerInvalidForCrl
| BadSignature
| UnsupportedSignatureAlgorithmContext (id : list byte) (supported : list (list byte))
| UnsupportedSignatureAlgorithmForPublicKeyContext (id key_id : list byte).
End CrlError.

(** [rustls::Error] *)
Inductive TlsError : Type :=
| General (message : string)
| InvalidCertificate (e : CertificateError.t)
| InvalidCertRevocationList (e : CrlError.t).

(** ** Interfaces *)

Inductive HashAlgorithm : Type := SHA256 | OtherHash.

(** A cipher suite's hash: its algorithm and the function. *)
Record HashProvider := mkHash { algorithm : HashAlgorithm; hash_fn : list byte → list byte }.

Class WebpkiVerify := {
  VCert : Type;
  VerifiedPath : Type;
  Roots : Type;
  Algorithms : Type;
  ServerName : Type;
  cert_try_from : list byte → WebpkiError.t + VCert;
  (** [ee.verify_for_usage(algs, roots, intermediates, now, server_auth, None, None)] *)
  verify_for_usage : VCert → Algorithms → Roots → list (list byte) → Z → WebpkiError.t + VerifiedPath;
  verify_is_valid_for_subject_name : VCert → ServerName → WebpkiError.t + unit;
  issuer_spki : VerifiedPath → list byte;
  path_serial : VerifiedPath → list byte;
  path_scts : VerifiedPath → SctError + list (SctError + (list byte * Z));
  (** [ExtendedKeyUsage::CLIENT_AUTH_REPR] and [SERVER_AUTH_REPR] *)
  CLIENT_AUTH_REPR : list Z;
  SERVER_AUTH_REPR : list Z;
  (** [rustls::crypto]: handshake signatures, and [supported_schemes()]. *)
  DigitallySignedStruct : Type;
  crypto_verify_tls12_signature :
    list byte → list byte → DigitallySignedStruct → Algorithms → TlsError + unit;
  crypto_verify_tls13_signature :
    list byte → list byte → DigitallySignedStruct → Algorithms → TlsError + unit;
  supported_schemes : Algorithms → list Z
}.

(** The trait [rustls::client::danger::ServerCertVerifier], what [rustls] asks of a
    verifier [V]; the time and the file system are those of the call. *)
Class ServerCertVerifier `{WebpkiVerify} (V : Type) := {
  trait_verify_server_cert :
    V → Fs → list byte → list (list byte) → ServerName → Z → Result TlsError unit;
  trait_verify_tls12_signature :
    V → list byte → list byte → DigitallySignedStruct → Result TlsError unit;
  trait_verify_tls13_signature :
    V → list byte → list byte → DigitallySignedStruct → Result TlsError unit;
  trait_supported_verify_schemes : V → list Z;
  trait_root_hint_subjects : V → option (list (list byte))
}.

(** ** Policy *)

Inductive Outcome : Type :=
| Allowed
| TreatAsRevoked
| OutcomeError (err : TlsError).

Record Policy := mkPolicy
  { missing_data : Outcome; cert_not_covered : Outcome; cert_has_no_scts : Outcome }.

Definition default_policy : Policy :=
  {| missing_data := OutcomeError (General "upki data is missing");
     cert_not_covered := Allowed;
     cert_has_no_scts := Allowed |}.

(** [Outcome::as_result] *)
Definition as_result (o : Outcome) : Result TlsError RevocationStatus :=
  match o with
  | Allowed => Ok NotCoveredByRevocationData
  | TreatAsRevoked => Err (InvalidCertificate CertificateError.Revoked)
  | OutcomeError err => Err err
  end.

(** ** The verifier *)

Section Verifier.
Context `{WebpkiVerify} `{Clubcard} `{Directories} `{Toml}.
Context (debug_path display_path : string → string).

Record CryptoProvider := mkProvider
  { cipher_suites : list HashProvider; algorithms : Algorithms }.

Record ServerVerifier := mkVerifier
  { provider : CryptoProvider;
    sha256 : HashProvider;
    roots : Roots;
    config : Config;
    policy : Policy }.

Definition ekp_for_values (values : list Z) : ExtendedKeyPurpose :=
  if bool_decide (values = CLIENT_AUTH_REPR) then ClientAuth
  else if bool_decide (values = SERVER_AUTH_REPR) then ServerAuth
  else OtherPurpose values.

Definition sct_error (error : SctError) : TlsError :=
  General match error with
          | MalformedSct => "malformed sct"
          | UnsupportedSctVersion => "unsupported sct version"
          | OtherSctError => "unknown sct error"
          end.

Definition webpki_error (error : WebpkiError.t) : TlsError :=
  match error with
  | WebpkiError.BadDer | WebpkiError.BadDerTime | WebpkiError.TrailingData =>
      InvalidCertificate CertificateError.BadEncoding
  | WebpkiError.CertNotValidYet time not_before =>
      InvalidCertificate (CertificateError.NotValidYetContext time not_before)
  | WebpkiError.CertExpired time not_after =>
      InvalidCertificate (CertificateError.ExpiredContext time not_after)
  | WebpkiError.InvalidCertValidity => InvalidCertificate CertificateError.Expired
  | WebpkiError.UnknownIssuer => InvalidCertificate CertificateError.UnknownIssuer
  | WebpkiError.CertNotValidForName expected presented =>
      InvalidCertificate (CertificateError.NotValidForNameContext expected presented)
  | WebpkiError.CertRevoked => InvalidCertificate CertificateError.Revoked
  | WebpkiError.UnknownRevocationStatus =>
      InvalidCertificate CertificateError.UnknownRevocationStatus
  | WebpkiError.CrlExpired time next_update =>
      InvalidCertificate (CertificateError.ExpiredRevocationListContext time next_update)
  | WebpkiError.IssuerNotCrlSigner => InvalidCertRevocationList CrlError.IssuerInvalidForCrl
  | WebpkiError.InvalidSignatureForPublicKey => InvalidCertificate CertificateError.BadSignature
  | WebpkiError.UnsupportedSignatureAlgorithm id supported =>
      InvalidCertificate (CertificateError.UnsupportedSignatureAlgorithmContext id supported)
  | WebpkiError.UnsupportedSignatureAlgorithmForPublicKey id key_id =>
      InvalidCertificate
        (CertificateError.UnsupportedSignatureAlgorithmForPublicKeyContext id key_id)
  | WebpkiError.InvalidCrlSignatureForPublicKey =>
      InvalidCertRevocationList CrlError.BadSignature
  | WebpkiError.UnsupportedCrlSignatureAlgorithm id supported =>
      InvalidCertRevocationList (CrlError.UnsupportedSignatureAlgorithmContext id supported)
  | WebpkiError.UnsupportedCrlSignatureAlgorithmForPublicKey id key_id =>
      InvalidCertRevocationList
        (CrlError.UnsupportedSignatureAlgorithmForPublicKeyContext id key_id)
  | WebpkiError.RequiredEkuNotFound required present =>
      InvalidCertificate
        (CertificateError.InvalidPurposeContext (ekp_for_values required)
                                                (ekp_for_values <$> present))
  | WebpkiError.OtherError _ => InvalidCertificate (CertificateError.Other error)
  end.

(** The first suite with SHA-256, which the code expects to exist. *)
Fixpoint find_sha256 (suites : list HashProvider) : option HashProvider :=
  match suites with
  | [] => None
  | hash :: rest =>
      match algorithm hash with SHA256 => Some hash | OtherHash => find_sha256 rest end
  end.

(** [ServerVerifier::new] *)
Definition verifier_new (platform : Platform) (fs : Fs) (policy : Policy)
    (config_path : option string) (roots : Roots) (provider : CryptoProvider)
  : Result TlsError ServerVerifier :=
  sha256 ← or_panic (find_sha256 (cipher_suites provider));
  config ← map_err (λ report, General (LibError.display display_path report))
                   (path ← config_path_new platform fs config_path;
                    from_file_or_user_default platform fs path);
  _ ← match from_cache fs config with
      | Panic => Panic
      | Ok _ => Ok NotRevoked
      | Err _ => as_result (missing_data policy)
      end;
  Ok {| provider := provider; sha256 := sha256; roots := roots; config := config;
        policy := policy |}.

(** The loop over the SCTs. *)
Fixpoint read_scts (iter : list (SctError + (list byte * Z)))
  : Result TlsError (list CtTimestamp) :=
  match iter with
  | [] => Ok []
  | ts :: rest =>
      '(id, ms) ← map_err sct_error (of_sum ts);
      scts ← read_scts rest;
      Ok (mkCtTimestamp id ms :: scts)
  end.

(** [ServerVerifier::check_revocation_status] *)
Definition check_revocation_status (self : ServerVerifier) (fs : Fs) (path : VerifiedPath)
  : Result TlsError RevocationStatus :=
  let issuer_spki_hash := hash_fn (sha256 self) (issuer_spki path) in
  issuer_spki_hash ← (if (length issuer_spki_hash =? 32)%nat then Ok issuer_spki_hash else Panic);
  sct_iter ← map_err sct_error (of_sum (path_scts path));
  sct_timestamps ← read_scts sct_iter;
  match sct_timestamps with
  | [] => as_result (cert_has_no_scts (policy self))
  | _ =>
      input ← input_new (path_serial path) issuer_spki_hash sct_timestamps;
      map_err (λ e, General (error_display debug_path e))
        (index ← from_cache fs (config self); (check fs input index).2)
  end.

(** [verify_server_cert] *)
Definition verify_server_cert (self : ServerVerifier) (fs : Fs) (end_entity : list byte)
    (intermediates : list (list byte)) (server_name : ServerName) (now : Z)
  : Result TlsError unit :=
  ee ← map_err webpki_error (of_sum (cert_try_from end_entity));
  verified_path ← map_err webpki_error
    (of_sum (verify_for_usage ee (algorithms (provider self)) (roots self) intermediates now));
  _ ← map_err webpki_error (of_sum (verify_is_valid_for_subject_name ee server_name));
  status ← check_revocation_status self fs verified_path;
  match status with
  | NotRevoked => Ok tt
  | NotCoveredByRevocationData =>
      _ ← as_result (cert_not_covered (policy self)); Ok tt
  | CertainlyRevoked => Err (InvalidCertificate CertificateError.Revoked)
  end.

Definition verify_tls12_signature (self : ServerVerifier) (message cert : list byte)
    (dss : DigitallySignedStruct) : Result TlsError unit :=
  of_sum (crypto_verify_tls12_signature message cert dss (algorithms (provider self))).

Definition verify_tls13_signature (self : ServerVerifier) (message cert : list byte)
    (dss : DigitallySignedStruct) : Result TlsError unit :=
  of_sum (crypto_verify_tls13_signature message cert dss (algorithms (provider self))).

Definition supported_verify_schemes (self : ServerVerifier) : list Z :=
  supported_schemes (algorithms (provider self)).

Definition root_hint_subjects (self : ServerVerifier) : option (list (list byte)) := None.

(** [impl ServerCertVerifier for ServerVerifier] *)
#[export] Instance server_verifier_trait : ServerCertVerifier ServerVerifier := {|
  trait_verify_server_cert := verify_server_cert;
  trait_verify_tls12_signature := verify_tls12_signature;
  trait_verify_tls13_signature := verify_tls13_signature;
  trait_supported_verify_schemes := supported_verify_schemes;
  trait_root_hint_subjects := root_hint_subjects
|}.

(** ** Theorems *)

Lemma read_scts_ok iter scts :
  read_scts iter = Ok scts ↔ iter = (λ ts, inr (log_id ts, timestamp ts)) <$> scts.
Proof.
  revert scts. induction iter as [|[e|[id ms]] iter IH]; intros scts; cbn.
  - split; [by intros [= <-]|]. destruct scts; cbn; [done|discriminate].
  - split; [done|]. destruct scts; discriminate.
  - rewrite result_bind_ok. setoid_rewrite IH. split.
    + intros (scts' & -> & [= <-]). done.
    + destruct scts as [|[id' ms'] scts]; cbn; [discriminate|].
      intros [= -> -> ->]. eauto.
Qed.

(** What [webpki] establishes before revocation is looked at. *)
Definition chain_verified (self : ServerVerifier) (end_entity : list byte)
    (intermediates : list (list byte)) (server_name : ServerName) (now : Z)
    (path : VerifiedPath) : Prop :=
  ∃ ee, cert_try_from end_entity = inr ee
    ∧ verify_for_usage ee (algorithms (provider self)) (roots self) intermediates now = inr path
    ∧ verify_is_valid_for_subject_name ee server_name = inr tt.

(** The status the index gives a verified path with SCTs. *)
Definition index_status (self : ServerVerifier) (fs : Fs) (path : VerifiedPath)
    (scts : list CtTimestamp) (r : Result Error RevocationStatus) : Prop :=
  ∃ input, input_new (E := TlsError) (path_serial path) (hash_fn (sha256 self) (issuer_spki path))
                     scts = Ok input
    ∧ r = (index ← from_cache fs (config self); (check fs input index).2).

Definition has_scts (path : VerifiedPath) (scts : list CtTimestamp) : Prop :=
  path_scts path = inr ((λ ts, inr (log_id ts, timestamp ts)) <$> scts).

Lemma verify_chain self fs end_entity intermediates server_name now path :
  chain_verified self end_entity intermediates server_name now path →
  verify_server_cert self fs end_entity intermediates server_name now
  = (status ← check_revocation_status self fs path;
     match status with
     | NotRevoked => Ok tt
     | NotCoveredByRevocationData => _ ← as_result (cert_not_covered (policy self)); Ok tt
     | CertainlyRevoked => Err (InvalidCertificate CertificateError.Revoked)
     end).
Proof.
  intros (ee & He & Hv & Hn). unfold verify_server_cert. rewrite He. cbn [of_sum map_err mbind result_bind].
  rewrite Hv. cbn [of_sum map_err mbind result_bind]. by rewrite Hn.
Qed.

Lemma check_status_scts self fs path scts r :
  length (hash_fn (sha256 self) (issuer_spki path)) = 32%nat →
  has_scts path scts → scts ≠ [] → index_status self fs path scts r →
  check_revocation_status self fs path = map_err (λ e, General (error_display debug_path e)) r.
Proof.
  intros Hl Hs Hne (input & Hi & ->). unfold check_revocation_status. rewrite Hl, Hs.
  cbn [Nat.eqb of_sum map_err mbind result_bind].
  rewrite (proj2 (read_scts_ok _ scts)) by done. cbn [mbind result_bind].
  destruct scts as [|s scts]; [done|]. rewrite Hi. by cbn [mbind result_bind].
Qed.

Lemma check_status_no_scts self fs path :
  length (hash_fn (sha256 self) (issuer_spki path)) = 32%nat → has_scts path [] →
  check_revocation_status self fs path = as_result (cert_has_no_scts (policy self)).
Proof. intros Hl Hs. unfold check_revocation_status. by rewrite Hl, Hs. Qed.

Lemma as_result_ok o s : as_result o = Ok s ↔ o = Allowed ∧ s = NotCoveredByRevocationData.
Proof.
  destruct o; cbn; (split; [|intros [? ?]]); try done; [by intros [= <-]|by subst].
Qed.

Lemma verify_accepts self fs end_entity intermediates server_name now :
  verify_server_cert self fs end_entity intermediates server_name now = Ok tt
  ↔ ∃ path scts, chain_verified self end_entity intermediates server_name now path
      ∧ length (hash_fn (sha256 self) (issuer_spki path)) = 32%nat
      ∧ has_scts path scts
      ∧ ((scts = [] ∧ cert_has_no_scts (policy self) = Allowed
          ∧ cert_not_covered (policy self) = Allowed)
         ∨ (scts ≠ [] ∧ index_status self fs path scts (Ok NotRevoked))
         ∨ (scts ≠ [] ∧ index_status self fs path scts (Ok NotCoveredByRevocationData)
            ∧ cert_not_covered (policy self) = Allowed)).
Proof.
  split.
  - intros Hv.
    assert (∃ path, chain_verified self end_entity intermediates server_name now path)
      as [path Hc].
    { unfold verify_server_cert in Hv. destruct (cert_try_from end_entity) as [|ee] eqn:He; [done|].
      cbn [of_sum map_err mbind result_bind] in Hv.
      destruct (verify_for_usage ee _ _ _ _) as [|path] eqn:Hp; [done|].
      cbn [of_sum map_err mbind result_bind] in Hv.
      destruct (verify_is_valid_for_subject_name ee server_name) as [|[]] eqn:Hn; [done|].
      exists path, ee. done. }
    rewrite (verify_chain _ _ _ _ _ _ _ Hc) in Hv.
    apply result_bind_ok in Hv as (s & Hs & Hv). pose proof Hs as Hs'.
    unfold check_revocation_status in Hs.
    destruct (Nat.eqb_spec (length (hash_fn (sha256 self) (issuer_spki path))) 32) as [Hl|];
      [|done]. cbn [mbind result_bind] in Hs.
    destruct (path_scts path) as [|iter] eqn:Hi; [done|].
    cbn [of_sum map_err mbind result_bind] in Hs.
    apply result_bind_ok in Hs as (scts & Hscts & Hs). apply read_scts_ok in Hscts as ->.
    exists path, scts. do 3 (split; [done|]). destruct scts as [|t scts].
    + left. apply as_result_ok in Hs as [-> ->].
      apply result_bind_ok in Hv as (s' & [-> _]%as_result_ok & _). done.
    + right. apply result_bind_ok in Hs as (input & Hin & Hs%map_err_ok).
      destruct s; [right|done|left]; (split; [done|]).
      * split; [by exists input|].
        by apply result_bind_ok in Hv as (s' & [-> _]%as_result_ok & _).
      * by exists input.
  - intros (path & scts & Hc & Hl & Hs & Hcase). rewrite (verify_chain _ _ _ _ _ _ _ Hc).
    destruct Hcase as [(-> & Ha & Hn)|[[Hne Hi]|(Hne & Hi & Hn)]].
    + rewrite check_status_no_scts, Ha by done. cbn. by rewrite Hn.
    + by rewrite (check_status_scts _ _ _ _ _ Hl Hs Hne Hi).
    + rewrite (check_status_scts _ _ _ _ _ Hl Hs Hne Hi). cbn. by rewrite Hn.
Qed.

(** C21: A certificate is accepted exactly when [webpki] accepts the chain and either
    the index says it is not revoked; or the index does not cover it and the policy
    allows that; or it has no SCTs and the policy allows both that and a
    certificate that is not covered. *)
Theorem verify_accepts_iff self fs end_entity intermediates server_name now :
  verify_server_cert self fs end_entity intermediates server_name now = Ok tt
  ↔ ∃ path scts, chain_verified self end_entity intermediates server_name now path
      ∧ length (hash_fn (sha256 self) (issuer_spki path)) = 32%nat
      ∧ has_scts path scts
      ∧ ((scts = [] ∧ cert_has_no_scts (policy self) = Allowed
          ∧ cert_not_covered (policy self) = Allowed)
         ∨ (scts ≠ [] ∧ index_status self fs path scts (Ok NotRevoked))
         ∨ (scts ≠ [] ∧ index_status self fs path scts (Ok NotCoveredByRevocationData)
            ∧ cert_not_covered (policy self) = Allowed)).
Proof. apply verify_accepts. Qed.

(** A revoked certificate is refused as revoked, and a failure of the index is an
    error, whatever the policy says: [missing_data] is only asked by [new]. *)
Theorem policy_cannot_override self fs end_entity intermediates server_name now path scts :
  chain_verified self end_entity intermediates server_name now path →
  length (hash_fn (sha256 self) (issuer_spki path)) = 32%nat →
  has_scts path scts → scts ≠ [] →
  (index_status self fs path scts (Ok CertainlyRevoked) →
   verify_server_cert self fs end_entity intermediates server_name now
   = Err (InvalidCertificate CertificateError.Revoked))
  ∧ (∀ e, index_status self fs path scts (Err e) →
     verify_server_cert self fs end_entity intermediates server_name now
     = Err (General (error_display debug_path e))).
Proof.
  intros Hc Hl Hs Hne. rewrite (verify_chain _ _ _ _ _ _ _ Hc). split.
  - intros Hi. by rewrite (check_status_scts _ _ _ _ _ Hl Hs Hne Hi).
  - intros e Hi. by rewrite (check_status_scts _ _ _ _ _ Hl Hs Hne Hi).
Qed.

(** Making a verifier: it needs a suite with SHA-256 and a configuration, and an
    index that does not load is fatal unless the policy allows missing data. *)
Theorem verifier_new_spec platform fs pol config_path rts prov v :
  verifier_new platform fs pol config_path rts prov = Ok v
  ↔ ∃ hash cfg,
      find_sha256 (cipher_suites prov) = Some hash
      ∧ (path ← config_path_new platform fs config_path;
         from_file_or_user_default platform fs path) = Ok cfg
      ∧ (is_ok (from_cache fs cfg) = true ∨ missing_data pol = Allowed)
      ∧ v = {| provider := prov; sha256 := hash; roots := rts; config := cfg; policy := pol |}.
Proof.
  unfold verifier_new. split.
  - intros (hash & Hh & Hv)%result_bind_ok.
    apply result_bind_ok in Hv as (cfg & Hcfg%map_err_ok & Hv). exists hash, cfg.
    destruct (find_sha256 _); [|done]. injection Hh as ->.
    apply result_bind_ok in Hv as (s & Hs & [= <-]). do 2 (split; [done|]). split; [|done].
    destruct (from_cache fs cfg); [by left|right|done]. by apply as_result_ok in Hs as [-> _].
  - intros (hash & cfg & Hh & Hcfg & Hok & ->). rewrite Hh, Hcfg. cbn [or_panic map_err mbind result_bind].
    pose proof (from_cache_no_panic fs cfg) as Hnp.
    destruct (from_cache fs cfg); [done| |done]. by destruct Hok as [?| ->].
Qed.
End Verifier.

(** ** Instances *)

Section Instances.
#[local] Existing Instance demo_clubcard.

(** Certificates are their serial, one byte; all of them verify. *)
Definition demo_verify : WebpkiVerify := {|
  VCert := list byte;
  VerifiedPath := list byte;
  Roots := unit;
  Algorithms := unit;
  ServerName := string;
  cert_try_from l := inr l;
  verify_for_usage ee _ _ _ _ := inr ee;
  verify_is_valid_for_subject_name _ _ := inr tt;
  issuer_spki _ := [];
  path_serial l := l;
  path_scts _ := inr [inr (demo_log x01, 17)];
  CLIENT_AUTH_REPR := [2];
  SERVER_AUTH_REPR := [1];
  DigitallySignedStruct := unit;
  crypto_verify_tls12_signature _ _ _ _ := inr tt;
  crypto_verify_tls13_signature _ _ _ _ := inr tt;
  supported_schemes _ := []
|}.
#[local] Existing Instance demo_verify.

Definition demo_verifier : ServerVerifier :=
  mkVerifier (mkProvider [] tt) (mkHash SHA256 (λ _, replicate 32 x00)) tt demo_config default_policy.

Lemma policy_cannot_override_witness :
  verify_server_cert id demo_verifier demo_index_fs [x07] [] "example.com" 0
  = Err (InvalidCertificate CertificateError.Revoked).
Proof.
  apply (policy_cannot_override id demo_verifier demo_index_fs [x07] [] "example.com" 0 [x07]
           [mkCtTimestamp (demo_log x01) 17]).
  - exists [x07]. by split.
  - done.
  - done.
  - done.
  - exists (match input_new (E := TlsError) [x07] (replicate 32 x00)
                            [mkCtTimestamp (demo_log x01) 17] with
            | Ok i => i | _ => demo_input x00 x00 0 end).
    split; by_vm.
Defined.
End Instances.
