(* ===== verification/SimpleClient.v ===== *)
(** * [rustls-upki/examples/simpleclient.rs]: a client of the verifier

    The example makes a [ServerVerifier] with the default policy, gives it to
    [rustls] and makes one HTTP request.  [rustls] is an interface that sees the
    verifier through the trait [ServerCertVerifier] only. *)
From S2P Require Import Prelude Bytes FileSys External Revocation Config Index Demo IndexSafe IndexSpec IndexTheorems RustlsUpki.

(** ** Interfaces *)

(** What [rustls] keeps of the verifier of a configuration. *)
Definition VerifyServerCert `{WebpkiVerify} : Type :=
  Fs → list byte → list (list byte) → ServerName → Z → Result TlsError unit.

(** [rustls], [rustls_native_certs] and TCP: an error is its message. *)
Class RustlsClient `{WebpkiVerify} := {
  ClientNet : Type;
  Conn : Type;
  Sock : Type;
  (** The roots of the platform that parse. *)
  load_native_certs : ClientNet → option Roots;
  safe_default_protocol_versions : option unit;
  server_name_of : string → string + ServerName;
  client_connection_new : VerifyServerCert → ServerName → string + Conn;
  sock_connect : string → ClientNet → ClientNet * (string + Sock);
  (** [tls.write_all], which completes the handshake first, and [read_to_end]. *)
  tls_write_all : Conn → Sock → list byte → Fs → ClientNet → ClientNet * (string + Conn);
  tls_read_to_end : Conn → Sock → Fs → ClientNet → ClientNet * (string + list byte);
  (** The chain that the peer presented in the handshake of the connection, the end
      entity first. *)
  conn_peer_certificates : Conn → option (list (list byte));
  (** The time of the system. *)
  unix_time : ClientNet → Z;
  negotiated_cipher_suite : Conn → option string
}.

(** A handshake completes only if the verifier accepted, for the name and the time at
    which it ran, the chain that the peer presented. *)
Class RustlsClientLaws `{RustlsClient} : Prop := {
  handshake_verifies verify name conn sock data fs net net' conn' :
    client_connection_new verify name = inr conn →
    tls_write_all conn sock data fs net = (net', inr conn') →
    ∃ end_entity intermediates now,
      conn_peer_certificates conn' = Some (end_entity :: intermediates)
      ∧ unix_time net ≤ now ≤ unix_time net'
      ∧ verify fs end_entity intermediates name now = Ok tt }.

Section Client.
Context `{WebpkiVerify} `{!RustlsClient} `{Clubcard} `{Directories} `{Toml}.
Context (debug_path display_path : string → string) (tls_error_display : TlsError → string)
  (platform : Platform) (default_provider : CryptoProvider).

(** The network, and what was written to standard output and standard error. *)
Record ClientState := mkClient { c_net : ClientNet; c_stdout : list byte; c_stderr : string }.

Definition on_client_net {A} (m : ClientNet → ClientNet * (string + A))
  : Eff ClientState string A := λ s,
  let '(net, r) := m (c_net s) in
  ({| c_net := net; c_stdout := c_stdout s; c_stderr := c_stderr s |}, of_sum r).
Definition client_pure {A} (r : Result string A) : Eff ClientState string A := eff_lift (λ _, r).
Definition print_stdout (data : list byte) : Eff ClientState string unit := λ s,
  ({| c_net := c_net s; c_stdout := c_stdout s ++ data; c_stderr := c_stderr s |}, Ok tt).
Definition print_stderr (line : string) : Eff ClientState string unit := λ s,
  ({| c_net := c_net s; c_stdout := c_stdout s; c_stderr := c_stderr s +:+ line |}, Ok tt).

Definition crlf : string := String.String "013"%char (String.String "010"%char "").
Definition http_request (hostname path : string) : string :=
  "GET " +:+ path +:+ " HTTP/1.1" +:+ crlf +:+ "Host: " +:+ hostname +:+ crlf
  +:+ "Connection: close" +:+ crlf +:+ "Accept-Encoding: identity" +:+ crlf +:+ crlf.

(** [main]; [args] starts with the program's name.  [rustls] sees the verifier as a
    [ServerCertVerifier]. *)
Definition client_main (fs : Fs) (args : list string) : Eff ClientState string unit :=
  hostname ← client_pure (or_panic (args !! 1%nat));
  let path := default "/" (args !! 2%nat) in
  root_store ← eff_lift (λ s, or_panic (load_native_certs (c_net s)));
  verifier ← client_pure (map_err tls_error_display
    (verifier_new display_path platform fs default_policy None root_store default_provider));
  _ ← client_pure (or_panic safe_default_protocol_versions);
  server_name ← client_pure (of_sum (server_name_of hostname));
  conn ← client_pure (of_sum (client_connection_new
    (trait_verify_server_cert (ServerCertVerifier := server_verifier_trait debug_path) verifier)
    server_name));
  sock ← on_client_net (sock_connect (hostname +:+ ":443"));
  conn ← on_client_net (tls_write_all conn sock (as_bytes (http_request hostname path)) fs);
  ciphersuite ← client_pure (or_panic (negotiated_cipher_suite conn));
  _ ← print_stderr ("Current ciphersuite: " +:+ ciphersuite +:+ String.String "010"%char "");
  plaintext ← on_client_net (tls_read_to_end conn sock fs);
  print_stdout plaintext.

(** ** Theorem *)

(** Reading one step of [client_main] off a run that wrote to standard output. *)
Lemma bind_stdout {A B} (m : Eff ClientState string A) (k : A → Eff ClientState string B) s :
  (∀ s, c_stdout (m s).1 = c_stdout s) →
  c_stdout ((m ≫= k) s).1 ≠ c_stdout s →
  ∃ s' a, m s = (s', Ok a) ∧ c_stdout s' = c_stdout s ∧ c_stdout (k a s').1 ≠ c_stdout s'.
Proof.
  intros Hm. unfold mbind, eff_bind. specialize (Hm s).
  destruct (m s) as [s' [a|e|]]; cbn [fst] in *; intros Hne; [|done..].
  exists s', a. by rewrite Hm.
Qed.

Lemma client_pure_stdout {A} (r : Result string A) s : c_stdout (client_pure r s).1 = c_stdout s.
Proof. done. Qed.
Lemma on_client_net_stdout {A} (m : ClientNet → ClientNet * (string + A)) s :
  c_stdout (on_client_net m s).1 = c_stdout s.
Proof. unfold on_client_net. by destruct (m (c_net s)). Qed.

(** A connection to the host over which [plaintext] came, and the chain presented on it. *)
Record answered_over (verifier : ServerVerifier) (fs : Fs) (hostname path : string)
    (name : ServerName) (chain : list (list byte)) (t t' : Z) (plaintext : list byte)
    : Prop := {
  over_connection : ∃ conn sock conn' net net1 net2 net3,
    server_name_of hostname = inr name
    ∧ client_connection_new
        (trait_verify_server_cert (ServerCertVerifier := server_verifier_trait debug_path) verifier)
        name = inr conn
    ∧ sock_connect (hostname +:+ ":443") net = (net1, inr sock)
    ∧ tls_write_all conn sock (as_bytes (http_request hostname path)) fs net1 = (net2, inr conn')
    ∧ tls_read_to_end conn' sock fs net2 = (net3, inr plaintext)
    ∧ conn_peer_certificates conn' = Some chain
    ∧ t = unix_time net1 ∧ t' = unix_time net2 }.

Lemma on_client_net_ok {A} (m : ClientNet → ClientNet * (string + A)) s s' a :
  on_client_net m s = (s', Ok a) → m (c_net s) = (c_net s', inr a) ∧ c_stdout s' = c_stdout s.
Proof.
  unfold on_client_net. destruct (m (c_net s)) as [net [e|x]]; [done|]. by intros [= <- ->].
Qed.

Lemma print_stderr_ok line s s' u :
  print_stderr line s = (s', Ok u) → c_net s' = c_net s ∧ c_stdout s' = c_stdout s.
Proof. by intros [= <- _]. Qed.

(** C27: What the example client shows is what came over a connection to port 443 of the
    host asked for; and the chain that was presented on that very connection is one that
    [webpki] accepts for the host from the platform's roots, at the time of the handshake,
    and that the index does not say is revoked. *)
Theorem client_shows_verified `{!RustlsClientLaws} fs args s :
  c_stdout (client_main fs args s).1 ≠ c_stdout s →
  ∃ hostname name roots verifier end_entity intermediates t now t' plaintext path scts,
    args !! 1%nat = Some hostname ∧ load_native_certs (c_net s) = Some roots
    ∧ verifier_new display_path platform fs default_policy None roots default_provider = Ok verifier
    ∧ answered_over verifier fs hostname (default "/" (args !! 2%nat)) name
        (end_entity :: intermediates) t t' plaintext
    ∧ c_stdout (client_main fs args s).1 = c_stdout s ++ plaintext
    ∧ t ≤ now ≤ t'
    ∧ chain_verified verifier end_entity intermediates name now path
    ∧ has_scts path scts
    ∧ (scts = [] ∨ ∃ st, st ≠ CertainlyRevoked ∧ index_status verifier fs path scts (Ok st)).
Proof.
  intros Hne. unfold client_main in Hne. revert Hne.
  intros (s1 & hostname & Hh & Ho1 & Hne)%bind_stdout; [|apply client_pure_stdout].
  apply bind_stdout in Hne as (s2 & roots & Hr & Ho2 & Hne); [|done].
  apply bind_stdout in Hne as (s3 & v & Hv & Ho3 & Hne); [|apply client_pure_stdout].
  apply bind_stdout in Hne as (s4 & u & Hp & Ho4 & Hne); [|apply client_pure_stdout].
  apply bind_stdout in Hne as (s5 & name & Hn & Ho5 & Hne); [|apply client_pure_stdout].
  apply bind_stdout in Hne as (s6 & conn & Hc & Ho6 & Hne); [|apply client_pure_stdout].
  apply bind_stdout in Hne as (s7 & sock & Hk & _ & Hne); [|apply on_client_net_stdout].
  apply bind_stdout in Hne as (s8 & conn' & Hw & _ & Hne); [|apply on_client_net_stdout].
  apply bind_stdout in Hne as (s9 & suite & Hs & Ho9 & Hne); [|apply client_pure_stdout].
  apply bind_stdout in Hne as (s10 & u' & He & _ & Hne); [|done].
  apply bind_stdout in Hne as (s11 & plaintext & Hd & _ & _); [|apply on_client_net_stdout].
  assert (c_stdout (client_main fs args s).1 = c_stdout s11 ++ plaintext) as Hshown.
  { unfold client_main, mbind, eff_bind. rewrite Hh, Hr, Hv, Hp, Hn, Hc, Hk, Hw, Hs, He, Hd. done. }
  apply on_client_net_ok in Hk as [Hk Ho7], Hw as [Hw Ho8], Hd as [Hd Ho11].
  apply print_stderr_ok in He as [He Ho10].
  unfold client_pure, eff_lift in Hh, Hr, Hn, Hv, Hc, Hp, Hs.
  destruct (args !! 1%nat) as [h|]; [|done]. injection Hh as <- ->.
  destruct (load_native_certs (c_net s)) as [rs|] eqn:Er; [|done]. injection Hr as <- ->.
  injection Hv as <- Hv%map_err_ok. injection Hp as <- _.
  destruct (server_name_of hostname) as [|n] eqn:En; [done|]. injection Hn as <- ->.
  destruct (client_connection_new _ _) as [|c] eqn:Ec; [done|]. injection Hc as <- ->.
  injection Hs as <- _.
  destruct (handshake_verifies _ _ _ _ _ _ _ _ _ Ec Hw) as (ee & ints & now & Hpeer & Ht & Hok).
  apply verify_accepts in Hok as (path & scts & Hchain & _ & Hsc & Hcase).
  exists hostname, name, roots, v, ee, ints, (unix_time (c_net s7)), now, (unix_time (c_net s8)),
    plaintext, path, scts.
  do 3 (split; [done|]). split.
  { split. exists conn, sock, conn', (c_net s), (c_net s7), (c_net s8), (c_net s11).
    rewrite He in Hd. by repeat (split; [done|]). }
  split; [rewrite Hshown; congruence|]. do 3 (split; [done|]).
  destruct Hcase as [[-> _]|[[_ Hi]|(_ & Hi & _)]]; [by left|right..].
  - by exists NotRevoked.
  - by exists NotCoveredByRevocationData.
Qed.
End Client.

(** ** Instances *)

Section Instances.
#[local] Existing Instance demo_clubcard.
#[local] Existing Instance demo_verify.
#[local] Existing Instance demo_directories.
#[local] Existing Instance demo_toml.

(** A server that presents one certificate; the connection asks the verifier. *)
Definition demo_rustls : RustlsClient := {|
  ClientNet := unit;
  Conn := VerifyServerCert * string;
  Sock := unit;
  load_native_certs _ := Some tt;
  safe_default_protocol_versions := Some tt;
  server_name_of := inr;
  client_connection_new verify name := inr (verify, name);
  sock_connect _ net := (net, inr tt);
  tls_write_all conn _ _ fs net :=
    (net, if is_ok (conn.1 fs [x07] [] conn.2 0) then inr conn else inl "bad certificate");
  tls_read_to_end _ _ _ net := (net, inr [x2a]);
  conn_peer_certificates _ := Some [[x07]];
  unix_time _ := 0;
  negotiated_cipher_suite _ := Some "TLS13_AES_128_GCM_SHA256"
|}.
#[local] Existing Instance demo_rustls.

Lemma demo_rustls_laws : @RustlsClientLaws demo_verify demo_rustls.
Proof.
  split. cbn. intros verify name conn _ _ fs net net' conn' [= <-] [= _ Hc].
  exists [x07], [], 0. destruct (verify fs [x07] [] name 0) as [[]| |]; [|done..].
  injection Hc as <-. done.
Qed.
#[local] Existing Instance demo_rustls_laws.

(** The user's cache holds an index of no filters. *)
Definition demo_client_fs : Fs :=
  mkFs {[ "/home/u/.cache/upki/revocation/index.bin" := encode V1 [] [] ]}
       {["/home/u/.cache/upki"]} (λ _ _, None) id.
Definition demo_provider : CryptoProvider :=
  mkProvider [mkHash OtherHash id; mkHash SHA256 (λ _, replicate 32 x00)] tt.
Definition demo_client : ClientState := mkClient (tt : ClientNet) [] "".
Definition demo_client_main : Eff ClientState string unit :=
  client_main id id (λ _, "") Unix demo_provider demo_client_fs ["simpleclient"; "example.com"].

Lemma client_shows_verified_witness :
  (demo_client_main demo_client).2 = Ok tt
  ∧ ∃ (verifier : ServerVerifier) (hostname name : string) chain t t' plaintext,
      ["simpleclient"; "example.com"] !! 1%nat = Some hostname
      ∧ answered_over id verifier demo_client_fs hostname "/" name chain t t' plaintext
      ∧ c_stdout (demo_client_main demo_client).1 = plaintext.
Proof.
  split; [by vm_compute|].
  destruct (client_shows_verified id id (λ _, "") Unix demo_provider demo_client_fs
              ["simpleclient"; "example.com"] demo_client)
    as (hostname & name & roots & v & ee & ints & t & now & t' & plaintext & path & scts & Hh & _ & _
        & Hover & Hout & _);
    [by vm_compute|].
  exists v, hostname, name, (ee :: ints), t, t', plaintext. split; [exact Hh|]. split; [exact Hover|exact Hout].
Defined.
End Instances.
