(* ===== verification/Mirror.v ===== *)
(** * [upki-mirror/src/bin]: publishing revocation data

    [mozilla-crlite] turns Mozilla's records into the manifest and the filters a
    server offers, [intermediates] publishes intermediate certificates the same
    way.  HTTP, JSON, CSV, PEM and the digest are interfaces.  An [eyre::Report]
    is its chain of messages, outermost first. *)
From stdpp Require Import pretty.
From S2P Require Import Prelude Bytes FileSys External Revocation Config Index Fetch.

Definition Report : Type := list string.

(** [WrapErr::wrap_err] *)
Definition wrap_err {S A} (msg : string) (m : Eff S Report A) : Eff S Report A :=
  eff_map_err (cons msg) m.

(** [aws_lc_rs::digest::digest(&SHA256, _)] *)
Class Digest := { sha256_digest : list byte → list byte }.

(** [serde_json::to_string] on a manifest. *)
Class JsonText := { manifest_to_string : Manifest → string + string }.

(** [fs::write] with its error, and [io::Error]'s message. *)
Section Write.
Context `{Http} (io_message : IoError → string).

Definition write_output (path : string) (data : list byte) : Eff World Report unit :=
  on_fs (eff_map_err (λ e, [io_message e]) (fs_write path data)).

Lemma write_output_ok path data w w' :
  write_output path data w = (w', Ok tt) →
  w_net w' = w_net w ∧ w_fs w' = set_files <[path := data]> (w_fs w).
Proof.
  unfold write_output, on_fs, eff_map_err.
  destruct (fs_write path data (w_fs w)) as [fs' [[]|e|]] eqn:E; cbn [map_err]; [|done..].
  intros [= <-]. split; [done|]. by apply fs_write_ok.
Qed.

(** The end of both programs: the manifest of [files].  A clock before 1970 makes
    [duration_since(UNIX_EPOCH).unwrap()] panic. *)
Definition publish `{JsonText} (output_dir manifest_comment : string) (now : Z)
    (files : list ManifestFile) : Eff World Report unit :=
  generated_at ← eff_lift (λ _, or_panic (if now <? 0 then None else Some now));
  let manifest := mkManifest generated_at manifest_comment files in
  let output_filename := path_join output_dir MANIFEST_JSON in
  text ← wrap_err "cannot encode JSON manifest"
           (eff_lift (λ _, map_err (λ e, [e]) (of_sum (manifest_to_string manifest))));
  wrap_err "cannot write manifest to {output_filename:?}"
    (write_output output_filename (as_bytes text)).

Lemma publish_ok `{JsonText} output_dir comment now files w w' :
  publish output_dir comment now files w = (w', Ok tt) →
  ∃ text, manifest_to_string (mkManifest now comment files) = inr text
    ∧ w_fs w' = set_files <[path_join output_dir MANIFEST_JSON := as_bytes text]> (w_fs w).
Proof.
  unfold publish, wrap_err, mbind, eff_bind, eff_lift, eff_map_err.
  destruct (now <? 0); cbn [or_panic]; [done|].
  destruct (manifest_to_string _) as [e|text]; cbn [of_sum map_err]; [done|].
  destruct (write_output _ _ w) as [w1 [[]|e|]] eqn:E; cbn [map_err]; [|done..].
  intros [= <-]. exists text. split; [done|]. by apply write_output_ok in E as [_ ->].
Qed.
End Write.

(** ** [mozilla-crlite.rs] *)

Module Crlite.

Inductive Channel : Type := Default | Compat.
#[export] Instance channel_eq_dec : EqDecision Channel.
Proof. solve_decision. Defined.

Record Attachment := mkAttachment
  { att_hash : list byte; att_size : Z; att_filename : string; location : string }.

Record Item := mkItem
  { attachment : Attachment;
    channel : Channel;
    item_id : string;
    incremental : bool;
    parent : option string }.

#[export] Instance attachment_eq_dec : EqDecision Attachment.
Proof. solve_decision. Defined.
#[export] Instance item_eq_dec : EqDecision Item.
Proof. solve_decision. Defined.

Definition records_url : string :=
  "https://firefox.settings.services.mozilla.com/v1/buckets/security-state/collections/cert-revocations/records".
Definition attachment_host : string := "https://firefox-settings-attachments.cdn.mozilla.net/".

(** [HashMap::from_iter]: of two items with one parent the later stays. *)
Definition by_parent (data : list Item) : gmap string Item :=
  foldl (λ m it, match parent it with Some p => <[p := it]> m | None => m end) ∅ data.

Definition is_root (it : Item) : bool :=
  negb (incremental it) && bool_decide (parent it = None)
  && bool_decide (channel it = Default).

(** The loop that walks the filters: [fuel] bounds its iterations. *)
Fixpoint walk (fuel : nat) (by_parent : gmap string Item) (next : option Item)
    (download_plan : list Item) : option (list Item) :=
  match next with
  | None => Some download_plan
  | Some item =>
      match fuel with
      | O => None
      | S fuel' => walk fuel' by_parent (by_parent !! item_id item) (download_plan ++ [item])
      end
  end.

(** The plan; [None] when the loop does not end. *)
Definition download_plan (data : list Item) : option (list Item) :=
  walk (S (length data)) (by_parent data) (snd <$> list_find is_root data) [].

Section Main.
Context `{Http} `{Digest} `{JsonText}.
Context (status_failure : Response → option string)
  (response_records : Response → Net → Net * (string + list Item))
  (io_message : IoError → string) (debug_item : Item → string)
  (debug_str debug_path : string → string).

(** One turn of the download loop. *)
Definition download_item (client : Client) (output_dir : string) (p : Item)
  : Eff World Report ManifestFile :=
  let attachment_url := attachment_host +:+ location (attachment p) in
  response ← wrap_err ("download request failed for " +:+ attachment_url)
               (eff_map_err (λ e, [e]) (on_net (send client attachment_url)));
  bytes ← eff_map_err (λ e, [e]) (on_net (response_bytes response));
  if negb (bool_decide (att_hash (attachment p) = sha256_digest bytes)) then
    eff_err ["item " +:+ debug_item p +:+ " downloaded from " +:+ debug_str attachment_url
             +:+ " does not have correct hash"]
  else if negb (att_size (attachment p) =? Z.of_nat (length bytes)) then
    eff_err ["item " +:+ debug_item p +:+ " downloaded from " +:+ debug_str attachment_url
             +:+ " does not have correct size"]
  else
    let output_filename := path_join output_dir (att_filename (attachment p)) in
    _ ← wrap_err ("cannot write filter data to " +:+ debug_path output_filename)
          (write_output io_message output_filename bytes);
    mret (mkManifestFile (att_filename (attachment p)) (att_size (attachment p))
                         (att_hash (attachment p))).

Fixpoint download_items (client : Client) (output_dir : string) (plan : list Item)
    (files : list ManifestFile) : Eff World Report (list ManifestFile) :=
  match plan with
  | [] => mret files
  | p :: rest =>
      file ← download_item client output_dir p;
      download_items client output_dir rest (files ++ [file])
  end.

(** The records, as [main] gets them. *)
Definition get_records (client : Client) : Eff World Report (list Item) :=
  response ← wrap_err "records request failed"
               (eff_map_err (λ e, [e]) (on_net (send client records_url)));
  _ ← eff_lift (λ _, match status_failure response with
                     | Some status => Err ["HTTP error for records request: " +:+ status]
                     | None => Ok tt
                     end);
  wrap_err "failed to parse records JSON"
    (eff_map_err (λ e, [e]) (on_net (response_records response))).

(** [main]; [None]: it runs for ever. *)
Definition main (output_dir manifest_comment : string) (now : Z) (w : World)
  : option (World * Result Report unit) :=
  match client_build with
  | inl e => Some (w, Err ["failed to create HTTP client"; e])
  | inr client =>
      match get_records client w with
      | (w, Ok data) =>
          plan ← download_plan data;
          Some ((files ← download_items client output_dir plan [];
                 publish io_message output_dir manifest_comment now files) w)
      | (w, Err e) => Some (w, Err e)
      | (w, Panic) => Some (w, Panic)
      end
  end.
End Main.

(** ** The walk *)

(** The items visited from [next] on, when the walk ends. *)
Inductive chain (m : gmap string Item) : option Item → list Item → Prop :=
| chain_end : chain m None []
| chain_step it l : chain m (m !! item_id it) l → chain m (Some it) (it :: l).

Lemma chain_fun m next l l' : chain m next l → chain m next l' → l = l'.
Proof.
  intros Hl. revert l'. induction Hl as [|it l Hl IH]; intros l' Hl'; inversion Hl'; subst; [done|].
  f_equal. by apply IH.
Qed.

Lemma walk_chain m fuel next acc plan :
  walk fuel m next acc = Some plan
  ↔ ∃ l, chain m next l ∧ plan = acc ++ l ∧ (length l ≤ fuel)%nat.
Proof.
  revert next acc. induction fuel as [|fuel IH]; intros [it|] acc; cbn [walk].
  - split; [done|]. intros (l & Hl & _ & Hf). inversion Hl; subst. cbn in Hf. lia.
  - split; [intros [= ->]; exists []; rewrite app_nil_r; split; [apply chain_end|cbn; split; [done|lia]]|].
    intros (l & Hl & -> & _). inversion Hl. by rewrite app_nil_r.
  - rewrite IH. split.
    + intros (l & Hl & -> & Hf). exists (it :: l). rewrite <- (assoc_L (++)).
      split; [by constructor|]. split; [done|]. cbn [length]. lia.
    + intros (l & Hl & -> & Hf). inversion Hl as [|? l' Hl']; subst. exists l'.
      rewrite <- (assoc_L (++)). split; [done|]. split; [done|]. cbn [length] in Hf. lia.
  - split; [intros [= ->]; exists []; rewrite app_nil_r; split; [apply chain_end|cbn; split; [done|lia]]|].
    intros (l & Hl & -> & _). inversion Hl. by rewrite app_nil_r.
Qed.

Lemma chain_suffix m next l1 it l2 : chain m next (l1 ++ it :: l2) → chain m (Some it) (it :: l2).
Proof.
  revert next. induction l1 as [|x l1 IH]; intros next Hc; inversion Hc; subst; [done|].
  by eapply IH.
Qed.

Lemma chain_nodup m next l : chain m next l → NoDup l.
Proof.
  induction 1 as [|it l Hl IH]; constructor; [|done].
  intros (l1 & l2 & ->)%list_elem_of_split.
  assert (l1 ++ it :: l2 = l2) as E.
  { pose proof (chain_suffix _ _ _ _ _ Hl) as Hs.
    pose proof (chain_fun _ _ _ _ Hs (chain_step _ _ _ Hl)) as E. by injection E as <-. }
  apply (f_equal length) in E. rewrite length_app in E. cbn in E. lia.
Qed.

Lemma by_parent_snoc data it :
  by_parent (data ++ [it])
  = match parent it with Some p => <[p := it]> (by_parent data) | None => by_parent data end.
Proof. unfold by_parent. by rewrite foldl_app. Qed.

Lemma by_parent_some data p it :
  by_parent data !! p = Some it → it ∈ data ∧ parent it = Some p.
Proof.
  induction data as [|x data IH] using rev_ind; [done|]. rewrite by_parent_snoc, elem_of_app.
  destruct (parent x) as [q|] eqn:Hq; [|naive_solver].
  destruct (decide (q = p)) as [->|]; [rewrite lookup_insert_eq|rewrite lookup_insert_ne by done].
  - intros [= ->]. split; [right; by apply list_elem_of_singleton|done].
  - naive_solver.
Qed.

Lemma by_parent_none data p it :
  by_parent data !! p = None → it ∈ data → parent it ≠ Some p.
Proof.
  induction data as [|x data IH] using rev_ind; [by intros _ ?%elem_of_nil|].
  rewrite by_parent_snoc, elem_of_app, list_elem_of_singleton.
  destruct (parent x) as [q|] eqn:Hq.
  - destruct (decide (q = p)) as [->|]; [by rewrite lookup_insert_eq|].
    rewrite lookup_insert_ne by done. intros Hn [?| ->]; [by apply IH|]. congruence.
  - intros Hn [?| ->]; [by apply IH|]. congruence.
Qed.

Lemma chain_subset data next l :
  chain (by_parent data) next l → (∀ it, next = Some it → it ∈ data) → l ⊆ data.
Proof.
  induction 1 as [|it l Hl IH]; intros Hn x; [by intros ?%elem_of_nil|].
  intros [->|Hx]%elem_of_cons; [by apply Hn|]. apply IH; [|done].
  intros it' Hit'. by apply by_parent_some in Hit' as [? _].
Qed.

Lemma root_in data it : snd <$> list_find is_root data = Some it → it ∈ data ∧ is_root it = true.
Proof.
  intros ([i x] & Hf & ->)%fmap_Some. apply list_find_Some in Hf as (Hi & Hr & _).
  split; [by eapply list_elem_of_lookup_2|]. by apply Is_true_eq_true.
Qed.

(** The bound on the walk is no restriction: if the loop ends at all it ends within
    the number of records. *)
Theorem walk_bound (data : list Item) (plan : list Item) :
  (∃ fuel, walk fuel (by_parent data) (snd <$> list_find is_root data) [] = Some plan)
  ↔ download_plan data = Some plan.
Proof.
  split; [|by exists (S (length data))]. intros [fuel Hw].
  apply walk_chain in Hw as (l & Hl & -> & _).
  unfold download_plan. apply walk_chain. exists l. do 2 (split; [done|]).
  enough (length l ≤ length data)%nat by lia. apply submseteq_length, NoDup_submseteq.
  - by eapply chain_nodup.
  - eapply chain_subset; [done|]. intros it Hit. by apply root_in in Hit as [? _].
Qed.

Lemma walk_stops data acc fuel next :
  NoDup (item_id <$> data) →
  NoDup acc → acc ⊆ data →
  (∀ it, next = Some it → it ∈ data ∧ it ∉ acc) →
  (∀ x, x ∈ acc ∨ next = Some x → parent x = None ∨ ∃ y, y ∈ acc ∧ parent x = Some (item_id y)) →
  (length data < fuel + length acc)%nat →
  is_Some (walk fuel (by_parent data) next acc).
Proof.
  intros Hids. revert next acc. induction fuel as [|fuel IH]; intros next acc Hnd Hsub Hnext Hpred Hf.
  { exfalso. enough (length acc ≤ length data)%nat by (cbn in Hf; lia).
    by apply submseteq_length, NoDup_submseteq. }
  destruct next as [it|]; cbn [walk]; [|by eexists].
  destruct (Hnext it eq_refl) as [Hin Hni].
  assert (∀ y, y ∈ data → item_id y = item_id it → y = it) as Hinj.
  { intros y Hy Hid. apply list_elem_of_lookup in Hy as [i Hi], Hin as [j Hj].
    enough (i = j) by congruence. eapply (NoDup_lookup _ i j (item_id it) Hids);
      rewrite list_lookup_fmap; [rewrite Hi|rewrite Hj]; cbn; congruence. }
  apply IH.
  - apply NoDup_app. split; [done|]. split; [|apply NoDup_singleton].
    by intros x Hx ->%list_elem_of_singleton.
  - intros x [?| ->%list_elem_of_singleton]%elem_of_app; [by apply Hsub|done].
  - intros it' [Hd Hp]%by_parent_some. split; [done|].
    intros Ha. assert (it' ∈ acc ∨ Some it = Some it') as Hm.
    { apply elem_of_app in Ha as [?| ->%list_elem_of_singleton]; auto. }
    apply Hpred in Hm as [?|(y & Hy & Hp')]; [congruence|].
    rewrite Hp in Hp'. injection Hp' as Hid. apply Hni.
    by rewrite <- (Hinj y (Hsub _ Hy) (eq_sym Hid)).
  - intros x [Hx|[_ Hp]%by_parent_some].
    + assert (x ∈ acc ∨ Some it = Some x) as Hm.
      { apply elem_of_app in Hx as [?| ->%list_elem_of_singleton]; auto. }
      apply Hpred in Hm as [?|(y & ? & ?)]; [by left|]. right. exists y.
      split; [|done]. apply elem_of_app. by left.
    + right. exists it. split; [|done]. apply elem_of_app. right. by apply list_elem_of_singleton.
  - rewrite length_app. cbn [length]. lia.
Qed.

(** C39: Records with distinct identifiers: the walk ends, with the first full filter of
    the default channel, then at each step a record whose parent is the one before,
    until no record has the last one as its parent. *)
Theorem download_plan_chain (data : list Item) :
  NoDup (item_id <$> data) →
  ∃ plan, download_plan data = Some plan
    ∧ head plan = snd <$> list_find is_root data
    ∧ (∀ k x y, plan !! k = Some x → plan !! S k = Some y → parent y = Some (item_id x))
    ∧ (∀ x y, last plan = Some x → y ∈ data → parent y ≠ Some (item_id x))
    ∧ NoDup plan ∧ plan ⊆ data.
Proof.
  intros Hids. set (root := snd <$> list_find is_root data).
  assert (∀ it, root = Some it → it ∈ data ∧ is_root it = true) as Hroot by apply root_in.
  destruct (walk_stops data [] (S (length data)) root) as [plan Hp]; [done|..].
  - constructor.
  - intros x ?%elem_of_nil. done.
  - intros it Hit. split; [by apply Hroot|]. apply not_elem_of_nil.
  - intros x [?%elem_of_nil|Hx]; [done|]. left. apply Hroot in Hx as [_ Hx].
    unfold is_root in Hx. apply andb_prop in Hx as [Hx _]. apply andb_prop in Hx as [_ Hx].
    by apply bool_decide_eq_true in Hx.
  - cbn. lia.
  - exists plan. split; [done|]. apply walk_chain in Hp as (l & Hl & -> & _). cbn [app].
    split; [by destruct Hl|]. split; [|split]; [| |split; [by eapply chain_nodup|]].
    + clear Hroot. clearbody root. induction Hl as [|it l Hl IH]; [done|].
      intros [|k] x y Hx Hy; [|by apply (IH k)]. injection Hx as <-. cbn in Hy.
      inversion Hl as [E|it' l' Hl' E]; subst; [done|]. injection Hy as <-. symmetry in E.
      by apply by_parent_some in E as [_ E].
    + clear Hroot. clearbody root. induction Hl as [|it l Hl IH]; [done|].
      intros x y Hx Hy. inversion Hl as [E|it' l' Hl' E]; subst.
      * injection Hx as <-. by apply (by_parent_none data).
      * by apply IH.
    + eapply chain_subset; [done|]. intros it Hit. by apply Hroot in Hit as [? _].
Qed.

(** A record that is its own parent, under the identifier of the root, is followed
    for ever. *)
Example download_plan_cycle :
  let a := mkAttachment [] 0 "f" "l" in
  download_plan [mkItem a Default "a" false None; mkItem a Default "a" true (Some "a")] = None.
Proof. by vm_compute. Qed.

(** ** What is published *)

(** The manifest's entry for a record. *)
Definition entry (p : Item) : ManifestFile :=
  mkManifestFile (att_filename (attachment p)) (att_size (attachment p))
                 (att_hash (attachment p)).
Definition entries (plan : list Item) : list ManifestFile := entry <$> plan.

(** Where the files go. *)
Definition out_paths (dir : string) (files : list ManifestFile) : list string :=
  (λ f, path_join dir (filename f)) <$> files.

Section Published.
Context `{Http} `{Digest} `{JsonText}.
Context (status_failure : Response → option string)
  (response_records : Response → Net → Net * (string + list Item))
  (io_message : IoError → string) (debug_item : Item → string)
  (debug_str debug_path : string → string).

(** The file of [f] in [dir] has the digest and the size [f] announces. *)
Definition published (dir : string) (m : gmap string (list byte)) (f : ManifestFile) : Prop :=
  ∃ data, m !! path_join dir (filename f) = Some data
    ∧ sha256_digest data = hash f ∧ Z.of_nat (length data) = size f.

Lemma published_insert dir m f q data :
  q ≠ path_join dir (filename f) → published dir m f → published dir (<[q := data]> m) f.
Proof. intros Hq (d & Hd & ?). exists d. by rewrite lookup_insert_ne. Qed.

#[local] Notation download_item := (download_item io_message debug_item debug_str debug_path).
#[local] Notation download_items := (download_items io_message debug_item debug_str debug_path).

Lemma download_item_ok client dir p w w' f :
  download_item client dir p w = (w', Ok f) →
  f = entry p ∧ ∃ data,
    files (w_fs w') = <[path_join dir (filename f) := data]> (files (w_fs w))
    ∧ sha256_digest data = hash f ∧ Z.of_nat (length data) = size f.
Proof.
  unfold Crlite.download_item, wrap_err, mbind, eff_bind, eff_map_err.
  unfold on_net at 1. destruct (send _ _ _) as [n1 [e|resp]]; cbn [of_sum map_err]; [done|].
  unfold on_net at 1. destruct (response_bytes _ _) as [n2 [e|bytes]]; cbn [of_sum map_err]; [done|].
  destruct (bool_decide _) eqn:Hh; cbn [negb]; [|done].
  destruct (Z.eqb_spec (att_size (attachment p)) (Z.of_nat (length bytes))) as [Hs|];
    cbn [negb]; [|done].
  destruct (write_output _ _ _ _) as [w3 [[]|e|]] eqn:E; cbn [map_err]; [|done..].
  intros [= <- <-]. split; [done|]. exists bytes. apply bool_decide_eq_true in Hh.
  apply write_output_ok in E as [_ ->]. by cbn.
Qed.

Lemma download_items_ok client dir plan files0 w w' fs :
  download_items client dir plan files0 w = (w', Ok fs) →
  NoDup (out_paths dir (files0 ++ entries plan)) →
  Forall (published dir (files (w_fs w))) files0 →
  fs = files0 ++ entries plan
  ∧ Forall (published dir (files (w_fs w'))) fs
  ∧ (∀ q, q ∉ out_paths dir (entries plan) → files (w_fs w') !! q = files (w_fs w) !! q).
Proof.
  revert files0 w. induction plan as [|p plan IH]; intros files0 w; cbn [Crlite.download_items].
  - intros [= <- <-] _ Hp. by rewrite app_nil_r.
  - unfold mbind at 1, eff_bind at 1.
    destruct (download_item client dir p w) as [w1 [f|e|]] eqn:E; [|done..].
    apply download_item_ok in E as (-> & data & Hw1 & Hh & Hs). intros Hd Hnd Hp.
    unfold entries in *. rewrite fmap_cons in Hnd |- *.
    assert (path_join dir (filename (entry p)) ∉ out_paths dir files0) as Hfresh.
    { unfold out_paths in Hnd. rewrite fmap_app in Hnd. apply NoDup_app in Hnd as (_ & Hnd & _).
      intros Hin. apply (Hnd _ Hin). rewrite fmap_cons. left. }
    destruct (IH _ _ Hd) as (-> & Hall & Hframe).
    + by rewrite <- (assoc_L (++)).
    + rewrite Hw1. apply Forall_app. split; [|apply Forall_singleton].
      * rewrite Forall_forall in Hp |- *. intros f Hf. apply published_insert; [|by apply Hp].
        intros Heq. apply Hfresh. apply list_elem_of_fmap. by exists f.
      * exists data. by rewrite lookup_insert_eq.
    + rewrite <- (assoc_L (++)) in *. split; [done|]. split; [done|].
      intros q [Hq1 Hq2]%not_elem_of_cons. rewrite Hframe by done.
      by rewrite Hw1, lookup_insert_ne by done.
Qed.

Lemma get_records_fs client w :
  w_fs (get_records status_failure response_records client w).1 = w_fs w.
Proof.
  unfold get_records, wrap_err, mbind, eff_bind, eff_map_err, eff_lift.
  unfold on_net at 1. destruct (send _ _ _) as [n1 [e|resp]]; cbn [of_sum map_err]; [done|].
  destruct (status_failure resp); [done|].
  unfold on_net. by destruct (response_records _ _) as [n2 [e|d]].
Qed.

Lemma out_paths_nodup dir fs :
  Forall (λ f, is_absolute (filename f) = false) fs → NoDup (filename <$> fs) →
  NoDup (out_paths dir fs).
Proof.
  unfold out_paths. induction 1 as [|f fs Hf Hr IH]; [done|]. rewrite !fmap_cons.
  intros [Hn Hnd]%NoDup_cons. apply NoDup_cons. split; [|by apply IH].
  intros (g & Hg & Hin)%list_elem_of_fmap. apply Hn, list_elem_of_fmap. exists g.
  split; [|done]. rewrite Forall_forall in Hr. eapply path_join_inj; [done|by apply Hr|done].
Qed.

(** A run that succeeds published the manifest of the walk over the records it
    got: each file named has the digest and size announced, in the order of the
    walk, and no other file changed.  The names are those of the records: relative,
    distinct, and not the manifest's. *)
Theorem crlite_publishes dir comment now w w' :
  main status_failure response_records io_message debug_item debug_str debug_path
       dir comment now w = Some (w', Ok tt) →
  ∃ client w1 data plan,
    get_records status_failure response_records client w = (w1, Ok data)
    ∧ download_plan data = Some plan
    ∧ (Forall (λ f, is_absolute (filename f) = false) (entries plan) →
       NoDup (MANIFEST_JSON :: (filename <$> entries plan)) →
       Forall (published dir (files (w_fs w'))) (entries plan)
       ∧ (∃ text, manifest_to_string (mkManifest now comment (entries plan)) = inr text
            ∧ files (w_fs w') !! path_join dir MANIFEST_JSON = Some (as_bytes text))
       ∧ ∀ q, q ∉ path_join dir MANIFEST_JSON :: out_paths dir (entries plan) →
              files (w_fs w') !! q = files (w_fs w) !! q).
Proof.
  unfold main. destruct client_build as [e|client]; [done|].
  pose proof (get_records_fs client w) as Hg.
  destruct (get_records _ _ client w) as [w1 [data|e|]] eqn:E; cbn [fst] in Hg; [|done..].
  destruct (download_plan data) as [plan|] eqn:Hplan; cbn [mbind option_bind]; [|done].
  intros [= Hm]. exists client, w1, data, plan. do 2 (split; [done|]). intros Hrel Hnd.
  unfold mbind, eff_bind in Hm. destruct (download_items client dir plan [] w1)
    as [w2 [fs|e|]] eqn:Hd; [|done..].
  apply NoDup_cons in Hnd as [Hman Hnd].
  apply download_items_ok in Hd as (-> & Hall & Hframe); [|by apply out_paths_nodup|done].
  cbn [app] in *. apply publish_ok in Hm as (text & Ht & ->).
  assert (∀ f, f ∈ entries plan → path_join dir MANIFEST_JSON ≠ path_join dir (filename f)) as Hne.
  { intros f Hf Heq. rewrite Forall_forall in Hrel. apply Hman, list_elem_of_fmap. exists f.
    split; [|done]. eapply path_join_inj; [done|by apply Hrel|done]. }
  cbn [set_files files]. split; [|split].
  - rewrite Forall_forall in Hall |- *. intros f Hf. apply published_insert; [by apply Hne|by apply Hall].
  - exists text. by rewrite lookup_insert_eq.
  - intros q [Hq1 Hq2]%not_elem_of_cons. rewrite lookup_insert_ne by done.
    by rewrite Hframe, Hg.
Qed.
End Published.
End Crlite.

(** ** [intermediates.rs] *)

Module Intermediates.

(** The fields of a record that are used. *)
Record IntermediateData := mkIntermediate { sha256 : list byte; pem : string }.

Definition report_url : string :=
  "https://ccadb.my.salesforce-sites.com/mozilla/MozillaIntermediateCertsCSVReport".

(** A [u8] in two lower-case hexadecimal digits: [{bucket:02x?}]. *)
Definition hex_digit (n : Z) : ascii :=
  match get (Z.to_nat n) "0123456789abcdef" with Some c => c | None => "?"%char end.
Definition hex2 (n : Z) : string := String (hex_digit (n / 16)) (String (hex_digit (n mod 16)) "").
Definition bucket_filename (bucket : Z) : string := hex2 bucket +:+ ".pem".

(** The text of a bucket's file. *)
Definition bucket_contents (certs : list IntermediateData) : string :=
  foldl (λ contents inter, contents +:+ pem inter +:+ String "010" "") "" certs.

Section Main.
Context `{Http} `{Digest} `{JsonText}.
Context (status_failure : Response → option string)
  (csv_records : list byte → string + list IntermediateData)
  (der_from_pem : string → string + list byte)
  (io_message : IoError → string) (debug_item : IntermediateData → string)
  (map_order : list (Z * list IntermediateData) → list (Z * list IntermediateData)).

(** [buckets.entry(bucket).or_default().push(i)] *)
Definition push (bucket : Z) (i : IntermediateData) (buckets : gmap Z (list IntermediateData))
  : gmap Z (list IntermediateData) :=
  <[bucket := default [] (buckets !! bucket) ++ [i]]> buckets.

(** The loop that fills the buckets. *)
Fixpoint fill_buckets (intermediates : list IntermediateData)
    (buckets : gmap Z (list IntermediateData))
  : Result Report (gmap Z (list IntermediateData)) :=
  match intermediates with
  | [] => Ok buckets
  | i :: rest =>
      der ← map_err (λ e, ["cannot parse PEM"; e]) (of_sum (der_from_pem (pem i)));
      if negb (bool_decide (sha256 i = sha256_digest der)) then
        Err ["cert " +:+ debug_item i +:+ " does not have correct hash"]
      else
        bucket ← or_panic (head (sha256 i));
        fill_buckets rest (push (byte_val bucket) i buckets)
  end.

(** The loop that writes them. *)
Fixpoint write_buckets (output_dir : string) (buckets : list (Z * list IntermediateData))
    (files : list ManifestFile) : Eff World Report (list ManifestFile) :=
  match buckets with
  | [] => mret files
  | (bucket, certs) :: rest =>
      let filename := bucket_filename bucket in
      let contents := as_bytes (bucket_contents certs) in
      _ ← wrap_err "cannot write PEM file"
            (write_output io_message (path_join output_dir filename) contents);
      write_buckets output_dir rest
        (files ++ [mkManifestFile filename (Z.of_nat (length contents)) (sha256_digest contents)])
  end.

(** The records, as [main] gets them. *)
Definition get_report (client : Client) : Eff World Report (list IntermediateData) :=
  response ← wrap_err "records request failed"
               (eff_map_err (λ e, [e]) (on_net (send client report_url)));
  _ ← eff_lift (λ _, match status_failure response with
                     | Some status => Err ["HTTP error for records request: " +:+ status]
                     | None => Ok tt
                     end);
  csv_bytes ← wrap_err "failed to receive CSV body"
                (eff_map_err (λ e, [e]) (on_net (response_bytes response)));
  wrap_err "failed to parse CSV"
    (eff_lift (λ _, map_err (λ e, [e]) (of_sum (csv_records csv_bytes)))).

(** [main] *)
Definition main (output_dir manifest_comment : string) (now : Z) : Eff World Report unit :=
  client ← wrap_err "failed to create HTTP client"
             (eff_lift (λ _, map_err (λ e, [e]) (of_sum client_build)));
  intermediates ← get_report client;
  buckets ← eff_lift (λ _, fill_buckets intermediates ∅);
  files ← write_buckets output_dir (map_order (map_to_list buckets)) [];
  publish io_message output_dir manifest_comment now files.

(** ** What is published *)

(** The intermediates of a bucket, in the order of the report. *)
Definition in_bucket (intermediates : list IntermediateData) (b : Z) : list IntermediateData :=
  filter (λ i, byte_val <$> head (sha256 i) = Some b) intermediates.

Lemma in_bucket_snoc l i b :
  in_bucket (l ++ [i]) b
  = in_bucket l b ++ if decide (byte_val <$> head (sha256 i) = Some b) then [i] else [].
Proof. unfold in_bucket. rewrite filter_app, filter_cons. done. Qed.

Definition buckets_of (seen : list IntermediateData) (m : gmap Z (list IntermediateData)) : Prop :=
  ∀ b, m !! b = match in_bucket seen b with [] => None | l => Some l end.

Lemma fill_buckets_spec l seen m m' :
  buckets_of seen m → fill_buckets l m = Ok m' →
  buckets_of (seen ++ l) m'
  ∧ Forall (λ i, ∃ der, der_from_pem (pem i) = inr der ∧ sha256 i = sha256_digest der) l.
Proof.
  revert seen m. induction l as [|i l IH]; intros seen m Hm; cbn [fill_buckets].
  { intros [= <-]. by rewrite app_nil_r. }
  destruct (der_from_pem (pem i)) as [e|der] eqn:Hder; cbn [of_sum map_err mbind result_bind]; [done|].
  destruct (bool_decide _) eqn:Hh; cbn [negb]; [|done]. apply bool_decide_eq_true in Hh.
  destruct (head (sha256 i)) as [b0|] eqn:Hb; cbn [or_panic mbind result_bind]; [|done].
  intros Hf. apply (IH (seen ++ [i])) in Hf as [Hr Hall].
  - rewrite <- (assoc_L (++)) in Hr. split; [done|]. constructor; [by exists der|done].
  - intros b. rewrite in_bucket_snoc, Hb. cbn [fmap option_fmap option_map]. unfold push.
    destruct (decide (b = byte_val b0)) as [->|Hne].
    + rewrite lookup_insert_eq, decide_True by done. rewrite (Hm (byte_val b0)).
      by destruct (in_bucket seen (byte_val b0)).
    + rewrite lookup_insert_ne, decide_False, app_nil_r by congruence. apply Hm.
Qed.

(** The manifest's entry for a bucket. *)
Definition bucket_entry (x : Z * list IntermediateData) : ManifestFile :=
  let contents := as_bytes (bucket_contents x.2) in
  mkManifestFile (bucket_filename x.1) (Z.of_nat (length contents)) (sha256_digest contents).

Lemma write_buckets_ok dir bs files0 w w' fs :
  write_buckets dir bs files0 w = (w', Ok fs) →
  fs = files0 ++ (bucket_entry <$> bs)
  ∧ (NoDup ((λ x, path_join dir (bucket_filename x.1)) <$> bs) →
     ∀ x, x ∈ bs → files (w_fs w') !! path_join dir (bucket_filename x.1)
                   = Some (as_bytes (bucket_contents x.2)))
  ∧ (∀ q, q ∉ (λ x, path_join dir (bucket_filename x.1)) <$> bs →
          files (w_fs w') !! q = files (w_fs w) !! q).
Proof.
  revert files0 w. induction bs as [|[b certs] bs IH]; intros files0 w; cbn [write_buckets].
  - intros [= <- <-]. rewrite app_nil_r. split; [done|]. split; [by intros _ x ?%elem_of_nil|done].
  - unfold mbind at 1, eff_bind at 1, wrap_err, eff_map_err.
    destruct (write_output _ _ _ w) as [w1 [[]|e|]] eqn:E; cbn [map_err]; [|done..].
    apply write_output_ok in E as [_ Hw1]. intros (-> & Hin & Hframe)%IH.
    split; [by rewrite <- (assoc_L (++))|]. rewrite fmap_cons. cbn [fst].
    assert (∀ q, files (w_fs w1) !! q = if decide (q = path_join dir (bucket_filename b))
              then Some (as_bytes (bucket_contents certs)) else files (w_fs w) !! q) as Hl.
    { intros q. rewrite Hw1. cbn [set_files files]. case_decide as Hq.
      - subst q. by rewrite lookup_insert_eq.
      - by rewrite lookup_insert_ne. }
    split.
    + intros [Hn Hnd]%NoDup_cons x [->|Hx]%elem_of_cons; [|by apply Hin].
      cbn [fst snd]. by rewrite Hframe, Hl, decide_True by done.
    + intros q [Hq1 Hq2]%not_elem_of_cons. by rewrite Hframe, Hl, decide_False by done.
Qed.

(** The 256 file names: distinct, relative, and not the manifest's. *)
Lemma bucket_filenames :
  NoDup (MANIFEST_JSON :: (bucket_filename <$> seqZ 0 256))
  ∧ Forall (λ b, is_absolute (bucket_filename b) = false) (seqZ 0 256).
Proof. split; apply (bool_decide_unpack _); by vm_compute. Qed.

Lemma bucket_filename_inj a b :
  0 ≤ a < 256 → 0 ≤ b < 256 → bucket_filename a = bucket_filename b → a = b.
Proof.
  intros Ha Hb E. destruct bucket_filenames as [[_ Hnd]%NoDup_cons _].
  assert (∀ c, 0 ≤ c < 256 → (bucket_filename <$> seqZ 0 256) !! Z.to_nat c = Some (bucket_filename c))
    as Hl.
  { intros c Hc. rewrite list_lookup_fmap, lookup_seqZ_lt by lia. cbn. do 2 f_equal. lia. }
  pose proof (NoDup_lookup _ _ _ _ Hnd (Hl a Ha) (eq_trans (Hl b Hb) (f_equal Some (eq_sym E)))).
  lia.
Qed.

Lemma bucket_filename_fresh b :
  0 ≤ b < 256 → is_absolute (bucket_filename b) = false ∧ bucket_filename b ≠ MANIFEST_JSON.
Proof.
  intros Hb. destruct bucket_filenames as [[Hn _]%NoDup_cons Hr].
  assert (b ∈ seqZ 0 256) as Hin by (apply elem_of_seqZ; lia). split.
  - rewrite Forall_forall in Hr. by apply Hr.
  - intros E. apply Hn, list_elem_of_fmap. by exists b.
Qed.

Lemma in_bucket_bound l b : in_bucket l b ≠ [] → 0 ≤ b < 256.
Proof.
  unfold in_bucket. destruct (filter _ l) as [|i r] eqn:E; [done|]. intros _.
  assert (i ∈ filter (λ i, byte_val <$> head (sha256 i) = Some b) l) as Hi by (rewrite E; left).
  apply list_elem_of_filter in Hi as [(c & _ & ->)%fmap_Some _]. apply byte_val_bound.
Qed.

Lemma get_report_fs client w : w_fs (get_report client w).1 = w_fs w.
Proof.
  unfold get_report, wrap_err, mbind, eff_bind, eff_map_err, eff_lift.
  unfold on_net at 1. destruct (send _ _ _) as [n1 [e|resp]]; cbn [of_sum map_err]; [done|].
  destruct (status_failure resp); [done|].
  unfold on_net. destruct (response_bytes _ _) as [n2 [e|d]]; cbn [of_sum map_err]; [done|].
  by destruct (csv_records d).
Qed.

(** The buckets in any order: one per first byte in use. *)
Lemma bucket_list l m bs :
  buckets_of l m → bs ≡ₚ map_to_list m →
  (∀ x, x ∈ bs ↔ in_bucket l x.1 ≠ [] ∧ x.2 = in_bucket l x.1)
  ∧ NoDup bs.*1 ∧ (length bs ≤ 256)%nat.
Proof.
  intros Hm Hp.
  assert (∀ x, x ∈ bs ↔ in_bucket l x.1 ≠ [] ∧ x.2 = in_bucket l x.1) as Hx.
  { intros [b c]. rewrite Hp, elem_of_map_to_list, (Hm b). cbn.
    destruct (in_bucket l b); split; try naive_solver congruence. }
  assert (NoDup bs.*1) as Hnd by (rewrite Hp; apply NoDup_fst_map_to_list).
  split; [done|]. split; [done|]. rewrite <- (length_fmap fst).
  change 256%nat with (length (seqZ 0 256)). apply submseteq_length, NoDup_submseteq; [done|].
  intros b (x & -> & [Hne _]%Hx)%list_elem_of_fmap. apply elem_of_seqZ.
  apply in_bucket_bound in Hne. lia.
Qed.

(** Names computed from keys in range are as distinct as the keys. *)
Lemma nodup_names (g : string → string) (bs : list (Z * list IntermediateData)) :
  (∀ x, x ∈ bs → 0 ≤ x.1 < 256) → NoDup bs.*1 →
  (∀ b c, 0 ≤ b < 256 → 0 ≤ c < 256 →
     g (bucket_filename b) = g (bucket_filename c) → bucket_filename b = bucket_filename c) →
  NoDup ((λ x, g (bucket_filename x.1)) <$> bs).
Proof.
  intros Hb Hnd Hg. induction bs as [|x bs IH]; [constructor|]. rewrite fmap_cons in Hnd. rewrite fmap_cons.
  apply NoDup_cons in Hnd as [Hn Hnd]. apply NoDup_cons. split.
  - intros (y & Hy & Hin)%list_elem_of_fmap. apply Hn, list_elem_of_fmap. exists y.
    split; [|done]. assert (0 ≤ x.1 < 256) as Hxb by (apply Hb; left).
    assert (0 ≤ y.1 < 256) as Hyb by (apply Hb; by right).
    apply bucket_filename_inj; [done..|]. by apply Hg.
  - apply IH; [|done]. intros y Hy. apply Hb. by right.
Qed.

(** C40: A run that succeeds checked every intermediate's hash and published at most 256
    files: one for each first byte [b] of a hash, with the PEM texts of the
    intermediates whose hash starts with [b], in the order of the report, under the
    digest and size of that file. *)
Theorem intermediates_publish dir comment now w w' :
  (∀ l, map_order l ≡ₚ l) →
  main dir comment now w = (w', Ok tt) →
  ∃ client w1 l fs text,
    get_report client w = (w1, Ok l)
    ∧ Forall (λ i, ∃ der, der_from_pem (pem i) = inr der ∧ sha256 i = sha256_digest der) l
    ∧ manifest_to_string (mkManifest now comment fs) = inr text
    ∧ files (w_fs w') !! path_join dir MANIFEST_JSON = Some (as_bytes text)
    ∧ (length fs ≤ 256)%nat ∧ NoDup (filename <$> fs)
    ∧ (∀ f, f ∈ fs → ∃ b, filename f = bucket_filename b)
    ∧ ∀ b, in_bucket l b ≠ [] →
        let contents := as_bytes (bucket_contents (in_bucket l b)) in
        mkManifestFile (bucket_filename b) (Z.of_nat (length contents)) (sha256_digest contents) ∈ fs
        ∧ files (w_fs w') !! path_join dir (bucket_filename b) = Some contents.
Proof.
  intros Hord. unfold main, mbind at 1, eff_bind at 1, wrap_err at 1, eff_map_err at 1, eff_lift at 1.
  destruct client_build as [e|client]; cbn [of_sum map_err]; [done|].
  unfold mbind at 1, eff_bind at 1. pose proof (get_report_fs client w) as Hg.
  destruct (get_report client w) as [w1 [l|e|]] eqn:E; cbn [fst] in Hg; [|done..].
  unfold mbind at 1, eff_bind at 1, eff_lift at 1.
  destruct (fill_buckets l ∅) as [m|e|] eqn:Hm; [|done..].
  apply (fill_buckets_spec l []) in Hm as [Hm Hchk]; [|by intros b; rewrite lookup_empty].
  cbn [app] in Hm. unfold mbind at 1, eff_bind at 1. set (bs := map_order (map_to_list m)).
  destruct (write_buckets dir bs [] w1) as [w2 [fs|e|]] eqn:Hw; [|done..].
  apply write_buckets_ok in Hw as (-> & Hin & _). cbn [app].
  intros (text & Ht & ->)%publish_ok. exists client, w1, l, (bucket_entry <$> bs), text.
  do 3 (split; [done|]). cbn [set_files files]. split; [by rewrite lookup_insert_eq|].
  destruct (bucket_list l m bs Hm (Hord _)) as (Hx & Hnd & Hlen).
  assert (∀ x, x ∈ bs → 0 ≤ x.1 < 256) as Hb
    by (intros x [Hne _]%Hx; by eapply in_bucket_bound).
  split; [by rewrite length_fmap|]. split; [|split].
  - rewrite <- list_fmap_compose. by apply (nodup_names id).
  - intros f (x & -> & _)%list_elem_of_fmap. by exists x.1.
  - intros b Hne. assert ((b, in_bucket l b) ∈ bs) as Hbs by by apply Hx.
    split; [apply list_elem_of_fmap; by exists (b, in_bucket l b)|].
    destruct (bucket_filename_fresh b (in_bucket_bound _ _ Hne)) as [Hrel Hman].
    rewrite lookup_insert_ne; [|intros Heq; by apply path_join_inj in Heq].
    apply (Hin (nodup_names (path_join dir) bs Hb Hnd ltac:(
      intros ????; apply path_join_inj; by apply bucket_filename_fresh)) _ Hbs).
Qed.
End Main.
End Intermediates.

(** ** Concrete runs

    A server whose response is the URL asked for; the "digest" is the first byte. *)
Module MirrorDemo.
Definition demo_http : Http := {|
  Net := unit;
  Client := unit;
  Response := string;
  client_build := inr tt;
  send _ url net := (net, inr url);
  error_for_status := inr;
  response_bytes url net := (net, inr (take 2 (reverse (as_bytes url))));
  response_json url net := (net, inl "not a manifest")
|}.
Definition demo_digest : Digest := {| sha256_digest := take 1 |}.
Definition demo_text : JsonText := {| manifest_to_string m := inr (comment m) |}.

Definition demo_world : World (H := demo_http) :=
  mkWorld (H := demo_http)
    {| files := ∅; dirs := {[ "/out" ]}; faults := λ _ _, None; read_size := λ n, n |} tt.

(** A full filter, a delta on it, and a filter of the other channel. *)
Definition item (channel : Crlite.Channel) (name : string) (parent : option string) : Crlite.Item :=
  Crlite.mkItem (Crlite.mkAttachment (take 1 (reverse (as_bytes name))) 2 name name)
                channel name (bool_decide (parent ≠ None)) parent.
Definition demo_records : list Crlite.Item :=
  [item Crlite.Compat "xc" None; item Crlite.Default "xb" (Some "xa"); item Crlite.Default "xa" None].

Definition demo_crlite : option (World (H := demo_http) * Result Report unit) :=
  Crlite.main (H := demo_http) (H0 := demo_digest) (H1 := demo_text) (λ _, None)
    (λ _ net, (net, inr demo_records)) (λ _, "io") Crlite.item_id id id "/out" "comment" 7 demo_world.
Definition demo_crlite_after : World (H := demo_http) :=
  match demo_crlite with Some (w, _) => w | None => demo_world end.

Definition demo_intermediates : World (H := demo_http) * Result Report unit :=
  Intermediates.main (H := demo_http) (H0 := demo_digest) (H1 := demo_text) (λ _, None)
    (λ _, inr [Intermediates.mkIntermediate [x61] "a1"; Intermediates.mkIntermediate [x62] "b";
               Intermediates.mkIntermediate [x61] "a2"])
    (λ s, inr (as_bytes s)) (λ _, "io") Intermediates.pem reverse "/out" "comment" 7 demo_world.
End MirrorDemo.

Example demo_plan :
  Crlite.item_id <$> default [] (Crlite.download_plan MirrorDemo.demo_records) = ["xa"; "xb"].
Proof. by vm_compute. Qed.

Lemma download_plan_chain_witness :
  ∃ plan, Crlite.download_plan MirrorDemo.demo_records = Some plan ∧ NoDup plan.
Proof.
  destruct (Crlite.download_plan_chain MirrorDemo.demo_records) as (plan & Hp & _ & _ & _ & Hnd & _).
  - apply (bool_decide_unpack _). by vm_compute.
  - by exists plan.
Defined.

Lemma crlite_publishes_witness :
  ∃ plan, Crlite.download_plan MirrorDemo.demo_records = Some plan
    ∧ Forall (Crlite.published (H0 := MirrorDemo.demo_digest) "/out"
                (files (w_fs (H := MirrorDemo.demo_http) MirrorDemo.demo_crlite_after)))
             (Crlite.entries plan).
Proof.
  assert (MirrorDemo.demo_crlite = Some (MirrorDemo.demo_crlite_after, Ok tt)) as E by by_vm.
  apply Crlite.crlite_publishes in E as (client & w1 & data & plan & Hg & Hp & Hpub).
  assert (data = MirrorDemo.demo_records) as -> by (destruct client; by injection Hg as _ <-).
  exists plan. split; [exact Hp|].
  vm_compute in Hp. injection Hp as <-.
  apply Hpub; apply (bool_decide_unpack _); by vm_compute.
Defined.

Lemma intermediates_publish_witness :
  MirrorDemo.demo_intermediates.2 = Ok tt
  ∧ files (w_fs (H := MirrorDemo.demo_http) MirrorDemo.demo_intermediates.1) !! "/out/61.pem"
    = Some (as_bytes ("a1" +:+ String "010" ("a2" +:+ String "010" ""))).
Proof.
  assert (MirrorDemo.demo_intermediates = (MirrorDemo.demo_intermediates.1, Ok tt)) as E by by_vm.
  split; [by rewrite E|].
  apply Intermediates.intermediates_publish in E
    as (client & w1 & l & fs & text & Hg & _ & _ & _ & _ & _ & _ & Hb).
  - destruct client. injection Hg as _ <-. apply (Hb 0x61). by vm_compute.
  - intros l. apply reverse_Permutation.
Defined.
