(* ===== verification/FetchDemo.v ===== *)
(** * Concrete instances for synchronisation

    A server with two filters, temporary files with fresh names, and a codec of
    one manifest: enough to run a [fetch]. *)
From S2P Require Import Prelude Bytes Sha256 Sha256Spec FileSys External Revocation Config Index Fetch Demo.

(** ** Temporary files *)

(** Longer than every path in use. *)
Definition demo_temp_name (dir : string) (fs : Fs) : string :=
  path_join dir
    (String.string_of_list_byte
       (replicate (S (foldr Nat.max O ((λ p, length (as_bytes p.1)) <$> map_to_list (files fs))))
                  x2e)).

Definition demo_tempfile : TempFile := {|
  tempfile_in _ dir fs :=
    let temp := demo_temp_name dir fs in
    match files fs !! temp with
    | Some _ => (fs, Err AlreadyExists)
    | None => (set_files <[temp := []]> fs, Ok temp)
    end;
  persist temp dst fs :=
    match files fs !! temp with
    | Some data => (set_files (λ m, <[dst := data]> (delete temp m)) fs, Ok tt)
    | None => (fs, Err NotFound)
    end;
  drop_temp temp fs := set_files (delete temp) fs
|}.

Lemma demo_tempfile_laws : @TempFileLaws demo_tempfile.
Proof.
  split; cbn.
  - intros fs _ dir fs' tmp. case_match eqn:E; [done|]. by intros [= <- <-].
  - intros fs _ dir fs' r. case_match eqn:E; intros [= <- <-]; done.
  - intros fs tmp dst fs' data. case_match eqn:E; [|done]. intros [= <-] Hd. by simplify_eq.
  - intros fs tmp dst fs' r. case_match eqn:E; intros [= <- <-]; done.
  - done.
Qed.

(** ** Hash sets, dates and the manifest's text *)

Definition demo_hash_order : HashOrder := {| hash_order := reverse |}.
Lemma demo_hash_order_laws : @HashOrderLaws demo_hash_order.
Proof. split. intros l. apply reverse_Permutation. Qed.

Definition demo_chrono : Chrono := {| from_timestamp s := if s <? 0 then None else Some "" |}.

#[export] Instance manifest_file_eq_dec : EqDecision ManifestFile.
Proof. solve_decision. Defined.
#[export] Instance manifest_eq_dec : EqDecision Manifest.
Proof. solve_decision. Defined.

(** The demo filters with their hashes. *)
Definition demo_sync_manifest : Manifest := Eval vm_compute in
  mkManifest 0 ""
    ((λ '(n, d), mkManifestFile n (Z.of_nat (length d)) (Fips.sha256 d)) <$> demo_filters).

Definition demo_json : Json := {|
  manifest_from_reader data :=
    if decide (data = [x2a]) then inr demo_sync_manifest else inl "syntax";
  manifest_to_vec m := if decide (m = demo_sync_manifest) then inr [x2a] else inl "unknown";
  json_io_error _ := "io"
|}.
Lemma demo_json_laws : @JsonLaws demo_json.
Proof.
  split. cbn. intros m data. case_decide as Hm; [|done]. subst m. by intros [= <-].
Qed.

(** ** A server *)

(** A response is the URL asked for; the server knows the files of [bodies]. *)
Definition demo_http (bodies : list (string * list byte)) : Http :=
  let body url := snd <$> list_find (λ p, fetch_url (revocation demo_config) +:+ p.1 = url) bodies in
  {| Net := unit;
     Client := unit;
     Response := string;
     client_build := inr tt;
     send _ url net := (net, inr url);
     error_for_status url :=
       if decide (url = fetch_url (revocation demo_config) +:+ MANIFEST_JSON) then inr url
       else match body url with Some _ => inr url | None => inl "404" end;
     response_bytes url net :=
       (net, match body url with Some (_, b) => inr b | None => inl "404" end);
     response_json url net := (net, inr demo_sync_manifest) |}.

(** A cache with a filter to delete. *)
Definition demo_old_fs : Fs := demo_fs [("old.filter", [x00]); ("notes", [])].

(** A run of [fetch] against the server. *)
Definition demo_run (bodies : list (string * list byte)) (dry_run : bool) :=
  @fetch (demo_http bodies) demo_json demo_tempfile demo_clubcard demo_hash_order demo_chrono
         id dry_run demo_config
         (@mkWorld (demo_http bodies) demo_old_fs tt).

Definition demo_after : Fs :=
  @w_fs (demo_http demo_filters) (demo_run demo_filters false).1.

Example demo_run_executes : (demo_run demo_filters false).2 = Ok Executed.
Proof. by vm_compute. Qed.

(** A dry run lists what would be done. *)
Example demo_dry_run :
  (demo_run demo_filters true).2
  = Ok (DryRun ["5 steps required (146 bytes to download)";
                "- download 49 bytes from https://upki.rustls.dev/1.filter to /c/revocation/1.filter";
                "- download 97 bytes from https://upki.rustls.dev/2.delta to /c/revocation/2.delta";
                "- build index from filters into /c/revocation";
                "- save new manifest into /c/revocation";
                "- delete stale file /c/revocation/old.filter"]).
Proof. by vm_compute. Qed.
