(* ===== verification/FetchTheorems.v ===== *)
(** * Synchronising the cache: theorems

    A successful [fetch] leaves the cache as its manifest says, with an index of
    it; a failed one changes nothing outside its plan; [verify] accepts what a
    successful [fetch] leaves. *)
From S2P Require Import Prelude Bytes Sha256 Sha256Spec FileSys External Revocation Config Index Demo Fetch FetchDemo FetchFiles FetchPlan FetchExec IndexSpec IndexCheck IndexWrite.

(** ** Relative names *)

(** A manifest whose names are relative, as their documentation says, whose files
    are not two contents for one name, and that leaves the cache's own files alone. *)
Record well_named (m : Manifest) : Prop := {
  wn_relative : Forall (λ f, is_absolute (filename f) = false) (manifest_files m);
  wn_consistent : Forall (λ f, Forall (λ g, filename f = filename g → hash f = hash g)
                                      (manifest_files m)) (manifest_files m);
  wn_reserved : Forall (λ f, filename f ≠ INDEX_BIN ∧ filename f ≠ MANIFEST_JSON)
                       (manifest_files m) }.

Lemma child_name_relative dir p name : child_name dir p = Some name → is_absolute name = false.
Proof.
  unfold child_name. destruct (strip_prefix _ _) as [[|c l]|]; [done| |done].
  case_bool_decide as Hs; [done|]. intros [= <-]. unfold is_absolute.
  rewrite as_bytes_of_list. apply bool_decide_eq_false. intros ->. apply Hs. left.
Qed.

Lemma listed_relative fs local name : listed fs local name → is_absolute name = false.
Proof.
  intros (iter & Hr & Hin). unfold read_dir in Hr. apply guard_op_inv in Hr as [Hr _].
  destruct (bool_decide (local ∈ dirs fs)); [|by case_match].
  injection Hr as <-. apply list_elem_of_fmap in Hin as (n & Hn & Hin).
  apply list_elem_of_omap in Hin as (p & _ & Hp). apply child_name_relative in Hp.
  destruct (faults _ _ _); simplify_eq. done.
Qed.

(** ** What [write] depends on *)

Lemma collect_universes_frame `{Clubcard} fs fs' dir mfiles idx m :
  Forall (λ f, fs_read fs' (path_join dir (filename f)) = fs_read fs (path_join dir (filename f)))
         mfiles →
  collect_universes fs' dir mfiles idx m = collect_universes fs dir mfiles idx m.
Proof.
  intros Hf. revert idx m. induction Hf as [|f mfiles Hf _ IH]; intros idx m;
    cbn [collect_universes]; [done|].
  rewrite Hf. destruct (fs_read fs _) as [bytes| |]; [|done..].
  destruct (from_bytes bytes); [done|]. case_match; [done|]. apply IH.
Qed.

Lemma write_frame `{Clubcard} fs fs' m dir :
  Forall (λ f, fs_read fs' (path_join dir (filename f)) = fs_read fs (path_join dir (filename f)))
         (manifest_files m) →
  write fs' m dir = write fs m dir.
Proof. intros Hf. unfold write. by rewrite (collect_universes_frame fs). Qed.

Lemma good_read_eq fs fs' p d :
  same_env fs fs' → files fs' !! p = files fs !! p → good fs p d →
  fs_read fs' p = fs_read fs p.
Proof.
  intros He Hf Hg. pose proof (good_frame _ _ _ _ He Hf Hg) as [(data & Hd & _) ? ? ?].
  destruct Hg as [_ ? ? ?]. rewrite !(fs_read_ok _ _ data); try done. by rewrite <- Hf.
Qed.

(** ** A plan that ran *)

Section Sync.
Context `{Http} `{JsonLaws} `{TempFileLaws} `{Clubcard} `{HashOrderLaws} `{Chrono}.

(** The cache is as the manifest says. *)
Record synchronised (fs0 fs : Fs) (dir : string) (m : Manifest) : Prop := {
  sync_files : Forall (λ f, good fs (path_join dir (filename f)) (hash f)) (manifest_files m);
  sync_manifest : ∃ data, manifest_to_vec m = inr data
                          ∧ files fs !! path_join dir MANIFEST_JSON = Some data;
  (** The index is that of the files, or the old one if none can be built. *)
  sync_index : files fs !! path_join dir INDEX_BIN
               = match write fs m dir with
                 | Some buf => Some buf
                 | None => files fs0 !! path_join dir INDEX_BIN
                 end }.

(** The names a plan deletes are not those of files it needs. *)
Lemma deletable_apart fs dir m old name n :
  deletable fs dir m old name → is_absolute n = false →
  is_filter_name n = false ∨ n ∈ filename <$> manifest_files m →
  path_join dir n ≠ path_join dir name.
Proof.
  intros (Hl & Hf & Hu & _) Hr Hn E.
  apply path_join_inj in E as ->; [|done|by eapply listed_relative].
  destruct Hn as [?|(f & -> & Hin)%list_elem_of_fmap]; [congruence|].
  unfold unnamed in Hu. rewrite Forall_forall in Hu.
  specialize (Hu f Hin). by rewrite path_eqb_refl in Hu.
Qed.

Lemma ran_all_singleton s fs fs' : ran_all [s] fs fs' ↔ ran s fs fs'.
Proof.
  split; [|intros; econstructor; [done|constructor]].
  intros Hr. inversion Hr as [|? ? ? ? ? ? Hn]; subst. by inversion Hn; subst.
Qed.

Lemma ran_create_frame (b : bool) dir fs fs' :
  ran_all (if b then [] else [CreateDir dir]) fs fs' →
  same_env fs fs' ∧ files fs' = files fs.
Proof.
  intros Hr. apply ran_all_frame in Hr as [He Hf]. split; [done|].
  apply map_eq. intros p. apply Hf. destruct b; cbn; set_solver.
Qed.

Lemma ran_deletes_frame dir doomed fs fs' p :
  ran_all ((λ name, Delete (path_join dir name)) <$> doomed) fs fs' →
  (∀ name, name ∈ doomed → p ≠ path_join dir name) →
  same_env fs fs' ∧ files fs' !! p = files fs !! p.
Proof.
  intros [He Hf]%ran_all_frame Hp. split; [done|]. apply Hf.
  intros (l & Hin & (s & -> & (name & -> & Hn)%list_elem_of_fmap)%list_elem_of_fmap)
    %elem_of_concat.
  cbn [targets] in Hin. apply list_elem_of_singleton in Hin. by eapply Hp.
Qed.

(** The files are good once downloaded, and stay so. *)
Lemma plan_runs_downloads fs0 fs1 m url dir :
  well_named m →
  ran_all ((λ f, download f url dir) <$> filter (stale fs0 dir) (manifest_files m)) fs0 fs1 →
  Forall (λ f, good fs1 (path_join dir (filename f)) (hash f)) (manifest_files m).
Proof.
  intros [Hrel Hcons _] Hr. rewrite Forall_forall in Hrel, Hcons |- *. intros f Hf.
  eapply (downloads_good dir url (manifest_files m)); [..|exact Hr|done|].
  - intros g g' Hg Hg' E. specialize (Hcons g Hg). rewrite Forall_forall in Hcons.
    apply (Hcons g' Hg'). eapply path_join_inj, E; by apply Hrel.
  - by intros g [_ ?]%list_elem_of_filter.
  - destruct (decide (stale fs0 dir f)) as [Hs|Hs].
    + left. by apply list_elem_of_filter.
    + right. by apply stale_good.
Qed.

(** The steps that save the index and the manifest. *)
Lemma ran_saves fs1 fs2 m dir :
  ran_all [SaveIndex m dir; SaveManifest m dir] fs1 fs2 →
  ∃ data, manifest_to_vec m = inr data
    ∧ files fs2 !! path_join dir MANIFEST_JSON = Some data
    ∧ files fs2 !! path_join dir INDEX_BIN
      = match write fs1 m dir with
        | Some buf => Some buf | None => files fs1 !! path_join dir INDEX_BIN end.
Proof.
  intros Hr. inversion Hr as [|s steps a b c Hi Hr']; subst.
  apply ran_all_singleton in Hr'. inversion Hr'; subst.
  assert (path_join dir MANIFEST_JSON ≠ path_join dir INDEX_BIN) as Hne
    by (intros E%path_join_inj; done).
  eexists. split; [done|]. split; [apply lookup_insert_eq|].
  cbn. rewrite lookup_insert_ne by done.
  inversion Hi as [| | |fs m' dir' Hw|fs m' dir' buf Hw|]; subst; rewrite Hw; [done|].
  apply lookup_insert_eq.
Qed.

Lemma saves_frame fs1 fs2 m dir f :
  ran_all [SaveIndex m dir; SaveManifest m dir] fs1 fs2 → well_named m →
  f ∈ manifest_files m →
  same_env fs1 fs2 ∧ files fs2 !! path_join dir (filename f)
                     = files fs1 !! path_join dir (filename f).
Proof.
  intros [He Hf]%ran_all_frame [Hrel _ Hres] Hin. split; [done|]. apply Hf.
  rewrite Forall_forall in Hrel, Hres. specialize (Hrel f Hin).
  destruct (Hres f Hin) as [Hni Hnm]. cbn.
  rewrite !not_elem_of_cons. split; [|split; [|apply not_elem_of_nil]];
    intros E%path_join_inj; done.
Qed.

Lemma stale_frame fs fs' dir f :
  same_env fs fs' → files fs' = files fs → stale fs dir f → stale fs' dir f.
Proof.
  intros [He Hr] Hfe Hx. destruct (decide (stale fs' dir f)) as [|Hn]; [done|].
  destruct Hx. apply hash_file_good. apply stale_good in Hn.
  eapply good_frame, Hn; [by split|by rewrite Hfe].
Qed.

Lemma downloads_keep_index fs0 fs fs' m url dir :
  well_named m →
  ran_all ((λ f, download f url dir) <$> filter (stale fs0 dir) (manifest_files m)) fs fs' →
  files fs' !! path_join dir INDEX_BIN = files fs !! path_join dir INDEX_BIN.
Proof.
  intros [Hrel _ Hres] [_ Hb]%ran_all_frame. apply Hb. rewrite Forall_forall in Hrel, Hres.
  intros (l & Hin & (s & -> & (f & -> & [_ Hf]%list_elem_of_filter)%list_elem_of_fmap)
            %list_elem_of_fmap)%elem_of_concat.
  apply list_elem_of_singleton in Hin.
  apply path_join_inj in Hin; [|done|by apply Hrel]. by destruct (Hres f Hf).
Qed.

(** What precedes the saving of the index. *)
Definition plan_downloads (fs0 : Fs) (m : Manifest) (url dir : string) : list PlanStep :=
  (if path_exists fs0 dir then [] else [CreateDir dir])
  ++ ((λ f, download f url dir) <$> filter (stale fs0 dir) (manifest_files m)).

Lemma downloads_hold fs0 fsb m url dir :
  well_named m → ran_all (plan_downloads fs0 m url dir) fs0 fsb →
  Forall (λ f, good fsb (path_join dir (filename f)) (hash f)) (manifest_files m).
Proof.
  intros Hwn (fa & [Hea Hfa]%ran_create_frame & Hb)%ran_all_app.
  (* the downloads start from the files planned for *)
  rewrite (list_filter_iff _ (stale fa dir)) in Hb
    by (intros f; split; apply stale_frame; by destruct Hea).
  by eapply plan_runs_downloads.
Qed.

Lemma plan_sync fs0 fs m old url dir plan :
  well_named m → construct fs0 m old url dir = Ok plan → ran_all plan fs0 fs →
  synchronised fs0 fs dir m.
Proof.
  intros Hwn (doomed & -> & Hdoomed & _)%construct_shape Hr.
  apply ran_all_app in Hr as (fa & Ha & Hr).
  apply ran_all_app in Hr as (fb & Hb & Hr).
  apply ran_all_app in Hr as (fc & Hc & Hd).
  pose proof (ran_saves _ _ _ _ Hc) as (data & Hdata & Hman & Hidx).
  assert (Forall (λ f, good fb (path_join dir (filename f)) (hash f)) (manifest_files m))
    as Hgood.
  { eapply downloads_hold; [done|]. apply ran_all_app. by exists fa. }
  assert (∀ n, is_absolute n = false →
            is_filter_name n = false ∨ n ∈ filename <$> manifest_files m →
            same_env fc fs ∧ files fs !! path_join dir n = files fc !! path_join dir n)
    as Hkeep.
  { intros n Hrel Hn. eapply ran_deletes_frame; [exact Hd|].
    intros name Hname. eapply deletable_apart; eauto. }
  assert (Forall (λ f, same_env fb fs ∧ files fs !! path_join dir (filename f)
                         = files fb !! path_join dir (filename f)) (manifest_files m)) as Hfs.
  { pose proof (wn_relative _ Hwn) as Hrel. rewrite Forall_forall in Hrel |- *.
    intros f Hin. destruct (saves_frame _ _ _ _ f Hc Hwn Hin) as [He1 Hf1].
    destruct (Hkeep (filename f)) as [He2 Hf2]; [by apply Hrel|right; by apply list_elem_of_fmap; eauto|].
    split; [by etransitivity|by rewrite Hf2, Hf1]. }
  split.
  - rewrite Forall_forall in Hgood, Hfs |- *. intros f Hin.
    destruct (Hfs f Hin). by eapply good_frame, Hgood.
  - exists data. split; [done|]. destruct (Hkeep MANIFEST_JSON) as [_ ->]; [done|by left|done].
  - destruct (Hkeep INDEX_BIN) as [_ ->]; [done|by left|]. rewrite Hidx.
    rewrite (write_frame fb fs).
    2: { rewrite Forall_forall in Hgood, Hfs |- *. intros f Hin.
         destruct (Hfs f Hin). by eapply good_read_eq, Hgood. }
    destruct (write fb m dir); [done|].
    apply ran_create_frame in Ha as [_ Hfa].
    by rewrite (downloads_keep_index _ _ _ _ _ _ Hwn Hb), Hfa.
Qed.

(** ** [fetch], step by step *)

Lemma fetch_manifest_fs url w : w_fs (fetch_manifest url w).1 = w_fs w.
Proof.
  unfold fetch_manifest, mbind, eff_bind, eff_lift, eff_map_err.
  destruct client_build as [e|client]; cbn [of_sum map_err]; [done|].
  pose proof (http_get_fs client url w) as Hg.
  destruct (http_get client url w) as [w1 [resp|e|]]; cbn [fst] in *; [|done..].
  unfold on_net. by destruct (response_json resp (w_net w1)) as [net [e|m]].
Qed.

(** What [fetch] plans with. *)
Definition planned (config : Config) (w w1 : World) (client : Client) (m : Manifest)
    (plan : list PlanStep) : Prop :=
  fetch_manifest (fetch_url (revocation config) +:+ MANIFEST_JSON) w = (w1, Ok (client, m))
  ∧ w_fs w1 = w_fs w ∧ introduce m = Ok tt
  ∧ construct (w_fs w) m (ok (manifest_from_config (w_fs w) config))
              (fetch_url (revocation config)) (revocation_cache_dir config) = Ok plan.

(** Either no file was touched, and nothing was executed, or a plan was. *)
Lemma fetch_cases debug_path dry config w :
  let x := fetch debug_path dry config w in
  (w_fs x.1 = w_fs w ∧ x.2 ≠ Ok Executed)
  ∨ ∃ w1 client m plan, planned config w w1 client m plan ∧ dry = false
      ∧ x.1 = (execute_all client plan w1).1
      ∧ (x.2 = Ok Executed ↔ (execute_all client plan w1).2 = Ok tt).
Proof.
  unfold fetch. set (url := fetch_url (revocation config) +:+ MANIFEST_JSON).
  unfold mbind, eff_bind, eff_lift. cbv zeta.
  pose proof (fetch_manifest_fs url w) as Hfs.
  destruct (fetch_manifest url w) as [w1 [[client m]|e|]] eqn:Hm; cbn [fst] in Hfs;
    [|by left..].
  destruct (introduce m) as [[]|e|] eqn:Hi; [|by left..].
  destruct (construct _ m _ _ _) as [plan|e|] eqn:Hc; [|by left..].
  destruct dry; [by left|]. right. exists w1, client, m, plan.
  split; [by rewrite Hfs in Hc|]. split; [done|].
  by destruct (execute_all client plan w1) as [w2 [[]|e|]].
Qed.

Lemma fetch_executed debug_path dry config w w' :
  fetch debug_path dry config w = (w', Ok Executed) →
  ∃ w1 client m plan, planned config w w1 client m plan
    ∧ ran_all plan (w_fs w) (w_fs w').
Proof.
  intros Hf. pose proof (fetch_cases debug_path dry config w) as Hc. rewrite Hf in Hc.
  destruct Hc as [[_ []]|(w1 & client & m & plan & Hp & _ & Hw & He)]; [done|].
  exists w1, client, m, plan. split; [done|]. destruct Hp as (_ & <- & _).
  pose proof (execute_all_spec client plan w1) as Hs. cbn [fst snd] in Hw, He.
  destruct (execute_all client plan w1) as [w2 r]. cbn [fst snd] in Hw, He. subst w2.
  by rewrite (proj1 He eq_refl) in Hs.
Qed.
End Sync.

(** ** Theorems *)

Section Theorems.
Context `{Http} `{JsonLaws} `{TempFileLaws} `{Clubcard} `{HashOrderLaws} `{Chrono}.

(** C6: After a successful [fetch] the cache is as the manifest that the server sent
    says: every file of it is there with its SHA-256, and [manifest.json] is the
    manifest.  [index.bin] is the index of those files, if one can be built from them;
    if not, it is what it was before the [fetch]. *)
Theorem fetch_synchronises debug_path config w w' :
  fetch debug_path false config w = (w', Ok Executed) →
  ∃ w1 client m,
    fetch_manifest (fetch_url (revocation config) +:+ MANIFEST_JSON) w = (w1, Ok (client, m))
    ∧ (well_named m →
       synchronised (w_fs w) (w_fs w') (revocation_cache_dir config) m).
Proof.
  intros (w1 & client & m & plan & (Hm & _ & _ & Hc) & Hr)%fetch_executed.
  exists w1, client, m. split; [done|]. intros Hwn. by eapply plan_sync.
Qed.

(** C14: Whether it succeeds or fails, [fetch] changes nothing but the files of the
    manifest sent, the index, the manifest, and filters in the cache directory
    that neither manifest names; and a dry run changes nothing. *)
Theorem fetch_frame debug_path dry config w :
  let dir := revocation_cache_dir config in
  let w' := (fetch debug_path dry config w).1 in
  w_fs w' = w_fs w
  ∨ dry = false ∧ ∃ w1 client m,
      fetch_manifest (fetch_url (revocation config) +:+ MANIFEST_JSON) w = (w1, Ok (client, m))
      ∧ ∀ p, files (w_fs w') !! p ≠ files (w_fs w) !! p →
          p ∈ path_join dir INDEX_BIN :: path_join dir MANIFEST_JSON
              :: ((λ f, path_join dir (filename f)) <$> manifest_files m)
          ∨ ∃ name, p = path_join dir name
              ∧ deletable (w_fs w) dir m (ok (manifest_from_config (w_fs w) config)) name.
Proof.
  intros dir w'. destruct (fetch_cases debug_path dry config w)
    as [[? _]|(w1 & client & m & plan & (Hm & Hfs & _ & Hc) & Hd & Hw & _)]; [by left|right].
  split; [done|]. exists w1, client, m. split; [done|]. intros p Hp.
  destruct (execute_all_frame client plan w1) as [_ Hf].
  assert (p ∈ concat (targets <$> plan)) as Hin.
  { destruct (decide (p ∈ concat (targets <$> plan))) as [|Hn]; [done|].
    destruct Hp. subst w'. by rewrite Hw, Hf, Hfs. }
  apply construct_shape in Hc as (doomed & -> & Hdel & _).
  rewrite !fmap_app, !concat_app, !elem_of_app in Hin.
  destruct Hin as [Hin|[Hin|[Hin|Hin]]].
  - by destruct (path_exists _ _); cbn in Hin; apply elem_of_nil in Hin.
  - left. do 2 right. apply elem_of_concat in Hin as (l & Hin & (s & -> &
      (f & -> & [_ Hf']%list_elem_of_filter)%list_elem_of_fmap)%list_elem_of_fmap).
    apply list_elem_of_singleton in Hin as ->. apply list_elem_of_fmap. eauto.
  - left. cbn in Hin. rewrite !elem_of_cons in Hin |- *.
    destruct Hin as [->|[->|?%elem_of_nil]]; [by left|by right; left|done].
  - right. apply elem_of_concat in Hin as (l & Hin & (s & -> &
      (name & -> & Hn)%list_elem_of_fmap)%list_elem_of_fmap).
    apply list_elem_of_singleton in Hin as ->. eauto.
Qed.

(** The sum [Outdated] reports: sizes of the stale files, as a [usize]. *)
Definition outdated_bytes (fs : Fs) (dir : string) (m : Manifest) : Z :=
  foldr Z.add 0 (size <$> filter (stale fs dir) (manifest_files m)) mod 2 ^ 64.

Lemma foldl_wrapping_sum (l : list Z) acc :
  foldl (λ acc n, (acc + n) mod 2 ^ 64) (acc mod 2 ^ 64) l
  = (acc + foldr Z.add 0 l) mod 2 ^ 64.
Proof.
  revert acc. induction l as [|n l IH]; intros acc; cbn [foldl foldr].
  - by rewrite Z.add_0_r.
  - rewrite Zplus_mod_idemp_l, IH. f_equal. lia.
Qed.

Lemma omap_step_bytes_none {A} (g : A → PlanStep) (l : list A) :
  (∀ x, step_bytes (g x) = None) → omap step_bytes (g <$> l) = [].
Proof. intros Hg. induction l as [|x l IH]; [done|]. cbn. by rewrite Hg. Qed.

Lemma omap_step_bytes_downloads url dir (l : list ManifestFile) :
  omap step_bytes ((λ f, download f url dir) <$> l) = size <$> l.
Proof. induction l as [|f l IH]; [done|]. rewrite !fmap_cons. cbn. by f_equal. Qed.

Lemma download_bytes_plan fs m old url dir plan :
  construct fs m old url dir = Ok plan → download_bytes plan = outdated_bytes fs dir m.
Proof.
  intros (doomed & -> & _)%construct_shape. unfold download_bytes, outdated_bytes.
  rewrite !omap_app, omap_step_bytes_downloads.
  rewrite (omap_step_bytes_none (λ name, Delete _)) by done. cbn [omap list_omap step_bytes].
  rewrite app_nil_r.
  replace (omap step_bytes (if path_exists fs dir then [] else [CreateDir dir])) with (@nil Z)
    by by case_match.
  etransitivity; [apply (foldl_wrapping_sum _ 0)|done].
Qed.

(** C30: [verify] succeeds iff the sizes of the files that are missing or have
    another hash add up to 0 (as a [usize]), and reports that sum otherwise. *)
Theorem verify_spec fs config m plan :
  introduce m = Ok tt →
  construct fs m None "https://.../" (revocation_cache_dir config) = Ok plan →
  verify fs config m
  = let n := outdated_bytes fs (revocation_cache_dir config) m in
    if n =? 0 then Ok EXIT_SUCCESS else Err (Outdated n).
Proof.
  intros Hi Hc. unfold verify. rewrite Hi, Hc. cbn [mbind result_bind].
  rewrite (download_bytes_plan _ _ _ _ _ _ Hc). by destruct (outdated_bytes _ _ _).
Qed.

Lemma no_stale fs dir m :
  Forall (λ f, good fs (path_join dir (filename f)) (hash f)) (manifest_files m) →
  filter (stale fs dir) (manifest_files m) = [].
Proof.
  intros Hg. induction Hg as [|f l Hf _ IH]; [done|].
  rewrite filter_cons, decide_False; [done|]. by apply stale_good in Hf.
Qed.

(** A cache that is as its manifest says needs nothing: [verify] accepts it, or
    fails to list the directory, and a new [fetch] of the same manifest would
    only save the index and the manifest again and delete unnamed filters. *)
Theorem synchronised_is_stable fs0 fs config m url old plan :
  synchronised fs0 fs (revocation_cache_dir config) m →
  path_exists fs (revocation_cache_dir config) = true →
  introduce m = Ok tt →
  construct fs m old url (revocation_cache_dir config) = Ok plan →
  verify fs config m = Ok EXIT_SUCCESS
  ∧ ∃ doomed, plan = [SaveIndex m (revocation_cache_dir config);
                      SaveManifest m (revocation_cache_dir config)]
                     ++ ((λ n, Delete (path_join (revocation_cache_dir config) n)) <$> doomed).
Proof.
  intros Hs He Hi Hc. pose proof (no_stale _ _ _ (sync_files _ _ _ _ Hs)) as Hn.
  destruct (construct_any_old fs m old None url "https://.../" _ _ Hc) as [plan' Hc'].
  split.
  - unfold verify. rewrite Hi, Hc'. cbn [mbind result_bind].
    rewrite (download_bytes_plan _ _ _ _ _ _ Hc'). unfold outdated_bytes. by rewrite Hn.
  - apply construct_shape in Hc as (doomed & -> & _). rewrite He, Hn. by exists doomed.
Qed.

(** C2: From the network to the answer: after a successful [fetch] of a manifest of
    decodable filters, the index loads and a check answers what the filters that
    cover the certificate's SCTs say. *)
Theorem fetch_then_check debug_path config w w' (cards : list CRLiteClubcard) input
    `{!ClubcardLaws} :
  let dir := revocation_cache_dir config in
  fetch debug_path false config w = (w', Ok Executed) →
  ∃ w1 client m,
    fetch_manifest (fetch_url (revocation config) +:+ MANIFEST_JSON) w = (w1, Ok (client, m))
    ∧ let names := filename <$> manifest_files m in
      (well_named m →
       mapM (load_card (w_fs w') dir) names = Some cards →
       Forall (λ n, utf8_valid (as_bytes n) = true ∧ (length (as_bytes n) ≤ 32)%nat) names →
       Z.of_nat (length names) < 2 ^ 16 →
       (∀ id, Z.of_nat (length (log_section 0 cards id)) < 2 ^ 16) →
       (∀ bytes, write (w_fs w') m dir = Some bytes → Z.of_nat (length bytes) < 2 ^ 32) →
       readable (w_fs w') (index_path config) →
       ∃ i, from_cache (w_fs w') config = Ok i
            ∧ (check (w_fs w') input i).2 = Ok (reference_status cards input)).
Proof.
  intros dir (w1 & client & m & plan & (Hm & _ & _ & Hc) & Hr)%fetch_executed.
  exists w1, client, m. split; [done|]. intros names Hwn Hcards Hn Hlen Hs Hsize Hread.
  pose proof (sync_index _ _ _ _ (plan_sync _ _ _ _ _ _ _ Hwn Hc Hr)) as Hidx.
  rewrite Forall_and in Hn. destruct Hn as [Hu H32].
  destruct (written_check (w_fs w') config m cards input) as (bytes & Hw & Hcheck);
    try done.
  { pose proof (wn_relative _ Hwn) as Hrel. pose proof (wn_reserved _ Hwn) as Hres.
    unfold apart. rewrite Forall_fmap. rewrite Forall_forall in Hrel, Hres |- *.
    intros f Hf E. apply path_join_inj in E; [|by apply Hrel|done]. by destruct (Hres f Hf). }
  rewrite Hw in Hidx.
  assert (with_index (w_fs w') config bytes = w_fs w') as Hsame.
  { apply set_files_id. by apply insert_id. }
  rewrite Hsame in Hcheck. apply Hcheck. by apply Hsize.
Qed.

(** C15: A plan downloads exactly the files whose local copy does not have their hash,
    in the manifest's order; then saves the index, then the manifest; then
    deletes, of the filters in the directory, exactly those that neither the new
    nor the old manifest names. *)
Theorem construct_plan fs m old url local plan :
  construct fs m old url local = Ok plan →
  ∃ doomed,
    plan = (if path_exists fs local then [] else [CreateDir local])
           ++ ((λ f, download f url local) <$> filter (stale fs local) (manifest_files m))
           ++ [SaveIndex m local; SaveManifest m local]
           ++ ((λ name, Delete (path_join local name)) <$> doomed)
    ∧ (∀ name, name ∈ doomed → deletable fs local m old name)
    ∧ (∀ name, path_exists fs local = true → deletable fs local m old name → mem name doomed)
    ∧ NoDup doomed.
Proof. apply construct_shape. Qed.

(** C16: Executing a plan refines the steps' relations: all of them ran, or some ran
    and the next one failed.  A step that fails changes nothing, except that directories
    made before the error stay, and that a download stays of which the server sent the
    whole body, which was written, and of which the hash is another or cannot be
    computed. *)
Theorem execute_all_refines client steps w :
  match execute_all client steps w with
  | (w', Ok _) => ran_all steps (w_fs w) (w_fs w')
  | (w', _) => ∃ done_ s rest fs1, steps = done_ ++ s :: rest
                 ∧ ran_all done_ (w_fs w) fs1 ∧ failed s fs1 (w_fs w')
  end.
Proof. apply execute_all_spec. Qed.

(** C20: Writing a file is atomic: it is replaced whole, or nothing changed and no
    temporary file is left; a panic means the path has no parent. *)
Theorem atomic_write_all_or_nothing path data fs :
  match atomic_write path data fs with
  | (fs', Ok _) => fs' = set_files <[path := data]> fs
  | (fs', Err _) => fs' = fs
  | (fs', Panic) => fs' = fs ∧ path_parent path = None
  end.
Proof.
  pose proof (atomic_write_atomic path data fs) as Ha.
  pose proof (atomic_write_panic path data fs) as Hp.
  destruct (atomic_write path data fs) as [fs' [u|e|]]; [done..|]. auto.
Qed.

(** C35: A download with the wrong contents is reported, but the contents are already
    in place under the filter's name, where a check reads them. *)
Theorem mismatched_download_stays client f url local w w1 resp net data fs' :
  http_get client url w = (w1, Ok resp) →
  response_bytes resp (w_net w1) = (net, inr data) →
  atomic_write local data (w_fs w) = (fs', Ok tt) →
  fs_read fs' local = Ok data → 8 * Z.of_nat (length data) ≤ u64_max →
  Fips.sha256 data ≠ hash f →
  execute client (Download f url local) w
  = ({| w_fs := fs'; w_net := net |}, Err (HashMismatch local))
  ∧ files fs' !! local = Some data.
Proof.
  intros Hg Hb Ha Hr Hl Hh. split; [|by apply fs_read_inv in Hr as [? _]].
  pose proof (http_get_fs client url w) as Hfs. rewrite Hg in Hfs. cbn [fst] in Hfs.
  cbn [execute]. unfold mbind, eff_bind, eff_map_err, on_net, on_fs, eff_lift.
  rewrite Hg, Hb. cbn [of_sum map_err w_fs w_net]. rewrite Hfs, Ha. cbn [map_err w_fs].
  unfold check_download. rewrite hash_file_spec. unfold hash_spec. rewrite Hr.
  cbn [mbind result_bind]. rewrite (proj2 (Z.leb_le _ _)) by done.
  by rewrite decide_False.
Qed.
End Theorems.

(** The hash of a file is the SHA-256 of its contents, however the system splits
    the reads. *)
Theorem hash_file_is_sha256 (fs : Fs) (path : string) :
  hash_file fs path =
  (data ← fs_read fs path;
   if 8 * Z.of_nat (length data) <=? u64_max then Ok (Fips.sha256 data) else Panic).
Proof. apply hash_file_spec. Qed.

(** ** Instances *)

Section Instances.
#[local] Existing Instance demo_tempfile.
#[local] Existing Instance demo_tempfile_laws.
#[local] Existing Instance demo_clubcard.
#[local] Existing Instance demo_clubcard_laws.
#[local] Existing Instance demo_hash_order.
#[local] Existing Instance demo_hash_order_laws.
#[local] Existing Instance demo_chrono.
#[local] Existing Instance demo_json.
#[local] Existing Instance demo_json_laws.
#[local] Instance demo_server : Http := demo_http demo_filters.

Definition demo_world : World := mkWorld demo_old_fs tt.
Definition demo_done : World := (fetch id false demo_config demo_world).1.

Lemma demo_fetch_eq : fetch id false demo_config demo_world = (demo_done, Ok Executed).
Proof. by_vm. Qed.

Lemma demo_manifest_eq :
  fetch_manifest (fetch_url (revocation demo_config) +:+ MANIFEST_JSON) demo_world
  = (demo_world, Ok (tt, demo_sync_manifest)).
Proof. by_vm. Qed.

Lemma fetch_synchronises_witness :
  fetch id false demo_config demo_world = (demo_done, Ok Executed)
  ∧ ∃ w1 client m,
      fetch_manifest "https://upki.rustls.dev/manifest.json" demo_world = (w1, Ok (client, m))
      ∧ (well_named m → synchronised (w_fs demo_world) (w_fs demo_done) demo_dir m).
Proof.
  split; [apply demo_fetch_eq|].
  apply (fetch_synchronises id demo_config). apply demo_fetch_eq.
Defined.

Lemma demo_manifest_well_named : well_named demo_sync_manifest.
Proof. split; apply (bool_decide_unpack _); by vm_compute. Qed.

Lemma fetch_then_check_witness :
  ∃ i, from_cache (w_fs demo_done) demo_config = Ok i
       ∧ (check (w_fs demo_done) (demo_input x08 x01 16) i).2
         = Ok (reference_status demo_cards (demo_input x08 x01 16)).
Proof.
  destruct (fetch_then_check id demo_config demo_world demo_done demo_cards
              (demo_input x08 x01 16) demo_fetch_eq) as (w1 & client & m & Hm & Hcheck).
  assert (m = demo_sync_manifest) as ->.
  { rewrite demo_manifest_eq in Hm. by injection Hm. }
  apply Hcheck.
  - apply demo_manifest_well_named.
  - by vm_compute.
  - apply (bool_decide_unpack _). by vm_compute.
  - by vm_compute.
  - intros id. pose proof (log_section_length demo_cards id) as Hl.
    change (sum_list _) with 3%nat in Hl. lia.
  - intros bytes Hb. assert (length bytes = 216%nat) as ->; [|lia].
    assert (length <$> write (w_fs demo_done) demo_sync_manifest (revocation_cache_dir demo_config)
            = Some 216%nat) as E by by vm_compute.
    rewrite Hb in E. by injection E.
  - by repeat split.
Defined.

Lemma fetch_frame_witness :
  let p := "/c/revocation/old.filter" in
  files (w_fs demo_done) !! p ≠ files (w_fs demo_world) !! p
  ∧ ∃ name, p = path_join demo_dir name
      ∧ deletable (w_fs demo_world) demo_dir demo_sync_manifest
          (ok (manifest_from_config (w_fs demo_world) demo_config)) name.
Proof.
  intros p.
  assert (files (w_fs demo_done) !! p ≠ files (w_fs demo_world) !! p) as Hp by by vm_compute.
  split; [exact Hp|].
  destruct (fetch_frame id false demo_config demo_world) as [E|(_ & w1 & client & m & Hm & Hf)].
  - destruct Hp. unfold demo_done. by rewrite E.
  - rewrite demo_manifest_eq in Hm. injection Hm as <- <- <-.
    destruct (Hf p Hp) as [Hin|Hd]; [|exact Hd].
    apply (bool_decide_pack _) in Hin. by vm_compute in Hin.
Defined.

Definition demo_client : Client := tt.

(** A download and a deletion that fails: the download stays. *)
Lemma execute_all_refines_witness :
  let steps := ((λ f, download f "https://upki.rustls.dev/" demo_dir)
                <$> manifest_files demo_sync_manifest) ++ [Delete "/c/revocation/none.filter"] in
  ∃ done_ s rest fs1, steps = done_ ++ s :: rest
    ∧ ran_all done_ (w_fs demo_world) fs1
    ∧ failed s fs1 (w_fs (execute_all demo_client steps demo_world).1).
Proof.
  intros steps. pose proof (execute_all_refines demo_client steps demo_world) as H.
  assert (is_ok (execute_all demo_client steps demo_world).2 = false) as Hr by by_vm.
  destruct (execute_all demo_client steps demo_world) as [w' r]. cbn [snd] in Hr.
  destruct r; [discriminate Hr|exact H..].
Defined.

Lemma atomic_write_all_or_nothing_witness :
  (atomic_write "/c/revocation/x" [x01] demo_old_fs).1
  = set_files <["/c/revocation/x" := [x01]]> demo_old_fs.
Proof.
  pose proof (atomic_write_all_or_nothing "/c/revocation/x" [x01] demo_old_fs) as H.
  assert (is_ok (atomic_write "/c/revocation/x" [x01] demo_old_fs).2 = true) as Hr by by_vm.
  destruct (atomic_write _ _ _) as [fs' r]. cbn [snd] in Hr.
  destruct r; [exact H|discriminate Hr..].
Defined.

Lemma verify_spec_witness :
  ∃ plan, construct demo_old_fs demo_sync_manifest None "https://.../" demo_dir = Ok plan
  ∧ verify demo_old_fs demo_config demo_sync_manifest = Err (Outdated 146).
Proof.
  eexists. split; [by vm_compute|].
  etransitivity; [eapply verify_spec; by vm_compute|]. by vm_compute.
Defined.

Lemma synchronised_is_stable_witness :
  verify (w_fs demo_done) demo_config demo_sync_manifest = Ok EXIT_SUCCESS
  ∧ ∃ doomed, [SaveIndex demo_sync_manifest demo_dir; SaveManifest demo_sync_manifest demo_dir]
              = [SaveIndex demo_sync_manifest demo_dir; SaveManifest demo_sync_manifest demo_dir]
                ++ ((λ n, Delete (path_join demo_dir n)) <$> doomed).
Proof.
  apply (synchronised_is_stable demo_old_fs (w_fs demo_done) demo_config demo_sync_manifest
           "https://upki.rustls.dev/" (Some demo_sync_manifest)).
  - destruct (fetch_executed id false demo_config demo_world demo_done demo_fetch_eq)
      as (w1 & client & m & plan & (Hm & _ & _ & Hc) & Hr).
    assert (m = demo_sync_manifest) as ->.
    { rewrite demo_manifest_eq in Hm. by injection Hm. }
    exact (plan_sync _ _ _ _ _ _ _ demo_manifest_well_named Hc Hr).
  - by vm_compute.
  - done.
  - by vm_compute.
Defined.

Lemma construct_plan_witness :
  ∃ plan doomed, construct demo_old_fs demo_sync_manifest None "u/" demo_dir = Ok plan
    ∧ plan = (if path_exists demo_old_fs demo_dir then [] else [CreateDir demo_dir])
           ++ ((λ f, download f "u/" demo_dir)
               <$> filter (stale demo_old_fs demo_dir) (manifest_files demo_sync_manifest))
           ++ [SaveIndex demo_sync_manifest demo_dir; SaveManifest demo_sync_manifest demo_dir]
           ++ ((λ name, Delete (path_join demo_dir name)) <$> doomed).
Proof.
  destruct (construct demo_old_fs demo_sync_manifest None "u/" demo_dir) as [plan| |] eqn:E;
    [|by vm_compute in E..].
  destruct (construct_plan _ _ _ _ _ _ E) as (doomed & Hp & _). exists plan, doomed.
  split; [reflexivity|exact Hp].
Defined.
End Instances.

Section Mismatch.
#[local] Existing Instance demo_tempfile.
#[local] Existing Instance demo_tempfile_laws.
#[local] Existing Instance demo_clubcard.
#[local] Existing Instance demo_json.
#[local] Instance bad_server : Http := demo_http [("1.filter", [x00])].

Definition bad_client : Client := tt.
Definition bad_world : World := mkWorld demo_old_fs tt.

Lemma mismatched_download_stays_witness :
  let file := mkManifestFile "1.filter" 1 (Fips.sha256 [x01]) in
  let local := "/c/revocation/1.filter" in
  let x := execute bad_client (Download file "https://upki.rustls.dev/1.filter" local)
                   bad_world in
  x.2 = Err (HashMismatch local) ∧ files (w_fs x.1) !! local = Some [x00].
Proof.
  cbv zeta.
  destruct (mismatched_download_stays bad_client (mkManifestFile "1.filter" 1 (Fips.sha256 [x01]))
              "https://upki.rustls.dev/1.filter" "/c/revocation/1.filter"
              bad_world bad_world
              "https://upki.rustls.dev/1.filter" tt [x00]
              (set_files <["/c/revocation/1.filter" := [x00]]> demo_old_fs)) as [-> Hf].
  - by vm_compute.
  - by vm_compute.
  - by vm_compute.
  - by vm_compute.
  - by vm_compute.
  - apply (bool_decide_unpack _). by vm_compute.
  - by split.
Defined.
End Mismatch.
