(* ===== verification/FetchLive.v ===== *)
(** * A fetch succeeds when nothing fails

    If the system refuses nothing and the server offers the files its manifest
    names, executing the plan of a [fetch] succeeds. *)
From S2P Require Import Prelude Bytes Sha256 Sha256Spec FileSys External Revocation Config Index Demo Fetch FetchDemo FetchFiles FetchPlan FetchExec FetchTheorems.

(** Nothing is refused; a file can be put at a path. *)
Definition quiet (fs : Fs) : Prop := ∀ op p, faults fs op p = None.

Definition writable (fs : Fs) (p : string) : Prop :=
  no_nul (as_bytes p) = true ∧ p ∉ dirs fs ∧ ∃ d, path_parent p = Some d ∧ d ∈ dirs fs.

(** The progress that [tempfile] documents: creating a file in a directory, and
    renaming over a path whose directory exists, work unless the system refuses. *)
Class TempFileProgress `{TempFile} : Prop := {
  tempfile_in_progress fs sfx dir :
    quiet fs → dir ∈ dirs fs → ∃ fs' tmp, tempfile_in sfx dir fs = (fs', Ok tmp);
  persist_progress fs tmp dst :
    quiet fs → is_Some (files fs !! tmp) → writable fs dst →
    ∃ fs', persist tmp dst fs = (fs', Ok tt) }.

(** Same refusals, same directories. *)
Record same_tree (fs fs' : Fs) : Prop := {
  tree_env : same_env fs fs';
  tree_dirs : dirs fs' = dirs fs }.

#[export] Instance same_tree_preorder : PreOrder same_tree.
Proof. split; [by split|]. intros f1 f2 f3 [] []. split; [by etransitivity|congruence]. Qed.

Lemma same_tree_set_files g fs : same_tree fs (set_files g fs).
Proof. split; [by auto with upki|done]. Qed.
#[export] Hint Resolve same_tree_set_files : upki.

Lemma quiet_tree fs fs' : same_tree fs fs' → quiet fs → quiet fs'.
Proof. intros [[Hf _] _] Hq op p. by rewrite Hf. Qed.

Lemma writable_tree fs fs' p : same_tree fs fs' → writable fs p → writable fs' p.
Proof. intros [_ Hd]. unfold writable. by rewrite Hd. Qed.

(** ** Paths *)

Lemma strip_prefix_app p s r : strip_prefix p s = Some r → s = p ++ r.
Proof.
  revert s. induction p as [|x p IH]; intros [|y s]; cbn [strip_prefix]; try done.
  - by intros [= <-].
  - by intros [= <-].
  - case_decide as Hxy; [|done]. intros ->%IH. by rewrite Hxy.
Qed.

(** A child's name, joined, is its path. *)
Lemma child_name_join dir p n : child_name dir p = Some n → path_join dir n = p.
Proof.
  intros Hc. pose proof (child_name_relative _ _ _ Hc) as Hr. revert Hc. unfold child_name.
  destruct (strip_prefix _ _) as [[|c l]|] eqn:Es; [done| |done].
  case_bool_decide; [done|]. intros [= <-]. apply strip_prefix_app in Es.
  apply as_bytes_inj. rewrite Es. unfold path_join at 1. rewrite Hr.
  unfold path_join. change (is_absolute "") with false. cbv iota.
  destruct (reverse (as_bytes dir)) as [|x r]; [by rewrite as_bytes_of_list|].
  case_bool_decide; rewrite !as_bytes_app, as_bytes_of_list.
  - by rewrite app_nil_r.
  - by rewrite <- !(assoc_L (++)).
Qed.

Lemma no_nul_spec l : no_nul l = true ↔ ∀ b, b ∈ l → is_nul b = false.
Proof.
  unfold no_nul. rewrite forallb_forall. setoid_rewrite list_elem_of_In.
  setoid_rewrite negb_true_iff. done.
Qed.

Lemma length_as_bytes s : length (as_bytes s) = String.length s.
Proof.
  unfold as_bytes, String.list_byte_of_string. rewrite length_map.
  induction s as [|c s IH]; [done|]. cbn. by rewrite IH.
Qed.

Lemma trim_trailing_suffix r : trim_trailing r `suffix_of` r.
Proof.
  induction r as [r IH] using (induction_ltof1 _ (@length byte)). unfold ltof in IH.
  destruct r as [|c [|d r]]; cbn [trim_trailing]; [done|case_decide; [apply suffix_nil|done]|].
  case_decide; [|case_decide; [|done]].
  - apply suffix_cons_r. apply (IH (d :: r)). cbn. lia.
  - do 2 apply suffix_cons_r. apply IH. cbn. lia.
Qed.

(** What is left ends in no separator. *)
Lemma trim_trailing_head r c l : trim_trailing r = c :: l → c ≠ SLASH.
Proof.
  revert c l. induction r as [r IH] using (induction_ltof1 _ (@length byte)). unfold ltof in IH.
  intros c l. destruct r as [|x [|d r]]; cbn [trim_trailing]; [done|by case_decide; [|intros [= <- _]]|].
  case_decide; [|case_decide; [|by intros [= <- _]]].
  - intros E. eapply (IH (d :: r)); [cbn; lia|exact E].
  - apply IH. cbn. lia.
Qed.

Lemma drop_component_suffix r : drop_component r `suffix_of` r.
Proof.
  induction r as [|c r IH]; cbn [drop_component]; [done|].
  case_decide; [done|by apply suffix_cons_r].
Qed.

(** A parent is shorter, and made of the bytes of its path. *)
Lemma path_parent_shorter p q :
  path_parent p = Some q →
  (length (as_bytes q) < length (as_bytes p))%nat
  ∧ (no_nul (as_bytes p) = true → no_nul (as_bytes q) = true).
Proof.
  unfold path_parent. pose proof (trim_trailing_suffix (reverse (as_bytes p))) as Hs.
  pose proof (suffix_length _ _ Hs) as Hl. rewrite length_reverse in Hl.
  destruct (trim_trailing (reverse (as_bytes p))) as [|c r] eqn:Et; [done|].
  apply trim_trailing_head in Et as Hc. cbn [drop_component]. rewrite decide_False by done.
  pose proof (drop_component_suffix r) as Hd. pose proof (suffix_length _ _ Hd) as Hdl.
  intros Hp. apply (inj Some) in Hp as <-.
  destruct (drop_component r) as [|d up] eqn:Eu; [split; [cbn in Hl |- *; lia|done]|].
  pose proof (trim_trailing_suffix (d :: up)) as Ht. pose proof (suffix_length _ _ Ht) as Htl.
  cbn [length] in Hl, Hdl, Htl.
  destruct (trim_trailing (d :: up)) as [|e t]; [split; [cbn; lia|done]|].
  rewrite as_bytes_of_list, length_reverse. split; [cbn [length] in *; lia|].
  rewrite !no_nul_spec. intros Hn b. rewrite elem_of_reverse. intros Hb. apply Hn, elem_of_reverse.
  eapply elem_of_suffix, Hs. right.
  eapply elem_of_suffix, Hd. by eapply elem_of_suffix, Ht.
Qed.

Lemma ancestors_length k p q :
  q ∈ ancestors k p → (length (as_bytes q) ≤ length (as_bytes p))%nat.
Proof.
  revert p. induction k as [|k IH]; intros p; cbn [ancestors].
  { by intros ->%list_elem_of_singleton. }
  intros [->|Hq]%elem_of_cons; [done|].
  destruct (path_parent p) as [r|] eqn:Er; [|by apply elem_of_nil in Hq].
  apply IH in Hq. apply path_parent_shorter in Er as [Er _]. lia.
Qed.

Lemma ancestors_mono k k' p : (k ≤ k')%nat → ancestors k p ⊆ ancestors k' p.
Proof.
  revert k' p. induction k as [|k IH]; intros [|k'] p Hk; cbn [ancestors]; [done| |lia|].
  - intros q ->%list_elem_of_singleton. left.
  - intros q [->|Hq]%elem_of_cons; [left|right].
    destruct (path_parent p); [|done]. eapply IH, Hq. lia.
Qed.

(** The contents of a directory are not among its ancestors. *)
Lemma join_not_ancestor k dir n :
  n ≠ "" → is_absolute n = false → path_join dir n ∉ ancestors k dir.
Proof.
  intros Hn Hr Ha%ancestors_length. unfold path_join in Ha. rewrite Hr in Ha.
  assert (length (as_bytes n) ≠ 0%nat).
  { rewrite length_zero_iff_nil. intros En. apply Hn. by apply as_bytes_inj. }
  destruct (reverse (as_bytes dir)) as [|x r] eqn:Ed.
  - apply (f_equal length) in Ed. rewrite length_reverse in Ed. cbn in Ed. lia.
  - case_bool_decide; rewrite !as_bytes_app, !length_app in Ha; lia.
Qed.

Section Live.
Context `{Http} `{JsonLaws} `{TempFileLaws} `{!TempFileProgress} `{Clubcard} `{HashOrderLaws} `{Chrono}.

(** A temporary in [dir], written and renamed over [path]. *)
Lemma with_temp_live {E} (f g : IoError → E) sfx dir path data fs :
  quiet fs → dir ∈ dirs fs → writable fs path →
  ∃ fs1 temp, tempfile_in sfx dir fs = (fs1, Ok temp)
  ∧ with_temp temp (_ ← eff_map_err f (write_all temp data); eff_map_err g (persist temp path)) fs1
    = (set_files <[path := data]> fs, Ok tt).
Proof.
  intros Hq Hd Hw. destruct (tempfile_in_progress fs sfx dir Hq Hd) as (fs1 & temp & Et).
  exists fs1, temp. split; [done|]. apply tempfile_in_ok in Et as [Hnew ->].
  pose proof (write_persist_atomic f g temp path data fs Hnew) as Hp.
  unfold with_temp, mbind, eff_bind, eff_map_err, write_all in *.
  assert (∀ p, faults (set_files <[temp:=[]]> fs) OpWrite p = None) as Hf by (intros; apply Hq).
  rewrite Hf in *. cbn [map_err] in *.
  destruct (persist_progress (set_files <[temp:=data]> (set_files <[temp:=[]]> fs)) temp path)
    as [fs' Ep].
  - intros op p. apply Hq.
  - cbn. rewrite lookup_insert_eq. by eexists.
  - done.
  - rewrite Ep in *. cbn [map_err] in *. by rewrite Hp.
Qed.

Lemma atomic_write_live path data fs :
  quiet fs → writable fs path →
  atomic_write path data fs = (set_files <[path := data]> fs, Ok tt).
Proof.
  intros Hq Hw. pose proof Hw as (_ & _ & d & Hp & Hd). unfold atomic_write. rewrite Hp.
  destruct (with_temp_live id id "" d path data fs Hq Hd Hw) as (fs1 & temp & E & Hwt).
  unfold mbind at 1, eff_bind at 1. rewrite E. unfold eff_map_err, map_err in Hwt.
  rewrite <- Hwt. unfold with_temp, mbind, eff_bind.
  destruct (write_all temp data fs1) as [fs2 [[]|e|]]; [|done..].
  by destruct (persist temp path fs2) as [fs3 [[]|e|]].
Qed.
(** ** Steps that cannot fail *)

(** The server answers a request for [url] with [data], whenever it is asked. *)
Definition answers (client : Client) (url : string) (data : list byte) : Prop :=
  ∀ net, ∃ net1 r resp net2, send client url net = (net1, inr r)
    ∧ error_for_status r = inr resp ∧ response_bytes resp net1 = (net2, inr data).

(** The server has the file [f]. *)
Definition offered (client : Client) (url : string) (f : ManifestFile) : Prop :=
  ∃ data, answers client (url +:+ filename f) data
          ∧ Fips.sha256 data = hash f ∧ 8 * Z.of_nat (length data) ≤ u64_max.

(** What a step that writes needs of the file system and the server. *)
Definition enabled (client : Client) (fs : Fs) (s : PlanStep) : Prop :=
  match s with
  | Download f url local =>
      writable fs local
      ∧ ∃ data, answers client url data
                ∧ Fips.sha256 data = hash f ∧ 8 * Z.of_nat (length data) ≤ u64_max
  | SaveIndex _ dir => dir ∈ dirs fs ∧ writable fs (path_join dir INDEX_BIN)
  | SaveManifest m dir =>
      writable fs (path_join dir MANIFEST_JSON) ∧ ∃ data, manifest_to_vec m = inr data
  | CreateDir _ | Delete _ => False
  end.

Lemma enabled_tree client fs fs' s :
  same_tree fs fs' → enabled client fs s → enabled client fs' s.
Proof.
  intros Ht. destruct s; cbn [enabled]; try done.
  - intros [Hw ?]. split; [by eapply writable_tree|done].
  - intros [Hd Hw]. split; [by rewrite (tree_dirs _ _ Ht)|by eapply writable_tree].
  - intros [Hw ?]. split; [by eapply writable_tree|done].
Qed.

(** Nothing is deleted. *)
Definition keeps (fs fs' : Fs) : Prop :=
  same_tree fs fs' ∧ ∀ p, is_Some (files fs !! p) → is_Some (files fs' !! p).

#[export] Instance keeps_preorder : PreOrder keeps.
Proof.
  split; [by split|]. intros f1 f2 f3 [] []. split; [by etransitivity|auto].
Qed.

Lemma keeps_insert p data fs : keeps fs (set_files <[p := data]> fs).
Proof.
  split; [auto with upki|]. intros q [d Hq]. cbn.
  destruct (decide (p = q)) as [->|Hn]; [rewrite lookup_insert_eq|rewrite lookup_insert_ne by done];
    eauto.
Qed.

Lemma check_download_live fs f local data :
  quiet fs → no_nul (as_bytes local) = true → Fips.sha256 data = hash f →
  8 * Z.of_nat (length data) ≤ u64_max →
  check_download (set_files <[local := data]> fs) f local = Ok tt.
Proof.
  intros Hq Hn Hh Hl. unfold check_download. rewrite hash_file_spec. unfold hash_spec.
  rewrite (fs_read_ok _ _ data); [|done|apply Hq|apply Hq|apply lookup_insert_eq].
  cbn [mbind result_bind]. rewrite (proj2 (Z.leb_le _ _)) by done.
  by rewrite decide_True.
Qed.

Lemma download_live client f url local w :
  quiet (w_fs w) → enabled client (w_fs w) (Download f url local) →
  ∃ w', execute client (Download f url local) w = (w', Ok tt) ∧ keeps (w_fs w) (w_fs w').
Proof.
  intros Hq [Hw (data & Ha & Hh & Hl)].
  destruct (Ha (w_net w)) as (net1 & r & resp & net2 & Hs & He & Hb).
  exists {| w_fs := set_files <[local := data]> (w_fs w); w_net := net2 |}.
  split; [|apply keeps_insert].
  cbn [execute]. unfold http_get, mbind, eff_bind, eff_map_err, on_net, on_fs, eff_lift.
  rewrite Hs. cbn [of_sum map_err]. rewrite He. cbn [of_sum map_err w_net w_fs].
  rewrite Hb. cbn [of_sum map_err w_fs w_net].
  rewrite (atomic_write_live local data _ Hq Hw). cbn [map_err w_fs].
  by rewrite (check_download_live _ _ _ _ Hq (proj1 Hw) Hh Hl).
Qed.

Lemma save_index_live m dir fs :
  quiet fs → dir ∈ dirs fs → writable fs (path_join dir INDEX_BIN) →
  ∃ fs', save_index m dir fs = (fs', Ok tt) ∧ keeps fs fs'.
Proof.
  intros Hq Hd Hw. unfold save_index. destruct (write fs m dir) as [buf|]; [|by exists fs].
  destruct (tempfile_in_progress fs ".new" dir Hq Hd) as (fs1 & temp & Et).
  destruct (with_temp_live (λ e, FileWrite e temp) (λ e, FileWrite e (path_join dir INDEX_BIN))
              ".new" dir (path_join dir INDEX_BIN) buf fs Hq Hd Hw) as (fs1' & temp' & Et' & Hwt).
  rewrite Et in Et'. injection Et' as <- <-.
  exists (set_files <[path_join dir INDEX_BIN := buf]> fs). split; [|apply keeps_insert].
  unfold mbind at 1, eff_bind at 1, eff_map_err at 1. rewrite Et. exact Hwt.
Qed.

(** A step that writes, succeeds. *)
Lemma enabled_live client s w :
  quiet (w_fs w) → enabled client (w_fs w) s →
  ∃ w', execute client s w = (w', Ok tt) ∧ keeps (w_fs w) (w_fs w').
Proof.
  intros Hq He. destruct s as [p|f url local|p|m dir|m dir]; cbn [enabled] in He; [done| |done|..].
  - by apply download_live.
  - destruct He as [Hd Hw]. destruct (save_index_live m dir _ Hq Hd Hw) as (fs' & Hs & Hk).
    exists {| w_fs := fs'; w_net := w_net w |}.
    cbn [execute]. unfold on_fs. by rewrite Hs.
  - destruct He as [Hw [data Hv]].
    exists {| w_fs := set_files <[path_join dir MANIFEST_JSON := data]> (w_fs w); w_net := w_net w |}.
    split; [|apply keeps_insert]. cbn [execute].
    unfold mbind, eff_bind, eff_lift. rewrite Hv. cbn [of_sum map_err].
    unfold on_fs, eff_map_err. by rewrite (atomic_write_live _ data _ Hq Hw).
Qed.

Lemma writes_live client steps w :
  quiet (w_fs w) → Forall (enabled client (w_fs w)) steps →
  ∃ w', execute_all client steps w = (w', Ok tt) ∧ keeps (w_fs w) (w_fs w').
Proof.
  intros Hq Hs. revert w Hq Hs. induction steps as [|s steps IH]; intros w Hq Hs.
  { exists w. by split. }
  apply Forall_cons in Hs as [He Hs].
  destruct (enabled_live client s w Hq He) as (w1 & Hx & Hk).
  destruct (IH w1) as (w2 & Hx2 & Hk2).
  - by eapply quiet_tree; [apply Hk|].
  - eapply Forall_impl; [exact Hs|]. intros t. apply enabled_tree, Hk.
  - exists w2. split; [|by etransitivity].
    cbn [execute_all]. unfold mbind, eff_bind. by rewrite Hx.
Qed.

(** Deleting files that are there. *)
Lemma deletes_live client ps w :
  quiet (w_fs w) → NoDup ps →
  Forall (λ p, no_nul (as_bytes p) = true ∧ is_Some (files (w_fs w) !! p)) ps →
  ∃ w', execute_all client (Delete <$> ps) w = (w', Ok tt).
Proof.
  intros Hq Hnd Hp. revert w Hq Hp.
  induction Hnd as [|p ps Hin Hnd IH]; intros w Hq Hps; [by exists w|].
  apply Forall_cons in Hps as [[Hn [d Hd]] Hps].
  assert (remove_file p (w_fs w) = (set_files (delete p) (w_fs w), Ok tt)) as Hr.
  { unfold remove_file. by rewrite (guard_op_ok _ _ _ _ Hn (Hq _ _)), Hd. }
  destruct (IH {| w_fs := set_files (delete p) (w_fs w); w_net := w_net w |}) as (w2 & Hx2).
  - intros op q. apply Hq.
  - rewrite Forall_forall in Hps |- *. intros q Hqin. destruct (Hps q Hqin) as [Hqn Hqs].
    split; [done|]. cbn. rewrite lookup_delete_ne; [done|]. by intros ->.
  - exists w2. rewrite fmap_cons. cbn [execute_all execute].
    unfold mbind, eff_bind, on_fs, eff_map_err. by rewrite Hr.
Qed.

Lemma execute_all_app client l1 l2 w w1 :
  execute_all client l1 w = (w1, Ok tt) →
  execute_all client (l1 ++ l2) w = execute_all client l2 w1.
Proof.
  revert w. induction l1 as [|s l1 IH]; intros w; cbn [execute_all app].
  { by intros [= <-]. }
  unfold mbind, eff_bind. destruct (execute client s w) as [w2 [[]|e|]]; [|done..].
  apply IH.
Qed.

(** ** The plan of a [fetch] *)

(** A name for a file of the cache directory. *)
Record placed (fs : Fs) (dir n : string) : Prop := {
  placed_name : n ≠ "" ∧ is_absolute n = false;
  placed_nul : no_nul (as_bytes (path_join dir n)) = true;
  placed_free : path_join dir n ∉ dirs fs;
  placed_parent : path_parent (path_join dir n) = Some dir }.

(** The directory [p] is there or can be made: no file is in the way of it or of the
    directories above, of which the topmost is there. *)
Record creatable (fs : Fs) (k : nat) (p : string) : Prop := {
  creatable_nul : no_nul (as_bytes p) = true;
  creatable_way q : q ∈ ancestors k p → files fs !! q = None;
  creatable_root q : q ∈ ancestors k p → path_parent q = None → q = "" ∨ q ∈ dirs fs }.

(** A file system that refuses nothing, where the cache directory is there or can
    be made, and nothing in the way of a file of the cache is a directory. *)
Record tidy (fs : Fs) (dir : string) : Prop := {
  tidy_quiet : quiet fs;
  tidy_nul p : is_Some (files fs !! p) → no_nul (as_bytes p) = true;
  tidy_name : dir ≠ "";
  tidy_dir : creatable fs (String.length dir) dir;
  tidy_filters name :
    is_absolute name = false → is_filter_name name = true → path_join dir name ∉ dirs fs }.

(** And no file is too long for its hash. *)
Definition hashable (fs : Fs) : Prop :=
  ∀ p data, files fs !! p = Some data → 8 * Z.of_nat (length data) ≤ u64_max.

Record ready (fs : Fs) (dir : string) : Prop := {
  ready_tidy : tidy fs dir;
  ready_sizes : hashable fs }.

Lemma tidy_no_file fs dir : tidy fs dir → files fs !! dir = None.
Proof. intros Ht. apply (creatable_way _ _ _ (tidy_dir _ _ Ht)), ancestors_self. Qed.

Lemma path_exists_ready fs dir : ready fs dir → path_exists fs dir = bool_decide (dir ∈ dirs fs).
Proof.
  intros [Ht _]. unfold path_exists.
  rewrite (guard_op_ok _ _ _ _ (creatable_nul _ _ _ (tidy_dir _ _ Ht)) (tidy_quiet _ _ Ht _ _)).
  by rewrite tidy_no_file.
Qed.

(** Making a directory that is there keeps it; making one under a directory works. *)
Lemma make_dir_there fs p :
  quiet fs → no_nul (as_bytes p) = true → p ∈ dirs fs → make_dir p fs = (fs, Err AlreadyExists).
Proof.
  intros Hq Hn Hp. unfold make_dir. rewrite (guard_op_ok _ _ _ _ Hn (Hq _ _)).
  rewrite bool_decide_eq_true_2; [done|by right].
Qed.

Lemma path_is_dir_there fs p :
  quiet fs → no_nul (as_bytes p) = true → p ∈ dirs fs → path_is_dir fs p = true.
Proof.
  intros Hq Hn Hp. unfold path_is_dir. rewrite (guard_op_ok _ _ _ _ Hn (Hq _ _)).
  by apply bool_decide_eq_true_2.
Qed.

Lemma make_dir_under fs p up :
  quiet fs → no_nul (as_bytes p) = true → files fs !! p = None → p ∉ dirs fs →
  path_parent p = Some up → up = "" ∨ up ∈ dirs fs →
  make_dir p fs = (set_dirs (λ d, {[p]} ∪ d) fs, Ok tt).
Proof.
  intros Hq Hn Hf Hp Hup Hd. unfold make_dir. rewrite (guard_op_ok _ _ _ _ Hn (Hq _ _)).
  rewrite bool_decide_eq_false_2 by (rewrite Hf; by intros [[]|?]).
  by rewrite Hup, bool_decide_eq_true_2.
Qed.

Lemma make_dir_or_keep_live fs p up :
  quiet fs → no_nul (as_bytes p) = true → files fs !! p = None →
  path_parent p = Some up → up = "" ∨ up ∈ dirs fs → (make_dir_or_keep p fs).2 = Ok tt.
Proof.
  intros Hq Hn Hf Hup Hd. unfold make_dir_or_keep. destruct (decide (p ∈ dirs fs)) as [Hp|Hp].
  - by rewrite make_dir_there, path_is_dir_there.
  - by rewrite (make_dir_under _ _ up).
Qed.

Lemma creatable_parent fs k p up :
  path_parent p = Some up → creatable fs (S k) p → creatable fs k up.
Proof.
  intros Hup [Hn Hw Hr]. split.
  - by apply (path_parent_shorter p up).
  - intros q Hq. apply Hw. cbn [ancestors]. rewrite Hup. by right.
  - intros q Hq. apply Hr. cbn [ancestors]. rewrite Hup. by right.
Qed.

(** [create_dir_all] makes the directory, with as many parents as there may be. *)
Lemma create_dirs_live k p fs :
  quiet fs → (length (as_bytes p) ≤ k)%nat → creatable fs k p → (create_dirs k p fs).2 = Ok tt.
Proof.
  revert p. induction k as [|k IH]; intros p Hq Hk Hc; cbn [create_dirs];
    (case_bool_decide as Hp; [done|]); pose proof (creatable_nul _ _ _ Hc) as Hn.
  { destruct Hp. apply as_bytes_inj, nil_length_inv. lia. }
  destruct (decide (p ∈ dirs fs)) as [Hd|Hd].
  { by rewrite make_dir_there, path_is_dir_there. }
  pose proof (creatable_way _ _ _ Hc p (ancestors_self _ _)) as Hf.
  destruct (path_parent p) as [up|] eqn:Hup;
    [|by destruct (creatable_root _ _ _ Hc p (ancestors_self _ _) Hup)].
  destruct (decide (up = "" ∨ up ∈ dirs fs)) as [Hu|Hu]; [by rewrite (make_dir_under _ _ up)|].
  pose proof (creatable_parent _ _ _ _ Hup Hc) as Hcu.
  apply path_parent_shorter in Hup as Hs. destruct Hs as [Hs _].
  assert (make_dir p fs = (fs, Err NotFound)) as ->.
  { unfold make_dir. rewrite (guard_op_ok _ _ _ _ Hn (Hq _ _)).
    rewrite bool_decide_eq_false_2 by (rewrite Hf; by intros [[]|?]).
    rewrite Hup, bool_decide_eq_false_2, bool_decide_eq_false_2; [done| |done].
    rewrite Exists_exists. intros (q & Hqa & [data Hqf]).
    rewrite (creatable_way _ _ _ Hcu) in Hqf; [done|]. eapply ancestors_mono, Hqa.
    rewrite <- length_as_bytes. lia. }
  specialize (IH up Hq ltac:(lia) Hcu). destruct (create_dirs_grown k up fs) as [Hg Hd'].
  unfold mbind, eff_bind. destruct (create_dirs k up fs) as [fs1 r]. cbn [fst snd] in *. subst r.
  destruct Hg as (Hgf & Hgx & _). apply (make_dir_or_keep_live _ _ up); auto.
  - intros op q. by rewrite Hgx.
  - by rewrite Hgf.
Qed.

(** The directory is there once the first step ran. *)
Lemma create_live client w dir :
  ready (w_fs w) dir →
  ∃ w1, execute_all client (if path_exists (w_fs w) dir then [] else [CreateDir dir]) w
        = (w1, Ok tt)
    ∧ files (w_fs w1) = files (w_fs w) ∧ quiet (w_fs w1) ∧ dir ∈ dirs (w_fs w1)
    ∧ ∀ n, placed (w_fs w) dir n → writable (w_fs w1) (path_join dir n).
Proof.
  intros Hr. rewrite (path_exists_ready _ _ Hr). destruct Hr as [[Hq _ Hne Hc _] _].
  case_bool_decide as Hd.
  { exists w. do 4 (split; [done|]). intros n [? ? ? ?]. by split; [|split; [|exists dir]]. }
  pose proof (create_dirs_live (String.length dir) dir (w_fs w) Hq
                ltac:(by rewrite length_as_bytes) Hc) as Hok.
  destruct (create_dir_all dir (w_fs w)) as [fs1 r] eqn:E. pose proof E as Hg.
  unfold create_dir_all in E. rewrite E in Hok. cbn [snd] in Hok. subst r.
  apply create_dir_all_grown in Hg as Hg'. destruct Hg' as [Hgr Hin].
  exists {| w_fs := fs1; w_net := w_net w |}. cbn [w_fs].
  assert (dir ∈ dirs fs1) as Hin' by by destruct (Hin eq_refl).
  split; [|split; [apply Hgr|split; [|split; [done|]]]].
  - cbn [execute_all execute]. unfold mbind, eff_bind, on_fs, eff_map_err. by rewrite Hg.
  - intros op q. rewrite (grown_faults _ _ _ Hgr). apply Hq.
  - intros n [[Hn Hrel] Hnul Hfree Hp]. split; [done|]. split; [|by exists dir].
    intros [?|Ha]%(grown_only _ _ _ Hgr); [done|]. by apply join_not_ancestor in Ha.
Qed.

Lemma tidy_listed fs dir name :
  tidy fs dir → listed fs dir name → is_filter_name name = true →
  is_Some (files fs !! path_join dir name).
Proof.
  intros Hr (iter & Hrd & Hin) Hfn. unfold read_dir in Hrd.
  apply guard_op_inv in Hrd as [Hrd _].
  destruct (bool_decide (dir ∈ dirs fs)); [|by case_match].
  injection Hrd as <-. apply list_elem_of_fmap in Hin as (n & Hn & Hin).
  rewrite (tidy_quiet _ _ Hr) in Hn. injection Hn as <-.
  apply list_elem_of_omap in Hin as (p & Hp & Hc).
  pose proof (child_name_relative _ _ _ Hc) as Hrel. apply child_name_join in Hc as <-.
  apply elem_of_elements, elem_of_union in Hp as [Hp%elem_of_dom|Hp]; [done|].
  by destruct (tidy_filters _ _ Hr name Hrel Hfn).
Qed.

(** Planning does not fail. *)
Lemma construct_live fs m old url dir :
  ready fs dir → ∃ plan, construct fs m old url dir = Ok plan.
Proof.
  intros Hr.
  assert (∀ steps s, ∃ r, plan_files fs url dir (manifest_files m) steps s = Ok r) as Hpf.
  { intros steps s. apply plan_files_ok. intros f _. rewrite hash_file_spec. unfold hash_spec.
    pose proof (fs_read_no_panic fs (path_join dir (filename f))) as Hnp.
    destruct (fs_read fs _) as [data|e|] eqn:Ef; cbn [mbind result_bind]; [|done..].
    apply fs_read_inv in Ef as [Ef _]. apply (ready_sizes _ _ Hr) in Ef.
    by rewrite (proj2 (Z.leb_le _ _)). }
  unfold construct. rewrite (path_exists_ready _ _ Hr).
  destruct Hr as [[Hq _ _ [Hn _ _] _] _]. case_bool_decide as Hd.
  - unfold read_dir. rewrite (guard_op_ok _ _ _ _ Hn (Hq _ _)), bool_decide_eq_true_2 by done.
    cbn [map_err mbind result_bind].
    erewrite list_fmap_ext by (intros; rewrite Hq; reflexivity).
    destruct (collect_unwanted_ok (omap (child_name dir) (elements (dom (files fs) ∪ dirs fs))) [])
      as [s ->].
    cbn [mbind result_bind]. destruct (Hpf [] s) as [[r1 r2] ->].
    by eexists.
  - cbn [mbind result_bind]. destruct (Hpf [CreateDir dir] []) as [[r1 r2] ->].
    by eexists.
Qed.

(** The plan of a manifest whose files the server has, runs. *)
Lemma plan_live client m old url dir plan w mdata :
  ready (w_fs w) dir → construct (w_fs w) m old url dir = Ok plan →
  Forall (placed (w_fs w) dir) (INDEX_BIN :: MANIFEST_JSON :: (filename <$> manifest_files m)) →
  Forall (offered client url) (manifest_files m) →
  manifest_to_vec m = inr mdata →
  ∃ w', execute_all client plan w = (w', Ok tt).
Proof.
  intros Hr (doomed & -> & Hdel & _ & Hnd)%construct_shape Hpl Hoff Hm.
  destruct (create_live client w dir Hr) as (w1 & Hx1 & Hf1 & Hq1 & Hd1 & Hw1).
  rewrite !Forall_cons, Forall_fmap in Hpl. destruct Hpl as (Hpi & Hpm & Hpf).
  rewrite (execute_all_app _ _ _ _ _ Hx1), (assoc_L (++)).
  destruct (writes_live client
              (((λ f, download f url dir) <$> filter (stale (w_fs w) dir) (manifest_files m))
               ++ [SaveIndex m dir; SaveManifest m dir]) w1 Hq1) as (w2 & Hx2 & Hk2 & Hs2).
  { rewrite Forall_app, Forall_fmap, !Forall_cons. rewrite Forall_forall in Hpf, Hoff.
    split; [|split; [split; [done|by apply Hw1]|split; [|done]]].
    - apply Forall_forall. intros f [_ Hf]%list_elem_of_filter. split; [by apply Hw1, Hpf|].
      by apply Hoff.
    - split; [by apply Hw1|by exists mdata]. }
  rewrite (execute_all_app _ _ _ _ _ Hx2), (list_fmap_compose (path_join dir) Delete).
  apply deletes_live; [by eapply quiet_tree| |].
  - apply NoDup_fmap_2_strong; [|done]. intros a b Ha Hb. apply path_join_inj.
    + by eapply listed_relative, (Hdel a).
    + by eapply listed_relative, (Hdel b).
  - apply Forall_fmap, Forall_forall. intros n Hn. destruct (Hdel n Hn) as (Hl & Hfn & _).
    pose proof (tidy_listed _ _ _ (ready_tidy _ _ Hr) Hl Hfn) as Hex. split; [by apply (tidy_nul _ _ (ready_tidy _ _ Hr))|].
    apply Hs2. by rewrite Hf1.
Qed.
(** A server that has a manifest and its files, whenever it is asked. *)
Record serving (client : Client) (url : string) (m : Manifest) : Prop := {
  serving_client : client_build = inr client;
  serving_manifest net : ∃ net1 r resp net2,
    send client (url +:+ MANIFEST_JSON) net = (net1, inr r)
    ∧ error_for_status r = inr resp ∧ response_json resp net1 = (net2, inr m);
  serving_files : Forall (offered client url) (manifest_files m) }.

(** A [fetch] succeeds, and leaves the cache as the manifest says, when the server
    has a manifest and its files, the system refuses nothing, and no directory is
    in the way of a file of the cache. *)
Theorem fetch_succeeds debug_path config w client m mdata :
  let url := fetch_url (revocation config) in
  let dir := revocation_cache_dir config in
  serving client url m → introduce m = Ok tt → manifest_to_vec m = inr mdata →
  ready (w_fs w) dir →
  Forall (placed (w_fs w) dir) (INDEX_BIN :: MANIFEST_JSON :: (filename <$> manifest_files m)) →
  well_named m →
  ∃ w', fetch debug_path false config w = (w', Ok Executed)
        ∧ synchronised (w_fs w) (w_fs w') dir m.
Proof.
  intros url dir [Hb Hm Hf] Hi Hv Hr Hpl Hwn.
  destruct (Hm (w_net w)) as (net1 & r & resp & net2 & Hs & He & Hj).
  set (w1 := {| w_fs := w_fs w; w_net := net2 |}).
  assert (fetch_manifest (url +:+ MANIFEST_JSON) w = (w1, Ok (client, m))) as Hfm.
  { unfold fetch_manifest, http_get, mbind, eff_bind, eff_lift, eff_map_err, on_net.
    rewrite Hb. cbn [of_sum map_err]. rewrite Hs. cbn [of_sum map_err].
    rewrite He. cbn [of_sum map_err w_net]. by rewrite Hj. }
  destruct (construct_live (w_fs w) m (ok (manifest_from_config (w_fs w) config)) url dir Hr)
    as [plan Hc].
  destruct (plan_live client m _ url dir plan w1 mdata Hr Hc Hpl Hf Hv) as [w' Hx].
  exists w'. split.
  - unfold fetch, mbind, eff_bind, eff_lift. fold url dir. rewrite Hfm, Hi. cbn [w_fs w1].
    rewrite Hc. by rewrite Hx.
  - pose proof (execute_all_spec client plan w1) as Hsp. rewrite Hx in Hsp.
    by eapply plan_sync.
Qed.

(** ** What makes every fetch fail *)

(** A name in a directory is one component. *)
Lemma components_name name :
  SLASH ∉ as_bytes name → as_bytes name ≠ [] → components name = (false, [as_bytes name]).
Proof.
  intros Hs Hn. unfold components.
  assert (∀ l acc, SLASH ∉ l → split_slash l acc = [reverse acc ++ l]) as Hsplit.
  { induction l as [|c l IH]; intros acc Hl; cbn [split_slash]; [by rewrite app_nil_r|].
    apply not_elem_of_cons in Hl as [Hc Hl]. rewrite decide_False by done.
    rewrite IH, reverse_cons, <- (assoc_L (++)) by done. done. }
  rewrite Hsplit by done. cbn [reverse app rev_append]. f_equal.
  - unfold is_absolute. destruct (as_bytes name); [done|]. apply bool_decide_eq_false.
    intros ->. apply Hs. left.
  - case_bool_decide as Hd; [by rewrite app_nil_r|].
    rewrite filter_cons, decide_True; [done|]. unfold is_normal.
    rewrite bool_decide_eq_false_2; [done|]. by intros [?|?].
Qed.

Lemma listed_name fs local name :
  listed fs local name → SLASH ∉ as_bytes name ∧ as_bytes name ≠ [].
Proof.
  intros (iter & Hr & Hin). unfold read_dir in Hr. apply guard_op_inv in Hr as [Hr _].
  destruct (bool_decide (local ∈ dirs fs)); [|by case_match].
  injection Hr as <-. apply list_elem_of_fmap in Hin as (n & Hn & Hin).
  apply list_elem_of_omap in Hin as (p & _ & Hp).
  assert (n = name) as -> by (destruct (faults _ _ _); by simplify_eq).
  unfold child_name in Hp. destruct (strip_prefix _ _) as [[|c l]|]; [done| |done].
  case_bool_decide; [done|]. injection Hp as <-. by rewrite as_bytes_of_list.
Qed.

(** Equal as paths, equal as names. *)
Lemma listed_path_eqb fs local a b :
  listed fs local a → listed fs local b → path_eqb a b = true → a = b.
Proof.
  intros [Ha Ha']%listed_name [Hb Hb']%listed_name E%path_eqb_true.
  rewrite !components_name in E by done. injection E as E. by apply as_bytes_inj.
Qed.

(** A step that deletes ran where its file was there from the start. *)
Lemma ran_delete_was_there pre p post fs fs' :
  ran_all (pre ++ Delete p :: post) fs fs' → p ∉ concat (targets <$> pre) →
  is_Some (files fs !! p).
Proof.
  intros (fs1 & Hpre & Hr)%ran_all_app Hp. apply ran_all_frame in Hpre as [_ Hf].
  rewrite <- (Hf p Hp). inversion Hr as [|s st a b c Hs _]; subst.
  by inversion Hs.
Qed.

(** Nothing before the deletions touches what is deleted. *)
Lemma deleted_apart fs dir m old url name pre :
  well_named m → deletable fs dir m old name → name ∉ pre →
  (∀ n, n ∈ pre → deletable fs dir m old n) →
  path_join dir name
  ∉ concat (targets <$> (if path_exists fs dir then [] else [CreateDir dir])
            ++ ((λ f, download f url dir) <$> filter (stale fs dir) (manifest_files m))
            ++ [SaveIndex m dir; SaveManifest m dir]
            ++ ((λ n, Delete (path_join dir n)) <$> pre)).
Proof.
  intros Hwn Hd Hin Hpre. pose proof (wn_relative _ Hwn) as Hrel. rewrite Forall_forall in Hrel.
  assert (∀ n, is_absolute n = false →
            is_filter_name n = false ∨ n ∈ filename <$> manifest_files m →
            path_join dir name ≠ path_join dir n) as Hne.
  { intros n Hr Hn E. by eapply deletable_apart, eq_sym, E. }
  rewrite !fmap_app, !concat_app, !not_elem_of_app. split; [|split; [|split]].
  - destruct (path_exists fs dir); apply not_elem_of_nil.
  - intros (l & Hl & (s & -> & (f & -> & [_ Hf]%list_elem_of_filter)%list_elem_of_fmap)
              %list_elem_of_fmap)%elem_of_concat.
    apply list_elem_of_singleton in Hl. eapply Hne, Hl; [by apply Hrel|right].
    apply list_elem_of_fmap. by exists f.
  - cbn. rewrite !not_elem_of_cons. split; [by apply Hne; [|left]|].
    split; [by apply Hne; [|left]|apply not_elem_of_nil].
  - intros (l & Hl & (s & -> & (n & -> & Hn)%list_elem_of_fmap)%list_elem_of_fmap)%elem_of_concat.
    apply list_elem_of_singleton in Hl. destruct Hin.
    apply path_join_inj in Hl as ->; [done|by eapply listed_relative, Hd|].
    by eapply listed_relative, (Hpre n).
Qed.

(** C25: A name in the cache directory that looks like a filter, that neither manifest names
    and that is not a file, such as a directory's, makes every [fetch] fail: the plan
    ends with deleting it. *)
Theorem stale_directory_blocks debug_path config w w1 client m name :
  let dir := revocation_cache_dir config in
  fetch_manifest (fetch_url (revocation config) +:+ MANIFEST_JSON) w = (w1, Ok (client, m)) →
  well_named m → path_exists (w_fs w) dir = true →
  deletable (w_fs w) dir m (ok (manifest_from_config (w_fs w) config)) name →
  files (w_fs w) !! path_join dir name = None →
  (fetch debug_path false config w).2 ≠ Ok Executed.
Proof.
  intros dir Hm Hwn He Hd Hno Hx.
  destruct (fetch debug_path false config w) as [w' r] eqn:Hf. cbn [snd] in Hx. subst r.
  destruct (fetch_executed _ _ _ _ _ Hf) as (w1' & client' & m' & plan & (Hm' & _ & _ & Hc) & Hr).
  rewrite Hm in Hm'. injection Hm' as <- <- <-.
  apply construct_shape in Hc as (doomed & -> & Hdel & Hall & Hnd).
  destruct (Hall name He Hd) as (q & Hq & Hqe).
  pose proof (Hdel q Hq) as Hdq.
  assert (q = name) as -> by (symmetry; eapply listed_path_eqb, Hqe; [apply Hd|apply Hdq]).
  apply list_elem_of_split in Hq as (pre & post & ->).
  apply NoDup_app in Hnd as (_ & Hpre & _).
  rewrite fmap_app, fmap_cons, !(assoc_L (++)) in Hr.
  apply ran_delete_was_there in Hr as [data Hdata]; [fold dir in Hdata; congruence|].
  rewrite <- !(assoc_L (++)). fold dir. eapply deleted_apart; [done|exact Hd| |].
  - intros Hin. apply (Hpre name Hin). left.
  - intros n Hn. apply Hdel. apply elem_of_app. by left.
Qed.
End Live.

(** ** An instance *)

Lemma foldr_max_le (l : list nat) n : n ∈ l → (n ≤ foldr Nat.max 0 l)%nat.
Proof. induction 1 as [|? ? ? ? IH]; cbn [foldr]; lia. Qed.

Lemma demo_temp_name_new dir fs : files fs !! demo_temp_name dir fs = None.
Proof.
  destruct (files fs !! demo_temp_name dir fs) as [data|] eqn:E; [|done]. exfalso.
  apply elem_of_map_to_list in E.
  assert (length (as_bytes (demo_temp_name dir fs))
          ∈ ((λ p, length (as_bytes p.1)) <$> map_to_list (files fs))) as Hl.
  { apply list_elem_of_fmap. eexists. split; [|exact E]. done. }
  apply foldr_max_le in Hl. unfold demo_temp_name in Hl at 1.
  set (k := foldr _ _ _) in *. unfold path_join in Hl.
  replace (is_absolute (String.string_of_list_byte (replicate (S k) x2e))) with false in Hl
    by (unfold is_absolute; by rewrite as_bytes_of_list).
  destruct (reverse (as_bytes dir)); [|case_bool_decide];
    rewrite ?as_bytes_app, as_bytes_of_list, ?length_app, length_replicate in Hl; lia.
Qed.

Lemma demo_tempfile_progress : @TempFileProgress demo_tempfile.
Proof.
  split; cbn.
  - intros fs sfx dir _ _. rewrite demo_temp_name_new. by eexists _, _.
  - intros fs tmp dst _ [data ->] _. by eexists.
Qed.

Section Instances.
#[local] Existing Instance demo_tempfile.
#[local] Existing Instance demo_tempfile_laws.
#[local] Existing Instance demo_tempfile_progress.
#[local] Existing Instance demo_clubcard.
#[local] Existing Instance demo_hash_order.
#[local] Existing Instance demo_hash_order_laws.
#[local] Existing Instance demo_chrono.
#[local] Existing Instance demo_json.
#[local] Existing Instance demo_json_laws.
#[local] Instance live_server : Http := demo_http demo_filters.

Definition live_client : Client := tt.
Definition live_world : World := mkWorld demo_old_fs tt.

Lemma demo_serving :
  serving live_client (fetch_url (revocation demo_config)) demo_sync_manifest.
Proof.
  split; [done|intros net; by repeat eexists|].
  repeat (apply Forall_cons; split); [..|apply Forall_nil_2].
  - eexists. split; [intros net; by repeat eexists|split; [by_vm|by apply Z.leb_le]].
  - eexists. split; [intros net; by repeat eexists|split; [by_vm|by apply Z.leb_le]].
Qed.

Lemma demo_ready : ready demo_old_fs demo_dir.
Proof.
  split; [split; [by intros op p| |done|split; [by_vm|..]|]|].
  - intros p Hp. apply elem_of_dom in Hp. revert p Hp.
    change (set_Forall (λ p, no_nul (as_bytes p) = true) (dom (files demo_old_fs))).
    apply (bool_decide_unpack _). by vm_compute.
  - apply Forall_forall, (bool_decide_unpack _). by vm_compute.
  - apply (proj1 (Forall_forall (λ q, path_parent q = None → q = "" ∨ q ∈ dirs demo_old_fs) _)).
    apply (bool_decide_unpack _). by vm_compute.
  - intros name Ha Hn Hd. unfold path_join in Hd. rewrite Ha in Hd.
    change (demo_dir +:+ "/" +:+ name ∈ dirs demo_old_fs) in Hd.
    cbn [dirs demo_old_fs demo_fs] in Hd. rewrite !elem_of_union, !elem_of_singleton in Hd.
    destruct Hd as [[Hd|Hd]|Hd]; apply (f_equal (length ∘ as_bytes)) in Hd; cbn [compose] in Hd;
      rewrite !as_bytes_app, !length_app in Hd; vm_compute in Hd; lia.
  - intros p data. revert p data.
    change (map_Forall (λ _ d, 8 * Z.of_nat (length d) ≤ u64_max) (files demo_old_fs)).
    apply (bool_decide_unpack _). by vm_compute.
Qed.

Lemma fetch_succeeds_witness :
  ∃ w', fetch id false demo_config live_world = (w', Ok Executed)
        ∧ synchronised demo_old_fs (w_fs w') demo_dir demo_sync_manifest.
Proof.
  apply (fetch_succeeds id demo_config live_world live_client demo_sync_manifest [x2a]).
  - apply demo_serving.
  - by_vm.
  - by_vm.
  - apply demo_ready.
  - repeat (apply Forall_cons; split); [..|apply Forall_nil_2];
      (split; [by split|by_vm|by vm_compute|by_vm]).
  - apply demo_manifest_well_named.
Defined.

(** The cache of before, with a directory that is named like a filter. *)
Definition blocked_world : World :=
  mkWorld (set_dirs (λ d, {["/c/revocation/x.filter"]} ∪ d) demo_old_fs) tt.

Lemma stale_directory_blocks_witness :
  (fetch id false demo_config live_world).2 = Ok Executed
  ∧ (fetch id false demo_config blocked_world).2 ≠ Ok Executed.
Proof.
  split; [by_vm|].
  apply (stale_directory_blocks id demo_config blocked_world blocked_world live_client
           demo_sync_manifest "x.filter").
  - by_vm.
  - apply demo_manifest_well_named.
  - by_vm.
  - split; [|split; [by vm_compute|split; apply (bool_decide_unpack _); by vm_compute]].
    eexists. split; [by vm_compute|]. apply (bool_decide_unpack _). by vm_compute.
  - by_vm.
Defined.
End Instances.
