(* ===== verification/Refresh.v ===== *)
(** * Checks while a fetch runs

    Another process may load the index and check certificates at any point of a
    [fetch].  A [run] lists the file systems it can see.  The specification is a
    cache that serves one generation, the old manifest or the new one; every load and
    every later check are those of one of the two. *)
From S2P Require Import Prelude Bytes Sha256 Sha256Spec FileSys External Revocation Config Index Demo IndexSafe IndexSpec IndexCheck IndexWrite IndexTheorems Fetch FetchFiles FetchPlan FetchExec FetchDemo FetchTheorems.

(** ** A generation: filters and an index of them *)

Section Generation.
Context `{ClubcardLaws}.

(** The bytes are the index of [cards] under [names]. *)
Definition built (names : list string) (cards : list CRLiteClubcard) (bytes : list byte) : Prop :=
  ∃ m, bytes = encode V1 names m ∧ fits V1 names m
    ∧ map_ok (Z.of_nat (length names)) m ∧ ∀ id, bound id m = log_section 0 cards id.

Definition file_names (m : Manifest) : list string := filename <$> manifest_files m.

Definition loaded (fs : Fs) (config : Config) (m : Manifest) : option (list CRLiteClubcard) :=
  mapM (load_card fs (revocation_cache_dir config)) (file_names m).

(** What the format can hold. *)
Record limits (fs : Fs) (config : Config) (m : Manifest) : Prop := {
  lim_utf8 : Forall (λ n, utf8_valid (as_bytes n) = true) (file_names m);
  lim_count : Z.of_nat (length (file_names m)) < 2 ^ 16;
  lim_data : ∀ cards bytes, loaded fs config m = Some cards →
    write fs m (revocation_cache_dir config) = Some bytes →
    (∀ id, Z.of_nat (length (log_section 0 cards id)) < 2 ^ 16)
    ∧ Z.of_nat (length bytes) < 2 ^ 32 }.

Lemma write_built fs config m bytes :
  limits fs config m → write fs m (revocation_cache_dir config) = Some bytes →
  ∃ cards, loaded fs config m = Some cards ∧ built (file_names m) cards bytes.
Proof.
  intros [_ Hn Hd] Hw. unfold file_names in Hn. rewrite length_fmap in Hn.
  pose proof (collect_spec fs (revocation_cache_dir config) (manifest_files m) 0 [] map_ok_nil
                ltac:(lia) ltac:(lia)) as Hspec.
  destruct (collect_universes _ _ _ _ _) as [mp|] eqn:E;
    [|unfold write in Hw; by rewrite E in Hw].
  destruct Hspec as (cards & Hc & Hl & Hok & Hb). exists cards. split; [exact Hc|].
  destruct (Hd cards bytes Hc Hw) as [Hs Hlen].
  rewrite (write_encode _ _ _ _ E) in Hw. apply (inj Some) in Hw as <-.
  exists mp. split; [done|].
  assert (map_ok (Z.of_nat (length (file_names m))) mp) as Hok'
    by (unfold file_names; by rewrite length_fmap).
  split; [|split; [done|apply Hb]]. apply map_ok_fits; [done| |done| |done].
  - unfold file_names. by rewrite length_fmap.
  - intros id. rewrite Hb. apply Hs.
Qed.

(** A built index loads, and answers from the filters present when it is asked. *)
Lemma built_check fs config names cards bytes :
  built names cards bytes → readable fs (index_path config) →
  files fs !! index_path config = Some bytes →
  Forall (λ n, utf8_valid (as_bytes n) = true) names →
  ∃ i, from_cache fs config = Ok i
    ∧ ∀ fs' input, mapM (load_card fs' (revocation_cache_dir config)) names = Some cards →
        (check fs' input i).2 = Ok (reference_status cards input).
Proof.
  intros (m & -> & Hf & Hok & Hb) Hr Hfile Hu.
  destruct (from_cache_encode fs config V1 names m Hr Hfile Hf) as (i & Hi & Hreads & Hdir).
  exists i. split; [done|]. intros fs' input Hc.
  apply (check_encode V1 fs' names m); try done. by rewrite Hdir.
Qed.

Lemma load_card_frame fs fs' dir n :
  same_env fs fs' → files fs' !! path_join dir n = files fs !! path_join dir n →
  is_Some (load_card fs dir n) → load_card fs' dir n = load_card fs dir n.
Proof.
  intros [He _] Hf [c Hc]. unfold load_card in *.
  destruct (fs_read fs (path_join dir n)) as [bytes| |] eqn:E; [|done..].
  apply fs_read_inv in E as (Hl & Hn & Ho & Hr).
  rewrite (fs_read_ok fs' _ bytes); [done|done|..]; rewrite ?He; [done..|by rewrite Hf].
Qed.

Lemma loaded_frame fs fs' config m cards :
  same_env fs fs' →
  (∀ n, n ∈ file_names m → files fs' !! path_join (revocation_cache_dir config) n
                           = files fs !! path_join (revocation_cache_dir config) n) →
  loaded fs config m = Some cards → loaded fs' config m = Some cards.
Proof.
  intros He Hf. unfold loaded. rewrite !mapM_Some. revert Hf.
  generalize (file_names m) as names. intros names Hf Hall.
  induction Hall as [|n c names cards Hn Hall IH]; [constructor|]. constructor.
  - rewrite (load_card_frame fs); [done|done|apply Hf; left|by eexists].
  - apply IH. intros x Hx. apply Hf. by right.
Qed.
End Generation.

(** ** The states of a run *)

Section Runs.
Context `{Http} `{JsonLaws} `{TempFileLaws} `{ClubcardLaws} `{HashOrderLaws} `{Chrono}.

(** The file systems a run of some steps goes through: it may stop at any point, and
    a step may fail. *)
Inductive run : list PlanStep → Fs → list Fs → Prop :=
| run_stop steps fs : run steps fs [fs]
| run_step s steps fs fs' l : ran s fs fs' → run steps fs' l → run (s :: steps) fs (fs :: l)
| run_fail s steps fs fs' : failed s fs fs' → run (s :: steps) fs [fs; fs'].

(** Executing a plan is such a run. *)
Lemma execute_all_run client steps w :
  ∃ l, run steps (w_fs w) l ∧ last l = Some (w_fs (execute_all client steps w).1).
Proof.
  revert w. induction steps as [|s steps IH]; intros w; cbn [execute_all].
  { exists [w_fs w]. split; [constructor|done]. }
  unfold mbind, eff_bind. pose proof (execute_spec client s w) as Hs.
  destruct (execute client s w) as [w1 [[]|e|]].
  - destruct (IH w1) as (l & Hr & Hl). exists (w_fs w :: l). split; [by econstructor|].
    by destruct l.
  - exists [w_fs w; w_fs w1]. by split; [constructor|].
  - exists [w_fs w; w_fs w1]. by split; [constructor|].
Qed.

(** Every state differs from the first in the steps' targets only. *)
Lemma run_frame steps fs l fs' :
  run steps fs l → fs' ∈ l →
  same_env fs fs' ∧ ∀ p, p ∉ concat (targets <$> steps) → files fs' !! p = files fs !! p.
Proof.
  induction 1 as [steps fs|s steps fs fs1 l Hs Hr IH|s steps fs fs1 Hs].
  - by intros ->%list_elem_of_singleton.
  - apply ran_frame in Hs as [He Hf]. intros [->|Hin]%elem_of_cons; [done|].
    destruct (IH Hin) as [He' Hf']. split; [by etransitivity|]. intros p.
    rewrite fmap_cons. cbn [concat]. intros [? ?]%not_elem_of_app. by rewrite Hf', Hf.
  - apply failed_frame in Hs as [He Hf].
    intros [->| ->%list_elem_of_singleton]%elem_of_cons; [done|]. split; [done|].
    intros p. rewrite fmap_cons. cbn [concat]. intros [? ?]%not_elem_of_app. by apply Hf.
Qed.

(** A run of [A ++ B] stays in [A], or completes it and goes on with [B]. *)
Lemma run_app A B fs l :
  run (A ++ B) fs l →
  run A fs l
  ∨ ∃ fsA l1 l2, ran_all A fs fsA ∧ run A fs (l1 ++ [fsA]) ∧ run B fsA l2 ∧ l = l1 ++ l2.
Proof.
  revert fs l. induction A as [|s A IH]; intros fs l Hr; cbn [app] in Hr.
  { right. exists fs, [], l. by split; [constructor|split; [constructor|]]. }
  inversion Hr as [|? ? ? fs1 ? Hs Hr'|]; subst; [left; constructor| |left; by constructor].
  destruct (IH _ _ Hr') as [Hl|(fsA & l1 & l2 & HrA & HA & HB & ->)]; [left; by econstructor|].
  right. exists fsA, (fs :: l1), l2. split; [by econstructor|]. split; [by econstructor|done].
Qed.

Lemma run_head steps fs l : run steps fs l → ∃ l', l = fs :: l'.
Proof. destruct 1; by eexists. Qed.

(** ** The two generations *)

(** The cache serves [cards], the filters of [m], under their hashes. *)
Record serves (fs : Fs) (config : Config) (m : Manifest) (cards : list CRLiteClubcard) : Prop := {
  srv_index : ∃ bytes, files fs !! index_path config = Some bytes
                       ∧ built (file_names m) cards bytes;
  srv_cards : loaded fs config m = Some cards;
  srv_good : Forall (λ f, good fs (path_join (revocation_cache_dir config) (filename f)) (hash f))
                    (manifest_files m) }.

(** No name of [new] stands for other contents than in [old]. *)
Definition same_names (old new : Manifest) : Prop :=
  ∀ f g, f ∈ manifest_files old → g ∈ manifest_files new → filename f = filename g →
         hash f = hash g.

Section Refresh.
Variables (fs0 : Fs) (config : Config) (old new : Manifest) (cards : list CRLiteClubcard)
  (saved : option Manifest) (url : string) (plan : list PlanStep).
#[local] Notation dir := (revocation_cache_dir config).
Hypothesis Hserves : serves fs0 config old cards.
Hypothesis Hold : well_named old.
Hypothesis Hnew : well_named new.
Hypothesis Hsame : same_names old new.
Hypothesis Hplan : construct fs0 new saved url dir = Ok plan.

(** Before the index is saved, and after. *)
#[local] Notation before := (plan_downloads fs0 new url dir).

Lemma plan_split :
  ∃ doomed, plan = before ++ SaveIndex new dir :: SaveManifest new dir
                          :: ((λ name, Delete (path_join dir name)) <$> doomed)
    ∧ ∀ name, name ∈ doomed → deletable fs0 dir new saved name.
Proof.
  apply construct_shape in Hplan as (doomed & -> & Hd & _). exists doomed.
  split; [|done]. unfold plan_downloads. by rewrite <- (assoc_L (++)).
Qed.

Lemma relative m f : well_named m → f ∈ manifest_files m → is_absolute (filename f) = false.
Proof. intros [Hr _ _]. rewrite Forall_forall in Hr. by apply Hr. Qed.

Lemma reserved m f :
  well_named m → f ∈ manifest_files m →
  path_join dir (filename f) ≠ index_path config
  ∧ path_join dir (filename f) ≠ path_join dir MANIFEST_JSON.
Proof.
  intros Hm Hf. pose proof (wn_reserved _ Hm) as Hr. rewrite Forall_forall in Hr.
  destruct (Hr f Hf) as [Hi Hj]. pose proof (relative _ _ Hm Hf). unfold index_path.
  split; intros E; apply path_join_inj in E; done.
Qed.

Lemma before_targets p :
  p ∈ concat (targets <$> before) →
  ∃ g, g ∈ manifest_files new ∧ stale fs0 dir g ∧ p = path_join dir (filename g).
Proof.
  intros (l & Hp & (s & -> & Hs)%list_elem_of_fmap)%elem_of_concat.
  unfold plan_downloads in Hs. apply elem_of_app in Hs as [Hs|Hs].
  - destruct (path_exists fs0 dir); [by apply elem_of_nil in Hs|].
    apply list_elem_of_singleton in Hs as ->. by apply elem_of_nil in Hp.
  - apply list_elem_of_fmap in Hs as (g & -> & [? ?]%list_elem_of_filter).
    apply list_elem_of_singleton in Hp. by exists g.
Qed.

Lemma before_keeps_index : index_path config ∉ concat (targets <$> before).
Proof.
  intros (g & Hg & _ & E)%before_targets. by destruct (reserved _ _ Hnew Hg) as [[] _].
Qed.

(** No download touches a file of the old manifest; no deletion either, when that is
    the manifest in the cache. *)
Lemma before_keeps_old f :
  f ∈ manifest_files old → path_join dir (filename f) ∉ concat (targets <$> before).
Proof.
  intros Hf (g & Hg & Hst & E)%before_targets. apply Hst. apply hash_file_good.
  apply path_join_inj in E; [|by apply (relative old)|by apply (relative new)].
  pose proof (srv_good _ _ _ _ Hserves) as Hgood. rewrite Forall_forall in Hgood.
  rewrite <- E, <- (Hsame f g) by done. by apply Hgood.
Qed.

Lemma plan_keeps_old f :
  saved = Some old → f ∈ manifest_files old →
  path_join dir (filename f) ∉ concat (targets <$> plan).
Proof.
  intros Hsaved Hf. destruct plan_split as (doomed & -> & Hd).
  rewrite fmap_app, concat_app, !fmap_cons. cbn [concat targets].
  destruct (reserved _ _ Hold Hf) as [Hi Hm]. rewrite !not_elem_of_app. split_and!.
  - by apply before_keeps_old.
  - by rewrite list_elem_of_singleton.
  - by rewrite list_elem_of_singleton.
  - intros (l & Hp & (s & -> & (name & -> & Hn)%list_elem_of_fmap)%list_elem_of_fmap)%elem_of_concat.
    apply list_elem_of_singleton in Hp. destruct (Hd name Hn) as (Hl & _ & _ & Hu).
    apply path_join_inj in Hp; [|by apply (relative old)|by eapply listed_relative].
    unfold unnamed in Hu. rewrite Hsaved, Forall_forall in Hu. specialize (Hu f Hf).
    by rewrite Hp, path_eqb_refl in Hu.
Qed.

Lemma targets_prefix (d1 d2 : list PlanStep) p :
  p ∉ concat (targets <$> d1 ++ d2) → p ∉ concat (targets <$> d1).
Proof. rewrite fmap_app, concat_app, not_elem_of_app. by intros []. Qed.

Lemma old_loaded l fs :
  saved = Some old → run plan fs0 l → fs ∈ l → same_env fs0 fs ∧ loaded fs config old = Some cards.
Proof.
  intros Hsaved Hr Hin. destruct (run_frame _ _ _ _ Hr Hin) as [He Hf]. split; [done|].
  apply (loaded_frame fs0); [done| |by apply srv_cards].
  intros n (f & -> & Hn)%list_elem_of_fmap. by apply Hf, plan_keeps_old.
Qed.

(** After the index is saved: no step touches it or a file of the new manifest. *)
Lemma after_keeps doomed p :
  (∀ name, name ∈ doomed → deletable fs0 dir new saved name) →
  p = index_path config ∨ (∃ f, f ∈ manifest_files new ∧ p = path_join dir (filename f)) →
  p ∉ concat (targets <$> SaveManifest new dir
                :: ((λ name, Delete (path_join dir name)) <$> doomed)).
Proof.
  intros Hd Hp. rewrite fmap_cons. cbn [concat targets]. apply not_elem_of_app. split.
  - rewrite list_elem_of_singleton. destruct Hp as [->|(f & Hf & ->)].
    + unfold index_path. intros E%path_join_inj; done.
    + by apply (reserved new f).
  - intros (l & Hl & (s & -> & (name & -> & Hn)%list_elem_of_fmap)%list_elem_of_fmap)%elem_of_concat.
    apply list_elem_of_singleton in Hl. destruct Hp as [->|(f & Hf & ->)].
    + eapply deletable_apart; [by apply Hd| | |exact Hl]; [done|by left].
    + eapply deletable_apart; [by apply Hd| | |exact Hl]; [by apply (relative new)|].
      right. apply list_elem_of_fmap. by exists f.
Qed.

(** The index a state of a run shows, and what the states after it keep. *)
Lemma run_index l i j fs1 fs2 :
  run plan fs0 l → l !! i = Some fs1 → l !! j = Some fs2 → (i ≤ j)%nat →
  files fs1 !! index_path config = files fs0 !! index_path config
  ∨ ∃ fsA bytes, fsA ∈ l ∧ write fsA new dir = Some bytes
      ∧ files fs1 !! index_path config = Some bytes
      ∧ same_env fsA fs2
      ∧ ∀ n, n ∈ file_names new → files fs2 !! path_join dir n = files fsA !! path_join dir n.
Proof.
  intros Hr Hi Hj Hij. destruct plan_split as (doomed & Ep & Hd). rewrite Ep in Hr.
  assert (∀ A l' fs, run A fs0 l' → concat (targets <$> A) = concat (targets <$> before) →
            fs ∈ l' → files fs !! index_path config = files fs0 !! index_path config) as Hb.
  { intros A l' fs Hr' Ht Hin. eapply (run_frame _ _ _ _ Hr' Hin). rewrite Ht.
    apply before_keeps_index. }
  apply run_app in Hr as [Hr|(fsA & l1 & l2 & _ & HA & HB & ->)].
  { left. eapply Hb; [exact Hr|done|by eapply list_elem_of_lookup_2]. }
  assert (∀ fs, fs ∈ l1 ++ [fsA] → files fs !! index_path config = files fs0 !! index_path config)
    as HbA by (intros fs Hin; by eapply Hb).
  inversion HB as [|? ? ? fsB l3 Hs Hr3|? ? ? fsF Hf]; subst.
  - left. apply HbA. by eapply list_elem_of_lookup_2.
  - rewrite (cons_middle fsA l1 l3), (assoc_L (++)) in Hi, Hj.
    destruct (decide (i < length (l1 ++ [fsA]))%nat) as [Hlt|Hge].
    { left. apply HbA. rewrite lookup_app_l in Hi by done. by eapply list_elem_of_lookup_2. }
    rewrite lookup_app_r in Hi, Hj by lia.
    apply list_elem_of_lookup_2 in Hi, Hj.
    destruct (run_frame _ _ _ _ Hr3 Hi) as [He1 Hf1], (run_frame _ _ _ _ Hr3 Hj) as [He2 Hf2].
    pose proof (ran_frame _ _ _ Hs) as [HeB HfB].
    rewrite (Hf1 (index_path config)) by (apply after_keeps; auto).
    inversion Hs as [| | |? ? ? Hw|? ? ? buf Hw|]; subst.
    { left. apply HbA. apply elem_of_app. right. by apply list_elem_of_singleton. }
    right. exists fsA, buf. split; [apply elem_of_app; right; left|]. split; [done|].
    split; [apply lookup_insert_eq|]. split; [by etransitivity|].
    intros n (f & -> & Hin)%list_elem_of_fmap. rewrite Hf2 by (apply after_keeps; eauto).
    apply HfB. cbn [targets]. rewrite list_elem_of_singleton. by apply (reserved new f).
  - left. apply HbA. inversion Hf; subst. apply list_elem_of_lookup_2 in Hi.
    rewrite !elem_of_app, ?elem_of_cons in *. set_solver.
Qed.
End Refresh.

End Runs.

(** ** Instances *)

Section Instances.
#[local] Existing Instance demo_clubcard.
#[local] Existing Instance demo_clubcard_laws.
#[local] Existing Instance demo_tempfile.
#[local] Existing Instance demo_tempfile_laws.
#[local] Existing Instance demo_json.
#[local] Existing Instance demo_json_laws.
#[local] Existing Instance demo_hash_order.
#[local] Existing Instance demo_hash_order_laws.
#[local] Instance refresh_server : Http := demo_http demo_filters.

(** The next manifest drops the second filter. *)
Definition demo_next : Manifest := mkManifest 1 "" (take 1 (manifest_files demo_sync_manifest)).

Definition demo_next_index : list byte := default [] (write demo_index_fs demo_next demo_dir).
Definition demo_next_fs : Fs :=
  set_files <[path_join demo_dir INDEX_BIN := demo_next_index]> demo_index_fs.

Lemma demo_limits fs m :
  Forall (λ n, utf8_valid (as_bytes n) = true) (file_names m) →
  Z.of_nat (length (file_names m)) < 2 ^ 16 →
  match loaded fs demo_config m, write fs m demo_dir with
  | Some cards, Some bytes =>
      (sum_list ((λ c, length (universe c)) <$> cards) < 1000)%nat ∧ (length bytes < 1000)%nat
  | _, _ => True
  end → limits fs demo_config m.
Proof.
  intros Hu Hn Hd. split; [done|done|]. intros cards bytes Hc Hw.
  change (revocation_cache_dir demo_config) with demo_dir in Hw. rewrite Hc, Hw in Hd.
  destruct Hd as [Hs Hb]. split; [|lia]. intros id.
  pose proof (log_section_length cards id). lia.
Qed.

Lemma demo_serves : ∃ cards, serves demo_index_fs demo_config demo_sync_manifest cards.
Proof.
  destruct (write_built demo_index_fs demo_config demo_sync_manifest
              (default [] (write demo_index_fs demo_sync_manifest demo_dir))) as (cards & Hc & Hb).
  - apply demo_limits; [repeat constructor|by vm_compute|vm_compute; lia].
  - by vm_compute.
  - exists cards. split; [|done|].
    + eexists. split; [|exact Hb]. by vm_compute.
    + repeat (apply Forall_cons; split; [apply hash_file_good; by vm_compute|]). by apply Forall_nil.
Qed.

End Instances.
