(* ===== verification/History.v ===== *)
(** * A cache over many fetches

    A cache lives through many runs of [fetch], of which any may fail at any step or
    be killed.  The runs are steps of a relation on file systems; what they leave is
    proved by induction over their sequences. *)
From stdpp Require Import relations.
From S2P Require Import Prelude Bytes Sha256 Sha256Spec FileSys External Revocation Config Index Demo IndexSafe IndexSpec IndexCheck IndexWrite IndexTheorems Fetch FetchFiles FetchPlan FetchExec FetchDemo FetchTheorems FetchLive Refresh.

(** ** Names *)

(** The last component of a path, of its reversed bytes. *)
Fixpoint last_component (r : list byte) : list byte :=
  match r with
  | [] => []
  | c :: r' => if decide (c = SLASH) then [] else last_component r' ++ [c]
  end.

(** A name that [tempfile] gives a temporary, by its documentation: it starts with [.tmp]. *)
Definition is_temp (p : string) : bool :=
  bool_decide (take 4 (last_component (reverse (as_bytes p))) = as_bytes ".tmp").

Lemma last_component_app r x :
  SLASH ∉ r → x = [] ∨ (∃ y, x = SLASH :: y) → last_component (r ++ x) = reverse r.
Proof.
  intros Hr Hx. induction r as [|c r IH]; cbn [app last_component].
  { by destruct Hx as [->|[y ->]]. }
  apply not_elem_of_cons in Hr as [Hc Hr]. rewrite decide_False, IH, reverse_cons by done. done.
Qed.

Lemma last_component_join d n :
  is_absolute n = false → SLASH ∉ as_bytes n →
  last_component (reverse (as_bytes (path_join d n))) = as_bytes n.
Proof.
  intros Hr Hn. assert (∀ x, x = [] ∨ (∃ y, x = SLASH :: y) →
    last_component (reverse (as_bytes n) ++ x) = as_bytes n) as Hlast.
  { intros x Hx. rewrite last_component_app, reverse_involutive; [done|by rewrite elem_of_reverse|done]. }
  unfold path_join. rewrite Hr. destruct (reverse (as_bytes d)) as [|c r] eqn:Ed.
  { rewrite <- (app_nil_r (reverse _)). apply Hlast. by left. }
  case_bool_decide as Hc; rewrite !as_bytes_app, ?reverse_app.
  - rewrite Ed, Hc. apply Hlast. right. by eexists.
  - rewrite <- (assoc_L (++)). apply Hlast. right. by eexists.
Qed.

Lemma is_temp_join d n :
  is_absolute n = false → SLASH ∉ as_bytes n →
  is_temp (path_join d n) = bool_decide (take 4 (as_bytes n) = as_bytes ".tmp").
Proof. intros ? ?. unfold is_temp. by rewrite last_component_join. Qed.

Section History.
Context `{Http} `{JsonLaws} `{TempFileLaws} `{ClubcardLaws} `{HashOrderLaws} `{Chrono}.
Variable config : Config.
#[local] Notation dir := (revocation_cache_dir config).
#[local] Notation url := (fetch_url (revocation config)).

(** ** Attempts *)

(** The names that the cache of a manifest uses. *)
Definition cache_names (m : Manifest) : list string :=
  INDEX_BIN :: MANIFEST_JSON :: (filename <$> manifest_files m).

(** A path for a temporary file of a [fetch] of [m]: a new file beside the one that it is
    to become, named as [tempfile] documents. *)
Record temporary (m : Manifest) (fs : Fs) (tmp : string) : Prop := {
  tmp_new : files fs !! tmp = None;
  tmp_nul : no_nul (as_bytes tmp) = true;
  tmp_name : ∃ n d r, n ∈ cache_names m ∧ path_parent (path_join dir n) = Some d
               ∧ SLASH ∉ as_bytes r ∧ tmp = path_join d (".tmp" +:+ r) }.

Lemma temporary_is_temp m fs tmp : temporary m fs tmp → is_temp tmp = true.
Proof.
  intros [_ _ (n & d & r & _ & _ & Hr & ->)]. rewrite is_temp_join.
  - rewrite as_bytes_app. by vm_compute.
  - unfold is_absolute. by rewrite as_bytes_app.
  - rewrite as_bytes_app, not_elem_of_app. split; [|done]. apply (bool_decide_unpack _). by vm_compute.
Qed.

Lemma temporary_index m fs tmp : temporary m fs tmp → tmp ≠ index_path config.
Proof.
  intros Ht%temporary_is_temp ->. unfold index_path in Ht.
  rewrite is_temp_join in Ht; [done|done|]. apply (bool_decide_unpack _). by vm_compute.
Qed.

(** What a [fetch] of the manifest [m] may leave, wherever it stops: a state of the run
    of its plan, and temporaries when it was killed. *)
Inductive attempt (m : Manifest) : Fs → Fs → Prop :=
| attempt_run fs plan l fs' :
    construct fs m (ok (manifest_from_config fs config)) url dir = Ok plan →
    run plan fs l → fs' ∈ l → attempt m fs fs'
| attempt_killed fs fs' tmp data :
    attempt m fs fs' → temporary m fs' tmp → attempt m fs (set_files <[tmp := data]> fs').

(** [fetch] is an attempt at the manifest it got, or touches no file. *)
Lemma fetch_attempt debug_path dry w :
  let w' := (fetch debug_path dry config w).1 in
  w_fs w' = w_fs w
  ∨ ∃ w1 client m, fetch_manifest (url +:+ MANIFEST_JSON) w = (w1, Ok (client, m))
      ∧ attempt m (w_fs w) (w_fs w').
Proof.
  intros w'. destruct (fetch_cases debug_path dry config w)
    as [[Hf _]|(w1 & client & m & plan & (Hm & Hfs & _ & Hc) & _ & Hx & _)]; [by left|right].
  exists w1, client, m. split; [done|]. destruct (execute_all_run client plan w1) as (l & Hr & Hl).
  rewrite Hfs in Hr. eapply attempt_run; [done..|]. subst w'. rewrite Hx.
  rewrite last_lookup in Hl. by eapply list_elem_of_lookup_2.
Qed.

(** ** Generations *)

(** Every file of the manifest is there with its hash. *)
Definition holds (fs : Fs) (m : Manifest) : Prop :=
  Forall (λ f, good fs (path_join dir (filename f)) (hash f)) (manifest_files m).

(** The steps of a plan for [m]. *)
Definition plan_step (m : Manifest) (s : PlanStep) : Prop :=
  match s with
  | CreateDir p => p = dir
  | Download f u local => f ∈ manifest_files m ∧ u = url +:+ filename f
                          ∧ local = path_join dir (filename f)
  | Delete _ => True
  | SaveIndex m' d | SaveManifest m' d => m' = m ∧ d = dir
  end.

Lemma construct_steps fs m saved plan :
  construct fs m saved url dir = Ok plan → Forall (plan_step m) plan.
Proof.
  intros (doomed & -> & _)%construct_shape. rewrite !Forall_app, !Forall_fmap. split; [|split; [|split]].
  - destruct (path_exists fs dir); by repeat constructor.
  - apply Forall_forall. by intros f [_ Hf]%list_elem_of_filter.
  - by repeat constructor.
  - by apply Forall_true.
Qed.

(** *** What a server publishes *)

(** The contents of the files, by their names. *)
Variable contents : string → list byte.

(** A cache directory with the files of [m], and nothing in the way. *)
Definition shelf (m : Manifest) : Fs := {|
  files := list_to_map ((λ f, (path_join dir (filename f), contents (filename f)))
                        <$> manifest_files m);
  dirs := ∅;
  faults _ _ := None;
  read_size := id |}.

(** A manifest that may be published: its files have names as documented and contents
    that can be indexed. *)
Record publishable (m : Manifest) : Prop := {
  pub_named : well_named m;
  pub_plain : Forall (λ f, is_temp (path_join dir (filename f)) = false) (manifest_files m);
  pub_limits : limits (shelf m) config m;
  pub_indexed : is_Some (write (shelf m) m dir) }.

Lemma shelf_lookup m f :
  well_named m → f ∈ manifest_files m →
  files (shelf m) !! path_join dir (filename f) = Some (contents (filename f)).
Proof.
  intros Hm Hf. apply elem_of_list_to_map_1'.
  - intros y (g & [= E ->] & Hg)%list_elem_of_fmap. f_equal.
    apply path_join_inj in E; [done|by apply (relative m)..].
  - apply list_elem_of_fmap. by exists f.
Qed.

(** What a server sends under the name of a file, and has the hash that a published
    manifest gives, is the file: there is no second content with that hash. *)
Definition authentic (published : Manifest → Prop) : Prop := ∀ m f data,
  published m → f ∈ manifest_files m → sends (url +:+ filename f) data →
  Fips.sha256 data = hash f → data = contents (filename f).

(** So is a file of the cache that has that hash. *)
Definition genuine (published : Manifest → Prop) (fs : Fs) : Prop := ∀ m f,
  published m → f ∈ manifest_files m → good fs (path_join dir (filename f)) (hash f) →
  files fs !! path_join dir (filename f) = Some (contents (filename f)).

Lemma same_env_sym fs fs' : same_env fs fs' → same_env fs' fs.
Proof. intros []. by split. Qed.

Lemma genuine_frame published fs fs' :
  same_env fs fs' →
  (∀ m f, published m → f ∈ manifest_files m →
     files fs' !! path_join dir (filename f) = files fs !! path_join dir (filename f)
     ∨ (good fs' (path_join dir (filename f)) (hash f) →
        files fs' !! path_join dir (filename f) = Some (contents (filename f)))) →
  genuine published fs → genuine published fs'.
Proof.
  intros He Hf Hg m f Hm Hin Hgood. destruct (Hf m f Hm Hin) as [E|E]; [|by apply E].
  rewrite E. apply (Hg m f Hm Hin). eapply good_frame, Hgood; [by apply same_env_sym|done].
Qed.

Lemma loaded_ext fs fs' names :
  Forall (λ n, fs_read fs (path_join dir n) = fs_read fs' (path_join dir n)) names →
  mapM (load_card fs dir) names = mapM (load_card fs' dir) names.
Proof.
  induction 1 as [|n names Hn _ IH]; [done|]. cbn [mapM]. rewrite IH.
  assert (load_card fs dir n = load_card fs' dir n) as -> by (unfold load_card; by rewrite Hn). done.
Qed.

(** A cache that holds the files of a published manifest reads as the shelf does. *)
Lemma holds_shelf published fs m :
  publishable m → published m → genuine published fs → holds fs m →
  write fs m dir = write (shelf m) m dir ∧ loaded fs config m = loaded (shelf m) config m.
Proof.
  intros Hpub Hm Hg Hh.
  assert (Forall (λ f, fs_read fs (path_join dir (filename f))
                       = fs_read (shelf m) (path_join dir (filename f))) (manifest_files m)) as Hr.
  { unfold holds in Hh. rewrite Forall_forall in Hh |- *. intros f Hf.
    pose proof (Hh f Hf) as Hgood. pose proof (Hg m f Hm Hf Hgood) as Hd.
    destruct Hgood as [_ ? ? ?]. rewrite !(fs_read_ok _ _ (contents (filename f))); try done.
    apply shelf_lookup; [apply Hpub|done]. }
  split; [by apply write_frame|]. unfold loaded, file_names. apply loaded_ext.
  by apply Forall_fmap.
Qed.

Lemma limits_ext fs fs' m :
  write fs m dir = write fs' m dir → loaded fs config m = loaded fs' config m →
  limits fs' config m → limits fs config m.
Proof. intros Hw Hl [? ? Hd]. split; [done|done|]. intros cards bytes. rewrite Hw, Hl. apply Hd. Qed.

Section Published.
Variable published : Manifest → Prop.
Hypothesis Hpub : ∀ m, published m → publishable m.
(** A name never stands for two contents. *)
Hypothesis same_contents : ∀ m m', published m → published m' → same_names m m'.
Hypothesis Hauthentic : authentic published.
#[local] Notation genuine := (genuine published).

Lemma holds_indexed fs m :
  published m → genuine fs → holds fs m →
  limits fs config m ∧ ∃ bytes, write fs m dir = Some bytes.
Proof.
  intros Hm Hg Hh. destruct (holds_shelf _ fs m (Hpub m Hm) Hm Hg Hh) as [Hw Hl].
  split; [eapply limits_ext; [done..|by apply pub_limits, Hpub]|].
  rewrite Hw. by apply pub_indexed, Hpub.
Qed.

(** A file that a download or a save replaces. *)
Lemma insert_apart (p q : string) (d : list byte) fs :
  p ≠ q → files (set_files <[p := d]> fs) !! q = files fs !! q.
Proof. intros Hn. by apply lookup_insert_ne. Qed.

(** No step puts anything but a file's contents under its hash. *)
Lemma step_genuine m s fs fs' :
  published m → plan_step m s → ran s fs fs' ∨ failed s fs fs' → genuine fs → genuine fs'.
Proof.
  intros Hm Hs Hr. apply genuine_frame.
  { by destruct Hr as [Hr%ran_frame|Hr%failed_frame]; apply Hr. }
  intros m' g Hm' Hg. pose proof (pub_named _ (Hpub m' Hm')) as Hwn'.
  pose proof (pub_named _ (Hpub m Hm)) as Hwn. destruct (reserved config m' g Hwn' Hg) as [Hri Hrm].
  assert (∀ f u data, f ∈ manifest_files m → u = url +:+ filename f → sends u data →
            let fs' := set_files <[path_join dir (filename f) := data]> fs in
            files fs' !! path_join dir (filename g) = files fs !! path_join dir (filename g)
            ∨ (good fs' (path_join dir (filename g)) (hash g) →
               files fs' !! path_join dir (filename g) = Some (contents (filename g)))) as Hdown.
  { intros f u data Hf -> Hsent. cbn zeta.
    destruct (decide (path_join dir (filename f) = path_join dir (filename g))) as [E|Hn];
      [right|left; by apply insert_apart].
    rewrite E. intros [(d & Hd & Hh & _) _ _ _].
    apply path_join_inj in E; [|by apply (relative m)|by apply (relative m')].
    cbn in Hd |- *. rewrite lookup_insert_eq in Hd |- *. f_equal. apply (inj Some) in Hd as <-.
    rewrite <- E. apply (Hauthentic m f data Hm Hf Hsent).
    by rewrite <- Hh, <- (same_contents m m' Hm Hm' f g Hf Hg E). }
  destruct Hr as [Hr|Hr]; destruct Hr; cbn [plan_step] in Hs.
  - left. by erewrite grown_files.
  - destruct Hs as (Hf & Hu & ->). by eapply Hdown.
  - destruct (decide (p = path_join dir (filename g))) as [->|Hn]; [right|left; by apply lookup_delete_ne].
    intros [(d & Hd & _) _ _ _]. cbn in Hd. by rewrite lookup_delete_eq in Hd.
  - by left.
  - left. destruct Hs as [_ ->]. apply insert_apart. by intros E.
  - left. destruct Hs as [_ ->]. apply insert_apart. by intros E.
  - by left.
  - left. by erewrite grown_files.
  - destruct Hs as (Hf & Hu & ->). by eapply Hdown.
Qed.

Lemma run_genuine m steps fs l fs' :
  published m → Forall (plan_step m) steps → run steps fs l → fs' ∈ l → genuine fs → genuine fs'.
Proof.
  intros Hm Hs Hr. revert Hs. induction Hr as [steps fs|s steps fs fs1 l Hx _ IH|s steps fs fs1 Hx].
  - by intros _ ->%list_elem_of_singleton.
  - intros [Hs Hss]%Forall_cons [->|Hin]%elem_of_cons Hg; [done|].
    apply (IH Hss Hin). eapply step_genuine; [done..|by left|done].
  - intros [Hs _]%Forall_cons [->| ->%list_elem_of_singleton]%elem_of_cons Hg; [done|].
    eapply step_genuine; [done..|by right|done].
Qed.

Lemma attempt_genuine m fs fs' : published m → attempt m fs fs' → genuine fs → genuine fs'.
Proof.
  intros Hm. induction 1 as [fs plan l fs' Hc Hr Hin|fs fs' tmp data _ IH Ht].
  - eapply run_genuine; [done|by eapply construct_steps|done..].
  - intros Hg. eapply genuine_frame; [apply same_env_set_files| |by apply IH].
    intros m' f Hm' Hf. left. apply insert_apart. intros ->.
    apply temporary_is_temp in Ht. pose proof (pub_plain _ (Hpub m' Hm')) as Hp.
    rewrite Forall_forall in Hp. by rewrite Hp in Ht.
Qed.

(** Any state of a run: the index and the files of any old generation are untouched,
    or the cache serves the new one. *)
Lemma run_generation fs0 new saved plan l fs :
  published new → genuine fs0 →
  construct fs0 new saved url dir = Ok plan → run plan fs0 l → fs ∈ l →
  (∀ p, p ∉ concat (targets <$> plan_downloads fs0 new url dir) →
        files fs !! p = files fs0 !! p)
  ∨ ∃ cards, serves fs config new cards.
Proof.
  intros Hnew Hg0 Hc Hr Hin. pose proof (pub_named _ (Hpub new Hnew)) as Hwn.
  pose proof (construct_steps _ _ _ _ Hc) as Hsteps.
  destruct (plan_split fs0 config new saved url plan Hc) as (doomed & Ep & Hd).
  rewrite Ep in Hr, Hsteps. apply Forall_app in Hsteps as [Hsteps _]. apply run_app in Hr as [Hr|(fsA & l1 & l2 & HrA & HA & HB & ->)].
  { left. by eapply run_frame. }
  assert (∀ fs, fs ∈ l1 ++ [fsA] → ∀ p,
            p ∉ concat (targets <$> plan_downloads fs0 new url dir) →
            files fs !! p = files fs0 !! p) as HbA by (intros; by eapply run_frame).
  apply elem_of_app in Hin as [Hin|Hin]; [left; apply HbA; by apply elem_of_app; left|].
  assert (fsA ∈ l1 ++ [fsA]) as HinA by (apply elem_of_app; right; left).
  pose proof (downloads_hold _ _ _ _ _ Hwn HrA) as Hgood.
  pose proof (run_genuine _ _ _ _ _ Hnew Hsteps HA HinA Hg0) as HgA.
  inversion HB as [|? ? ? fsB l3 Hs Hr3|? ? ? fsF Hf]; subst.
  - left. apply HbA. by apply list_elem_of_singleton in Hin as ->.
  - apply elem_of_cons in Hin as [->|Hin]; [left; by apply HbA|].
    destruct (holds_indexed fsA new Hnew HgA Hgood) as (Hlim & bytes & Hw).
    inversion Hs as [| | |? ? ? Hw'|? ? ? buf Hw'|]; subst; [congruence|].
    rewrite Hw in Hw'. apply (inj Some) in Hw' as <-. right.
    destruct (write_built fsA config new bytes Hlim Hw) as (cards & Hl & Hb). exists cards.
    pose proof (run_frame _ _ _ _ Hr3 Hin) as [HeB HfB].
    assert (∀ f, f ∈ manifest_files new →
              files fs !! path_join dir (filename f) = files fsA !! path_join dir (filename f)) as Hf.
    { intros f Hf. rewrite HfB; [|eapply after_keeps; [exact Hwn|exact Hd|right; eauto]].
      cbn. apply lookup_insert_ne.
      destruct (reserved config new f Hwn Hf) as [Hi _]. by intros E. }
    assert (same_env fsA fs) as HeAB by by etransitivity; [apply same_env_set_files|exact HeB].
    split.
    + exists bytes. split; [|done].
      rewrite HfB; [|eapply after_keeps; [exact Hwn|exact Hd|by left]]. apply lookup_insert_eq.
    + eapply loaded_frame; [exact HeAB| |exact Hl]. intros n (f & -> & Hn)%list_elem_of_fmap. by apply Hf.
    + unfold holds in Hgood. rewrite Forall_forall in Hgood |- *. intros f Hn.
      eapply good_frame; [exact HeAB|by apply Hf|by apply Hgood].
  - left. apply HbA. inversion Hf; subst.
    apply elem_of_cons in Hin as [->|Hin]; [done|]. by apply list_elem_of_singleton in Hin as ->.
Qed.

(** ** What a cache answers *)

(** There is no index yet, or the cache serves a manifest that was published. *)
Definition answering (published : Manifest → Prop) (fs : Fs) : Prop :=
  files fs !! index_path config = None
  ∨ ∃ m cards, published m ∧ serves fs config m cards.

(** A generation stays while the index and its files do. *)
Lemma serves_frame fs fs' m cards :
  same_env fs fs' →
  files fs' !! index_path config = files fs !! index_path config →
  (∀ f, f ∈ manifest_files m →
        files fs' !! path_join dir (filename f) = files fs !! path_join dir (filename f)) →
  serves fs config m cards → serves fs' config m cards.
Proof.
  intros He Hi Hf [(bytes & Hb & Hbuilt) Hl Hg]. split.
  - exists bytes. by rewrite Hi.
  - eapply loaded_frame; [exact He| |exact Hl]. intros n (f & -> & Hn)%list_elem_of_fmap. by apply Hf.
  - rewrite Forall_forall in Hg |- *. intros f Hn. eapply good_frame; [exact He|by apply Hf|by apply Hg].
Qed.

(** Its index loads, and answers as its filters say. *)
Lemma serves_answers fs0 fs m cards :
  publishable m → same_env fs0 fs → readable fs0 (index_path config) →
  serves fs config m cards →
  ∃ index, from_cache fs config = Ok index
           ∧ ∀ input, (check fs input index).2 = Ok (reference_status cards input).
Proof.
  intros Hp He Hread Hs. destruct (srv_index _ _ _ _ Hs) as (bytes & Hb & Hbuilt).
  destruct (built_check fs config _ cards bytes Hbuilt) as (index & Hload & Hc); [|done| |].
  - unfold readable in *. by rewrite (env_faults _ _ He).
  - apply (lim_utf8 _ _ _ (pub_limits _ Hp)).
  - exists index. split; [done|]. intros input. apply Hc, Hs.
Qed.

Lemma attempt_env m fs fs' : attempt m fs fs' → same_env fs fs'.
Proof.
  induction 1 as [fs plan l fs' _ Hr Hin|fs fs' tmp data _ IH _].
  - by eapply run_frame.
  - etransitivity; [exact IH|apply same_env_set_files].
Qed.

(** A temporary that a killed process left does not matter. *)
Lemma temporary_answering m fs tmp data :
  temporary m fs tmp → answering published fs →
  answering published (set_files <[tmp := data]> fs).
Proof.
  intros Ht. pose proof (temporary_index _ _ _ Ht) as Hi. destruct Ht as [Hnew _ _].
  intros [Hnone|(m0 & cards & Hp & Hs)].
  - left. cbn. by rewrite lookup_insert_ne.
  - right. exists m0, cards. split; [done|]. eapply serves_frame; [apply same_env_set_files|..|exact Hs].
    + cbn. by rewrite lookup_insert_ne.
    + intros f Hfm. cbn. apply lookup_insert_ne. intros ->.
      pose proof (srv_good _ _ _ _ Hs) as Hg. rewrite Forall_forall in Hg.
      destruct (good_data _ _ _ (Hg f Hfm)) as (d & Hd & _). congruence.
Qed.

Lemma attempt_answering m fs fs' :
  published m → genuine fs → attempt m fs fs' → answering published fs → answering published fs'.
Proof.
  intros Hm Hg Ha Hans.
  induction Ha as [fs plan l fs' Hc Hr Hin|fs fs' tmp data Ha IH Htmp].
  - pose proof (run_frame _ _ _ _ Hr Hin) as [He _]. pose proof (pub_named _ (Hpub m Hm)) as Hwn.
    destruct (run_generation _ _ _ _ _ _ Hm Hg Hc Hr Hin) as [Hf|[cards Hs]];
      [|right; by exists m, cards].
    pose proof (Hf (index_path config) (before_keeps_index fs config m url Hwn)) as Hidx.
    destruct Hans as [Hnone|(m0 & cards & Hp & Hs)]; [left; by rewrite Hidx|right].
    exists m0, cards. split; [done|]. eapply serves_frame; [done|done| |exact Hs].
    intros f Hfm. apply Hf.
    apply (before_keeps_old fs config m0 m cards url Hs); [|done| |done];
      [apply (pub_named _ (Hpub m0 Hp))|by apply same_contents].
  - eapply temporary_answering; [done|by apply IH].
Qed.

(** The cache after any number of attempts at published manifests. *)
Definition fetches : relation Fs := λ fs fs', ∃ m, published m ∧ attempt m fs fs'.

Lemma fetches_env fs fs' : rtc fetches fs fs' → same_env fs fs'.
Proof.
  induction 1 as [|fs fs1 fs' (m & _ & Ha) _ IH]; [done|].
  etransitivity; [by eapply attempt_env|exact IH].
Qed.

Lemma fetches_answering fs fs' :
  genuine fs → rtc fetches fs fs' → answering published fs → answering published fs'.
Proof.
  intros Hg Hr. induction Hr as [|fs fs1 fs' (m & Hm & Ha) _ IH]; [done|]. intros Hans.
  apply IH; [by eapply attempt_genuine|by eapply attempt_answering].
Qed.


(** ** Recovery *)

(** Directories are only made, and only those that a step names. *)
Lemma step_dirs s fs fs' :
  ran s fs fs' ∨ failed s fs fs' →
  dirs fs ⊆ dirs fs'
  ∧ ∀ d, d ∈ dirs fs' → d ∈ dirs fs ∨ ∃ p, s = CreateDir p ∧ d ∈ ancestors (String.length p) p.
Proof.
  assert (∀ p fs fs', grown p fs fs' → dirs fs ⊆ dirs fs'
    ∧ ∀ d, d ∈ dirs fs' → d ∈ dirs fs ∨ ∃ q, CreateDir p = CreateDir q ∧ d ∈ ancestors (String.length q) q)
    as Hg.
  { intros p f1 f2 [_ _ _ Hm Ho]. split; [done|]. intros d [?|?]%Ho; [by left|right; by exists p]. }
  intros [[]|[]]; (by apply Hg) || (split; [done|by left]).
Qed.

Lemma run_dirs steps fs l fs' :
  run steps fs l → fs' ∈ l →
  dirs fs ⊆ dirs fs'
  ∧ ∀ d, d ∈ dirs fs' → d ∈ dirs fs ∨ ∃ p, CreateDir p ∈ steps ∧ d ∈ ancestors (String.length p) p.
Proof.
  induction 1 as [steps fs|s steps fs fs1 l Hs _ IH|s steps fs fs1 Hs].
  - intros ->%list_elem_of_singleton. by split; [|left].
  - intros [->|Hin]%elem_of_cons; [by split; [|left]|]. destruct (IH Hin) as [Hm Ho].
    destruct (step_dirs s fs fs1 (or_introl Hs)) as [Hm1 Ho1]. split; [by etransitivity|].
    intros d [[?|(p & -> & ?)]%Ho1|(p & ? & ?)]%Ho; [by left|right; exists p..]; (split; [|done]);
      [by left|by right].
  - destruct (step_dirs s fs fs1 (or_intror Hs)) as [Hm1 Ho1].
    intros [->| ->%list_elem_of_singleton]%elem_of_cons; [by split; [|left]|]. split; [done|].
    intros d [?|(p & -> & ?)]%Ho1; [by left|right]. exists p. by split; [left|].
Qed.

(** The plan of a [fetch] makes no directory but that of the cache, and what it writes
    has a name that the cache provides for. *)
Lemma plan_creates fs m saved plan p :
  construct fs m saved url dir = Ok plan → CreateDir p ∈ plan → p = dir.
Proof.
  intros (doomed & -> & _)%construct_shape. rewrite !elem_of_app.
  intros [Hp|[(f & Hf & _)%list_elem_of_fmap|[Hp|(n & Hn & _)%list_elem_of_fmap]]]; [|done| |done].
  - destruct (path_exists fs dir); [by apply elem_of_nil in Hp|].
    apply list_elem_of_singleton in Hp. by injection Hp.
  - apply elem_of_cons in Hp as [Hp|Hp%list_elem_of_singleton]; [done|done].
Qed.

Lemma attempt_dirs m fs fs' :
  attempt m fs fs' →
  dirs fs ⊆ dirs fs' ∧ ∀ d, d ∈ dirs fs' → d ∈ dirs fs ∨ d ∈ ancestors (String.length dir) dir.
Proof.
  induction 1 as [fs plan l fs' Hc Hr Hin|fs fs' tmp data _ IH _]; [|exact IH].
  destruct (run_dirs _ _ _ _ Hr Hin) as [Hm Ho]. split; [done|].
  intros d [?|(p & Hp & Ha)]%Ho; [by left|right]. by apply (plan_creates _ _ _ _ _ Hc) in Hp as ->.
Qed.

Lemma attempt_placed m fs fs' n : attempt m fs fs' → placed fs dir n → placed fs' dir n.
Proof.
  intros Ha [[Hn Hr] Hnul Hfree Hp]. split; [done..| |done].
  intros [?|Hd]%(proj2 (attempt_dirs _ _ _ Ha)); [done|]. by apply join_not_ancestor in Hd.
Qed.

(** A path that a plan writes or deletes. *)
Lemma plan_targets fs m saved plan p :
  construct fs m saved url dir = Ok plan → p ∈ concat (targets <$> plan) →
  (∃ n, n ∈ cache_names m ∧ p = path_join dir n)
  ∨ ∃ n, listed fs dir n ∧ is_filter_name n = true ∧ p = path_join dir n.
Proof.
  intros (doomed & -> & Hd & _)%construct_shape. rewrite !fmap_app, !concat_app, !elem_of_app.
  unfold cache_names. intros [Hp|[Hp|[Hp|Hp]]].
  - by destruct (path_exists fs dir); apply elem_of_nil in Hp.
  - apply elem_of_concat in Hp as (l & Hp & (s & -> & (f & -> & [_ Hf]%list_elem_of_filter)
      %list_elem_of_fmap)%list_elem_of_fmap).
    apply list_elem_of_singleton in Hp as ->. left. exists (filename f). split; [|done].
    do 2 right. apply list_elem_of_fmap. by exists f.
  - cbn in Hp. rewrite !elem_of_cons in Hp. left.
    destruct Hp as [->|[->|?%elem_of_nil]]; [exists INDEX_BIN|exists MANIFEST_JSON|done];
      (split; [|done]); [left|right; left].
  - apply elem_of_concat in Hp as (l & Hp & (s & -> & (n & -> & Hn)%list_elem_of_fmap)%list_elem_of_fmap).
    apply list_elem_of_singleton in Hp as ->. right. exists n. by destruct (Hd n Hn) as (? & ? & _).
Qed.

Lemma attempt_files m fs fs' p :
  Forall (placed fs dir) (cache_names m) → tidy fs dir → attempt m fs fs' →
  is_Some (files fs' !! p) → no_nul (as_bytes p) = true ∧ p ∉ ancestors (String.length dir) dir.
Proof.
  intros Hpl Ht Ha. rewrite Forall_forall in Hpl. revert p.
  induction Ha as [fs plan l fs' Hc Hr Hin|fs fs' tmp data Ha IH [_ Hnul Hname]]; intros p Hp.
  - destruct (run_frame _ _ _ _ Hr Hin) as [_ Hf].
    assert (∀ q, is_Some (files fs !! q) →
              no_nul (as_bytes q) = true ∧ q ∉ ancestors (String.length dir) dir) as Hold.
    { intros q Hq. split; [by apply Ht|]. intros Hqa%(creatable_way _ _ _ (tidy_dir _ _ Ht)).
      rewrite Hqa in Hq. by destruct Hq. }
    destruct (decide (p ∈ concat (targets <$> plan))) as [Hin'|Hout];
      [|apply Hold; by rewrite <- Hf].
    destruct (plan_targets _ _ _ _ _ Hc Hin') as [(n & Hn & ->)|(n & Hl & Hfn & ->)].
    + destruct (Hpl n Hn) as [[? ?] ? _ _]. split; [done|by apply join_not_ancestor].
    + apply Hold. by apply (tidy_listed _ _ _ Ht).
  - cbn in Hp. destruct (decide (tmp = p)) as [<-|Hn];
      [|rewrite lookup_insert_ne in Hp by done; by apply IH].
    split; [done|]. destruct Hname as (n & d & r & Hn & Hd & _ & ->).
    destruct (Hpl n Hn) as [_ _ _ Hpp]. rewrite Hpp in Hd. injection Hd as <-.
    apply join_not_ancestor; [done|]. unfold is_absolute. by rewrite as_bytes_app.
Qed.

Lemma attempt_tidy m fs fs' :
  Forall (placed fs dir) (cache_names m) → attempt m fs fs' → tidy fs dir → tidy fs' dir.
Proof.
  intros Hpl Ha Ht. pose proof (attempt_files m fs fs') as Hfiles.
  destruct (attempt_dirs _ _ _ Ha) as [Hm Ho]. split.
  - intros op p. rewrite (env_faults _ _ (attempt_env _ _ _ Ha)). apply Ht.
  - intros p Hp. by eapply Hfiles.
  - apply Ht.
  - destruct (tidy_dir _ _ Ht) as [Hn _ Hr]. split; [done|..].
    + intros q Hq. destruct (files fs' !! q) eqn:E; [|done].
      destruct (Hfiles q) as [_ []]; [done..|by rewrite E|done].
    + intros q Hq Hroot. destruct (Hr q Hq Hroot); [by left|right; auto].
  - intros n Hr Hn [?|Hd]%Ho; [by eapply (tidy_filters _ _ Ht)|].
    apply join_not_ancestor in Hd; [done| |done]. by intros ->.
Qed.

Lemma fetches_tidy fs fs' :
  (∀ m, published m → Forall (placed fs dir) (cache_names m)) → rtc fetches fs fs' →
  tidy fs dir →
  tidy fs' dir ∧ ∀ m, published m → Forall (placed fs' dir) (cache_names m).
Proof.
  intros Hpl Hr. induction Hr as [|fs fs1 fs' (m & Hm & Ha) _ IH]; [done|]. intros Ht.
  apply IH; [|by eapply attempt_tidy; [apply Hpl| |]].
  intros m' Hm'. eapply Forall_impl; [by apply Hpl|]. intros n. by apply (attempt_placed m).
Qed.

(** C5: Whatever fetches did before, however they failed and wherever they were killed, the
    next one repairs the cache: it succeeds and leaves the cache as the manifest says,
    once the system refuses nothing and the server has the manifest and its files, if
    nothing was in the way of the cache directory and its files at the start. *)
Theorem fetch_recovers `{!TempFileProgress} debug_path fs0 w client m mdata :
  tidy fs0 dir → (∀ m, published m → Forall (placed fs0 dir) (cache_names m)) →
  rtc fetches fs0 (w_fs w) → hashable (w_fs w) →
  published m → well_named m → serving client url m → introduce m = Ok tt →
  manifest_to_vec m = inr mdata →
  ∃ w', fetch debug_path false config w = (w', Ok Executed)
        ∧ synchronised (w_fs w) (w_fs w') dir m.
Proof.
  intros Ht Hpl Hr Hh Hm Hwn Hs Hi Hv. destruct (fetches_tidy _ _ Hpl Hr Ht) as [Ht' Hpl'].
  eapply fetch_succeeds; try done. by apply Hpl'.
Qed.
End Published.

(** ** An index that outlives its filters *)

Lemma ran_deletes_gone ps fs fs' p :
  ran_all (Delete <$> ps) fs fs' → files fs !! p = None ∨ p ∈ ps → files fs' !! p = None.
Proof.
  revert fs. induction ps as [|q ps IH]; intros fs Hr Hp.
  - inversion Hr; subst. by destruct Hp as [|?%elem_of_nil].
  - rewrite fmap_cons in Hr. inversion Hr as [|? ? ? fs1 ? Hs Hr1]; subst.
    apply (IH fs1 Hr1). inversion Hs; subst. cbn.
    destruct (decide (q = p)) as [->|Hn]; [left; apply lookup_delete_eq|].
    rewrite lookup_delete_ne by done. destruct Hp as [?|[->|?]%elem_of_cons]; [by left|done|by right].
Qed.

(** C24: A [fetch] whose filters cannot be indexed succeeds all the same: it leaves the old
    index as it is, and deletes every filter that neither manifest names, although the
    index may name it. *)
Theorem unindexed_fetch_strands_index debug_path w w' :
  fetch debug_path false config w = (w', Ok Executed) → path_exists (w_fs w) dir = true →
  ∃ w1 client m,
    fetch_manifest (url +:+ MANIFEST_JSON) w = (w1, Ok (client, m))
    ∧ (well_named m → write (w_fs w') m dir = None →
       files (w_fs w') !! index_path config = files (w_fs w) !! index_path config
       ∧ ∀ name, deletable (w_fs w) dir m (ok (manifest_from_config (w_fs w) config)) name →
                 files (w_fs w') !! path_join dir name = None).
Proof.
  intros Hf He. apply fetch_executed in Hf as (w1 & client & m & plan & (Hm & _ & _ & Hc) & Hr).
  exists w1, client, m. split; [done|]. intros Hwn Hw. split.
  - pose proof (sync_index _ _ _ _ (plan_sync _ _ _ _ _ _ _ Hwn Hc Hr)) as Hi. by rewrite Hw in Hi.
  - intros name Hn. apply construct_shape in Hc as (doomed & -> & Hd & Hall & _).
    destruct (Hall name He Hn) as (q & Hq & Hqe).
    assert (q = name) as -> by (symmetry; eapply listed_path_eqb, Hqe; [apply Hn|by apply Hd]).
    rewrite !(assoc_L (++)), (list_fmap_compose (path_join dir) Delete) in Hr.
    apply ran_all_app in Hr as (fs1 & _ & Hr). eapply ran_deletes_gone; [exact Hr|right].
    apply list_elem_of_fmap. by exists name.
Qed.
End History.

(** ** Instances *)

Lemma pair_ok_inj {A B C E} (a b : A) (c d : B) (x y : C) :
  (a, @Ok E _ (c, x)) = (b, Ok (d, y)) → x = y.
Proof. by intros [= _ _ ->]. Qed.

Section Instances.
#[local] Existing Instance demo_tempfile.
#[local] Existing Instance demo_tempfile_laws.
#[local] Existing Instance demo_tempfile_progress.
#[local] Existing Instance demo_hash_order.
#[local] Existing Instance demo_hash_order_laws.
#[local] Existing Instance demo_chrono.

Lemma demo_same : same_names demo_sync_manifest demo_sync_manifest.
Proof.
  intros f g Hf Hg. pose proof (wn_consistent _ demo_manifest_well_named) as Hc.
  rewrite Forall_forall in Hc. specialize (Hc f Hf). rewrite Forall_forall in Hc. by apply Hc.
Qed.

(** A cache where an attempt failed: a download with the wrong contents, and a kill that
    left a temporary. *)
Definition broken_fs : Fs := set_files <["/c/revocation/1.filter" := [x00]]> demo_old_fs.
Definition killed_fs : Fs := set_files <["/c/revocation/.tmpAbCdEf" := [x01; x02]]> broken_fs.

Definition demo_contents (n : string) : list byte :=
  match list_find (λ p, p.1 = n) demo_filters with Some (_, (_, d)) => d | None => [] end.

(** A server that answers some clients with a wrong byte. *)
Definition fickle_server : Http := {|
  Net := unit;
  Client := bool;
  Response := bool * string;
  client_build := inr true;
  send client url net := (net, inr (client, url));
  error_for_status := inr;
  response_bytes r net :=
    (net, if r.1 : bool then
            match list_find (λ p, fetch_url (revocation demo_config) +:+ p.1 = r.2) demo_filters with
            | Some (_, (_, b)) => inr b
            | None => inl "404"
            end
          else inr [x00]);
  response_json _ net := (net, inr demo_sync_manifest) |}.

Section Demo.
#[local] Existing Instance demo_json.
#[local] Existing Instance demo_json_laws.
#[local] Existing Instance demo_clubcard.
#[local] Existing Instance demo_clubcard_laws.
#[local] Existing Instance fickle_server.

Definition demo_published (m : Manifest) : Prop := m = demo_sync_manifest.

Lemma fickle_sends f data :
  f ∈ manifest_files demo_sync_manifest →
  sends (fetch_url (revocation demo_config) +:+ filename f) data →
  data = demo_contents (filename f) ∨ data = [x00].
Proof.
  intros Hf (client & net & net1 & net2 & net3 & r & resp & [= _ <-] & [= <-] & Hb).
  destruct client; [left|right; by injection Hb].
  assert (Forall (λ f, ∀ net, response_bytes (true, fetch_url (revocation demo_config) +:+ filename f) net
                              = (net, inr (demo_contents (filename f))))
                 (manifest_files demo_sync_manifest)) as Hall.
  { repeat (apply Forall_cons; split); [intros []; by vm_compute..|apply Forall_nil_2]. }
  rewrite Forall_forall in Hall. rewrite (Hall f Hf) in Hb. by injection Hb.
Qed.

Lemma demo_authentic : authentic demo_config demo_contents demo_published.
Proof.
  intros m f data -> Hf Hs Hh. destruct (fickle_sends f data Hf Hs) as [->| ->]; [done|exfalso].
  assert (Forall (λ f, Fips.sha256 [x00] ≠ hash f) (manifest_files demo_sync_manifest)) as Hall
    by (apply (bool_decide_unpack _); by vm_compute).
  rewrite Forall_forall in Hall. by destruct (Hall f Hf).
Qed.

Lemma demo_genuine : genuine demo_config demo_contents demo_published demo_old_fs.
Proof.
  assert (Forall (λ f, files demo_old_fs !! path_join (revocation_cache_dir demo_config) (filename f)
                       = None) (manifest_files demo_sync_manifest)) as Hall
    by (apply (bool_decide_unpack _); by vm_compute).
  rewrite Forall_forall in Hall. intros m f -> Hf [(data & Hd & _) _ _ _].
  by rewrite (Hall f Hf) in Hd.
Qed.

Lemma demo_publishable m : demo_published m → publishable demo_config demo_contents m.
Proof.
  intros ->. split.
  - apply demo_manifest_well_named.
  - apply (bool_decide_unpack _). by vm_compute.
  - apply demo_limits; [repeat constructor|by vm_compute|vm_compute; lia].
  - apply (bool_decide_unpack _). by vm_compute.
Qed.

Lemma demo_broken : attempt demo_config demo_sync_manifest demo_old_fs killed_fs.
Proof.
  apply attempt_killed.
  - eapply attempt_run; [by vm_compute|eapply run_fail, (failed_download _ _ _ _ [x00])|right; left].
    + by exists false, tt, tt, tt, tt, (false, "https://upki.rustls.dev/1.filter"),
        (false, "https://upki.rustls.dev/1.filter").
    + intros [(d & Hd & Hh & _) _ _ _]. vm_compute in Hd. injection Hd as <-. vm_compute in Hh.
      discriminate.
  - split; [by vm_compute|by vm_compute|]. exists "1.filter", demo_dir, "AbCdEf".
    split; [right; right; left|]. split; [by vm_compute|]. split; [|by vm_compute].
    apply (bool_decide_unpack _). by vm_compute.
Qed.

Definition killed_world : World := mkWorld killed_fs tt.
Definition repaired_fs : Fs := w_fs (fetch id false demo_config killed_world).1.

(** After the broken attempt, one that succeeds. *)
Lemma demo_fetches : rtc (fetches demo_config demo_published) demo_old_fs repaired_fs.
Proof.
  eapply rtc_l; [by exists demo_sync_manifest; split; [|apply demo_broken]|].
  apply rtc_once. exists demo_sync_manifest. split; [done|].
  destruct (fetch_attempt demo_config id false killed_world) as [Hf|(w1 & client & m & Hm & Ha)].
  - exfalso. apply (f_equal (λ fs, files fs !! index_path demo_config)) in Hf. vm_compute in Hf.
    discriminate.
  - assert (fetch_manifest (fetch_url (revocation demo_config) +:+ MANIFEST_JSON) killed_world
            = (killed_world, Ok (true, demo_sync_manifest))) as Hx by by_vm.
    rewrite Hx in Hm. apply pair_ok_inj in Hm as <-. exact Ha.
Qed.


Lemma fickle_serving : serving true (fetch_url (revocation demo_config)) demo_sync_manifest.
Proof.
  split; [done|intros net; by repeat eexists|].
  repeat (apply Forall_cons; split); [..|apply Forall_nil_2].
  - eexists. split; [intros net; by repeat eexists|split; [by_vm|by apply Z.leb_le]].
  - eexists. split; [intros net; by repeat eexists|split; [by_vm|by apply Z.leb_le]].
Qed.

Lemma fetch_recovers_witness :
  ∃ w', fetch id false demo_config killed_world = (w', Ok Executed)
        ∧ synchronised killed_fs (w_fs w') demo_dir demo_sync_manifest.
Proof.
  apply (fetch_recovers demo_config demo_published id demo_old_fs killed_world true
           demo_sync_manifest [x2a]).
  - apply demo_ready.
  - intros m ->. repeat (apply Forall_cons; split); [..|apply Forall_nil_2];
      (split; [by split|by_vm|by vm_compute|by_vm]).
  - apply rtc_once. exists demo_sync_manifest. split; [done|apply demo_broken].
  - change (map_Forall (λ _ d, 8 * Z.of_nat (length d) ≤ u64_max) (files killed_fs)).
    apply (bool_decide_unpack _). by vm_compute.
  - done.
  - apply demo_manifest_well_named.
  - apply fickle_serving.
  - by_vm.
  - by_vm.
Defined.
End Demo.

(** ** A server that publishes undecodable filters twice *)

(** The second and the third manifest have one file, which is empty. *)
Definition empty_manifest (n : string) : Manifest := Eval vm_compute in
  mkManifest 1 n [mkManifestFile (n +:+ ".filter") 0 (Fips.sha256 [])].
Definition manifests : list Manifest :=
  Eval vm_compute in [demo_sync_manifest; empty_manifest "b"; empty_manifest "c"].

(** The manifest that is out: the state of the network. *)
Definition moving_http : Http :=
  let body url := snd <$> list_find (λ p, fetch_url (revocation demo_config) +:+ p.1 = url)
                            (demo_filters ++ [("b.filter", []); ("c.filter", [])]) in
  {| Net := nat;
     Client := unit;
     Response := string;
     client_build := inr tt;
     send _ url net := (net, inr url);
     error_for_status := inr;
     response_bytes url net :=
       (net, match body url with Some (_, b) => inr b | None => inl "404" end);
     response_json url net :=
       (S net, match manifests !! net with Some m => inr m | None => inl "none" end) |}.

Definition listed_json : Json := {|
  manifest_from_reader data :=
    match data with
    | [b] => match manifests !! Byte.to_nat b with Some m => inr m | None => inl "syntax" end
    | _ => inl "syntax"
    end;
  manifest_to_vec m :=
    match list_find (λ m', m' = m) manifests with
    | Some (0%nat, _) => inr [x00]
    | Some (1%nat, _) => inr [x01]
    | Some (2%nat, _) => inr [x02]
    | _ => inl "unknown"
    end;
  json_io_error _ := "io"
|}.

Lemma listed_json_laws : @JsonLaws listed_json.
Proof.
  split. cbn [manifest_to_vec manifest_from_reader listed_json]. intros m data.
  destruct (list_find (λ m', m' = m) manifests) as [[i m']|] eqn:E; [|done].
  apply list_find_Some in E as (Hl & -> & _).
  destruct i as [|[|[|i]]]; intros E; try done; injection E as <-;
    by injection Hl as <-.
Qed.

Section Strand.
#[local] Existing Instance moving_http.
#[local] Existing Instance listed_json.
#[local] Existing Instance listed_json_laws.
#[local] Existing Instance demo_clubcard.

Definition strand_start : World := mkWorld demo_old_fs 0%nat.
Definition strand (w : World) : World * Result Error FetchOutcome :=
  fetch id false demo_config w.
Definition strand_1 : World := (strand strand_start).1.
Definition strand_2 : World := (strand strand_1).1.
Definition strand_3 : World := (strand strand_2).1.

(** Three fetches that succeed; the index is that of the first, its filters are gone,
    and a check of a certificate they cover fails. *)
Lemma unindexed_fetch_strands_index_witness :
  (strand strand_start).2 = Ok Executed ∧ (strand strand_1).2 = Ok Executed
  ∧ files (w_fs strand_3) !! index_path demo_config
    = files (w_fs strand_2) !! index_path demo_config
  ∧ files (w_fs strand_3) !! "/c/revocation/1.filter" = None
  ∧ (index ← from_cache (w_fs strand_3) demo_config;
     (check (w_fs strand_3) (demo_input x07 x01 15) index).2)
    = Err (FileRead NotFound (Some "/c/revocation/1.filter")).
Proof.
  split; [by_vm|]. split; [by_vm|].
  assert (fetch id false demo_config strand_2 = (strand_3, Ok Executed)) as Hf by by_vm.
  destruct (unindexed_fetch_strands_index demo_config id strand_2 strand_3 Hf)
    as (w1 & client & m & Hm & Hs); [by vm_compute|].
  assert (fetch_manifest (fetch_url (revocation demo_config) +:+ MANIFEST_JSON) strand_2
          = (mkWorld (w_fs strand_2) 3%nat, Ok (tt, empty_manifest "c"))) as Hx by by_vm.
  rewrite Hx in Hm. apply pair_ok_inj in Hm as <-.
  destruct Hs as [Hi Hd].
  - split; apply (bool_decide_unpack _); by vm_compute.
  - by_vm.
  - split; [exact Hi|]. split; [|by_vm]. apply (Hd "1.filter").
    split; [|split; [by vm_compute|split; apply (bool_decide_unpack _); by vm_compute]].
    eexists. split; [by vm_compute|]. apply (bool_decide_unpack _). by vm_compute.
Defined.
End Strand.
End Instances.
