(* ===== verification/Concurrent.v ===== *)
(** * Fetches that run at the same time

    Nothing keeps two [upki fetch] apart: a timer and a user may start them on one
    cache.  Here any number of processes synchronise it with one manifest.  Each plans
    from the files it finds and executes its plan step by step; the others' steps come
    in between, in any order, and any process may fail or be killed.  A step is atomic:
    what it writes, the code renames into place; what it reads, the files of an index,
    no longer changes when it gets there ([index_read_once]). *)
From stdpp Require Import relations.
From S2P Require Import Prelude Bytes Sha256 Sha256Spec FileSys External Revocation Config Index Demo IndexSafe IndexSpec IndexCheck IndexWrite IndexTheorems Fetch FetchFiles FetchPlan FetchExec FetchDemo FetchTheorems FetchLive Refresh History.

#[local] Instance plan_step_eq_dec : EqDecision PlanStep.
Proof. solve_decision. Defined.

Section Concurrent.
Context `{Http} `{JsonLaws} `{TempFileLaws} `{ClubcardLaws} `{HashOrderLaws} `{Chrono}.
Variables (config : Config) (new : Manifest).
#[local] Notation dir := (revocation_cache_dir config).
#[local] Notation url := (fetch_url (revocation config)).
#[local] Notation path f := (path_join dir (filename f)).

(** ** Processes *)

(** The files, and what each process has still to do. *)
Definition Processes : Type := Fs * list (list PlanStep).

Inductive concurrently : relation Processes :=
| process_starts fs ps plan :
    construct fs new (ok (manifest_from_config fs config)) url dir = Ok plan →
    concurrently (fs, ps) (fs, ps ++ [plan])
| process_steps fs ps i s rest client net w :
    ps !! i = Some (s :: rest) → execute client s (mkWorld fs net) = (w, Ok tt) →
    concurrently (fs, ps) (w_fs w, <[i := rest]> ps)
| process_fails fs ps i s rest client net w r :
    ps !! i = Some (s :: rest) → execute client s (mkWorld fs net) = (w, r) → r ≠ Ok tt →
    concurrently (fs, ps) (w_fs w, delete i ps)
| process_killed fs ps i tmp data :
    temporary config new fs tmp →
    concurrently (fs, ps) (set_files <[tmp := data]> fs, delete i ps).

(** Executing a plan is a process that runs alone. *)
Lemma execute_alone client plan w :
  ∃ ps, rtc concurrently (w_fs w, [plan]) (w_fs (execute_all client plan w).1, ps)
        ∧ ((execute_all client plan w).2 = Ok tt → ps = [[]]).
Proof.
  revert w. induction plan as [|s plan IH]; intros [fs net]; cbn [execute_all].
  { exists [[]]. done. }
  unfold mbind, eff_bind. destruct (execute client s (mkWorld fs net)) as [w1 r] eqn:E.
  destruct r as [[]|e|].
  - destruct (IH w1) as (ps & Hr & Hok). exists ps. split; [|exact Hok].
    eapply rtc_l, Hr. by eapply (process_steps fs [s :: plan] 0).
  - exists []. split; [|done]. apply rtc_once.
    by eapply (process_fails fs [s :: plan] 0).
  - exists []. split; [|done]. apply rtc_once.
    by eapply (process_fails fs [s :: plan] 0).
Qed.

(** So is [fetch], when the server sends the manifest. *)
Lemma fetch_alone debug_path dry w w1 client :
  fetch_manifest (url +:+ MANIFEST_JSON) w = (w1, Ok (client, new)) →
  ∃ ps, rtc concurrently (w_fs w, []) (w_fs (fetch debug_path dry config w).1, ps).
Proof.
  intros Hm. destruct (fetch_cases debug_path dry config w)
    as [[-> _]|(w2 & c & m & plan & (Hm' & Hfs & _ & Hc) & _ & -> & _)]; [by exists []|].
  rewrite Hm in Hm'. injection Hm' as <- <- <-.
  destruct (execute_alone client plan w1) as (ps & Hr & _). exists ps. rewrite Hfs in Hr.
  eapply rtc_l, Hr. by apply (process_starts _ []).
Qed.

(** ** The server *)

(** What a server sends for a file of the manifest, if it sends anything. *)
Definition honest (contents : string → list byte) : Prop := ∀ f data,
  f ∈ manifest_files new → sends (url +:+ filename f) data → data = contents (filename f).

Variable contents : string → list byte.
Hypothesis Hhonest : honest contents.

(** A download leaves the contents of the file, or nothing new. *)
Lemma download_honest client f fs net w r :
  f ∈ manifest_files new → execute client (download f url dir) (mkWorld fs net) = (w, r) →
  w_fs w = fs ∨ w_fs w = set_files <[path f := contents (filename f)]> fs.
Proof.
  intros Hf E. pose proof (execute_spec client (download f url dir) (mkWorld fs net)) as Hs.
  rewrite E in Hs. cbn [w_fs] in Hs. unfold download in Hs.
  destruct r as [[]|e|]; inversion Hs as [|? ? ? ? data Hsent| | | |] || inversion Hs as [|?|? ? ? ? data Hsent];
    subst; first [by left|right; by rewrite (Hhonest f data Hf Hsent)].
Qed.

(** ** What every step keeps *)

Variables (fs0 : Fs) (published : Manifest → Prop).
Hypothesis Hpub : ∀ m, published m → publishable config contents m.
Hypothesis Hnew : published new.
Hypothesis Hsame : ∀ m, published m → same_names m new.
(** A file with the hash that the manifest gives is what the server sends. *)
#[local] Notation genuine := (genuine config contents (λ m, m = new)).

Record invariant (fs : Fs) : Prop := {
  inv_env : same_env fs0 fs;
  inv_genuine : genuine fs;
  inv_answering : answering config published fs }.

(** The cache serves the new generation. *)
Definition updated (fs : Fs) : Prop := ∃ cards, serves fs config new cards.

(** The paths that the new generation needs. *)
Definition needed (p : string) : Prop :=
  p = index_path config ∨ ∃ f, f ∈ manifest_files new ∧ p = path f.
Definition harmless (steps : list PlanStep) : Prop :=
  ∀ p, needed p → p ∉ concat (targets <$> steps).

(** What is left of a plan: up to its index, and after that. *)
Definition on_course (fs : Fs) (plan : list PlanStep) : Prop :=
  (∃ pre post, plan = pre ++ SaveIndex new dir :: post
     ∧ Forall (λ s, s = CreateDir dir ∨ ∃ f, f ∈ manifest_files new ∧ s = download f url dir) pre
     ∧ harmless post
     ∧ ∀ f, f ∈ manifest_files new → good fs (path f) (hash f) ∨ download f url dir ∈ pre)
  ∨ (updated fs ∧ harmless plan).

(** A file of the new generation changes to what the server sends, if at all. *)
Definition moves (fs fs' : Fs) : Prop :=
  same_env fs fs' ∧ ∀ f, f ∈ manifest_files new →
    files fs' !! path f = files fs !! path f
    ∨ files fs' !! path f = Some (contents (filename f)).

Lemma moves_invariant fs fs' :
  invariant fs → moves fs fs' → answering config published fs' → invariant fs'.
Proof.
  intros [He Hg _] [Hm Hf] Ha. split; [by etransitivity| |done].
  eapply genuine_frame; [exact Hm| |exact Hg]. intros m f -> Hin.
  destruct (Hf f Hin); [by left|by right].
Qed.

(** So a file that is good stays as it is. *)
Lemma moves_good fs fs' f :
  invariant fs → moves fs fs' → f ∈ manifest_files new → good fs (path f) (hash f) →
  files fs' !! path f = files fs !! path f ∧ good fs' (path f) (hash f).
Proof.
  intros Hi [He Hf] Hin Hgood.
  assert (files fs' !! path f = files fs !! path f) as E.
  { destruct (Hf f Hin) as [?|E]; [done|]. by rewrite E, (inv_genuine _ Hi new). }
  split; [exact E|]. by eapply good_frame.
Qed.

(** Neither does a file of an older generation that is still served. *)
Lemma moves_answering fs fs' :
  invariant fs → moves fs fs' →
  (∀ p, ¬ needed p → files fs' !! p = files fs !! p) →
  files fs' !! index_path config = files fs !! index_path config →
  answering config published fs'.
Proof.
  intros Hi [He Hf] Ho Hx. destruct (inv_answering _ Hi) as [Hn|(m & cards & Hm & Hs)];
    [left; congruence|right].
  exists m, cards. split; [done|]. eapply serves_frame; [exact He|exact Hx| |exact Hs].
  intros f Hin. pose proof (srv_good _ _ _ _ Hs) as Hg. rewrite Forall_forall in Hg.
  pose proof (pub_named _ _ _ (Hpub m Hm)) as Hwm. pose proof (pub_named _ _ _ (Hpub new Hnew)) as Hwn.
  destruct (decide (filename f ∈ filename <$> manifest_files new)) as [(g & E & Hgn)%list_elem_of_fmap|Hout].
  - specialize (Hg f Hin). rewrite (Hsame m Hm f g Hin Hgn E), E in Hg. rewrite E.
    by apply (moves_good fs fs' g Hi).
  - apply Ho. intros [Hp|(g & Hgn & Hp)].
    + by apply (reserved config m f Hwm Hin) in Hp.
    + apply path_join_inj in Hp; [|by apply (relative m)|by apply (relative new)].
      apply Hout. rewrite Hp. apply list_elem_of_fmap. by exists g.
Qed.

Lemma moves_updated fs fs' :
  invariant fs → moves fs fs' →
  files fs' !! index_path config = files fs !! index_path config → updated fs → updated fs'.
Proof.
  intros Hi Hm Hx [cards Hs]. exists cards. eapply serves_frame; [apply Hm|done| |exact Hs].
  intros f Hin. apply (moves_good fs fs' f Hi Hm Hin).
  pose proof (srv_good _ _ _ _ Hs) as Hg. rewrite Forall_forall in Hg. by apply Hg.
Qed.

Lemma moves_on_course fs fs' plan :
  invariant fs → moves fs fs' → (updated fs → updated fs') → on_course fs plan → on_course fs' plan.
Proof.
  intros Hi Hm Hu [(pre & post & -> & Hpre & Hpost & Hf)|[Hup Hh]]; [left|right; auto].
  exists pre, post. split; [done|]. split; [done|]. split; [done|]. intros f Hin.
  destruct (Hf f Hin) as [Hg|?]; [left|by right]. by apply (moves_good fs fs').
Qed.

Lemma harmless_moves steps fs fs' :
  harmless steps → same_env fs fs' →
  (∀ p, p ∉ concat (targets <$> steps) → files fs' !! p = files fs !! p) →
  moves fs fs' ∧ files fs' !! index_path config = files fs !! index_path config.
Proof.
  intros Hh He Hf. split; [|apply Hf, Hh; by left].
  split; [done|]. intros f Hin. left. apply Hf, Hh. right. by exists f.
Qed.

(** ** Steps *)

(** Nothing changes but a file of the new generation: to what it should be. *)
Lemma moves_file fs fs' f :
  f ∈ manifest_files new →
  fs' = fs ∨ fs' = set_files <[path f := contents (filename f)]> fs →
  moves fs fs' ∧ (∀ p, ¬ needed p → files fs' !! p = files fs !! p)
  ∧ files fs' !! index_path config = files fs !! index_path config.
Proof.
  intros Hin [->| ->].
  { split; [|done]. split; [done|by left]. }
  pose proof (pub_named _ _ _ (Hpub new Hnew)) as Hwn. split; [split; [by auto with upki|]|split].
  - intros g Hg. cbn. destruct (decide (path f = path g)) as [E|Hn].
    + right. rewrite E, lookup_insert_eq. f_equal. f_equal.
      apply path_join_inj in E; [done|by apply (relative new)..].
    + left. by apply lookup_insert_ne.
  - intros p Hp. cbn. apply lookup_insert_ne. intros <-. apply Hp. right. by exists f.
  - cbn. apply lookup_insert_ne. by apply (reserved config new f Hwn Hin).
Qed.

(** A change that keeps the invariant and every process on its course. *)
Definition keeps (fs fs' : Fs) : Prop :=
  invariant fs' ∧ moves fs fs' ∧ (updated fs → updated fs').

Lemma keeps_on_course fs fs' plan :
  invariant fs → keeps fs fs' → on_course fs plan → on_course fs' plan.
Proof. intros Hi (_ & Hm & Hu). by apply moves_on_course. Qed.

Lemma moves_keeps fs fs' :
  invariant fs → moves fs fs' → (∀ p, ¬ needed p → files fs' !! p = files fs !! p) →
  files fs' !! index_path config = files fs !! index_path config → keeps fs fs'.
Proof.
  intros Hi Hm Ho Hx. split; [eapply moves_invariant; [done..|by apply (moves_answering fs)]|].
  split; [done|]. by apply moves_updated.
Qed.

Lemma unchanged_keeps fs fs' :
  invariant fs → same_env fs fs' → files fs' = files fs → keeps fs fs'.
Proof. intros Hi He E. apply moves_keeps; rewrite ?E; try done. split; [done|]. intros. by left; rewrite E. Qed.

Lemma updated_keeps fs fs' : invariant fs → moves fs fs' → updated fs' → keeps fs fs'.
Proof.
  intros Hi Hm Hu. split; [|done].
  eapply moves_invariant; [done..|]. destruct Hu as [cards Hs]. right. by exists new, cards.
Qed.

(** Before the index: a directory, a download, the index itself. *)
Lemma create_step fs client p net w r :
  invariant fs → execute client (CreateDir p) (mkWorld fs net) = (w, r) → keeps fs (w_fs w).
Proof.
  intros Hi E. pose proof (execute_spec client (CreateDir p) (mkWorld fs net)) as Hs.
  rewrite E in Hs. cbn [w_fs] in Hs.
  assert (∀ fs', grown p fs fs' → keeps fs fs') as Hg.
  { intros fs' Hg. apply unchanged_keeps; [done|by eapply grown_env|apply Hg]. }
  destruct r as [[]|e|]; inversion Hs; subst; (by apply Hg) || (by apply unchanged_keeps).
Qed.

Lemma download_step fs client f net w r :
  f ∈ manifest_files new → invariant fs →
  execute client (download f url dir) (mkWorld fs net) = (w, r) →
  keeps fs (w_fs w) ∧ (r = Ok tt → good (w_fs w) (path f) (hash f)).
Proof.
  intros Hin Hi E.
  destruct (moves_file fs (w_fs w) f Hin) as (Hm & Ho & Hx); [by eapply download_honest|].
  split; [by apply moves_keeps|]. intros ->.
  pose proof (execute_spec client (download f url dir) (mkWorld fs net)) as Hs.
  rewrite E in Hs. unfold download in Hs. by inversion Hs; subst.
Qed.

Lemma index_step fs client net w r :
  invariant fs → holds config fs new →
  execute client (SaveIndex new dir) (mkWorld fs net) = (w, r) →
  keeps fs (w_fs w) ∧ (r = Ok tt → updated (w_fs w)).
Proof.
  intros Hi Hh E. pose proof (execute_spec client (SaveIndex new dir) (mkWorld fs net)) as Hs.
  rewrite E in Hs. cbn [w_fs] in Hs. pose proof (pub_named _ _ _ (Hpub new Hnew)) as Hwn.
  destruct (holds_indexed config contents (λ m, m = new) ltac:(intros m ->; by apply Hpub)
              fs new eq_refl (inv_genuine _ Hi) Hh) as (Hlim & bytes & Hw).
  assert (failed (SaveIndex new dir) fs (w_fs w) → keeps fs (w_fs w)) as Hfail.
  { intros Hf. inversion Hf; subst. by apply unchanged_keeps. }
  destruct r as [[]|e|]; [|by split; [apply Hfail|]..].
  inversion Hs as [| | |? ? ? Hw'|? ? ? buf Hw' |]; subst; [congruence|].
  rewrite Hw in Hw'. apply (inj Some) in Hw' as <-.
  destruct (write_built fs config new bytes Hlim Hw) as (cards & Hl & Hb).
  assert (∀ f, f ∈ manifest_files new →
            <[path_join dir INDEX_BIN := bytes]> (files fs) !! path f = files fs !! path f) as Hf.
  { intros f Hin. apply lookup_insert_ne. destruct (reserved config new f Hwn Hin) as [Hx _].
    by intros Eq. }
  assert (updated (set_files <[path_join dir INDEX_BIN := bytes]> fs)) as Hu.
  { exists cards. split.
    - exists bytes. split; [apply lookup_insert_eq|done].
    - eapply loaded_frame; [apply same_env_set_files| |exact Hl].
      intros n (f & -> & Hin)%list_elem_of_fmap. by apply Hf.
    - unfold holds in Hh. rewrite Forall_forall in Hh |- *. intros f Hin.
      eapply good_frame; [apply same_env_set_files|by apply Hf|by apply Hh]. }
  split; [|done]. apply updated_keeps; [done| |done].
  split; [apply same_env_set_files|]. intros f Hin. left. by apply Hf.
Qed.

(** After it. *)
Lemma harmless_step fs client s net w r :
  invariant fs → updated fs → harmless [s] →
  execute client s (mkWorld fs net) = (w, r) → keeps fs (w_fs w) ∧ updated (w_fs w).
Proof.
  intros Hi Hu Hh E. pose proof (execute_spec client s (mkWorld fs net)) as Hs.
  rewrite E in Hs. cbn [w_fs] in Hs.
  assert (same_env fs (w_fs w) ∧ ∀ p, p ∉ targets s → files (w_fs w) !! p = files fs !! p)
    as [He Hf] by (destruct r as [[]|e|]; [by apply ran_frame|by apply failed_frame..]).
  destruct (harmless_moves [s] fs (w_fs w) Hh He) as [Hm Hx].
  { intros p. cbn [fmap list_fmap concat]. rewrite app_nil_r. apply Hf. }
  assert (updated (w_fs w)) as Hu' by by eapply moves_updated.
  split; [by apply updated_keeps|done].
Qed.

Lemma harmless_cons s steps : harmless (s :: steps) ↔ harmless [s] ∧ harmless steps.
Proof.
  unfold harmless. cbn [fmap list_fmap concat]. split.
  - intros Hh. split; intros p Hp; specialize (Hh p Hp); rewrite ?app_nil_r;
      by apply not_elem_of_app in Hh as [].
  - intros [Hs Hr] p Hp. specialize (Hs p Hp). rewrite app_nil_r in Hs.
    apply not_elem_of_app. auto.
Qed.

(** Any step of a process that is on its course. *)
Lemma course_step fs client s rest net w r :
  invariant fs → on_course fs (s :: rest) → execute client s (mkWorld fs net) = (w, r) →
  keeps fs (w_fs w) ∧ (r = Ok tt → on_course (w_fs w) rest).
Proof.
  intros Hi [(pre & post & Ep & Hpre & Hpost & Hf)|[Hu [Hs Hr]%harmless_cons]] E.
  - destruct pre as [|s' pre]; injection Ep as -> ->.
    + destruct (index_step fs client net w r Hi) as [Hk Hu]; [|done|].
      { unfold holds. apply Forall_forall. intros f Hin. by destruct (Hf f Hin) as [?|?%elem_of_nil]. }
      split; [done|]. intros Hok. right. by split; [apply Hu|].
    + apply Forall_cons in Hpre as [[->|(f & Hin & ->)] Hpre].
      * pose proof (create_step _ _ _ _ _ _ Hi E) as Hk. split; [done|]. intros _.
        eapply keeps_on_course; [done..|]. left. exists pre, post. do 3 (split; [done|]). intros g Hg.
        destruct (Hf g Hg) as [?|[?|?]%elem_of_cons]; [by left|done|by right].
      * destruct (download_step _ _ _ _ _ _ Hin Hi E) as [Hk Hgood]. split; [done|].
        intros Hok. left. exists pre, post. do 3 (split; [done|]). intros g Hg.
        destruct (Hf g Hg) as [Hgg|[[= -> _ _]|?]%elem_of_cons]; [|by left; apply Hgood|by right].
        left. by apply (moves_good fs (w_fs w) g Hi (proj1 (proj2 Hk)) Hg).
  - destruct (harmless_step fs client s net w r Hi Hu Hs E) as [Hk Hu']. split; [done|].
    intros _. by right.
Qed.

(** A plan that was just made; a temporary that a killed process left. *)
Lemma plan_on_course fs saved plan :
  construct fs new saved url dir = Ok plan → on_course fs plan.
Proof.
  intros Hc. destruct (plan_split fs config new saved url plan Hc) as (doomed & -> & Hd).
  left. eexists _, _. split; [reflexivity|]. split; [|split].
  - unfold plan_downloads. apply Forall_app. split.
    + destruct (path_exists fs dir); repeat constructor.
    + apply Forall_fmap, Forall_forall. intros f [_ Hf]%list_elem_of_filter. right. by exists f.
  - intros p Hp. eapply after_keeps; [apply (pub_named _ _ _ (Hpub new Hnew))|exact Hd|exact Hp].
  - intros f Hf. destruct (decide (stale fs dir f)) as [Hst|Hst%stale_good]; [right|by left].
    unfold plan_downloads. apply elem_of_app. right. apply list_elem_of_fmap.
    exists f. split; [done|]. by apply list_elem_of_filter.
Qed.

Lemma temporary_keeps fs tmp data :
  invariant fs → temporary config new fs tmp → keeps fs (set_files <[tmp := data]> fs).
Proof.
  intros Hi Ht.
  assert (moves fs (set_files <[tmp := data]> fs)) as Hm.
  { split; [apply same_env_set_files|]. intros f Hin. left. cbn. apply lookup_insert_ne. intros ->.
    apply temporary_is_temp in Ht. pose proof (pub_plain _ _ _ (Hpub new Hnew)) as Hp.
    rewrite Forall_forall in Hp. by rewrite Hp in Ht. }
  split; [eapply moves_invariant; [done..|]; eapply temporary_answering; [done|apply Hi]|].
  split; [done|]. apply moves_updated; [done..|]. cbn. apply lookup_insert_ne.
  by eapply temporary_index.
Qed.

#[local] Instance moves_preorder : PreOrder moves.
Proof.
  split; [by split; [|left]|]. intros f1 f2 f3 [He Hf] [He' Hf'].
  split; [by etransitivity|]. intros f Hin. destruct (Hf' f Hin) as [->|?]; [by apply Hf|by right].
Qed.

Lemma concurrently_keeps s s' :
  concurrently s s' → invariant s.1 → Forall (on_course s.1) s.2 →
  keeps s.1 s'.1 ∧ Forall (on_course s'.1) s'.2.
Proof.
  assert (∀ fs fs' ps, keeps fs fs' → invariant fs → Forall (on_course fs) ps →
            Forall (on_course fs') ps) as Hps.
  { intros fs fs' ps Hk Hi Ha. eapply Forall_impl; [exact Ha|]. intros plan. by apply keeps_on_course. }
  intros [fs ps plan Hc|fs ps i s1 rest client net w Hl E|fs ps i s1 rest client net w r Hl E _
         |fs ps i tmp data Ht] Hi Ha; cbn [fst snd] in *.
  - split; [by split|]. apply Forall_app. split; [done|]. constructor; [by eapply plan_on_course|done].
  - destruct (course_step fs client s1 rest net w (Ok tt) Hi) as [Hk Hr]; [|done|].
    { rewrite Forall_forall in Ha. apply Ha. by eapply list_elem_of_lookup_2. }
    split; [done|]. apply Forall_insert; [by eapply Hps|by apply Hr].
  - destruct (course_step fs client s1 rest net w r Hi) as [Hk _]; [|done|].
    { rewrite Forall_forall in Ha. apply Ha. by eapply list_elem_of_lookup_2. }
    split; [done|]. apply Forall_delete. by eapply Hps.
  - pose proof (temporary_keeps fs tmp data Hi Ht) as Hk.
    split; [done|]. apply Forall_delete. by eapply Hps.
Qed.

Lemma reachable s s' :
  rtc concurrently s s' → invariant s.1 → Forall (on_course s.1) s.2 →
  invariant s'.1 ∧ moves s.1 s'.1 ∧ Forall (on_course s'.1) s'.2.
Proof.
  induction 1 as [s|s s1 s' Hs _ IH]; [done|]. intros Hi Ha.
  destruct (concurrently_keeps _ _ Hs Hi Ha) as [(Hi1 & Hm & _) Ha1].
  destruct (IH Hi1 Ha1) as (Hi' & Hm' & Ha'). split; [done|]. split; [by etransitivity|done].
Qed.

(** From the moment all files are there, an index of them has the same bytes whenever
    they are read: it does not matter that a step reads them one by one. *)
Lemma index_read_once s s' :
  rtc concurrently s s' → invariant s.1 → Forall (on_course s.1) s.2 →
  holds config s.1 new → write s'.1 new dir = write s.1 new dir.
Proof.
  intros Hr Hi Ha Hh. destruct (reachable _ _ Hr Hi Ha) as (_ & Hm & _).
  apply write_frame. unfold holds in Hh. rewrite Forall_forall in Hh |- *. intros f Hin.
  eapply good_read_eq; [apply Hm| |by apply Hh]. apply (moves_good _ _ f Hi Hm Hin), Hh, Hin.
Qed.

(** A process that finished has brought the cache up to date. *)
Lemma finished_updated fs : on_course fs [] → updated fs.
Proof. intros [(pre & post & E & _)|[? _]]; [by destruct pre|done]. Qed.

End Concurrent.

(** ** Two fetches that overtake each other *)

Section Instances.
#[local] Existing Instance demo_tempfile.
#[local] Existing Instance demo_tempfile_laws.
#[local] Existing Instance demo_hash_order.
#[local] Existing Instance demo_hash_order_laws.
#[local] Existing Instance demo_chrono.
#[local] Existing Instance demo_json.
#[local] Existing Instance demo_json_laws.
#[local] Existing Instance demo_clubcard.
#[local] Existing Instance demo_clubcard_laws.
#[local] Existing Instance live_server.

(** A process starts, or the [i]-th one takes a step. *)
Definition turn (s : Processes) (i : option nat) : option Processes :=
  match i with
  | None =>
      match construct s.1 demo_sync_manifest (ok (manifest_from_config s.1 demo_config))
              (fetch_url (revocation demo_config)) (revocation_cache_dir demo_config) with
      | Ok plan => Some (s.1, s.2 ++ [plan])
      | _ => None
      end
  | Some i =>
      match s.2 !! i with
      | Some (step :: rest) =>
          match execute live_client step (mkWorld s.1 tt) with
          | (w, Ok _) => Some (w_fs w, <[i := rest]> s.2)
          | _ => None
          end
      | _ => None
      end
  end.

Lemma turn_concurrently s i s' :
  turn s i = Some s' → concurrently demo_config demo_sync_manifest s s'.
Proof.
  destruct s as [fs ps], i as [i|]; cbn [turn fst snd].
  - destruct (ps !! i) as [[|step rest]|] eqn:Hi; [done| |done].
    destruct (execute _ step _) as [w [[]|e|]] eqn:E; [|done..].
    intros [= <-]. by eapply process_steps.
  - destruct (construct _ _ _ _ _) as [plan|e|] eqn:E; [|done..]. intros [= <-].
    by apply process_starts.
Qed.

Lemma turns_concurrently l s s' :
  foldl (λ s i, s ← s; turn s i) (Some s) l = Some s' →
  rtc (concurrently demo_config demo_sync_manifest) s s'.
Proof.
  revert s. induction l as [|i l IH]; intros s; cbn [foldl mbind option_bind].
  { by intros [= <-]. }
  destruct (turn s i) as [s1|] eqn:E; [intros Hs; eapply rtc_l; [by apply (turn_concurrently s i)|by apply IH]|].
  assert (foldl (λ s i, s ← s; turn s i) None l = None) as -> by (clear; by induction l). done.
Qed.

(** The first process has downloaded one file when a second one starts, which goes all
    the way while the first one waits. *)
Definition schedule : list (option nat) :=
  [None; Some 0; None; Some 1; Some 1; Some 1; Some 1]%nat.
Definition overtaken : Processes :=
  default (demo_old_fs, [])
    (foldl (λ s i, s ← s; turn s i) (Some (demo_old_fs, [])) schedule).

Lemma overtaken_reached :
  rtc (concurrently demo_config demo_sync_manifest) (demo_old_fs, []) overtaken.
Proof.
  apply (turns_concurrently schedule). by_vm.
Qed.

Lemma demo_honest : honest demo_config demo_sync_manifest demo_contents.
Proof.
  intros f data Hf (client & net & net1 & net2 & net3 & r & resp & [= _ <-] & He & Hb).
  assert (Forall (λ f, let u := fetch_url (revocation demo_config) +:+ filename f in
                       error_for_status u = inr u
                       ∧ ∀ net, (response_bytes u net).2 = inr (demo_contents (filename f)))
                 (manifest_files demo_sync_manifest)) as Hall.
  { repeat (apply Forall_cons; split); [split; [by_vm|intros []; by_vm]..|apply Forall_nil_2]. }
  rewrite Forall_forall in Hall. destruct (Hall f Hf) as [Hu Hd].
  pose proof (eq_trans (eq_sym He) Hu) as Hx. injection Hx as ->. specialize (Hd net2).
  assert (@inr string _ data = inr (demo_contents (filename f))) as Hy
    by (rewrite <- Hd; by apply (f_equal snd) in Hb). by injection Hy.
Qed.

End Instances.
