(* ===== verification/Cli.v ===== *)
(** * [upki-cli/src/bin/upki.rs]: the command line

    [main] dispatches a parsed command to the library; its result becomes the exit
    status of the process.  Argument parsing ([clap]), PEM reading and TOML output
    are interfaces; what is printed is a list of lines. *)
From S2P Require Import Prelude Bytes FileSys External Revocation Config Index Fetch IndexSafe Demo FetchDemo IndexTheorems FetchExec FetchTheorems Ffi.

(** ** Arguments *)

Inductive Command : Type :=
| FetchCmd (dry_run : bool)
| Verify
| RevocationCheck
| ShowConfigPath
| ShowConfig.

#[export] Instance command_eq_dec : EqDecision Command.
Proof. solve_decision. Defined.

Record Args := mkArgs { command : Command; config_file : option string; verbose : bool }.

(** [Args::parse]: the arguments, or the status with which the process exits. *)
Class Clap := { parse : list string → Z + Args }.

(** [eyre::Report], by what it was made from. *)
Inductive Report : Type :=
| Filter (rendered : string)
| LibReport (err : LibError.t)
| RevocationReport (err : Error)
| Rendered (e : string)
| Wrapped (msg : string) (err : Report).

(** The status of a process whose [main] returns a [Result<ExitCode, Report>]: 1 for
    an error, 101 for a panic. *)
Definition exit_status (r : Result Report (list string * Z)) : Z :=
  match r with Ok (_, code) => code | Err _ => 1 | Panic => 101 end.

Section Main.
Context `{Http} `{Json} `{TempFile} `{Clubcard} `{HashOrder} `{Chrono}
  `{Webpki} `{Directories} `{Toml} `{Clap} (platform : Platform).
Context (env_filter : string + unit) (toml_to_string : Config → string + string)
  (display_path debug_path : string → string).

(** What [fetch] prints. *)
Definition fetch_output (o : FetchOutcome) : list string :=
  match o with DryRun lines => lines | Executed => [] end.

(** The loop over [pem_reader_iter]. *)
Fixpoint read_certs (items : list (string + list byte)) (certs : list (list byte))
  : Result Report (list (list byte)) :=
  match items with
  | [] => Ok certs
  | cert :: rest =>
      cert ← map_err (λ e, Wrapped "cannot read certificate from stdin" (Rendered e)) (of_sum cert);
      read_certs rest (certs ++ [cert])
  end.

(** [upki revocation check] *)
Definition revocation_check (fs : Fs) (config : Config) (stdin : list (string + list byte))
  : Result Report (list string * Z) :=
  certs ← read_certs stdin [];
  input ← map_err RevocationReport (from_certificates certs);
  index ← map_err RevocationReport (from_cache fs config);
  status ← map_err RevocationReport (check fs input index).2;
  let '(line, code) := to_cli status in
  Ok ([line], code).

(** [main] after [Args::parse]: the lines printed and the exit code. *)
Definition main (args : Args) (stdin : list (string + list byte))
  : Eff World Report (list string * Z) :=
  _ ← eff_lift (λ _, map_err Filter (of_sum env_filter));
  config_path ← eff_lift (λ w,
    map_err (λ e, Wrapped "cannot find configuration path" (LibReport e))
            (config_path_new platform (w_fs w) (config_file args)));
  match command args with
  | ShowConfigPath => mret ([display_path (config_path_as_ref config_path)], EXIT_SUCCESS)
  | cmd =>
      config ← eff_lift (λ w,
        map_err LibReport (from_file_or_user_default platform (w_fs w) config_path));
      match cmd with
      | FetchCmd dry_run =>
          outcome ← eff_map_err RevocationReport (fetch debug_path dry_run config);
          mret (fetch_output outcome, EXIT_SUCCESS)
      | Verify =>
          eff_lift (λ w, manifest ← map_err RevocationReport (manifest_from_config (w_fs w) config);
                         code ← map_err RevocationReport (verify (w_fs w) config manifest);
                         Ok ([], code))
      | ShowConfigPath => λ w, (w, Panic)
      | ShowConfig =>
          eff_lift (λ _, text ← map_err (λ e, Wrapped "cannot format configuration" (Rendered e))
                                        (of_sum (toml_to_string config));
                         Ok ([text], EXIT_SUCCESS))
      | RevocationCheck => eff_lift (λ w, revocation_check (w_fs w) config stdin)
      end
  end.

(** The process: the world it leaves and its exit status. *)
Definition process (argv : list string) (stdin : list (string + list byte)) (w : World)
  : World * Z :=
  match parse argv with
  | inl code => (w, code)
  | inr args => let '(w, r) := main args stdin w in (w, exit_status r)
  end.

(** ** Theorems *)

(** The configuration of a run. *)
Definition load_config (fs : Fs) (args : Args) : Result LibError.t Config :=
  path ← config_path_new platform fs (config_file args);
  from_file_or_user_default platform fs path.

(** The answer of [upki revocation check] when nothing fails. *)
Definition checked (fs : Fs) (args : Args) (stdin : list (string + list byte))
    (status : RevocationStatus) : Prop :=
  ∃ config certs input index,
    load_config fs args = Ok config ∧ stdin = inr <$> certs
    ∧ from_certificates certs = Ok input ∧ from_cache fs config = Ok index
    ∧ (check fs input index).2 = Ok status.

Lemma read_certs_ok items acc certs :
  read_certs items acc = Ok certs ↔ ∃ l, items = inr <$> l ∧ certs = acc ++ l.
Proof.
  revert acc. induction items as [|[e|c] items IH]; intros acc; cbn [read_certs].
  - split; [intros [= <-]; exists []; by rewrite app_nil_r|].
    intros ([|] & Hl & ->); [by rewrite app_nil_r|done].
  - split; [done|]. by intros ([|] & Hl & _).
  - cbn [of_sum map_err mbind result_bind]. rewrite IH. split.
    + intros (l & -> & ->). exists (c :: l). by rewrite <- (assoc_L (++)).
    + intros ([|x l] & Hl & ->); [done|]. rewrite fmap_cons in Hl. injection Hl as <- ->.
      exists l. by rewrite <- (assoc_L (++)).
Qed.

Lemma load_config_no_panic fs args : no_panic (load_config fs args).
Proof.
  unfold load_config. apply result_bind_no_panic.
  - unfold config_path_new, project_dirs. destruct (config_file args); [done|].
    destruct (project_dirs_from _ _ _); cbn; [|done]. case_match; [done|].
    destruct platform; cbn; by case_match.
  - intros path _. assert (∀ p, no_panic (from_file fs p)) as Hf.
    { intros p. unfold from_file, read_to_string. apply result_bind_no_panic;
        [apply map_err_no_panic|intros; auto with upki].
      apply result_bind_no_panic; [|intros; by case_match].
      unfold fs_read, file_open, guard_op. by repeat case_match. }
    destruct path as [p|p]; cbn [from_file_or_user_default]; [apply Hf|].
    destruct (path_exists fs p); [apply Hf|]. unfold try_default, project_dirs.
    destruct (project_dirs_from _ _ _) as [d|]; cbn; [|done].
    destruct (path_exists fs (user_cache_dir d)), platform; done.
Qed.

Lemma read_certs_err items acc :
  match read_certs items acc with
  | Ok certs => ∃ l, items = inr <$> l ∧ certs = acc ++ l
  | Err _ => ∀ l, items ≠ inr <$> l
  | Panic => False
  end.
Proof.
  destruct (read_certs items acc) as [certs|e|] eqn:E; [by apply read_certs_ok| |].
  - intros l ->. assert (read_certs (inr <$> l) acc = Ok (acc ++ l)) as E'
      by (apply read_certs_ok; eauto). congruence.
  - revert acc E. induction items as [|[x|c] items IH]; intros acc; [done..|].
    cbn [read_certs of_sum map_err mbind result_bind]. apply IH.
Qed.

Lemma inr_fmap_inj (l l' : list (list byte)) :
  inr <$> l = (inr <$> l' : list (string + list byte)) → l = l'.
Proof. apply (inj (fmap (M:=list) (@inr string (list byte)))). Qed.

Lemma checked_fun fs args stdin s s' : checked fs args stdin s → checked fs args stdin s' → s = s'.
Proof.
  intros (c & l & i & x & Hc & Hl & Hi & Hx & Hs) (c' & l' & i' & x' & Hc' & Hl' & Hi' & Hx' & Hs').
  rewrite Hc in Hc'. injection Hc' as <-. rewrite Hl in Hl'. apply inr_fmap_inj in Hl' as <-.
  rewrite Hi in Hi'. injection Hi' as <-. congruence.
Qed.

(** [revocation_check] on every outcome. *)
Lemma revocation_check_cases fs args config stdin :
  load_config fs args = Ok config →
  match revocation_check fs config stdin with
  | Ok (lines, code) => ∃ status, checked fs args stdin status
                         ∧ lines = [status_debug status] ∧ code = (to_cli status).2
  | Err _ => ∀ status, ¬ checked fs args stdin status
  | Panic => ∃ certs, stdin = inr <$> certs ∧ from_certificates certs = Panic
  end.
Proof.
  intros Hcfg. unfold revocation_check. pose proof (read_certs_err stdin []) as Hr.
  destruct (read_certs stdin []) as [certs|e|]; cbn [mbind result_bind]; [| |done].
  2: { intros s (? & l & ? & ? & _ & Hl & _). by apply (Hr l). }
  destruct Hr as (l & Hl & ->). cbn [app].
  assert (∀ status, checked fs args stdin status ↔ ∃ input index,
    from_certificates l = Ok input ∧ from_cache fs config = Ok index
    ∧ (check fs input index).2 = Ok status) as Hc.
  { intros status. split; [|intros (input & index & ?); by exists config, l, input, index].
    intros (config' & l' & input & index & Hcfg' & Hl' & Hrest). rewrite Hcfg in Hcfg'.
    injection Hcfg' as <-. assert (l' = l) as -> 
      by (rewrite Hl in Hl'; by apply (inj (fmap (M:=list) (@inr string (list byte))))).
    by exists input, index. }
  destruct (from_certificates l) as [input|e|] eqn:Hin; cbn [map_err mbind result_bind].
  2: { intros s (? & ? & [=] & _)%Hc. }
  2: { by exists l. }
  pose proof (from_cache_no_panic fs config) as Hnp.
  destruct (from_cache fs config) as [index|e|] eqn:Hi; cbn [map_err mbind result_bind]; [| |done].
  2: { intros s (? & ? & _ & [=] & _)%Hc. }
  pose proof (check_safe fs input index (from_cache_wf _ _ _ Hi)) as Hs.
  destruct (check fs input index).2 as [status|e|] eqn:Hk; cbn [map_err mbind result_bind to_cli].
  - exists status. split; [apply Hc; eauto|done].
  - intros s (input' & index' & [= <-] & [= <-] & Hk')%Hc. congruence.
  - by destruct Hs.
Qed.

(** The exit of [upki revocation check]. *)
Lemma check_exit argv args stdin w :
  parse argv = inr args → command args = RevocationCheck → env_filter = inr tt →
  let exit := (process argv stdin w).2 in
  (∃ status, checked (w_fs w) args stdin status
     ∧ exit = match status with CertainlyRevoked => 2 | _ => 0 end)
  ∨ (exit = 1 ∧ ∀ status, ¬ checked (w_fs w) args stdin status)
  ∨ (exit = 101 ∧ ∃ certs, stdin = inr <$> certs ∧ from_certificates certs = Panic).
Proof.
  intros Hp Hcmd Henv. unfold process. rewrite Hp. unfold main. rewrite Henv, Hcmd.
  unfold mbind, eff_bind, eff_lift. cbn [of_sum map_err].
  pose proof (load_config_no_panic (w_fs w) args) as Hnp.
  destruct (load_config (w_fs w) args) as [config|e|] eqn:Hcfg; [| |done].
  - pose proof Hcfg as Hl. unfold load_config in Hl. apply result_bind_ok in Hl as (path & -> & Hpath).
    cbn [map_err]. rewrite Hpath. cbn [map_err].
    pose proof (revocation_check_cases _ _ _ stdin Hcfg) as Hc.
    destruct (revocation_check (w_fs w) config stdin) as [[lines code]|e|]; cbn [exit_status snd].
    + destruct Hc as (status & Hc & _ & ->). left. exists status. split; [done|by destruct status].
    + right. by left.
    + right. by right.
  - right. left. split; [|intros s (c & ? & ? & ? & Hc & _); congruence].
    unfold load_config in Hcfg.
    destruct (config_path_new _ _ _) as [path|e'|]; cbn [map_err mbind result_bind] in *; [|done..].
    by rewrite Hcfg.
Qed.

Lemma verify_code fs config m code : verify fs config m = Ok code → code = EXIT_SUCCESS.
Proof.
  unfold verify. intros (? & _ & (plan & _ & Hv)%result_bind_ok)%result_bind_ok.
  by destruct (download_bytes plan); simplify_eq.
Qed.

(** The commands other than a check: they exit with 0, 1 or 101. *)
Lemma main_other args stdin w :
  command args ≠ RevocationCheck → exit_status (main args stdin w).2 ∈ [0; 1; 101].
Proof.
  intros Hcmd. assert (∀ r : Result Report (list string * Z),
    (∀ lines code, r = Ok (lines, code) → code = EXIT_SUCCESS) → exit_status r ∈ [0; 1; 101]) as Hr.
  { intros [[lines code]| |] Hok; cbn [exit_status]; [rewrite (Hok _ _ eq_refl)|..]; set_solver. }
  apply Hr. clear Hr. intros lines code. unfold main, mbind, eff_bind, eff_lift.
  destruct (map_err _ _); [|done..]. destruct (map_err _ _) as [path| |]; [|done..].
  destruct (command args) eqn:E; [..|by intros [= _ <-]|];
    (destruct (map_err _ _) as [config| |]; [|done..]).
  - unfold eff_map_err. destruct (fetch _ _ _ _) as [w' [o|e|]]; [|done..]. by intros [= _ <-].
  - cbn [snd]. intros (m & _ & (c & Hv & [= _ <-])%result_bind_ok)%result_bind_ok.
    apply map_err_ok in Hv. by eapply verify_code.
  - done.
  - cbn [snd]. by intros (t & _ & [= _ <-])%result_bind_ok.
Qed.

(** C38: Whatever the command, only two things make the process exit with status 2: a
    check that says the certificate is revoked, and [clap] choosing that status. *)
Theorem exit_two_iff argv stdin w :
  (process argv stdin w).2 = 2
  ↔ parse argv = inl 2
    ∨ ∃ args, parse argv = inr args ∧ env_filter = inr tt
        ∧ command args = RevocationCheck ∧ checked (w_fs w) args stdin CertainlyRevoked.
Proof.
  destruct (parse argv) as [code|args] eqn:Hp.
  { unfold process. rewrite Hp. cbn [snd]. split; [intros ->; by left|].
    by intros [[= ->]|(? & [=] & _)]. }
  destruct (decide (command args = RevocationCheck)) as [Hcmd|Hcmd].
  2: { split; [|intros [[=]|(? & [= <-] & _ & ? & _)]; done].
       pose proof (main_other args stdin w Hcmd) as Hm. unfold process. rewrite Hp.
       destruct (main args stdin w) as [w' r]. cbn [snd] in *. intros E. rewrite E in Hm. set_solver. }
  destruct env_filter as [e|[]] eqn:Henv.
  { unfold process. rewrite Hp. unfold main. rewrite Henv. split; [done|].
    by intros [[=]|(? & _ & [=] & _)]. }
  pose proof (check_exit argv args stdin w Hp Hcmd Henv) as Hx. cbv zeta in Hx.
  set (code := (process argv stdin w).2) in *. split.
  - intros E. right. exists args. do 3 (split; [done|]).
    destruct Hx as [(status & Hs & Hc)|[[Hc _]|[Hc _]]]; [|congruence..].
    rewrite E in Hc. by destruct status.
  - intros [[=]|(? & [= <-] & _ & _ & Hs)]. destruct Hx as [(status & Hs' & Hc)|[[_ Hn]|(_ & l & Hl & Hpan)]].
    + by rewrite (checked_fun _ _ _ _ _ Hs' Hs) in Hc.
    + by apply Hn in Hs.
    + destruct Hs as (? & l' & input & ? & _ & Hl' & Hi & _). rewrite Hl in Hl'.
      apply inr_fmap_inj in Hl' as ->. congruence.
Qed.

(** Only [fetch] touches anything, and with [--dry-run] no file. *)
Theorem process_frame argv stdin w :
  let w' := (process argv stdin w).1 in
  w' = w ∨ ∃ args dry_run, parse argv = inr args ∧ command args = FetchCmd dry_run
           ∧ (dry_run = true → w_fs w' = w_fs w).
Proof.
  unfold process. destruct (parse argv) as [code|args] eqn:Hp; [by left|].
  unfold main, mbind, eff_bind, eff_lift.
  destruct (map_err _ _); [|by left..]. destruct (map_err _ _) as [path| |]; [|by left..].
  destruct (command args) as [dry_run| | | |] eqn:E; [..|by left|];
    (destruct (map_err _ _) as [config| |]; [|by left..]); [|by left..].
  right. exists args, dry_run. do 2 (split; [done|]). intros ->. unfold eff_map_err.
  pose proof (fetch_cases debug_path true config w) as [[Hf _]|(? & ? & ? & ? & _ & [=] & _)].
  by destruct (fetch debug_path true config w) as [w' [o|e|]].
Qed.

(** The command and the C interface agree on a chain: one exits with 2 exactly when the
    other answers that the chain is revoked, with 0 exactly when it answers that it is
    not revoked or not covered, and panics exactly when the other catches a panic. *)
Theorem cli_ffi_agree fs config (certs : list (list byte)) :
  let cli := exit_status (revocation_check fs config (inr <$> certs)) in
  let ffi := catch_unwind (check_certificates fs config certs) in
  (cli = 2 ↔ ffi = UPKI_REVOCATION_REVOKED)
  ∧ (cli = 0 ↔ ffi = UPKI_REVOCATION_NOT_REVOKED ∨ ffi = UPKI_REVOCATION_NOT_COVERED)
  ∧ (cli = 101 ↔ ffi = UPKI_ERR_PANICKED).
Proof.
  unfold revocation_check, check_certificates.
  assert (read_certs (inr <$> certs) [] = Ok certs) as -> by (apply read_certs_ok; by exists certs).
  assert (∀ e, from_error e ≠ UPKI_REVOCATION_REVOKED ∧ from_error e ≠ UPKI_REVOCATION_NOT_REVOKED
               ∧ from_error e ≠ UPKI_REVOCATION_NOT_COVERED ∧ from_error e ≠ UPKI_ERR_PANICKED) as He
    by by intros [| | | | |[]].
  cbn [mbind result_bind].
  destruct (from_certificates certs) as [input|e|]; cbn [map_err mbind result_bind exit_status catch_unwind].
  2: { destruct (He (LibError.Revocation e)). intuition congruence. }
  2: { cbn. intuition congruence. }
  destruct (from_cache fs config) as [index|e|]; cbn [map_err mbind result_bind exit_status catch_unwind].
  2: { destruct (He (LibError.Revocation e)). intuition congruence. }
  2: { cbn. intuition congruence. }
  destruct (check fs input index).2 as [[]|e|]; cbn [map_err mbind result_bind to_cli exit_status catch_unwind].
  4: { destruct (He (LibError.Revocation e)). intuition congruence. }
  all: cbn; unfold EXIT_SUCCESS, EXIT_CODE_REVOCATION_REVOKED; intuition congruence.
Qed.

(** [upki revocation check] exits as documented: 0 when the certificate is not
    revoked or nothing is known of it, 2 when the check says it is revoked, 1 when
    an error prevented the check; it panics only if a hash input is too long. *)
Theorem check_exit_status argv args stdin w :
  parse argv = inr args → command args = RevocationCheck → env_filter = inr tt →
  let exit := (process argv stdin w).2 in
  (∃ status, checked (w_fs w) args stdin status
     ∧ exit = match status with CertainlyRevoked => 2 | _ => 0 end)
  ∨ (exit = 1 ∧ ∀ status, ¬ checked (w_fs w) args stdin status)
  ∨ (exit = 101 ∧ ∃ certs, stdin = inr <$> certs ∧ from_certificates certs = Panic).
Proof. apply check_exit. Qed.
End Main.

(** ** Instances *)

Section Instances.
#[local] Existing Instance demo_clubcard.
#[local] Existing Instance demo_directories.
#[local] Existing Instance demo_toml.
#[local] Existing Instance demo_tempfile.
#[local] Existing Instance demo_json.
#[local] Existing Instance demo_hash_order.
#[local] Existing Instance demo_chrono.

Definition demo_cli_http : Http := demo_http [].
#[local] Existing Instance demo_cli_http.

(** A certificate of four bytes, all with one SCT. *)
Definition demo_cli_webpki : Webpki := {|
  EndEntityCert := list byte;
  TrustAnchor := list byte;
  end_entity_try_from := inr;
  ee_issuer l := slice l 1 2;
  ee_serial l := slice l 2 3;
  ee_sct_log_timestamps _ := inr [inr (demo_log x01, 17)];
  anchor_from_trusted_cert := inr;
  ta_subject l := slice l 0 1;
  spki_for_anchor l := slice l 3 4
|}.
#[local] Existing Instance demo_cli_webpki.

(** Every command line is [upki --config-file /cfg revocation check]. *)
Definition demo_args : Args := mkArgs RevocationCheck (Some "/cfg") false.
Definition demo_clap : Clap := {| parse _ := inr demo_args |}.
#[local] Existing Instance demo_clap.

Definition demo_cli_world : World :=
  mkWorld (set_files <["/cfg" := as_bytes "/c"]> demo_index_fs) tt.

Definition demo_stdin : list (string + list byte) :=
  [inr [x01; x02; x07; x04]; inr [x02; x00; x00; x09]].

Definition demo_process : World * Z :=
  process Unix (inr tt) (λ _, inr "") id id [] demo_stdin demo_cli_world.

Lemma check_exit_status_witness :
  demo_process.2 = 2
  ∧ ∃ status, checked Unix (w_fs demo_cli_world) demo_args demo_stdin status
      ∧ demo_process.2 = match status with CertainlyRevoked => 2 | _ => 0 end.
Proof.
  assert (demo_process.2 = 2) as E by by_vm. split; [exact E|].
  pose proof (check_exit_status Unix (inr tt) (λ _, inr "") id id [] demo_args demo_stdin
                demo_cli_world) as Hx.
  destruct (Hx eq_refl eq_refl eq_refl) as [Hs|[[Hc _]|[Hc _]]].
  - exact Hs.
  - exfalso. unfold demo_process in E. rewrite E in Hc. discriminate.
  - exfalso. unfold demo_process in E. rewrite E in Hc. discriminate.
Defined.
End Instances.
