(* ===== verification/System.v ===== *)
(** * The system as a whole

    Its programs one after the other: what [mozilla-crlite] publishes is what [fetch]
    puts into the cache, and what [upki fetch] leaves is what
    [upki revocation check] answers from. *)
From S2P Require Import Prelude Bytes Sha256 Sha256Spec FileSys External Revocation Config Index Demo IndexSafe IndexSpec IndexCheck IndexWrite IndexTheorems Fetch FetchFiles FetchPlan FetchExec FetchDemo FetchTheorems FetchLive Refresh History Mirror Cli.

(** ** From the mirror to the cache *)

Section Published.
(** The network of the mirror, and that of a client. *)
Context (mozilla web : Http) `{Digest} `{JsonText} `{JsonLaws} `{TempFileLaws}
  `{!TempFileProgress} `{Clubcard} `{HashOrderLaws} `{Chrono}.
#[local] Existing Instance web.

(** A web server with the files of a directory at [url]: it answers with their bytes, and
    a manifest that was written there is read as what it was. *)
Record hosts (fs : Fs) (output_dir : string) (client : Client) (url : string) : Prop := {
  hosts_client : client_build = inr client;
  hosts_file name data :
    is_absolute name = false → files fs !! path_join output_dir name = Some data →
    answers client (url +:+ name) data;
  hosts_manifest m text :
    manifest_to_string m = inr text →
    files fs !! path_join output_dir MANIFEST_JSON = Some (as_bytes text) →
    ∀ net, ∃ net1 r resp net2,
      send client (url +:+ MANIFEST_JSON) net = (net1, inr r)
      ∧ error_for_status r = inr resp ∧ response_json resp net1 = (net2, inr m) }.

Context (status_failure : Response (Http := mozilla) → option string)
  (response_records : Response (Http := mozilla) → Net (Http := mozilla) →
                      Net (Http := mozilla) * (string + list Crlite.Item))
  (io_message : IoError → string) (debug_item : Crlite.Item → string)
  (debug_str debug_path : string → string).

(** What the names of the records must be for a client: those of a manifest that the
    cache can hold. *)
Record proper_names (fs : Fs) (config : Config) (m : Manifest) : Prop := {
  pn_relative : Forall (λ f, is_absolute (filename f) = false) (manifest_files m);
  pn_distinct : NoDup (INDEX_BIN :: MANIFEST_JSON :: (filename <$> manifest_files m));
  pn_placed : Forall (placed fs (revocation_cache_dir config)) (cache_names m) }.

Lemma nodup_filename (l : list ManifestFile) f g :
  NoDup (filename <$> l) → f ∈ l → g ∈ l → filename f = filename g → f = g.
Proof.
  induction l as [|x l IH]; [by intros _ ?%elem_of_nil|]. rewrite fmap_cons.
  intros [Hx Hnd]%NoDup_cons [->|Hf]%elem_of_cons [->|Hg]%elem_of_cons E; [done| | |by apply IH].
  - destruct Hx. rewrite E. apply list_elem_of_fmap. by exists g.
  - destruct Hx. rewrite <- E. apply list_elem_of_fmap. by exists f.
Qed.

Lemma proper_well_named fs config m : proper_names fs config m → well_named m.
Proof.
  intros [Hr Hd _]. apply NoDup_cons in Hd as [Hi [Hm Hd]%NoDup_cons]. split; [done|..].
  - apply Forall_forall. intros f Hf. apply Forall_forall. intros g Hg E.
    by rewrite (nodup_filename _ f g Hd Hf Hg E).
  - apply Forall_forall. intros f Hf.
    split; intros E; [apply Hi; right|apply Hm]; rewrite <- E; apply list_elem_of_fmap; by exists f.
Qed.

(** C10: What the mirror publishes reaches the clients: when a run of [mozilla-crlite]
    succeeded and a web server has its output directory, a [fetch] from there succeeds
    and leaves the cache with the filters of the walk over Mozilla's records, under the
    hashes that the records have. *)
Theorem published_is_fetched output_dir comment now wm wm' client config w mdata :
  let url := fetch_url (revocation config) in
  let dir := revocation_cache_dir config in
  Crlite.main (H := mozilla) status_failure response_records io_message debug_item debug_str
    debug_path output_dir comment now wm = Some (wm', Ok tt) →
  (∀ data, sha256_digest data = Fips.sha256 data) →
  hosts (w_fs (H := mozilla) wm') output_dir client url →
  ready (w_fs w) dir →
  ∃ clientM wm1 data plan,
    Crlite.get_records (H := mozilla) status_failure response_records clientM wm = (wm1, Ok data)
    ∧ Crlite.download_plan data = Some plan
    ∧ let m := mkManifest now comment (Crlite.entries plan) in
      (proper_names (w_fs w) config m →
       Forall (λ f, 8 * size f ≤ u64_max) (manifest_files m) →
       introduce m = Ok tt → manifest_to_vec m = inr mdata →
       ∃ w', fetch debug_path false config w = (w', Ok Executed)
             ∧ synchronised (w_fs w) (w_fs w') dir m).
Proof.
  intros url dir Hmain Hsha Hhost Hready.
  apply Crlite.crlite_publishes in Hmain as (clientM & wm1 & data & plan & Hg & Hp & Hpub).
  exists clientM, wm1, data, plan. do 2 (split; [done|]). intros m Hpn Hsizes Hi Hv.
  destruct (Hpub (pn_relative _ _ _ Hpn)) as (Hfiles & (text & Ht & Hman) & _).
  { pose proof (pn_distinct _ _ _ Hpn) as Hd. by apply NoDup_cons in Hd as [_ Hd]. }
  eapply (fetch_succeeds debug_path config w client m mdata); [|done|done|done|apply Hpn|].
  - split; [apply Hhost|by eapply (hosts_manifest _ _ _ _ Hhost)|].
    pose proof (pn_relative _ _ _ Hpn) as Hrel. rewrite Forall_forall in Hfiles, Hrel, Hsizes |- *.
    intros f Hf. destruct (Hfiles f Hf) as (d & Hd & Hh & Hs). exists d.
    split; [by eapply hosts_file; [exact Hhost|apply Hrel|]|].
    split; [by rewrite <- Hsha|]. rewrite Hs. by apply Hsizes.
  - by eapply proper_well_named.
Qed.
End Published.

(** ** From one command to the next *)

Section Commands.
Context `{Http} `{JsonLaws} `{TempFileLaws} `{ClubcardLaws} `{HashOrderLaws} `{Chrono}
  `{Webpki} `{Directories} `{Toml} `{Clap} (platform : Platform).
Context (toml_to_string : Config → string + string) (display_path debug_path : string → string).
#[local] Notation process := (process platform (inr tt) toml_to_string display_path debug_path).
#[local] Notation load_config := (load_config platform).

(** The world after [fetch], given the configuration. *)
Lemma process_fetch argv args stdin w :
  parse argv = inr args → command args = FetchCmd false → (process argv stdin w).2 = 0 →
  ∃ config, load_config (w_fs w) args = Ok config
    ∧ fetch debug_path false config w = ((process argv stdin w).1, Ok Executed).
Proof.
  intros Hp Hc. unfold Cli.process. rewrite Hp. unfold main. rewrite Hc.
  unfold mbind, eff_bind, eff_lift. cbn [of_sum map_err]. unfold Cli.load_config.
  destruct (config_path_new _ _ _) as [path|e|]; cbn [map_err mbind result_bind]; [|done..].
  destruct (from_file_or_user_default _ _ _) as [config|e|]; cbn [map_err]; [|done..].
  unfold eff_map_err. intros Hx. exists config. split; [done|].
  pose proof (fetch_cases debug_path false config w) as Hf.
  destruct (fetch debug_path false config w) as [w' [o|e|]] eqn:E; cbn [map_err] in *; [|done..].
  destruct o as [lines|]; [|done]. exfalso.
  revert E. unfold fetch, mbind, eff_bind, eff_lift.
  destruct (fetch_manifest _ _) as [w1 [[client m]|e|]]; [|done..].
  destruct (introduce m) as [[]|e|]; [|done..].
  destruct (construct _ _ _ _ _) as [plan|e|]; [|done..].
  by destruct (execute_all _ _ _) as [w2 [[]|e|]].
Qed.

(** The other commands, given the configuration. *)
Lemma process_verify argv args stdin w config m :
  parse argv = inr args → command args = Verify → load_config (w_fs w) args = Ok config →
  manifest_from_config (w_fs w) config = Ok m → verify (w_fs w) config m = Ok EXIT_SUCCESS →
  (process argv stdin w).2 = 0.
Proof.
  intros Hp Hc Hl Hm Hv. unfold Cli.process. rewrite Hp. unfold main. rewrite Hc.
  unfold mbind, eff_bind, eff_lift. cbn [of_sum map_err]. unfold Cli.load_config in Hl.
  apply result_bind_ok in Hl as (path & -> & Hf). cbn [map_err]. rewrite Hf. cbn [map_err].
  rewrite Hm. cbn [map_err mbind result_bind]. by rewrite Hv.
Qed.

Lemma manifest_read_back fs config m data :
  readable fs (path_join (revocation_cache_dir config) MANIFEST_JSON) →
  files fs !! path_join (revocation_cache_dir config) MANIFEST_JSON = Some data →
  manifest_to_vec m = inr data → manifest_from_config fs config = Ok m.
Proof.
  intros (Hn & Ho & Hr & _) Hf Hv. unfold manifest_from_config.
  rewrite (file_open_ok _ _ data) by done. cbn [map_err mbind result_bind].
  rewrite (handle_fault_ok _ _ _ Hf), Hr. by rewrite (manifest_roundtrip _ _ Hv).
Qed.

(** A cache with all its files, in a directory that can be listed, is accepted. *)
Lemma verify_accepts_good fs config m names :
  let dir := revocation_cache_dir config in
  Forall (λ f, good fs (path_join dir (filename f)) (hash f)) (manifest_files m) →
  introduce m = Ok tt → path_exists fs dir = true → read_dir fs dir = Ok (Ok <$> names) →
  verify fs config m = Ok EXIT_SUCCESS.
Proof.
  intros dir Hg Hi He Hr. assert (∃ plan, construct fs m None "https://.../" dir = Ok plan)
    as [plan Hc].
  { unfold construct. rewrite He, Hr. cbn [map_err mbind result_bind].
    destruct (collect_unwanted_ok names []) as [s ->]. cbn [mbind result_bind].
    destruct (plan_files_ok fs "https://.../" dir (manifest_files m) [] s) as [[r1 r2] ->]; [|by eexists].
    intros f Hf. rewrite Forall_forall in Hg. pose proof (Hg f Hf) as Hgf.
    apply hash_file_good in Hgf. by rewrite Hgf. }
  unfold verify. fold dir. rewrite Hi, Hc. cbn [mbind result_bind].
  rewrite (download_bytes_plan _ _ _ _ _ _ Hc). unfold outdated_bytes. by rewrite (no_stale _ _ _ Hg).
Qed.

(** C8: After [upki fetch] exited with 0, and if the filters just fetched can be indexed
    and fit the format, [upki revocation check] with the same configuration exits as they
    say: 2 when one that covers the certificate has it as revoked, and else 0.  If they
    cannot be indexed, the index is the one from before the [fetch], whose exit status
    does not tell.  In any case [upki verify] exits with 0, if the directory can be
    listed. *)
Theorem fetch_then_exit argv argv' args args' stdin stdin' w :
  let w1 := (process argv stdin w).1 in
  parse argv = inr args → command args = FetchCmd false → (process argv stdin w).2 = 0 →
  parse argv' = inr args' → load_config (w_fs w1) args' = load_config (w_fs w) args →
  ∃ config w0 client m,
    load_config (w_fs w) args = Ok config
    ∧ fetch_manifest (fetch_url (revocation config) +:+ MANIFEST_JSON) w = (w0, Ok (client, m))
    ∧ (well_named m → command args' = RevocationCheck →
       is_Some (write (w_fs w1) m (revocation_cache_dir config)) →
       limits (w_fs w1) config m → readable (w_fs w1) (index_path config) →
       ∃ cards, loaded (w_fs w1) config m = Some cards
         ∧ ∀ certs input, stdin' = inr <$> certs → from_certificates certs = Ok input →
             (process argv' stdin' w1).2
             = match reference_status cards input with CertainlyRevoked => 2 | _ => 0 end)
    ∧ (well_named m → write (w_fs w1) m (revocation_cache_dir config) = None →
       files (w_fs w1) !! index_path config = files (w_fs w) !! index_path config)
    ∧ (well_named m → command args' = Verify →
       readable (w_fs w1) (path_join (revocation_cache_dir config) MANIFEST_JSON) →
       path_exists (w_fs w1) (revocation_cache_dir config) = true →
       (∃ names, read_dir (w_fs w1) (revocation_cache_dir config) = Ok (Ok <$> names)) →
       (process argv' stdin' w1).2 = 0).
Proof.
  intros w1 Hp Hc Hx Hp' Hl. destruct (process_fetch _ _ _ _ Hp Hc Hx) as (config & Hcfg & Hf).
  fold w1 in Hf. apply fetch_executed in Hf as (w0 & client & m & plan & (Hm & _ & Hi & Hcon) & Hr).
  exists config, w0, client, m. do 2 (split; [done|]).
  assert (well_named m → synchronised (w_fs w) (w_fs w1) (revocation_cache_dir config) m) as Hsync
    by (intros Hwn; by eapply plan_sync).
  rewrite Hcfg in Hl. split; [|split].
  - intros Hwn Hcmd [bytes Hw] Hlim Hread. pose proof (sync_index _ _ _ _ (Hsync Hwn)) as Hidx.
    rewrite Hw in Hidx. destruct (write_built _ _ _ _ Hlim Hw) as (cards & Hcards & Hb).
    exists cards. split; [done|]. intros certs input Hstdin Hin.
    destruct (built_check _ _ _ _ _ Hb Hread Hidx (lim_utf8 _ _ _ Hlim)) as (index & Hload & Hcheck).
    assert (checked platform (w_fs w1) args' stdin' (reference_status cards input)) as Hchk.
    { exists config, certs, input, index. do 4 (split; [done|]). by apply Hcheck. }
    pose proof (check_exit platform (inr tt) toml_to_string display_path debug_path argv' args' stdin' w1
                  Hp' Hcmd eq_refl) as [(s & Hs & ->)|[[_ Hn]|(_ & certs' & Hst & Hpanic)]].
    + by rewrite (checked_fun _ _ _ _ _ _ Hs Hchk).
    + by apply Hn in Hchk.
    + rewrite Hstdin in Hst. apply inr_fmap_inj in Hst as <-. congruence.
  - intros Hwn Hw. pose proof (sync_index _ _ _ _ (Hsync Hwn)) as Hidx. by rewrite Hw in Hidx.
  - intros Hwn Hcmd Hread He [names Hrd]. destruct (Hsync Hwn) as [Hg (data & Hv & Hd) _].
    eapply process_verify; [done..| |].
    + by eapply manifest_read_back.
    + by eapply verify_accepts_good.
Qed.
End Commands.

(** ** Instances *)

Section Instances.
#[local] Existing Instance demo_tempfile.
#[local] Existing Instance demo_tempfile_laws.
#[local] Existing Instance demo_tempfile_progress.
#[local] Existing Instance demo_hash_order.
#[local] Existing Instance demo_hash_order_laws.
#[local] Existing Instance demo_chrono.
#[local] Existing Instance demo_json.
#[local] Existing Instance demo_json_laws.
#[local] Existing Instance demo_clubcard.
#[local] Existing Instance demo_clubcard_laws.

Section Shell.
#[local] Existing Instance live_server.
#[local] Existing Instance demo_cli_webpki.
#[local] Existing Instance demo_directories.

(** Every configuration file is that of the demo cache. *)
Definition shell_toml : Toml := {| toml_from_str _ := inr demo_config |}.
#[local] Existing Instance shell_toml.

(** [upki fetch], and every other line a check. *)
Definition fetch_args : Args := mkArgs (FetchCmd false) (Some "/cfg") false.
Definition shell_clap : Clap :=
  {| parse argv := inr (if bool_decide (argv = ["fetch"]) then fetch_args else demo_args) |}.
#[local] Existing Instance shell_clap.

Definition shell_world : World := mkWorld (set_files <["/cfg" := []]> demo_old_fs) tt.
Definition shell (argv : list string) (stdin : list (string + list byte)) (w : World) : World * Z :=
  process Unix (inr tt) (λ _, inr "") id id argv stdin w.
Definition shell_fetched : World := (shell ["fetch"] [] shell_world).1.

Lemma fetch_then_exit_witness :
  (shell ["fetch"] [] shell_world).2 = 0
  ∧ (shell ["check"] demo_stdin shell_fetched).2 = 2
  ∧ ∃ cards input, (shell ["check"] demo_stdin shell_fetched).2
      = match reference_status cards input with CertainlyRevoked => 2 | _ => 0 end.
Proof.
  split; [by_vm|]. split; [by_vm|].
  destruct (fetch_then_exit Unix (λ _, inr "") id id ["fetch"] ["check"] fetch_args demo_args []
              demo_stdin shell_world)
    as (config & w0 & client & m & Hcfg & Hm & Hcheck & _).
  - by_vm.
  - reflexivity.
  - by_vm.
  - by_vm.
  - by_vm.
  - assert (load_config Unix (w_fs shell_world) fetch_args = Ok demo_config) as Hx by by_vm.
    rewrite Hx in Hcfg. injection Hcfg as <-.
    assert (fetch_manifest (fetch_url (revocation demo_config) +:+ MANIFEST_JSON) shell_world
            = (shell_world, Ok (live_client, demo_sync_manifest))) as Hy by by_vm.
    rewrite Hy in Hm. apply pair_ok_inj in Hm as <-.
    destruct Hcheck as (cards & _ & Hc).
    + apply demo_manifest_well_named.
    + reflexivity.
    + apply (bool_decide_unpack _). by vm_compute.
    + apply demo_limits; [repeat constructor|by vm_compute|vm_compute; lia].
    + by repeat split.
    + exists cards.
      destruct (from_certificates [[x01; x02; x07; x04]; [x02; x00; x00; x09]]) as [input|e|] eqn:Hin;
        [|exfalso; vm_compute in Hin; discriminate..].
      exists input. apply (Hc [[x01; x02; x07; x04]; [x02; x00; x00; x09]] input); [reflexivity|exact Hin].
Defined.
End Shell.

(** ** A mirror, a web server and a client *)

(** Mozilla's server of [MirrorDemo], which answers with two bytes of the URL. *)
Definition fips_digest : Digest := {| sha256_digest := Fips.sha256 |}.

Definition web_item (name : string) (parent : option string) : Crlite.Item :=
  Crlite.mkItem (Crlite.mkAttachment (Fips.sha256 (take 2 (reverse (as_bytes name)))) 2 name name)
                Crlite.Default name (bool_decide (parent ≠ None)) parent.
Definition web_records : list Crlite.Item :=
  Eval vm_compute in [web_item "xb" (Some "xa"); web_item "xa" None].
Definition web_manifest : Manifest := Eval vm_compute in
  mkManifest 7 "comment" (Crlite.entries (default [] (Crlite.download_plan web_records))).

Definition web_text : JsonText :=
  {| manifest_to_string m := if decide (m = web_manifest) then inr "*" else inl "unknown" |}.

Definition mirrored : option (World (H := MirrorDemo.demo_http) * Result Mirror.Report unit) :=
  Crlite.main (H := MirrorDemo.demo_http) (H0 := fips_digest) (H1 := web_text) (λ _, None)
    (λ _ net, (net, inr web_records)) (λ _, "io") Crlite.item_id id id "/out" "comment" 7
    MirrorDemo.demo_world.
Definition mirror_after : World (H := MirrorDemo.demo_http) :=
  match mirrored with Some (w, _) => w | None => MirrorDemo.demo_world end.

(** The path of a URL under the server's. *)
Definition web_url : string := fetch_url (revocation demo_config).
Definition url_path (url : string) : option string :=
  String.string_of_list_byte <$> strip_prefix (as_bytes web_url) (as_bytes url).

Lemma strip_prefix_refl l r : strip_prefix l (l ++ r) = Some r.
Proof. induction l as [|x l IH]; [done|]. cbn. by rewrite decide_True. Qed.

Lemma url_path_join name : url_path (web_url +:+ name) = Some name.
Proof.
  unfold url_path. rewrite as_bytes_app, strip_prefix_refl. cbn. f_equal. apply string_of_as_bytes.
Qed.

(** A server of the mirror's output directory. *)
Definition web_server : Http := {|
  Net := unit;
  Client := unit;
  Response := string;
  client_build := inr tt;
  send _ url net := (net, inr url);
  error_for_status := inr;
  response_bytes url net :=
    (net, match name ← url_path url;
                files (w_fs (H := MirrorDemo.demo_http) mirror_after) !! path_join "/out" name with
          | Some data => inr data
          | None => inl "404"
          end);
  response_json url net := (net, inr web_manifest)
|}.

Definition web_json : Json := {|
  manifest_from_reader data := if decide (data = [x2a]) then inr web_manifest else inl "syntax";
  manifest_to_vec m := if decide (m = web_manifest) then inr [x2a] else inl "unknown";
  json_io_error _ := "io"
|}.
Lemma web_json_laws : @JsonLaws web_json.
Proof. split. cbn. intros m data. case_decide as Hm; [|done]. subst m. by intros [= <-]. Qed.

Section Web.
#[local] Existing Instance web_server.
#[local] Existing Instance web_json.
#[local] Existing Instance web_json_laws.
#[local] Existing Instance web_text.
#[local] Existing Instance fips_digest.

Lemma web_hosts :
  hosts web_server (w_fs (H := MirrorDemo.demo_http) mirror_after) "/out" (tt : Client) web_url.
Proof.
  split; [done|..].
  - intros name data _ Hd net. eexists _, _, _, _. split; [reflexivity|]. split; [reflexivity|].
    cbn [response_bytes web_server]. rewrite url_path_join. cbn [mbind option_bind]. by rewrite Hd.
  - intros m text Hm _ net. cbn in Hm. case_decide as E; [|done]. subst m. by eexists _, _, _, _.
Qed.

Definition web_world : World := mkWorld demo_old_fs tt.

Lemma published_is_fetched_witness :
  ∃ w', fetch id false demo_config web_world = (w', Ok Executed)
        ∧ synchronised demo_old_fs (w_fs w') demo_dir web_manifest.
Proof.
  assert (mirrored = Some (mirror_after, Ok tt)) as Hrun by by_vm.
  destruct (published_is_fetched MirrorDemo.demo_http web_server (λ _, None)
              (λ _ net, (net, inr web_records)) (λ _, "io") Crlite.item_id id id "/out" "comment" 7
              MirrorDemo.demo_world mirror_after tt demo_config web_world [x2a] Hrun)
    as (clientM & wm1 & data & plan & Hg & Hp & Hfetch).
  - reflexivity.
  - apply web_hosts.
  - apply demo_ready.
  - assert (data = web_records) as -> by (destruct clientM; by injection Hg as _ <-).
    vm_compute in Hp. injection Hp as <-.
    apply Hfetch.
    + split.
      * apply (bool_decide_unpack _). by vm_compute.
      * apply (bool_decide_unpack _). by vm_compute.
      * repeat (apply Forall_cons; split); [..|apply Forall_nil_2];
          (split; [by split|by_vm|by vm_compute|by_vm]).
    + apply (bool_decide_unpack _). by vm_compute.
    + by_vm.
    + by_vm.
Defined.
End Web.
End Instances.
