(* ===== verification/Integration.v ===== *)
(** * The integration tests of the command

    [upki-cli/tests/integration.rs] runs the command on the files under
    [tests/data], against a web server of its own, and compares the exit code, the
    output, the server's log and the directory with what it expects.  Here the same
    runs are evaluated on the model: the crates are stood in for by tables of the
    very texts that the tests use.  The filters of the tests are not filters, so no
    index can be built from them. *)
From stdpp Require Import pretty sorting.
From S2P Require Import Prelude Bytes Sha256 FileSys External Revocation Config Index Demo Fetch FetchDemo Cli.

(** ** Texts *)

(** A text in which ' stands for the double quote. *)
Fixpoint dq (s : string) : string :=
  match s with
  | EmptyString => EmptyString
  | String c s =>
      String (if bool_decide (c = ascii_of_nat 39) then ascii_of_nat 34 else c) (dq s)
  end.
Definition quoted (s : string) : string := dq "'" +:+ s +:+ dq "'".

(** Hexadecimal digits. *)
Definition unhex_digit (c : ascii) : nat :=
  let n := nat_of_ascii c in if (n <? 58)%nat then n - 48 else n - 87.
Fixpoint unhex (s : string) : list byte :=
  match s with
  | String a (String b s) =>
      byte_of (Z.of_nat (unhex_digit a * 16 + unhex_digit b)) :: unhex s
  | _ => []
  end.

(** ** [tests/data] *)

Definition filter1 : list byte := as_bytes "hello world".
Definition filter2 : list byte := as_bytes "second item :)".
Definition filter3 : list byte := as_bytes "third item".
Definition filter4 : list byte := as_bytes "new".

Definition file1 : ManifestFile := mkManifestFile "filter1.filter" 11
  (unhex "b94d27b9934d3e08a52e52d7da7dabfac484efe37a5380ee9088f7ace2efcde9").
Definition file2 : ManifestFile := mkManifestFile "filter2.delta" 14
  (unhex "3f8657575e33180cd1f0976836c0604d1c154c5401b2f8ff7987879f16b14492").
Definition file3 : ManifestFile := mkManifestFile "filter3.delta" 10
  (unhex "91db9aeaa71dcdce8b94c793a2c0028513ae55ced477ababa097b702fe3daacc").
Definition file4 : ManifestFile := mkManifestFile "filter4.delta" 14
  (unhex "11507a0e2f5e69d5dfa40a62a1bd7b6ee57e6bcd85c67c9b8431b36fff21c437").

Definition empty_text : string := dq "{
  'generated_at': 1765445031,
  'comment': 'empty manifest',
  'files': []
}
".
Definition typical_text : string := dq "{
  'generated_at': 1765445031,
  'comment': 'typical test manifest',
  'files': [
    {
      'filename': 'filter1.filter',
      'size': 11,
      'hash': 'b94d27b9934d3e08a52e52d7da7dabfac484efe37a5380ee9088f7ace2efcde9'
    },
    {
      'filename': 'filter2.delta',
      'size': 14,
      'hash': '3f8657575e33180cd1f0976836c0604d1c154c5401b2f8ff7987879f16b14492'
    },
    {
      'filename': 'filter3.delta',
      'size': 10,
      'hash': '91db9aeaa71dcdce8b94c793a2c0028513ae55ced477ababa097b702fe3daacc'
    }
  ]
}
".
Definition evolution_text : string := dq "{
  'generated_at': 1765446031,
  'comment': 'evolution from typical test manifest',
  'files': [
    {
      'filename': 'filter1.filter',
      'size': 11,
      'hash': 'b94d27b9934d3e08a52e52d7da7dabfac484efe37a5380ee9088f7ace2efcde9'
    },
    {
      'filename': 'filter3.delta',
      'size': 10,
      'hash': '91db9aeaa71dcdce8b94c793a2c0028513ae55ced477ababa097b702fe3daacc'
    },
    {
      'filename': 'filter4.delta',
      'size': 14,
      'hash': '11507a0e2f5e69d5dfa40a62a1bd7b6ee57e6bcd85c67c9b8431b36fff21c437'
    }
  ]
}
".

(** The manifests, with their texts and a mark for what [serde_json] writes. *)
Definition manifest_table : list (string * string * Manifest) := Eval vm_compute in
  [ (empty_text, "empty", mkManifest 1765445031 "empty manifest" []);
    (typical_text, "typical",
     mkManifest 1765445031 "typical test manifest" [file1; file2; file3]);
    (evolution_text, "evolution",
     mkManifest 1765446031 "evolution from typical test manifest" [file1; file3; file4]) ].

Definition empty_data : list (string * list byte) := [("manifest.json", as_bytes empty_text)].
Definition typical_data : list (string * list byte) :=
  [ ("manifest.json", as_bytes typical_text); ("filter1.filter", filter1);
    ("filter2.delta", filter2); ("filter3.delta", filter3) ].
Definition evolution_data : list (string * list byte) :=
  [ ("manifest.json", as_bytes evolution_text); ("filter1.filter", filter1);
    ("filter3.delta", filter3); ("filter4.delta", filter4) ].

Definition unknown_fields_toml : string := dq "cache_dir = 'tests/data/config_unknown_fields/'

[revocation]
cache-dir = 'tests/data/config_unknown_fields/'
fetch-url = ''
".
Definition non_existent_dir_toml : string := dq "cache-dir = 'not-exist/'

[revocation]
fetch-url = ''
".
Definition empty_manifest_toml : string := dq "cache-dir = 'tests/data/verify_of_empty_manifest/'

[revocation]
fetch-url = ''
".

(** ** The crates *)

Definition table_json : Json := {|
  manifest_from_reader data :=
    match list_find (λ '(text, mark, _), data = as_bytes text ∨ data = as_bytes mark)
                    manifest_table with
    | Some (_, (_, m)) => inr m
    | None => inl "expected value"
    end;
  manifest_to_vec m :=
    match list_find (λ '(_, _, m'), m' = m) manifest_table with
    | Some (_, (_, mark, _)) => inr (as_bytes mark)
    | None => inl "unknown"
    end;
  json_io_error _ := "io"
|}.

(** None of the tests' filters decodes. *)
Definition no_clubcard : Clubcard := {|
  CRLiteClubcard := Empty_set;
  CRLiteKey := unit;
  with_hash _ _ _ := tt;
  from_bytes _ := inl "not a filter";
  universe c := match c with end;
  contains c _ _ := match c with end;
  log_id_cmp := bytes_cmp
|}.

(** [write_config]: the configuration of a temporary directory. *)
Definition config_text (temp fetch_url : string) : string :=
  dq "cache-dir='" +:+ temp +:+ dq "'
[revocation]
fetch-url='" +:+ fetch_url +:+ dq "'
".

Definition TEMPDIR : string := "/tmp/upki".
Definition SERVER : string := "http://127.0.0.1:[PORT]/".

(** [toml]: the configurations of the tests, and an error for an unknown field. *)
Definition table_toml : Toml := {|
  toml_from_str s :=
    if bool_decide (s = config_text TEMPDIR SERVER)
    then inr (mkConfig TEMPDIR (mkRevocationConfig SERVER))
    else if bool_decide (s = non_existent_dir_toml)
    then inr (mkConfig "not-exist/" (mkRevocationConfig ""))
    else if bool_decide (s = empty_manifest_toml)
    then inr (mkConfig "tests/data/verify_of_empty_manifest/" (mkRevocationConfig ""))
    else if bool_decide (s = unknown_fields_toml)
    then inl "unknown field `cache_dir`, expected `cache-dir` or `revocation`"
    else inl "TOML parse error"
|}.
Definition toml_text (c : Config) : string + string :=
  inr ("cache-dir = " +:+ quoted (cache_dir c) +:+ "

[revocation]
fetch-url = " +:+ quoted (fetch_url (revocation c)) +:+ "
").

(** [clap] on the command lines of the tests. *)
Definition tests_clap : Clap := {|
  parse argv :=
    match argv with
    | ["--version"] => inl 0
    | "--config-file" :: path :: argv =>
        match argv with
        | ["show-config"] => inr (mkArgs ShowConfig (Some path) false)
        | ["show-config-path"] => inr (mkArgs ShowConfigPath (Some path) false)
        | ["verify"] => inr (mkArgs Verify (Some path) false)
        | ["fetch"] => inr (mkArgs (FetchCmd false) (Some path) false)
        | ["fetch"; "--dry-run"] => inr (mkArgs (FetchCmd true) (Some path) false)
        | _ => inl 2
        end
    | _ => inl 2
    end
|}.

(** ** The tests' web server *)

(** A response: its status and its body. *)
Record Reply := mkReply { status : Z; body : list byte }.

(** The path of a URL of the server, with its slash. *)
Definition request_url (url : string) : string :=
  match strip_prefix (as_bytes SERVER) (as_bytes url) with
  | Some path => "/" +:+ String.string_of_list_byte path
  | None => url
  end.

(** [TestHttpServer]: it answers with the files under its root, and logs each request. *)
Definition answer (root : list (string * list byte)) (url : string) : Reply :=
  match list_find (λ f, "/" +:+ f.1 = request_url url) root with
  | Some (_, (_, data)) => mkReply 200 data
  | None => mkReply 404 (as_bytes "No such file or directory (os error 2)")
  end.
Definition reason (status : Z) : string := if status =? 200 then "OK" else "Not Found".
Definition log_line (url : string) (r : Reply) : string :=
  "GET " +:+ request_url url +:+ "  ->  " +:+ pretty (status r) +:+ " " +:+ reason (status r)
  +:+ " (" +:+ pretty (Z.of_nat (length (body r))) +:+ " bytes)".

Definition http_server (root : list (string * list byte)) : Http := {|
  Net := list string;
  Client := unit;
  Response := Reply;
  client_build := inr tt;
  send _ url log := let r := answer root url in (log ++ [log_line url r], inr r);
  error_for_status r := if status r =? 200 then inr r else inl "status client error";
  response_bytes r log := (log, inr (body r));
  response_json r log := (log, @manifest_from_reader table_json (body r))
|}.

(** ** Running the command *)

Section Run.
#[local] Existing Instance table_json.
#[local] Existing Instance no_clubcard.
#[local] Existing Instance table_toml.
#[local] Existing Instance tests_clap.
#[local] Existing Instance demo_tempfile.
#[local] Existing Instance demo_hash_order.
#[local] Existing Instance demo_chrono.
#[local] Existing Instance demo_webpki.
#[local] Existing Instance demo_directories.

(** What a test sees of a run: the exit code, what is printed, and the error and its
    first cause, with the log of the server. *)
Record Seen := mkSeen
  { exit_code : Z; stdout : list string; stderr : list string; log : list string }.

Definition io_text (e : IoError) : string :=
  match e with NotFound => "No such file or directory (os error 2)" | _ => "other" end.
Definition cause_text (d : option DynError) : list string :=
  match d with
  | Some (DynExt text) => [text]
  | Some (DynIo e) => [io_text e]
  | _ => []
  end.
Definition report_text (r : Report) : list string :=
  match r with
  | RevocationReport e => error_display quoted e :: cause_text (error_source e)
  | LibReport e =>
      LibError.display id e
      :: match LibError.source e with Some (inl d) => cause_text (Some d) | _ => [] end
  | _ => ["other"]
  end.

(** [upki()] with the server of [root]. *)
Definition upki (root : list (string * list byte)) (argv : list string) (fs : Fs) : Fs * Seen :=
  match parse argv with
  | inl code => (fs, mkSeen code [] [] [])
  | inr args =>
      let '(w, r) := @main (http_server root) _ _ _ _ _ _ _ _ Unix (inr tt) toml_text id quoted args []
                           (@mkWorld (http_server root) fs []) in
      (w_fs w, mkSeen (exit_status r)
                 match r with Ok (lines, _) => lines | _ => [] end
                 match r with Err e => report_text e | _ => [] end (w_net w))
  end.
End Run.

(** ** The tests *)

(** Without a server. *)
Definition upki_alone (argv : list string) (fs : Fs) : Seen := (upki [] argv fs).2.
Definition seen_ok (lines : list string) : Seen := mkSeen 0 lines [] [].
Definition seen_log (log : list string) : Seen := mkSeen 0 [] [] log.

(** A file system with some files, in directories of which all are named. *)
Definition tree (ds : list string) (fs : list (string * list byte)) : Fs :=
  mkFs (list_to_map fs) (list_to_set ds) (λ _ _, None) (λ n, n).

(** The crate's directory. *)
Definition crate_fs : Fs :=
  tree ["tests"; "tests/data"; "tests/data/verify_of_empty_manifest";
        "tests/data/verify_of_empty_manifest/revocation"]
    [("tests/data/config_unknown_fields/config.toml", as_bytes unknown_fields_toml);
     ("tests/data/verify_non_existent_dir/config.toml", as_bytes non_existent_dir_toml);
     ("tests/data/verify_of_empty_manifest/config.toml", as_bytes empty_manifest_toml);
     ("tests/data/verify_of_empty_manifest/revocation/manifest.json", as_bytes empty_text)].

(** [temp_dir_and_config], and files copied into the cache. *)
Definition config_file : string := TEMPDIR +:+ "/config.toml".
Definition revocation_dir : string := TEMPDIR +:+ "/revocation".
Definition temp_dir_and_config (copied : list (string * list byte)) : Fs :=
  tree ["/"; "/tmp"; TEMPDIR; revocation_dir]
    ((config_file, as_bytes (config_text TEMPDIR SERVER))
     :: ((λ '(n, data), (path_join revocation_dir n, data)) <$> copied)).

(** [list_dir]: the names, sorted. *)
Definition list_dir (fs : Fs) (path : string) : list string :=
  match read_dir fs path with
  | Ok iter => merge_sort String.leb (omap (λ r, match r with Ok n => Some n | _ => None end) iter)
  | _ => []
  end.

(** [clap] prints the version. *)
Definition version : Prop := exit_code (upki_alone ["--version"] crate_fs) = 0.

Definition config_unknown_fields : Prop :=
  upki_alone ["--config-file"; "tests/data/config_unknown_fields/config.toml"; "show-config"] crate_fs
  = mkSeen 1 [] ["failed to parse config file at tests/data/config_unknown_fields/config.toml";
                 "unknown field `cache_dir`, expected `cache-dir` or `revocation`"] [].

Definition show_config_path_fixpoint : Prop :=
  upki_alone ["--config-file"; "/home/example/not-exist/yo.txt"; "show-config-path"] crate_fs
  = seen_ok ["/home/example/not-exist/yo.txt"].

Definition show_config_fixpoint : Prop :=
  upki_alone ["--config-file"; "tests/data/verify_non_existent_dir/config.toml"; "show-config"] crate_fs
  = seen_ok [dq "cache-dir = 'not-exist/'

[revocation]
fetch-url = ''
"].

Definition verify_of_non_existent_dir : Prop :=
  upki_alone ["--config-file"; "tests/data/verify_non_existent_dir/config.toml"; "verify"] crate_fs
  = mkSeen 1 [] [dq "cannot read file 'not-exist/revocation/manifest.json'";
                 "No such file or directory (os error 2)"] [].

Definition verify_of_empty_manifest : Prop :=
  upki_alone ["--config-file"; "tests/data/verify_of_empty_manifest/config.toml"; "verify"] crate_fs
  = seen_ok [].

(** [upki fetch] in the temporary directory. *)
Definition fetch_from (root : list (string * list byte)) (fs : Fs) : Fs * Seen :=
  upki root ["--config-file"; config_file; "fetch"] fs.

Definition fetch_of_empty_manifest : Prop :=
  let '(fs, seen) := fetch_from empty_data (temp_dir_and_config []) in
  seen = seen_log ["GET /manifest.json  ->  200 OK (79 bytes)"]
  ∧ list_dir fs revocation_dir = ["index.bin"; "manifest.json"].

Definition typical_log : list string :=
  ["GET /manifest.json  ->  200 OK (530 bytes)"; "GET /filter1.filter  ->  200 OK (11 bytes)";
   "GET /filter2.delta  ->  200 OK (14 bytes)"; "GET /filter3.delta  ->  200 OK (10 bytes)"].
Definition typical_names : list string :=
  ["filter1.filter"; "filter2.delta"; "filter3.delta"; "manifest.json"].

Definition full_fetch : Prop :=
  let '(fs, seen) := fetch_from typical_data (temp_dir_and_config []) in
  seen = seen_log typical_log ∧ list_dir fs revocation_dir = typical_names.

(** The server goes from "typical" to "evolution"; the filter that is no longer named
    outlives one fetch, and not the next. *)
Definition full_fetch_and_incremental_update : Prop :=
  let '(fs1, seen1) := fetch_from typical_data (temp_dir_and_config []) in
  let '(fs2, seen2) := fetch_from evolution_data fs1 in
  let '(fs3, seen3) := fetch_from evolution_data fs2 in
  seen1 = seen_log typical_log ∧ list_dir fs1 revocation_dir = typical_names
  ∧ seen2 = seen_log ["GET /manifest.json  ->  200 OK (545 bytes)";
                      "GET /filter4.delta  ->  200 OK (3 bytes)"]
  ∧ list_dir fs2 revocation_dir
    = ["filter1.filter"; "filter2.delta"; "filter3.delta"; "filter4.delta"; "manifest.json"]
  ∧ seen3 = seen_log ["GET /manifest.json  ->  200 OK (545 bytes)"]
  ∧ list_dir fs3 revocation_dir
    = ["filter1.filter"; "filter3.delta"; "filter4.delta"; "manifest.json"].

(** A cache that lacks one filter. *)
Definition partial : Fs :=
  temp_dir_and_config
    [("manifest.json", as_bytes typical_text); ("filter1.filter", filter1); ("filter3.delta", filter3)].

Definition typical_incremental_fetch : Prop :=
  let '(fs, seen) := fetch_from typical_data partial in
  seen = seen_log ["GET /manifest.json  ->  200 OK (530 bytes)";
                   "GET /filter2.delta  ->  200 OK (14 bytes)"]
  ∧ list_dir fs TEMPDIR = ["config.toml"; "revocation"]
  ∧ list_dir fs revocation_dir = typical_names.

Definition typical_incremental_fetch_dry_run : Prop :=
  let '(fs, seen) := upki typical_data ["--config-file"; config_file; "fetch"; "--dry-run"] partial in
  seen = mkSeen 0 ["3 steps required (14 bytes to download)";
                   dq "- download 14 bytes from http://127.0.0.1:[PORT]/filter2.delta to '/tmp/upki/revocation/filter2.delta'";
                   dq "- build index from filters into '/tmp/upki/revocation'";
                   dq "- save new manifest into '/tmp/upki/revocation'"] []
                  ["GET /manifest.json  ->  200 OK (530 bytes)"]
  ∧ list_dir fs TEMPDIR = ["config.toml"; "revocation"]
  ∧ list_dir fs revocation_dir = ["filter1.filter"; "filter3.delta"; "manifest.json"].

(** The command does on the tests' files what its integration tests expect: exit codes,
    output, error messages, requests to the server and the files left in the cache. *)
Theorem integration_tests_pass :
  version ∧ config_unknown_fields ∧ show_config_path_fixpoint ∧ show_config_fixpoint
  ∧ verify_of_non_existent_dir ∧ verify_of_empty_manifest ∧ fetch_of_empty_manifest
  ∧ full_fetch ∧ full_fetch_and_incremental_update ∧ typical_incremental_fetch
  ∧ typical_incremental_fetch_dry_run.
Proof. split_and!; vm_compute; by split_and?. Qed.
