(* ===== verification/Agreement.v ===== *)
(** * The four ways in agree

    [revoke-test/tests/system_tests.rs] checks a chain with the command, the C
    interface, the OpenSSL callback and the rustls verifier, and asserts that they
    say the same.  Here that is proved for every chain, file system and index. *)
From S2P Require Import Prelude Bytes Sha256 Sha256Spec FileSys External Revocation Config Index Demo IndexSafe IndexTheorems Fetch FetchDemo Ffi OpenSsl RustlsUpki Cli.

(** A hash does not depend on the type of errors around it. *)
Lemma finish_any {E1 E2} c d : finish (E := E1) c = Ok d → finish (E := E2) c = Ok d.
Proof.
  unfold finish. destruct (Prelude.checked usize_max _ ≫= _) as [bytes|]; cbn [or_panic mbind result_bind]; [|done].
  destruct (Prelude.checked usize_max (bytes * 8)) as [bits|]; cbn [or_panic mbind result_bind]; [|done].
  destruct (Blockwise.md_pad_with_length _ _ _) as [b [l|]]; cbn [or_panic mbind result_bind]; [|done].
  by intros [= <-].
Qed.

(** The input of a check is the one made from its parts. *)
Lemma from_certificates_new `{Webpki} {E} (certs : list (list byte)) input :
  from_certificates certs = Ok input →
  input_new (E := E) (cert_serial input) (issuer_spki_hash input) (sct_timestamps input) = Ok input.
Proof.
  assert (∀ serial issuer scts, input_new (E := Error) serial issuer scts = Ok input →
            input_new (E := E) (cert_serial input) (issuer_spki_hash input) (sct_timestamps input)
            = Ok input) as Hn.
  { intros serial issuer scts. unfold input_new. rewrite result_bind_ok.
    intros (d & Hd & [= <-]). cbn. by rewrite (finish_any _ _ Hd). }
  destruct certs as [|ee rest]; [done|]. unfold from_certificates.
  rewrite result_bind_ok. intros (cert & _ & Hin). rewrite result_bind_ok in Hin.
  destruct Hin as (ta & _ & Hin). rewrite result_bind_ok in Hin. destruct Hin as (d & _ & Hin).
  rewrite result_bind_ok in Hin. destruct Hin as (iter & _ & Hin).
  rewrite result_bind_ok in Hin. destruct Hin as (scts & _ & Hin). by eapply Hn.
Qed.

Section Agreement.
Context `{Webpki} `{WebpkiVerify} `{Clubcard} `{Directories} `{Toml}
  (platform : Platform) (index : option Z) (debug_path : string → string).

(** A chain that all four look at: [webpki] verifies it for the rustls verifier, by the
    issuer, the serial and the SCTs that the others read from it; and an OpenSSL store
    context at the leaf has its certificates. *)
Record same_chain (self : ServerVerifier) (config : Config) (certs : list (list byte))
    (input : RevocationCheckInput) (server_name : ServerName) (now : Z)
    (x : StoreCtx) (p : positive) : Prop := {
  sc_input : from_certificates certs = Ok input;
  sc_scts : sct_timestamps input ≠ [];
  sc_path : ∃ ee rest path, certs = ee :: rest
    ∧ chain_verified self ee rest server_name now path
    ∧ path_serial path = cert_serial input
    ∧ hash_fn (RustlsUpki.sha256 self) (issuer_spki path) = issuer_spki_hash input
    ∧ length (issuer_spki_hash input) = 32%nat
    ∧ has_scts path (sct_timestamps input);
  sc_config : RustlsUpki.config self = config;
  sc_depth : error_depth x = 0;
  sc_certs : ∃ stack, chain x = Some stack ∧ copy_certs stack = Some certs;
  sc_slot : upki_config_from_ssl_ctx index x = Some p }.

(** What the index says of an input. *)
Definition index_answer (fs : Fs) (config : Config) (input : RevocationCheckInput)
  : Result Error RevocationStatus :=
  index ← from_cache fs config; (check fs input index).2.

Lemma cli_answer fs config certs input :
  from_certificates certs = Ok input →
  exit_status (revocation_check fs config (inr <$> certs))
  = match index_answer fs config input with
    | Ok CertainlyRevoked => 2 | Ok _ => 0 | Err _ => 1 | Panic => 101 end.
Proof.
  intros Hin. unfold revocation_check, index_answer.
  rewrite (proj2 (read_certs_ok _ [] certs)) by (by exists certs). cbn [mbind result_bind].
  rewrite Hin. cbn [map_err mbind result_bind].
  destruct (from_cache fs config) as [i|e|]; cbn [map_err mbind result_bind]; [|done..].
  by destruct (check fs input i).2 as [[]|e|].
Qed.

Lemma ffi_answer fs config certs input :
  from_certificates certs = Ok input →
  catch_unwind (check_certificates fs config certs)
  = match index_answer fs config input with
    | Ok s => status_result s | Err e => from_error (LibError.Revocation e)
    | Panic => UPKI_ERR_PANICKED end.
Proof.
  intros Hin. unfold check_certificates, index_answer. rewrite Hin. cbn [map_err mbind result_bind].
  destruct (from_cache fs config) as [i|e|]; cbn [map_err mbind result_bind]; [|done..].
  by destruct (check fs input i).2 as [s|e|].
Qed.

Lemma rustls_answer self fs config ee rest input server_name now path :
  chain_verified self ee rest server_name now path →
  path_serial path = cert_serial input →
  hash_fn (RustlsUpki.sha256 self) (issuer_spki path) = issuer_spki_hash input →
  length (issuer_spki_hash input) = 32%nat → has_scts path (sct_timestamps input) →
  sct_timestamps input ≠ [] → from_certificates (ee :: rest) = Ok input →
  RustlsUpki.config self = config →
  verify_server_cert debug_path self fs ee rest server_name now
  = match index_answer fs config input with
    | Ok NotRevoked => Ok tt
    | Ok NotCoveredByRevocationData => _ ← as_result (cert_not_covered (policy self)); Ok tt
    | Ok CertainlyRevoked => Err (InvalidCertificate CertificateError.Revoked)
    | Err e => Err (General (error_display debug_path e))
    | Panic => Panic
    end.
Proof.
  intros Hc Hser Hspki Hlen Hs Hne Hin <-. rewrite (verify_chain _ _ _ _ _ _ _ _ Hc).
  rewrite (check_status_scts _ _ _ _ (sct_timestamps input) (index_answer fs (RustlsUpki.config self) input));
    [|by rewrite Hspki|done|done|].
  - by destruct (index_answer _ _ _) as [[]|e|].
  - exists input. split; [|done]. rewrite Hser, Hspki. by eapply from_certificates_new.
Qed.

(** C9: The four ways to ask about a chain agree, whatever is in the cache: the command exits
    with 2, the C interface answers [UPKI_REVOCATION_REVOKED], the rustls verifier refuses
    the certificate as revoked, and the OpenSSL callback sets
    [X509_V_ERR_CERT_REVOKED] and returns 0, or none of them does; and all of them accept
    the chain or none does. *)
Theorem four_ways_agree fs self config certs input server_name now x p heap ok :
  same_chain self config certs input server_name now x p →
  cert_not_covered (policy self) = Allowed → heap !! p = Some config → ok ≠ 0 →
  let cli := exit_status (revocation_check fs config (inr <$> certs)) in
  let tls := verify_server_cert debug_path self fs (default [] (head certs)) (tail certs)
               server_name now in
  ∃ ffi x' r,
    upki_check_revocation heap fs (Some p) (Some certs) = Some ffi
    ∧ upki_openssl_verify_callback platform index fs ok (Some x) heap = Some (heap, Some x', r)
    ∧ (cli = 2 ↔ ffi = UPKI_REVOCATION_REVOKED)
    ∧ (cli = 2 ↔ tls = Err (InvalidCertificate CertificateError.Revoked))
    ∧ (cli = 2 ↔ r = 0 ∧ x' = set_error X509_V_ERR_CERT_REVOKED x)
    ∧ (cli = 0 ↔ ffi = UPKI_REVOCATION_NOT_REVOKED ∨ ffi = UPKI_REVOCATION_NOT_COVERED)
    ∧ (cli = 0 ↔ tls = Ok tt) ∧ (cli = 0 ↔ r = ok).
Proof.
  intros [Hin Hne (ee & rest & path & -> & Hc & Hser & Hspki & Hlen & Hs) Hcfg Hd (stack & Hch & Hcp) Hx]
    Hnc Hp Hok cli tls.
  assert (cli = _) as -> by (subst cli; by apply (cli_answer _ _ _ _ Hin)).
  assert (tls = _) as -> by (subst tls; by eapply rustls_answer).
  assert (∀ e : Error, from_error (LibError.Revocation e) ≠ UPKI_REVOCATION_REVOKED
            ∧ from_error (LibError.Revocation e) ≠ UPKI_REVOCATION_NOT_REVOKED
            ∧ from_error (LibError.Revocation e) ≠ UPKI_REVOCATION_NOT_COVERED) as He
    by by intros [].
  assert (set_error X509_V_ERR_APPLICATION_VERIFICATION x ≠ set_error X509_V_ERR_CERT_REVOKED x)
    as Herr by (intros [=]).
  rewrite (callback_leaf platform index fs ok x heap p config stack ee rest) by done.
  unfold upki_check_revocation. rewrite Hp. cbn [mbind option_bind].
  rewrite (ffi_answer _ _ _ _ Hin), Hnc.
  destruct (index_answer fs config input) as [[]|e|].
  - eexists _, _, _. split; [reflexivity|]. split; [reflexivity|]. cbn. intuition congruence.
  - eexists _, _, _. split; [reflexivity|]. split; [reflexivity|]. cbn. intuition congruence.
  - eexists _, _, _. split; [reflexivity|]. split; [reflexivity|]. cbn. intuition congruence.
  - destruct (He e) as (H1' & H2' & H3'). exists (from_error (LibError.Revocation e)).
    exists (set_error X509_V_ERR_APPLICATION_VERIFICATION x), 0.
    split; [reflexivity|]. split; [by destruct (from_error _)|].
    intuition congruence.
  - eexists _, _, _. split; [reflexivity|]. split; [reflexivity|]. cbn. intuition congruence.
Qed.
End Agreement.

(** ** An instance: a revoked certificate and its issuer *)

Section Instances.
#[local] Existing Instance demo_clubcard.
#[local] Existing Instance demo_directories.
#[local] Existing Instance demo_toml.
#[local] Existing Instance demo_cli_webpki.

(** The rustls side of [demo_cli_webpki]: the first intermediate is the issuer. *)
Definition agree_verify : WebpkiVerify := {|
  VCert := list byte;
  VerifiedPath := list byte * list byte;
  Roots := unit;
  Algorithms := unit;
  ServerName := string;
  cert_try_from := inr;
  verify_for_usage ee _ _ rest _ :=
    match rest with issuer :: _ => inr (ee, issuer) | [] => inl WebpkiError.UnknownIssuer end;
  verify_is_valid_for_subject_name _ _ := inr tt;
  issuer_spki path := slice path.2 3 4;
  path_serial path := slice path.1 2 3;
  path_scts _ := inr [inr (demo_log x01, 17)];
  CLIENT_AUTH_REPR := [2];
  SERVER_AUTH_REPR := [1];
  DigitallySignedStruct := unit;
  crypto_verify_tls12_signature _ _ _ _ := inr tt;
  crypto_verify_tls13_signature _ _ _ _ := inr tt;
  supported_schemes _ := []
|}.
#[local] Existing Instance agree_verify.

Definition agree_verifier : ServerVerifier :=
  mkVerifier (mkProvider [] tt) (mkHash SHA256 Fips.sha256) tt demo_config default_policy.
Definition agree_certs : list (list byte) := [[x01; x02; x07; x04]; [x02; x00; x00; x09]].
Definition agree_ctx : StoreCtx :=
  mkStoreCtx 0 (Some (mkStack 2 ((λ c, Some (mkX509 4 (Some c))) <$> agree_certs))) None
             (Some (Some (Some 1%positive))).
Definition agree_input : RevocationCheckInput := Eval vm_compute in
  match from_certificates agree_certs with Ok i => i | _ => demo_input x00 x00 0 end.

Lemma four_ways_agree_witness :
  exit_status (revocation_check demo_index_fs demo_config (inr <$> agree_certs)) = 2
  ∧ verify_server_cert id agree_verifier demo_index_fs [x01; x02; x07; x04] [[x02; x00; x00; x09]]
      "example.com" 0 = Err (InvalidCertificate CertificateError.Revoked).
Proof.
  assert (exit_status (revocation_check demo_index_fs demo_config (inr <$> agree_certs)) = 2)
    as Hcli by by_vm.
  split; [exact Hcli|].
  destruct (four_ways_agree Unix (Some 0) id demo_index_fs agree_verifier demo_config agree_certs
              agree_input "example.com" 0 agree_ctx 1%positive demo_heap 1)
    as (ffi & x' & r & _ & _ & _ & Htls & _).
  - split.
    + by_vm.
    + discriminate.
    + eexists _, _, _. split; [reflexivity|]. split; [eexists; by repeat split|].
      split; [by vm_compute|]. split; [by vm_compute|]. by split.
    + reflexivity.
    + reflexivity.
    + eexists. split; [reflexivity|by vm_compute].
    + reflexivity.
  - reflexivity.
  - by vm_compute.
  - discriminate.
  - apply Htls, Hcli.
Defined.
End Instances.
